(* ===== verification/_CoqProject ===== *)
-Q . S2P
Prelude.v
PyStr.v
Sha256.v
Graphlib.v
PyJson.v
Schema.v
Registry.v
Builder.v
BuildOrder.v
BuildTags.v
BuildConfig.v
DockerImage.v
BuildMain.v
Samples.v
BuildTheorems.v
Regex.v
ImagePattern.v
Cleanup.v
CleanupTheorems.v
Mounts.v
MountTheorems.v
ProjectRoot.v
PyInt.v
PyFloat.v
FloatDiv.v
Unicode.v
Coverage.v
CoverageTheorems.v
EzSdk.v
EzSdkTheorems.v
Events.v
Timestamps.v
EventTheorems.v
Shell.v
DockerRun.v
DockerRunTheorems.v
Bep.v
Bootstrap.v
BootstrapTheorems.v
Argparse.v
ArgparseTheorems.v
CommandLines.v
CommandLineTheorems.v
