(* ===== verification/Prelude.v ===== *)
(** * Verification of the devkit scripts and of the EZ SDK plugin

    The repository's own Python code is the devkit under [src/.devkit/scripts/],
    which builds the development containers, runs them and cleans up after
    them, and the protoc plugin [src/tools/plugin/ez_sdk.py].  This library
    models that code as Rocq functions and proves what it promises.  Every
    definition that stands for code keeps the name it has in the source.

    ** The parts and the files that model them

    - [docker/build.py] gives every image a tag that is the hash of its
      Dockerfile and of all it is built from, and builds, pulls or pushes what
      is missing.  [Schema] holds the configuration schema and its validator
      [validate_config]; [Registry] the registry section of [devkit.json];
      [Builder] the class [DockerBuilder] (the attributes are the record
      [builder], the table [generated_tags] the state of the tag calculation);
      [DockerImage] the docker commands; [BuildMain] the loop [build_images] and
      [main] over both states.  [BuildOrder], [BuildTags] and [BuildConfig] hold
      the lemmas, [BuildTheorems] the results.
    - [docker_cleanup.py] removes old images in a background thread.
      [ImagePattern] holds its regular expression, [Cleanup] the selection and
      the removal loop with its cancel event, [CleanupTheorems] the results.
      It calls [get_image_prefix] and [get_all_docker_image_tags] of the build,
      and the theorems relate the two.
    - [list_external_mounts.py] finds the directories outside the project that
      its links lead to, and minimizes the set of mounts: [Mounts],
      [MountTheorems].  [find_project_root.py]: [ProjectRoot].
    - [docker_run.py] assembles and runs the [docker run] command and owns the two
      background threads: [DockerRun], [DockerRunTheorems], with [Shell] for [shlex]
      and [os.path.expandvars].  It calls [get_minimal_mounts], [find_project_root]
      and [start_container_event_handler].
    - [container_event_handler.py] listens for events of the container: [Events]
      (the handling of an event, and listener and canceller as a transition system),
      [Timestamps] (its dates), [EventTheorems].
    - [bep.py] runs bazel for a list of targets: [Bep].
    - [bootstrap.py] instantiates a directory of templates: [Bootstrap],
      [BootstrapTheorems].
    - [coverage_report.py] runs bazel, reads LCOV data and checks thresholds:
      [Coverage], [CoverageTheorems].
    - [tools/plugin/ez_sdk.py] renders a template from protobuf descriptors:
      [EzSdk], [EzSdkTheorems].
    - The command lines of the seven scripts are parsed by [argparse]: [Argparse] is
      its parser as of Python 3.12, the version the scripts are run with
      ([scripts/uv]), [ArgparseTheorems] its lemmas; [CommandLines] holds the parser
      each script builds ([build_parser], [run_parser], ...), the attributes it reads
      ([build_arguments], ...) and its run from the command line on ([build_cli],
      ...), which calls the [main] of the other files; [CommandLineTheorems] the results.

    What the code uses of Python and its libraries is modelled in this file
    (exceptions, state, traces, dictionaries), [PyStr], [PyInt] and [PyFloat] ([str],
    [int], [float], [os.path]), [Unicode] (UTF-8 and text beyond Latin-1), [PyJson]
    (values of [json.load]), [Graphlib] ([graphlib.TopologicalSorter]), [Sha256]
    ([hashlib.sha256], with the FIPS vectors) and [Regex] ([re]).  [FloatDiv] shows that
    the division of [PyFloat] rounds correctly, so that a percentage compares with a
    whole threshold as the exact quotient does.

    ** How code becomes definitions

    A function that may raise returns [res]; a method that changes an object or
    the outside world is a function of the state monad [ST], whose state
    survives an exception as a Python object does.  [sys.exit] is the exception
    [SystemExit], which an [except Exception] clause lets pass.  A dictionary is
    an association list in insertion order, a set is a [gset], and the order in
    which Python enumerates a set is the parameter [SetOrder], so that every
    theorem holds for all such orders.

    Where the order of effects matters, the state is their trace: [DockerRun], [Bep]
    and the [main] of [Coverage].  The two threads of the event handler are a
    transition system: [listener_step] and [cancel_step] are the atomic operations
    of each thread, the [input] of a step is what the operating system and the
    clients do, and the theorems range over all interleavings.

    What lies outside is a parameter with the laws that are relied on as a
    class: the file system ([FileSystem], and [MountFS] with links), the docker
    command line ([Docker], [CleanupEnv], without any law: the theorems speak of the
    commands a run issues and of what docker answers), the hash ([Hash]), the host of a script ([RunHost], [BepHost], [BootHost], [CovHost]), the
    log file ([LogHost]),
    Jinja2 and the protobuf messages ([TemplateEngine], [Protos] and the arguments
    of [generate_code]).  [Samples] and the witnesses beside the theorems
    instantiate them: each theorem with hypotheses is applied to a concrete run.

    ** What the theorems show

    - Build: the order is topological, complete and fails exactly on cycles; the
      tag calculation is total on readable projects and independent of targets,
      set order and the order of dependencies; when a run of [main] succeeds, docker
      has reported for every wanted image that it has it under its tag (the lookup, the
      pull or the build succeeded), and every build of a run, however it ends, comes
      after such reports about all its dependencies, whose tags are its build
      arguments; with [--print-tag] it prints the tag and nothing else; local builds
      never contact the registry; a valid configuration is loaded as it is written and every
      invalid one ends in exit code 1.
    - Cleanup: the pattern is the format of the tags the build makes; only
      listed images with an allowed name that the sources do not need are
      selected, and removed in order up to a cancellation; as long as the tags of the
      sources can be calculated, a cleanup never asks docker to remove one of them
      ([needed_images_not_removed]).  The protection fails open when they cannot
      ([cleanup_fails_open]).
    - Mounts: the scan terminates and finds exactly the external targets, described by
      the entries of the trees (without [.venv]) and the hops of their links, or fails
      with an error of looking at one of them; the minimal mounts cover all of them,
      none inside another.
    - Container: however it ends, both threads are cancelled and joined and the exit
      code is passed on; everything wanted is mounted, and what lies in the home moves
      with the home; the command is options, terminal flags, the arguments of
      [devkit.json], of the environment and of the command line, in this order; the
      logged command line is the command.
    - Events: a cancellation is never lost in any interleaving; the log holds the
      records of every event, and at most one error at its end; the event of the entrypoint is logged exactly; the
      handling of an event raises only for times beyond the range of [gmtime], which
      stops the listener ([huge_timestamp_stops_listener]).
    - Build events: one command per target in order, up to the first failure; success
      is reported exactly when all commands succeeded; temporary directories are removed; output files of different targets can
      coincide ([same_output_file]).
    - Bootstrap: every template is instantiated with its mode; templates that Jinja2
      cannot parse or render are reported and do not stop the others, any other exception
      does; nothing else is touched.
    - Coverage: LCOV records are read back whatever other lines stand within and
      around them, line numbers are reported readably, the verdict and the exit code are the
      comparison of every file with the thresholds, exact for whole percentages
      ([coverage_gate_exact]).
    - Plugin: options are read back, the response is an error or one file made
      from exactly the requested files and registered services, and the filters
      do what their names say.
    - Command lines: parsing ends in attributes of the declared types or in exit
      code 0 or 2; the command line that [build_and_run] makes for the build, a string
      the shell splits at blanks, is read back and prints the tag of the image; [docker_run.py] takes exactly
      [--devkit-log-file] and its abbreviations out of its command line and the
      container gets the others untouched and in order; an abbreviation that was
      meant for the container is taken too ([abbreviation_swallowed]).

    ** Bounds

    The recursion of [calculate_tag_for_image] takes the number of frames left
    as its fuel; [calculate_tags_total] shows that two are enough in build order.
    The traversal [visit] runs for [visit_fuel] steps, more than it can take.
    The three loops of the mount scan are bounded by the depth of the directory
    tree, the length of link chains and the number of link targets, which are
    finite by the laws of [MountFS]; [os_walk_spec] shows that the walk reaches every
    entry of the tree, and [external_mounts_correct] that the fuel of the other two is never
    used up.  [expandvars] takes the length of its text.  A [str] is
    limited to the code points U+0000 to U+00FF, except in [Unicode] and the files
    that use it.  Integers are unbounded as in Python (its limit on the number of
    digits of a conversion is not modelled); floats are IEEE binary64.  After a
    cancellation the listener takes at most four steps.

    ** What is not modelled

    Log messages (but for those of the event handler and the command line of
    [docker_run.py]), progress on standard error, the texts of help and usage and
    how long the cleanup waits (the waits are the points at which it looks at its
    cancel event).  [Argparse] has what the scripts use: options with one or two
    dashes, their abbreviations, one positional, the conversions [str], [int],
    [float] and [Path]; no groups, subcommands or files of arguments.  A dependency
    in [deps.json] that is not a string is rejected when the graph is built, as its
    declared type says.  The file system does not change during a run but for what
    the script writes, a docker program that is found can be started, and its output
    can be decoded.  [Path.resolve] does not raise.  The quotient of two integers too large for
    a [float], an [OverflowError] in Python, is an infinity in [PyFloat]; the theorems about
    quotients bound their integers.  The words of [build_and_run] undergo no pathname
    expansion.  Ctrl-C is modelled while the container runs. *)

From stdpp Require Import base list strings sorting gmap.

(** ** Exceptions and results *)

(** The exceptions the modelled scripts raise or catch.  [SystemExit] and
    [KeyboardInterrupt] derive from [BaseException] only: an
    [except Exception] clause does not catch them. *)
Inductive exn :=
  | SystemExit (code : Z)
  | KeyboardInterrupt
  | ValueError (msg : string)
  | JSONDecodeError
  | CycleError
  | KeyError (key : string)
  | IndexError
  | TypeError
  | AttributeError
  | RecursionError
  | FileNotFoundError
  | OSError
  | OverflowError
  | UnicodeDecodeError
  | CalledProcessError (returncode : Z).

#[export] Instance exn_eq_dec : EqDecision exn.
Proof. solve_decision. Defined.

(** [except Exception] *)
Definition is_Exception (e : exn) : bool :=
  match e with SystemExit _ | KeyboardInterrupt => false | _ => true end.

(** [except ValueError]: [json.JSONDecodeError], [graphlib.CycleError] and
    [UnicodeDecodeError] are subclasses of it. *)
Definition is_ValueError (e : exn) : bool :=
  match e with
  | ValueError _ | JSONDecodeError | CycleError | UnicodeDecodeError => true
  | _ => false
  end.

(** [except OSError] *)
Definition is_OSError (e : exn) : bool :=
  match e with OSError | FileNotFoundError => true | _ => false end.

Inductive res (A : Type) :=
  | Ret (a : A)
  | Raise (e : exn).
Arguments Ret {A} a.
Arguments Raise {A} e.

#[export] Instance res_ret : MRet res := @Ret.
#[export] Instance res_bind : MBind res := λ A B f r,
  match r with Ret a => f a | Raise e => Raise e end.

Lemma bind_Ret {A B} (m : res A) (f : A → res B) b :
  m ≫= f = Ret b ↔ ∃ a, m = Ret a ∧ f a = Ret b.
Proof. destruct m; simpl; naive_solver. Qed.

Lemma bind_Raise {A B} (m : res A) (f : A → res B) e :
  m ≫= f = Raise e ↔ m = Raise e ∨ ∃ a, m = Ret a ∧ f a = Raise e.
Proof. destruct m; simpl; naive_solver. Qed.

(** [try: r  except (handled) as e: h(e)] *)
Definition try_except {A} (handled : exn → bool) (r : res A) (h : exn → res A) : res A :=
  match r with
  | Ret a => Ret a
  | Raise e => if handled e then h e else Raise e
  end.

(** A [for] loop whose body may raise. *)
Fixpoint for_each {A S} (l : list A) (body : A → S → res S) (s : S) : res S :=
  match l with
  | [] => Ret s
  | x :: l => s' ← body x s; for_each l body s'
  end.

Lemma for_each_app {A S} (l1 l2 : list A) (body : A → S → res S) s :
  for_each (l1 ++ l2) body s = (s' ← for_each l1 body s; for_each l2 body s').
Proof.
  revert s. induction l1 as [|x l1 IH]; intros s; [done|]. simpl.
  destruct (body x s); simpl; [apply IH|done].
Qed.

Fixpoint map_res {A B} (f : A → res B) (l : list A) : res (list B) :=
  match l with
  | [] => Ret []
  | x :: l => y ← f x; ys ← map_res f l; Ret (y :: ys)
  end.

Lemma map_res_Raise {A B} (f : A → res B) l e :
  map_res f l = Raise e → ∃ x, x ∈ l ∧ f x = Raise e.
Proof.
  induction l as [|x l IH]; simpl; [done|].
  destruct (f x) as [y|e'] eqn:Hx; simpl; [|intros [= <-]; exists x; split; [left|done]].
  destruct (map_res f l); simpl; [done|]. intros [= ->].
  destruct IH as (z & ? & ?); [done|]. exists z. split; [by right|done].
Qed.

(** A [for] loop that only checks: the first exception ends it. *)
Definition check_all {A} (f : A → res unit) : list A → res unit :=
  fix go l :=
    match l with
    | [] => Ret tt
    | x :: l => _ ← f x; go l
    end.

Lemma check_all_ok {A} (f : A → res unit) l :
  check_all f l = Ret tt ↔ ∀ x, x ∈ l → f x = Ret tt.
Proof.
  induction l as [|x l IH]; simpl; [set_solver|].
  destruct (f x) as [[]|e] eqn:Hx; simpl.
  - rewrite IH. setoid_rewrite elem_of_cons. naive_solver.
  - split; [done|]. intros Hf. specialize (Hf x). rewrite Hx in Hf. set_solver.
Qed.

Lemma check_all_raise {A} (f : A → res unit) l e :
  check_all f l = Raise e → ∃ x, x ∈ l ∧ f x = Raise e.
Proof.
  induction l as [|x l IH]; simpl; [done|].
  destruct (f x) as [[]|e'] eqn:Hx; simpl; intros H; simplify_eq; set_solver.
Qed.

(** ** State passing: the state survives an exception, as a Python object does. *)
Definition ST (S A : Type) : Type := S → res A * S.

#[export] Instance ST_ret {S} : MRet (ST S) := λ A a s, (Ret a, s).
#[export] Instance ST_bind {S} : MBind (ST S) := λ A B f m s,
  match m s with
  | (Ret a, s') => f a s'
  | (Raise e, s') => (Raise e, s')
  end.

Definition raise {S A} (e : exn) : ST S A := λ s, (Raise e, s).
Definition sys_exit {S A} (code : Z) : ST S A := raise (SystemExit code).
Definition get {S} : ST S S := λ s, (Ret s, s).
Definition put {S} (s : S) : ST S unit := λ _, (Ret tt, s).
Definition modify {S} (f : S → S) : ST S unit := λ s, (Ret tt, f s).
Definition lift {S A} (r : res A) : ST S A := λ s, (r, s).

Definition try_catch {S A} (handled : exn → bool) (m : ST S A) (h : exn → ST S A) : ST S A :=
  λ s, match m s with
       | (Ret a, s') => (Ret a, s')
       | (Raise e, s') => if handled e then h e s' else (Raise e, s')
       end.

Fixpoint mapM_ {S A} (f : A → ST S unit) (l : list A) : ST S unit :=
  match l with
  | [] => mret tt
  | x :: l => f x ≫= λ _, mapM_ f l
  end.

Fixpoint mapM {S A B} (f : A → ST S B) (l : list A) : ST S (list B) :=
  match l with
  | [] => mret []
  | x :: l => y ← f x; ys ← mapM f l; mret (y :: ys)
  end.

Lemma ST_bind_Ret {S A B} (m : ST S A) (f : A → ST S B) s b s' :
  (m ≫= f) s = (Ret b, s') ↔ ∃ a s1, m s = (Ret a, s1) ∧ f a s1 = (Ret b, s').
Proof.
  unfold mbind, ST_bind. destruct (m s) as [[a|e] s1]; split; naive_solver.
Qed.

Lemma ST_bind_inv {S A B} (m : ST S A) (f : A → ST S B) s r s' :
  (m ≫= f) s = (r, s') →
  (∃ e, m s = (Raise e, s') ∧ r = Raise e) ∨ ∃ a s1, m s = (Ret a, s1) ∧ f a s1 = (r, s').
Proof. unfold mbind, ST_bind. destruct (m s) as [[a|e] s1]; naive_solver. Qed.

Lemma mapM_state {S A B} (f : A → ST S B) l s r s' :
  (∀ x s r s', f x s = (r, s') → s' = s) → mapM f l s = (r, s') → s' = s.
Proof.
  intros Hf. revert r s'. induction l as [|x l IH]; intros r s'; [by intros [= _ <-]|].
  intros [(e & Hx & _)|(a & s1 & Hx & Hr)]%ST_bind_inv; [by eapply Hf|].
  apply Hf in Hx as ->. apply ST_bind_inv in Hr as [(e & Hl & _)|(k & s2 & Hl & [= _ <-])]; by eapply IH.
Qed.

Lemma ST_bind_Raise {S A B} (m : ST S A) (f : A → ST S B) s e s' :
  (m ≫= f) s = (Raise e, s') ↔
  m s = (Raise e, s') ∨ ∃ a s1, m s = (Ret a, s1) ∧ f a s1 = (Raise e, s').
Proof.
  unfold mbind, ST_bind. destruct (m s) as [[a|e'] s1]; split; naive_solver.
Qed.

Lemma mapM_app_Ret {S A} (f : A → ST S unit) l1 l2 s u s' :
  mapM_ f (l1 ++ l2) s = (Ret u, s') →
  ∃ s1, mapM_ f l1 s = (Ret tt, s1) ∧ mapM_ f l2 s1 = (Ret u, s').
Proof.
  revert s. induction l1 as [|x l1 IH]; intros s; simpl; [by exists s|].
  intros ([] & s1 & Hx & (s2 & Hl1 & Hl2)%IH)%ST_bind_Ret. exists s2. split; [|done].
  apply ST_bind_Ret. by exists tt, s1.
Qed.

Lemma try_catch_Ret {S A} h (m : ST S A) (f : exn → ST S A) s a s' :
  try_catch h m f s = (Ret a, s') ↔
  m s = (Ret a, s') ∨ ∃ e s1, m s = (Raise e, s1) ∧ h e = true ∧ f e s1 = (Ret a, s').
Proof.
  unfold try_catch. split.
  - destruct (m s) as [[?|e] s1]; [by left|]. destruct (h e) eqn:?; [|done]. right. by exists e, s1.
  - by intros [-> | (e & s1 & -> & -> & ->)].
Qed.

Lemma try_catch_Raise {S A} h (m : ST S A) (f : exn → ST S A) s e s' :
  try_catch h m f s = (Raise e, s') ↔
  (m s = (Raise e, s') ∧ h e = false) ∨
  ∃ e1 s1, m s = (Raise e1, s1) ∧ h e1 = true ∧ f e1 s1 = (Raise e, s').
Proof.
  unfold try_catch. split.
  - destruct (m s) as [[?|e1] s1]; [done|]. destruct (h e1) eqn:?.
    + right. by exists e1, s1.
    + intros [= <- <-]. by left.
  - by intros [[-> ->]|(e1 & s1 & -> & -> & ->)].
Qed.

(** The exceptions a computation can end with. *)
Definition raises_in {S A} (P : exn → Prop) (m : ST S A) : Prop :=
  ∀ s e s', m s = (Raise e, s') → P e.

Lemma raises_ret {S A} P (a : A) : raises_in (S := S) P (mret a).
Proof. by intros ???. Qed.
Lemma raises_raise {S A} (P : exn → Prop) e : P e → raises_in (S := S) (A := A) P (raise e).
Proof. by intros ???? [= <- <-]. Qed.
Lemma raises_lift {S A} (P : exn → Prop) (r : res A) :
  (∀ e, r = Raise e → P e) → raises_in (S := S) P (lift r).
Proof. intros Hr ??? [= -> <-]. auto. Qed.
Lemma raises_modify {S} P (f : S → S) : raises_in P (modify f).
Proof. by intros ???. Qed.
Lemma raises_get {S} P : raises_in P (@get S).
Proof. by intros ???. Qed.
Lemma raises_bind {S A B} P (m : ST S A) (f : A → ST S B) :
  raises_in P m → (∀ a, raises_in P (f a)) → raises_in P (m ≫= f).
Proof. intros Hm Hf s e s' [?|(a & s1 & ? & ?)]%ST_bind_Raise; [by eapply Hm|by eapply Hf]. Qed.
Lemma raises_catch {S A} (P Q : exn → Prop) h (m : ST S A) (f : exn → ST S A) :
  raises_in Q m → (∀ e, Q e → h e = false → P e) →
  (∀ e, Q e → h e = true → raises_in P (f e)) → raises_in P (try_catch h m f).
Proof.
  intros Hm Hn Hf s e s' [[? ?]|(e1 & s1 & ? & ? & ?)]%try_catch_Raise.
  - eapply Hn; [by eapply Hm|done].
  - eapply (Hf e1); [by eapply Hm|done..].
Qed.
Lemma raises_mapM_ {S A} P (f : A → ST S unit) l :
  (∀ x, x ∈ l → raises_in P (f x)) → raises_in P (mapM_ f l).
Proof.
  induction l as [|x l IH]; intros Hf; [apply raises_ret|].
  apply raises_bind; [apply Hf; left|]. intros _. apply IH. intros y ?. apply Hf. by right.
Qed.

(** Reduces a goal about raised exceptions to the places that raise them. *)
Ltac solve_raises :=
  repeat lazymatch goal with
    | |- raises_in _ (mret _) => apply raises_ret
    | |- raises_in _ (raise _) => apply raises_raise
    | |- raises_in _ (sys_exit _) => apply raises_raise
    | |- raises_in _ (lift _) => apply raises_lift
    | |- raises_in _ (modify _) => apply raises_modify
    | |- raises_in _ get => apply raises_get
    | |- raises_in _ (mbind _ _) => apply raises_bind; [|intros ?]
    | |- raises_in _ (match ?x with _ => _ end) => destruct x
    end.

(** [try: m  finally: f] *)
Definition try_finally {S A} (m : ST S A) (f : ST S unit) : ST S A := λ s,
  let '(r, s1) := m s in
  match f s1 with
  | (Ret _, s2) => (r, s2)
  | (Raise e, s2) => (Raise e, s2)
  end.

(** ** Traces *)

(** A computation whose state is a trace, which it extends by effects of a kind. *)
Definition adds {E A} (P : E → Prop) (m : ST (list E) A) : Prop :=
  ∀ tr r tr', m tr = (r, tr') → ∃ l, tr' = tr ++ l ∧ Forall P l.

Section adds.
Context {E : Type} (P : E → Prop).

Lemma adds_same {A} (r : res A) : adds P (λ tr, (r, tr)).
Proof. intros tr r' tr' [= <- <-]. exists []. by rewrite app_nil_r. Qed.
Lemma adds_ret {A} (a : A) : adds P (mret a).
Proof. apply adds_same. Qed.
Lemma adds_raise {A} e : adds P (raise (A := A) e).
Proof. apply adds_same. Qed.
Lemma adds_lift {A} (r : res A) : adds P (lift r).
Proof. apply adds_same. Qed.
Lemma adds_one e : P e → adds P (modify (λ tr, tr ++ [e])).
Proof. intros He tr r tr' [= <- <-]. exists [e]. auto. Qed.
Lemma adds_bind {A B} (m : ST (list E) A) (f : A → ST (list E) B) :
  adds P m → (∀ a, adds P (f a)) → adds P (m ≫= f).
Proof.
  intros Hm Hf tr r tr'. unfold mbind, ST_bind. destruct (m tr) as [[a|e] tr1] eqn:Ha.
  - intros Hfa. destruct (Hm _ _ _ Ha) as (l1 & -> & H1). destruct (Hf a _ _ _ Hfa) as (l2 & -> & H2).
    exists (l1 ++ l2). rewrite (assoc_L (++)). split; [done|]. by apply Forall_app.
  - intros [= <- <-]. eauto.
Qed.
Lemma adds_catch {A} h (m : ST (list E) A) (f : exn → ST (list E) A) :
  adds P m → (∀ e, adds P (f e)) → adds P (try_catch h m f).
Proof.
  intros Hm Hf tr r tr'. unfold try_catch. destruct (m tr) as [[a|e] tr1] eqn:Ha; [naive_solver|].
  destruct (h e); [|naive_solver]. intros Hfe.
  destruct (Hm _ _ _ Ha) as (l1 & -> & H1). destruct (Hf e _ _ _ Hfe) as (l2 & -> & H2).
  exists (l1 ++ l2). rewrite (assoc_L (++)). split; [done|]. by apply Forall_app.
Qed.
Lemma adds_get : adds P (@get (list E)).
Proof. intros tr r tr' [= <- <-]. exists []. by rewrite app_nil_r. Qed.
Lemma adds_finally {A} (m : ST (list E) A) f : adds P m → adds P f → adds P (try_finally m f).
Proof.
  intros Hm Hf tr r tr'. unfold try_finally. destruct (m tr) as [r1 tr1] eqn:Ha.
  destruct (f tr1) as [r2 tr2] eqn:Hb. intros Heq. assert (tr' = tr2) as -> by (destruct r2; congruence).
  destruct (Hm _ _ _ Ha) as (l1 & -> & H1). destruct (Hf _ _ _ Hb) as (l2 & -> & H2).
  exists (l1 ++ l2). rewrite (assoc_L (++)). split; [done|]. by apply Forall_app.
Qed.
Lemma adds_mapM_ {A} (f : A → ST (list E) unit) l : (∀ x, adds P (f x)) → adds P (mapM_ f l).
Proof.
  intros Hf. induction l as [|x l IH]; [apply adds_ret|]. apply adds_bind; [done|]. by intros _.
Qed.
Lemma adds_mapM {A B} (f : A → ST (list E) B) l : (∀ x, adds P (f x)) → adds P (mapM f l).
Proof.
  intros Hf. induction l as [|x l IH]; [apply adds_ret|].
  apply adds_bind; [done|]. intros y. apply adds_bind; [done|]. intros ys. apply adds_ret.
Qed.
End adds.

(** Reduces a goal about added effects to the places that add them. *)
Ltac solve_adds :=
  repeat lazymatch goal with
    | |- adds _ (mret _) => apply adds_ret
    | |- adds _ (raise _) => apply adds_raise
    | |- adds _ (sys_exit _) => apply adds_raise
    | |- adds _ (lift _) => apply adds_lift
    | |- adds _ (modify _) => apply adds_one
    | |- adds _ (mbind _ _) => apply adds_bind; [|intros ?]
    | |- adds _ (try_catch _ _ _) => apply adds_catch; [|intros ?]
    | |- adds _ get => apply adds_get
    | |- adds _ (try_finally _ _) => apply adds_finally
    | |- adds _ (mapM _ _) => apply adds_mapM; intros ?
    | |- adds _ (mapM_ _ _) => apply adds_mapM_; intros ?
    | |- adds _ (match ?x with _ => _ end) => destruct x
    end.

(** ** Dictionaries: association lists in insertion order *)

Definition dict (V : Type) : Type := list (string * V).

Section dict.
Context {K V : Type} `{EqDecision K}.
Implicit Types (d : list (K * V)) (k : K) (v : V).

Fixpoint dget d k : option V :=
  match d with
  | [] => None
  | (k', v) :: d => if decide (k = k') then Some v else dget d k
  end.

(** [d[k] = v]: an existing key keeps its place, a new one goes last. *)
Fixpoint dset d k v : list (K * V) :=
  match d with
  | [] => [(k, v)]
  | (k', v') :: d => if decide (k = k') then (k', v) :: d else (k', v') :: dset d k v
  end.

Definition dkeys d : list K := d.*1.
Definition dvalues d : list V := d.*2.

(** [d.update(e)] *)
Definition dupdate d (e : list (K * V)) : list (K * V) :=
  fold_left (λ d kv, dset d kv.1 kv.2) e d.

Lemma dget_dset_eq d k v : dget (dset d k v) k = Some v.
Proof. induction d as [|[k' v'] d IH]; simpl; repeat (case_decide; simpl); congruence. Qed.

Lemma dget_dset_ne d k k' v : k ≠ k' → dget (dset d k v) k' = dget d k'.
Proof.
  intros Hne. induction d as [|[k0 v0] d IH]; simpl; repeat (case_decide; simpl); congruence.
Qed.

Lemma dget_dset d k k' v :
  dget (dset d k v) k' = if decide (k = k') then Some v else dget d k'.
Proof. case_decide; subst; auto using dget_dset_eq, dget_dset_ne. Qed.

Lemma dset_dset d k v v' : dset (dset d k v) k v' = dset d k v'.
Proof.
  induction d as [|[k' w] d IH]; simpl; [by rewrite decide_True|].
  case_decide as Hk; simpl; [by rewrite decide_True|]. by rewrite decide_False, IH.
Qed.

Lemma dget_elem_of d k v : dget d k = Some v → (k, v) ∈ d.
Proof.
  induction d as [|[k' v'] d IH]; simpl; [done|].
  case_decide; intros; simplify_eq; [left|right]; auto.
Qed.

Lemma elem_of_dget d k v : NoDup (dkeys d) → (k, v) ∈ d → dget d k = Some v.
Proof.
  induction d as [|[k' v'] d IH]; simpl; [by intros _ ?%elem_of_nil|].
  intros [Hni Hnd]%NoDup_cons [?|Hin]%elem_of_cons; simplify_eq; [by case_decide|].
  case_decide; subst; [|auto].
  destruct Hni. by apply (list_elem_of_fmap_2 fst _ _ Hin).
Qed.

Lemma dget_keys d k : is_Some (dget d k) ↔ k ∈ dkeys d.
Proof.
  induction d as [|[k' v'] d IH]; simpl.
  - split; [by intros []|by intros ?%elem_of_nil].
  - rewrite elem_of_cons, <-IH. case_decide; naive_solver.
Qed.

Lemma dget_None d k : dget d k = None ↔ k ∉ dkeys d.
Proof. rewrite <-dget_keys, eq_None_not_Some. done. Qed.

Lemma elem_of_dkeys_dset d k k' v : k' ∈ dkeys (dset d k v) ↔ k' = k ∨ k' ∈ dkeys d.
Proof.
  rewrite <-!dget_keys, dget_dset. case_decide; naive_solver.
Qed.

Lemma NoDup_dset d k v : NoDup (dkeys d) → NoDup (dkeys (dset d k v)).
Proof.
  induction d as [|[k' v'] d IH]; simpl; intros Hnd; [repeat constructor; set_solver|].
  apply NoDup_cons in Hnd as [Hni Hnd]. case_decide; simpl; apply NoDup_cons; [done|].
  split; [|auto]. change (k' ∉ dkeys (dset d k v)). rewrite elem_of_dkeys_dset. naive_solver.
Qed.

Lemma NoDup_dupdate d e : NoDup (dkeys d) → NoDup (dkeys (dupdate d e)).
Proof.
  revert d. induction e as [|[k v] e IH]; simpl; intros d Hd; [done|].
  apply IH. by apply NoDup_dset.
Qed.
End dict.

(** ** Lists *)

Lemma filter_all {A} (P : A → Prop) `{∀ x, Decision (P x)} (l : list A) :
  (∀ x, x ∈ l → P x) → filter P l = l.
Proof.
  induction l as [|x l IH]; intros Hl; [done|].
  rewrite filter_cons_True by (apply Hl; left). f_equal. apply IH. set_solver.
Qed.

Lemma NoDup_filter_keys {K V} (P : K * V → Prop) `{∀ x, Decision (P x)} (d : list (K * V)) :
  NoDup (dkeys d) → NoDup (dkeys (filter P d)).
Proof.
  induction d as [|kv d IH]; [done|]. intros [Hni Hnd]%NoDup_cons.
  rewrite filter_cons. case_decide; [|auto]. apply NoDup_cons. split; [|auto].
  contradict Hni. apply list_elem_of_fmap in Hni as (y & -> & [_ Hy]%list_elem_of_filter).
  by apply list_elem_of_fmap_2.
Qed.

Lemma Forall2_elem_r {A B} (R : A → B → Prop) l k y :
  Forall2 R l k → y ∈ k → ∃ x, x ∈ l ∧ R x y.
Proof.
  induction 1 as [|x y' l k Hxy _ IH]; [by intros ?%elem_of_nil|].
  intros [->|Hy]%elem_of_cons; [exists x; split; [left|done]|].
  destruct (IH Hy) as (z & ? & ?). exists z. split; [by right|done].
Qed.

Lemma Forall2_elem_l {A B} (R : A → B → Prop) l k x :
  Forall2 R l k → x ∈ l → ∃ y, y ∈ k ∧ R x y.
Proof. intros HR%Forall2_flip Hx. by apply (Forall2_elem_r (flip R) k l x). Qed.

Create HintDb devkit.
#[export] Hint Resolve dget_elem_of NoDup_dset NoDup_dupdate : devkit.
#[export] Hint Rewrite @dget_dset_eq : devkit.
