(* ===== verification/PyStr.v ===== *)
(** * Python [str] values

    A [str] is a Rocq [string] whose characters are read as the code points
    U+0000 to U+00FF.  The operations below are the [str] methods and
    [os.path] functions the modelled scripts call, with Python's behaviour on
    that range. *)

From Stdlib Require Import Ascii DecimalString DecimalZ.
From stdpp Require Import base list strings pretty numbers.
From S2P Require Import Prelude.

Definition code (a : ascii) : Z := Z.of_N (N_of_ascii a).

(** Truth value of a [str]: [if s:] *)
Definition str_truthy (s : string) : bool :=
  match s with EmptyString => false | _ => true end.

(** [sep.join(l)] *)
Fixpoint str_join (sep : string) (l : list string) : string :=
  match l with
  | [] => ""
  | [x] => x
  | x :: l => x +:+ sep +:+ str_join sep l
  end.

(** [s.startswith(p)] *)
Fixpoint startswith (s p : string) : bool :=
  match p, s with
  | EmptyString, _ => true
  | String a p, String b s => bool_decide (a = b) && startswith s p
  | _, _ => false
  end.

(** [s.endswith(p)] *)
Definition endswith (s p : string) : bool :=
  startswith (String.rev s) (String.rev p).

(** [needle in s] *)
Fixpoint str_in (needle s : string) : bool :=
  startswith s needle ||
  match s with EmptyString => false | String _ s => str_in needle s end.

(** [s.split(c)] for a one-character separator *)
Fixpoint split_on (c : ascii) (s : string) : list string :=
  match s with
  | EmptyString => [""]
  | String a s =>
      if decide (a = c) then "" :: split_on c s
      else match split_on c s with
           | [] => [String a ""]
           | w :: ws => String a w :: ws
           end
  end.

(** [str.isspace] on one character *)
Definition py_isspace (a : ascii) : bool :=
  let n := code a in
  ((9 <=? n) && (n <=? 13) || (28 <=? n) && (n <=? 32) || (n =? 133) || (n =? 160))%Z.

(** Stripping of the characters of a class, at the start and on both sides *)
Fixpoint lstrip_by (p : ascii → bool) (s : string) : string :=
  match s with
  | String a s' => if p a then lstrip_by p s' else s
  | EmptyString => ""
  end.
Definition strip_by (p : ascii → bool) (s : string) : string :=
  String.rev (lstrip_by p (String.rev (lstrip_by p s))).

(** [s.strip()] *)
Definition strip (s : string) : string := strip_by py_isspace s.

(** The line boundaries of [str.splitlines] *)
Definition is_linebreak (a : ascii) : bool :=
  let n := code a in
  ((10 <=? n) && (n <=? 13) || (28 <=? n) && (n <=? 30) || (n =? 133))%Z.

(** [s.splitlines()]: a carriage return and the line feed after it are one
    boundary, and a final boundary opens no further line. *)
Fixpoint splitlines_go (cur : string) (s : string) : list string :=
  match s with
  | EmptyString => match cur with EmptyString => [] | _ => [String.rev cur] end
  | String a s' =>
      if is_linebreak a then
        String.rev cur ::
          match s' with
          | String b s'' =>
              if bool_decide (code a = 13%Z) && bool_decide (code b = 10%Z)
              then splitlines_go "" s'' else splitlines_go "" s'
          | EmptyString => []
          end
      else splitlines_go (String a cur) s'
  end.
Definition splitlines (s : string) : list string := splitlines_go "" s.

(** [str(z)] for an [int] *)
Definition str_int (z : Z) : string := DecimalString.NilZero.string_of_int (Z.to_int z).

(** [s.encode("utf-8")]: one byte below U+0080, two bytes from there on. *)
Definition utf8_char (a : ascii) : list Z :=
  let n := code a in
  if (n <? 128)%Z then [n]
  else [Z.lor 192 (Z.shiftr n 6); Z.lor 128 (Z.land n 63)].
Fixpoint encode_utf8 (s : string) : list Z :=
  match s with
  | EmptyString => []
  | String a s => utf8_char a ++ encode_utf8 s
  end.

(** [os.path.join(a, b)] of POSIX paths *)
Definition os_path_join (a b : string) : string :=
  if startswith b "/" then b
  else if negb (str_truthy a) || endswith a "/" then a +:+ b
  else a +:+ "/" +:+ b.

(** [os.path.dirname(p)]: everything up to the last slash, the slash removed
    unless only slashes remain. *)
Fixpoint rstrip_slashes (r : string) : string :=
  match r with
  | String "/" r' => rstrip_slashes r'
  | _ => r
  end.
Fixpoint rev_head (r : string) : string :=
  match r with
  | EmptyString => ""
  | String "/" _ => r
  | String _ r' => rev_head r'
  end.
Definition os_path_dirname (p : string) : string :=
  let head := rev_head (String.rev p) in
  let stripped := rstrip_slashes head in
  if str_truthy stripped then String.rev stripped else String.rev head.

(** [repr(s)] of a [str]. *)
Definition hex_digit (n : Z) : ascii :=
  ascii_of_N (Z.to_N (if (n <? 10)%Z then 48 + n else 87 + n)%Z).
Definition repr_char (quote a : ascii) : string :=
  let n := code a in
  if bool_decide (a = quote) || bool_decide (a = "\"%char) then String "\" (String a "")
  else if (n =? 9)%Z then "\t" else if (n =? 10)%Z then "\n" else if (n =? 13)%Z then "\r"
  else if ((n <? 32) || (127 <=? n) && (n <=? 160) || (n =? 173))%Z
  then "\x" +:+ String (hex_digit (n / 16)) (String (hex_digit (n `mod` 16)) "")
  else String a "".
Fixpoint str_concat_map (f : ascii → string) (s : string) : string :=
  match s with EmptyString => "" | String a s => f a +:+ str_concat_map f s end.
Definition dquote : ascii := ascii_of_N 34.
Definition py_repr_str (s : string) : string :=
  let q := if str_in "'" s && negb (str_in (String dquote "") s) then dquote else "'"%char in
  String q (str_concat_map (repr_char q) s +:+ String q "").

(** Every character replaced: [s.replace(c, d)] of one character by another *)
Fixpoint str_map (f : ascii → ascii) (s : string) : string :=
  match s with EmptyString => "" | String a s => String (f a) (str_map f s) end.
Definition replace_char (c d : ascii) (s : string) : string :=
  str_map (λ a, if decide (a = c) then d else a) s.

(** [p.split('=', 1)] of an item that has the sign *)
Fixpoint split_eq (p : string) : option (string * string) :=
  match p with
  | EmptyString => None
  | String a r =>
      if decide (a = "="%char) then Some ("", r)
      else (λ kv, (String a kv.1, kv.2)) <$> split_eq r
  end.

(** ** Lemmas *)

Lemma str_app_assoc (s1 s2 s3 : string) : (s1 +:+ s2) +:+ s3 = s1 +:+ s2 +:+ s3.
Proof. induction s1 as [|a s1 IH]; [done|]. exact (f_equal (String a) IH). Qed.

Lemma str_app_nil_r (s : string) : s +:+ "" = s.
Proof. induction s as [|a s IH]; [done|]. exact (f_equal (String a) IH). Qed.

Lemma str_app_cons a (s1 s2 : string) : String a s1 +:+ s2 = String a (s1 +:+ s2).
Proof. done. Qed.

Lemma split_on_join (c : ascii) s : str_join (String c "") (split_on c s) = s.
Proof.
  induction s as [|a s IH]; [done|]. simpl.
  destruct (split_on c s) as [|w ws] eqn:Hs.
  - by destruct s as [|b s]; simpl in Hs; repeat case_match.
  - case_decide as Hc; [subst a; simpl; by rewrite <-IH|].
    destruct ws; simpl in *; exact (f_equal (String a) IH).
Qed.

(** All characters of a string satisfy a predicate. *)
Fixpoint str_all (p : ascii → bool) (s : string) : bool :=
  match s with EmptyString => true | String a s => p a && str_all p s end.

Lemma str_all_app p s1 s2 : str_all p (s1 +:+ s2) = str_all p s1 && str_all p s2.
Proof.
  induction s1 as [|a s1 IH]; [done|]. rewrite str_app_cons. simpl. by rewrite IH, andb_assoc.
Qed.

Lemma str_all_impl (p q : ascii → bool) s :
  (∀ a, p a = true → q a = true) → str_all p s = true → str_all q s = true.
Proof.
  intros Hpq. induction s as [|a s IH]; [done|]. simpl. rewrite !andb_true_iff. intros [? ?]. auto.
Qed.

(** A string has no character [c]. *)
Fixpoint str_free (c : ascii) (s : string) : bool :=
  match s with EmptyString => true | String a s => negb (bool_decide (a = c)) && str_free c s end.

Lemma split_on_free c s : str_free c s = true → split_on c s = [s].
Proof.
  induction s as [|a s IH]; simpl; [done|].
  case_bool_decide; simpl; [done|]. intros Hf. rewrite IH by done. by case_decide.
Qed.

Lemma split_on_app c s1 s2 :
  str_free c s1 = true → split_on c (s1 +:+ String c s2) = s1 :: split_on c s2.
Proof.
  induction s1 as [|a s1 IH]; simpl; [by case_decide|].
  case_bool_decide; simpl; [done|]. intros Hf.
  change (String.app s1 (String c s2)) with (s1 +:+ String c s2).
  rewrite IH by done. by case_decide.
Qed.

Lemma join_split_on c l :
  l ≠ [] → Forall (λ w, str_free c w = true) l → split_on c (str_join (String c "") l) = l.
Proof.
  intros Hne Hf. induction Hf as [|w ws Hw Hws IH]; [done|].
  destruct ws as [|w' ws]; simpl; [by apply split_on_free|].
  change (String c "" +:+ ?s) with (String c s).
  rewrite split_on_app by done. f_equal. by apply IH.
Qed.

Lemma startswith_app p s : startswith (p +:+ s) p = true.
Proof.
  induction p as [|a p IH]; [by destruct s|].
  rewrite str_app_cons. simpl. by rewrite bool_decide_true.
Qed.

Lemma startswith_iff s p : startswith s p = true ↔ ∃ r, s = p +:+ r.
Proof.
  split; [|by intros [r ->]; apply startswith_app].
  revert s. induction p as [|a p IH]; intros s; [by exists s|].
  destruct s as [|b s]; simpl; [done|]. case_bool_decide; simpl; [|done]; subst.
  intros [r ->]%IH. by exists r.
Qed.

Lemma length_app_string (s1 s2 : string) :
  String.length (s1 +:+ s2) = String.length s1 + String.length s2.
Proof. induction s1 as [|a s1 IH]; [done|]. rewrite str_app_cons. simpl. by rewrite IH. Qed.

(** A non-empty string ends in a character. *)
Lemma str_snoc s n :
  String.length s = S n → ∃ y a, s = y +:+ String a "" ∧ String.length y = n.
Proof.
  revert n. induction s as [|b s IH]; intros n Hn; [done|]. injection Hn as Hn.
  destruct n as [|n]; [destruct s; [by exists "", b|done]|].
  destruct (IH n Hn) as (y & a & -> & Hy). exists (String b y), a. simpl. by rewrite Hy.
Qed.

Lemma str_join_app sep l1 l2 :
  l1 ≠ [] → l2 ≠ [] → str_join sep (l1 ++ l2) = str_join sep l1 +:+ sep +:+ str_join sep l2.
Proof.
  intros H1 H2. induction l1 as [|x l1 IH]; [done|]. destruct l1 as [|y l1].
  - simpl. by destruct l2.
  - change (x +:+ sep +:+ str_join sep ((y :: l1) ++ l2) =
            (x +:+ sep +:+ str_join sep (y :: l1)) +:+ sep +:+ str_join sep l2).
    rewrite IH by done. by rewrite !str_app_assoc.
Qed.

Lemma str_free_app c s1 s2 : str_free c (s1 +:+ s2) = str_free c s1 && str_free c s2.
Proof.
  induction s1 as [|a s1 IH]; [done|]. rewrite str_app_cons. simpl. by rewrite IH, andb_assoc.
Qed.
