(* ===== verification/Sha256.v ===== *)
(** * [hashlib.sha256]

    The digest [calculate_sha256] of [docker/build.py] computes, after FIPS
    180-4: 32-bit words are [Z] masked after each addition and rotation.  The
    clients see it through the class [Hash], which promises the shape of a
    hexadecimal digest and nothing about its value. *)

From Stdlib Require Import Ascii.
From stdpp Require Import base list strings numbers.
From S2P Require Import Prelude PyStr.

Local Open Scope Z_scope.

(** A digit of [hexdigest]: [[0-9a-f]] *)
Definition is_hex (a : ascii) : bool :=
  let n := code a in (48 <=? n) && (n <=? 57) || (97 <=? n) && (n <=? 102).

(** A hash function: 64 hexadecimal digits for every list of bytes. *)
Class Hash := {
  hexdigest : list Z → string;
  hexdigest_length : ∀ m, String.length (hexdigest m) = 64%nat;
  hexdigest_hex : ∀ m, str_all is_hex (hexdigest m) = true;
}.

Module SHA256.

Definition mask (x : Z) : Z := Z.land x 4294967295.
Definition add32 (x y : Z) : Z := mask (x + y).
Definition rotr (n x : Z) : Z := Z.lor (Z.shiftr x n) (mask (Z.shiftl x (32 - n))).
Definition xor3 (x y z : Z) : Z := Z.lxor (Z.lxor x y) z.

Definition Sigma0 (x : Z) : Z := xor3 (rotr 2 x) (rotr 13 x) (rotr 22 x).
Definition Sigma1 (x : Z) : Z := xor3 (rotr 6 x) (rotr 11 x) (rotr 25 x).
Definition sigma0 (x : Z) : Z := xor3 (rotr 7 x) (rotr 18 x) (Z.shiftr x 3).
Definition sigma1 (x : Z) : Z := xor3 (rotr 17 x) (rotr 19 x) (Z.shiftr x 10).
Definition Ch (x y z : Z) : Z := Z.lxor (Z.land x y) (Z.land (Z.lxor x 4294967295) z).
Definition Maj (x y z : Z) : Z := xor3 (Z.land x y) (Z.land x z) (Z.land y z).

(** The constants, as FIPS 180-4 defines them: the first 32 bits of the
    fractional parts of the cube roots of the first 64 primes, and of the square
    roots of the first eight. *)
Definition is_prime (n : nat) : bool :=
  (2 <=? n)%nat && forallb (λ d, negb (n mod d =? 0)%nat) (seq 2 (n - 2)).
Definition primes : list Z := Z.of_nat <$> List.filter is_prime (seq 2 310).

(** The largest [c] below [2 ^ bits] with [c ^ 3 <= n]. *)
Fixpoint cube_root (bits : nat) (c n : Z) : Z :=
  match bits with
  | O => c
  | S bits =>
      let c' := c + 2 ^ Z.of_nat bits in
      cube_root bits (if c' * c' * c' <=? n then c' else c) n
  end.

Definition K : list Z :=
  Eval vm_compute in (λ p, mask (cube_root 36 0 (p * 2 ^ 96))) <$> take 64 primes.

Record state := St { sa : Z; sb : Z; sc : Z; sd : Z; se : Z; sf : Z; sg : Z; sh : Z }.

Definition H0 : state :=
  Eval vm_compute in
    match (λ p, mask (Z.sqrt (p * 2 ^ 64))) <$> take 8 primes with
    | [a; b; c; d; e; f; g; h] => St a b c d e f g h
    | _ => St 0 0 0 0 0 0 0 0
    end.

Definition round (s : state) (kw : Z * Z) : state :=
  let t1 := add32 (add32 (add32 (add32 (sh s) (Sigma1 (se s))) (Ch (se s) (sf s) (sg s))) kw.1) kw.2 in
  let t2 := add32 (Sigma0 (sa s)) (Maj (sa s) (sb s) (sc s)) in
  St (add32 t1 t2) (sa s) (sb s) (sc s) (add32 (sd s) t1) (se s) (sf s) (sg s).

(** The message schedule, newest word first. *)
Fixpoint schedule (n : nat) (w : list Z) : list Z :=
  match n with
  | O => w
  | S n =>
      let x := add32 (add32 (add32 (sigma1 (nth 1 w 0)) (nth 6 w 0)) (sigma0 (nth 14 w 0)))
                     (nth 15 w 0) in
      schedule n (x :: w)
  end.

Definition add_state (s t : state) : state :=
  St (add32 (sa s) (sa t)) (add32 (sb s) (sb t)) (add32 (sc s) (sc t)) (add32 (sd s) (sd t))
     (add32 (se s) (se t)) (add32 (sf s) (sf t)) (add32 (sg s) (sg t)) (add32 (sh s) (sh t)).

Definition compress (s : state) (block : list Z) : state :=
  let w := reverse (schedule 48 (reverse block)) in
  add_state s (fold_left round (zip K w) s).

(** Big-endian bytes of a 64-bit length, and 32-bit words of a byte string. *)
Definition be_bytes (n : nat) (x : Z) : list Z :=
  map (λ i, Z.land (Z.shiftr x (8 * Z.of_nat i)) 255) (reverse (seq 0 n)).

Fixpoint be_words (fuel : nat) (l : list Z) : list Z :=
  match fuel, l with
  | S fuel, a :: b :: c :: d :: l =>
      Z.lor (Z.lor (Z.shiftl a 24) (Z.shiftl b 16)) (Z.lor (Z.shiftl c 8) d) :: be_words fuel l
  | _, _ => []
  end.

Definition pad (m : list Z) : list Z :=
  let len := Z.of_nat (length m) in
  m ++ [128] ++ replicate (Z.to_nat ((55 - len) mod 64)) 0 ++ be_bytes 8 (8 * len).

Fixpoint blocks (fuel : nat) (s : state) (w : list Z) : state :=
  match fuel, w with
  | S fuel, _ :: _ => blocks fuel (compress s (take 16 w)) (drop 16 w)
  | _, _ => s
  end.

Definition digest (m : list Z) : state :=
  let p := pad m in
  blocks (length p) H0 (be_words (length p) p).

Definition hex_word (w : Z) (rest : string) : string :=
  foldr (λ i s, String (hex_digit (Z.land (Z.shiftr w (4 * i)) 15)) s) rest [7; 6; 5; 4; 3; 2; 1; 0].

Definition sha256_hexdigest (m : list Z) : string :=
  let s := digest m in
  foldr hex_word "" [sa s; sb s; sc s; sd s; se s; sf s; sg s; sh s].

(** The vectors of FIPS 180-4 for one and for two blocks, and the empty input. *)
Example sha256_empty :
  sha256_hexdigest [] = "e3b0c44298fc1c149afbf4c8996fb92427ae41e4649b934ca495991b7852b855".
Proof. vm_compute. reflexivity. Qed.

Example sha256_abc :
  sha256_hexdigest (encode_utf8 "abc") =
  "ba7816bf8f01cfea414140de5dae2223b00361a396177a9cb410ff61f20015ad".
Proof. vm_compute. reflexivity. Qed.

Example sha256_two_blocks :
  sha256_hexdigest (encode_utf8 "abcdbcdecdefdefgefghfghighijhijkijkljklmklmnlmnomnopnopq") =
  "248d6a61d20638b8e5c026930c3e6039a33ce45964ff2167f6ecedd419db06c1".
Proof. vm_compute. reflexivity. Qed.

Lemma hex_digit_hex x : is_hex (hex_digit (Z.land x 15)) = true.
Proof.
  assert (0 <= Z.land x 15 < 16) as Hb.
  { change 15 with (Z.ones 4). rewrite Z.land_ones by lia. apply Z.mod_pos_bound. lia. }
  revert Hb. generalize (Z.land x 15). intros y Hy.
  assert (∃ k : nat, (k < 16)%nat ∧ y = Z.of_nat k) as (k & Hk & ->).
  { exists (Z.to_nat y). lia. }
  do 16 (destruct k as [|k]; [reflexivity|]). lia.
Qed.

Lemma hex_word_length w r : String.length (hex_word w r) = (8 + String.length r)%nat.
Proof. reflexivity. Qed.

Lemma hex_word_hex w r : str_all is_hex r = true → str_all is_hex (hex_word w r) = true.
Proof. intros Hr. unfold hex_word. cbn [foldr str_all]. by rewrite !hex_digit_hex, Hr. Qed.

Lemma sha256_length m : String.length (sha256_hexdigest m) = 64%nat.
Proof. unfold sha256_hexdigest. cbn [foldr]. by rewrite !hex_word_length. Qed.

Lemma sha256_hex m : str_all is_hex (sha256_hexdigest m) = true.
Proof. unfold sha256_hexdigest. cbn [foldr]. by repeat apply hex_word_hex. Qed.

End SHA256.

(** The implementation discharges the interface. *)
#[export] Instance sha256_Hash : Hash := {|
  hexdigest := SHA256.sha256_hexdigest;
  hexdigest_length := SHA256.sha256_length;
  hexdigest_hex := SHA256.sha256_hex;
|}.
