(* ===== verification/Graphlib.v ===== *)
(** * [graphlib.TopologicalSorter]

    The topological sort [docker/build.py] orders images with: the node table
    of [add], the ready list and the predecessor counters of [get_ready] and
    [done], and [static_order] on top of them.  [prepare] looks for a cycle
    before anything is returned; here a cycle is recognised by the counters
    that never reach zero, and [static_order_spec] proves that this is exactly
    when the dependency relation has one. *)

From stdpp Require Import base list relations strings gmap.
From S2P Require Import Prelude.

Section graph.
Context {A : Type} `{EqDecision A}.
Implicit Types (n p x : A) (g : list (A * list A)).

(** [p] is a predecessor (dependency) of [n] in the graph. *)
Definition dep g n p : Prop := ∃ ps, (n, ps) ∈ g ∧ p ∈ ps.

(** The nodes: every key and every predecessor. *)
Definition graph_node g n : Prop := n ∈ dkeys g ∨ ∃ m, dep g m n.

Lemma dep_node g n p : dep g n p → graph_node g n.
Proof. intros (ps & Hin & _). left. by apply (list_elem_of_fmap_2 fst _ _ Hin). Qed.

(** ** The node table *)
Record nodeinfo := NodeInfo { npredecessors : Z; successors : list A }.

Definition info (m : list (A * nodeinfo)) n : nodeinfo :=
  default (NodeInfo 0 []) (dget m n).

Definition add_pred n (m : list (A * nodeinfo)) p : list (A * nodeinfo) :=
  let i := info m p in dset m p (NodeInfo (npredecessors i) (successors i ++ [n])).

Definition add (m : list (A * nodeinfo)) (e : A * list A) : list (A * nodeinfo) :=
  let i := info m e.1 in
  let m := dset m e.1 (NodeInfo (npredecessors i + Z.of_nat (length e.2)) (successors i)) in
  fold_left (add_pred e.1) e.2 m.

Definition node_table g : list (A * nodeinfo) := fold_left add g [].

Definition ready_nodes (m : list (A * nodeinfo)) : list A :=
  (filter (λ e, npredecessors e.2 = 0%Z) m).*1.

(** One successor of a finished node, all of them, and a finished group. *)
Definition decrement (st : list (A * nodeinfo) * list A) n :=
  let '(m, ready) := st in
  let i := info m n in
  let c := (npredecessors i - 1)%Z in
  (dset m n (NodeInfo c (successors i)), if decide (c = 0%Z) then ready ++ [n] else ready).

Definition done1 (st : list (A * nodeinfo) * list A) n :=
  fold_left decrement (successors (info st.1 n)) st.

Definition done_group (m : list (A * nodeinfo)) (group : list A) :=
  fold_left done1 group (m, []).

Fixpoint order_loop (fuel : nat) (m : list (A * nodeinfo)) (ready : list A) : list A :=
  match fuel, ready with
  | S fuel, _ :: _ =>
      let '(m', ready') := done_group m ready in ready ++ order_loop fuel m' ready'
  | _, _ => []
  end.

Definition static_order g : res (list A) :=
  let m := node_table g in
  let out := order_loop (S (length m)) m (ready_nodes m) in
  if decide (length out = length m) then Ret out else Raise CycleError.

(** ** Lemmas *)

Lemma info_dset m n i n' :
  info (dset m n i) n' = if decide (n = n') then i else info m n'.
Proof. unfold info. rewrite dget_dset. by case_decide. Qed.

Definition cnt n (l : list A) : Z := Z.of_nat (length (filter (n =.) l)).

Lemma cnt_cons n x l : cnt n (x :: l) = ((if decide (n = x) then 1 else 0) + cnt n l)%Z.
Proof. unfold cnt. rewrite filter_cons. case_decide; simpl; lia. Qed.

Lemma cnt_app n l k : cnt n (l ++ k) = (cnt n l + cnt n k)%Z.
Proof. unfold cnt. rewrite filter_app, length_app. lia. Qed.

Lemma cnt_perm n l k : l ≡ₚ k → cnt n l = cnt n k.
Proof. unfold cnt. by intros ->. Qed.

Lemma cnt_zero n l : cnt n l = 0%Z ↔ n ∉ l.
Proof.
  induction l as [|x l IH]; [set_solver|].
  rewrite cnt_cons, not_elem_of_cons, <-IH.
  assert (0 ≤ cnt n l)%Z by (unfold cnt; lia). case_decide; naive_solver lia.
Qed.

(** The multiset of all edges of a node table, as the list of their targets. *)
Definition targets (m : list (A * nodeinfo)) : list A := mjoin ((λ e, successors e.2) <$> m).

Lemma targets_dset m n c l :
  targets (dset m n (NodeInfo c (successors (info m n) ++ l))) ≡ₚ l ++ targets m.
Proof.
  unfold targets, info. induction m as [|[k i] m IH]; simpl; [by rewrite !app_nil_r|].
  case_decide; subst; simpl.
  - rewrite <-!(assoc_L (++)). by rewrite Permutation_app_swap_app.
  - etrans; [apply Permutation_app_head, IH|]. by rewrite Permutation_app_swap_app.
Qed.

(** Counters count the edges, up to [extra] edges still to be added to [n0]. *)
Definition counted (m : list (A * nodeinfo)) (n0 : A) (extra : Z) : Prop :=
  ∀ n, npredecessors (info m n) =
       (cnt n (targets m) + if decide (n = n0) then extra else 0)%Z.

Lemma add_preds_counted n ps m :
  counted m n (Z.of_nat (length ps)) → counted (fold_left (add_pred n) ps m) n 0.
Proof.
  revert m. induction ps as [|p ps IH]; intros m Hm; simpl; [done|].
  apply IH. intros n'. unfold add_pred.
  rewrite (cnt_perm n' _ _ (targets_dset m p _ [n])), info_dset.
  specialize (Hm n'). simpl length in Hm. change ([n] ++ targets m) with (n :: targets m).
  rewrite cnt_cons. repeat case_decide; subst; simpl in *; try lia; congruence.
Qed.

Lemma add_counted m e n0 : counted m n0 0 → counted (add m e) n0 0.
Proof.
  intros Hm. destruct e as [n ps]. unfold add. simpl.
  cut (counted (fold_left (add_pred n) ps
         (dset m n (NodeInfo (npredecessors (info m n) + Z.of_nat (length ps)) (successors (info m n))))) n 0).
  { intros H n'. rewrite H. repeat case_decide; lia. }
  apply add_preds_counted. intros n'.
  pose proof (targets_dset m n (npredecessors (info m n) + Z.of_nat (length ps)) []) as Ht.
  rewrite app_nil_r in Ht. rewrite (cnt_perm n' _ _ Ht), info_dset.
  specialize (Hm n'). simpl. repeat case_decide; subst; simpl in *; try lia; congruence.
Qed.

Lemma node_table_counted g n : npredecessors (info (node_table g) n) = cnt n (targets (node_table g)).
Proof.
  assert (∀ l m, counted m n 0 → counted (fold_left add l m) n 0) as Hf.
  { induction l as [|e l IH]; simpl; auto using add_counted. }
  specialize (Hf g [] ltac:(by intros n'; case_decide) n).
  change (fold_left add g []) with (node_table g) in Hf. rewrite Hf. case_decide; lia.
Qed.

Lemma add_preds_edges n ps m n' p :
  n' ∈ successors (info (fold_left (add_pred n) ps m) p) ↔
  n' ∈ successors (info m p) ∨ (n' = n ∧ p ∈ ps).
Proof.
  revert m. induction ps as [|q ps IH]; intros m; simpl; [set_solver|].
  rewrite IH. unfold add_pred. rewrite info_dset. case_decide; subst; simpl; set_solver.
Qed.

Lemma node_table_edges g n p : n ∈ successors (info (node_table g) p) ↔ dep g n p.
Proof.
  assert (∀ l m, n ∈ successors (info (fold_left add l m) p) ↔
                 n ∈ successors (info m p) ∨ dep l n p) as Hf.
  { induction l as [|[n0 ps] l IH]; intros m; simpl.
    - unfold dep. set_solver.
    - rewrite IH. unfold add. simpl. rewrite add_preds_edges, info_dset. unfold dep.
      setoid_rewrite elem_of_cons. case_decide; subst; simpl; naive_solver. }
  unfold node_table. rewrite Hf. unfold info. simpl. set_solver.
Qed.

Lemma node_table_NoDup g : NoDup (dkeys (node_table g)).
Proof.
  assert (∀ ps n m, NoDup (dkeys m) → NoDup (dkeys (fold_left (add_pred n) ps m))) as Hp.
  { induction ps; simpl; intros; eauto using NoDup_dset. }
  assert (∀ l m, NoDup (dkeys m) → NoDup (dkeys (fold_left add l m))) as Hf.
  { induction l as [|e l IH]; simpl; intros; eauto using NoDup_dset. }
  apply Hf. constructor.
Qed.

Lemma node_table_keys g n : n ∈ dkeys (node_table g) ↔ graph_node g n.
Proof.
  assert (∀ ps n' m, n ∈ dkeys (fold_left (add_pred n') ps m) ↔ n ∈ dkeys m ∨ n ∈ ps) as Hp.
  { induction ps as [|p ps IH]; intros n' m; simpl; [set_solver|].
    rewrite IH. unfold add_pred. rewrite elem_of_dkeys_dset. set_solver. }
  assert (∀ l m, n ∈ dkeys (fold_left add l m) ↔ n ∈ dkeys m ∨ graph_node l n) as Hf.
  { induction l as [|[n0 ps] l IH]; intros m; simpl.
    - unfold graph_node, dep. set_solver.
    - rewrite IH. unfold add. simpl. rewrite Hp, elem_of_dkeys_dset.
      unfold graph_node, dep. simpl. setoid_rewrite elem_of_cons. naive_solver. }
  unfold node_table. rewrite Hf. set_solver.
Qed.

(** ** The loop *)

Lemma decrement_successors ev m r n :
  successors (info (fold_left decrement ev (m, r)).1 n) = successors (info m n).
Proof.
  revert m r. induction ev as [|x ev IH]; intros m r; simpl; [done|].
  rewrite IH, info_dset. by destruct (decide (x = n)) as [->|].
Qed.

(** Finishing a list of edges: the counters drop by exactly those edges, and
    the nodes that become ready are those with no edge left. *)
Lemma decrement_spec ev rest m r m' r' :
  (∀ n, npredecessors (info m n) = cnt n (ev ++ rest)) →
  fold_left decrement ev (m, r) = (m', r') →
  (∀ n, npredecessors (info m' n) = cnt n rest) ∧
  ∃ new, r' = r ++ new ∧ NoDup new ∧ ∀ n, n ∈ new ↔ n ∈ ev ∧ n ∉ rest.
Proof.
  revert m r. induction ev as [|x ev IH]; intros m r Hc Hf.
  { simpl in Hf. simplify_eq. split_and!; [done|]. exists [].
    rewrite app_nil_r. split_and!; [done|constructor|set_solver]. }
  simpl in Hf. apply IH in Hf as (Hc' & new & -> & Hnd & Hin).
  2: { intros n. rewrite info_dset. specialize (Hc n). simpl in Hc. rewrite cnt_cons in Hc.
       repeat case_decide; subst; simpl; try lia; congruence. }
  split; [done|].
  specialize (Hc x). simpl in Hc. rewrite cnt_cons, decide_True in Hc by done.
  case_decide as Hz.
  - assert (x ∉ ev ++ rest) as Hx by (apply cnt_zero; lia).
    exists (x :: new). rewrite <-(assoc_L (++)). split_and!; [done| |].
    + apply NoDup_cons. set_solver.
    + intros n. rewrite elem_of_cons, Hin. set_solver.
  - assert (x ∈ ev ++ rest) as Hx.
    { destruct (decide (x ∈ ev ++ rest)) as [|Hx]; [done|]. apply cnt_zero in Hx. lia. }
    exists new. split_and!; [done|done|]. intros n. rewrite Hin. set_solver.
Qed.

Lemma done_group_decrement (succ : A → list A) group m r :
  (∀ n, successors (info m n) = succ n) →
  fold_left done1 group (m, r) = fold_left decrement (mjoin (succ <$> group)) (m, r).
Proof.
  revert m r. induction group as [|x group IH]; intros m r Hs; simpl; [done|].
  rewrite fold_left_app. unfold done1 at 2. simpl. rewrite Hs.
  rewrite (surjective_pairing (fold_left decrement (succ x) (m, r))).
  apply IH. intros n. by rewrite decrement_successors.
Qed.

Section loop.
Context (nodes : list A) (succ : A → list A).
Hypothesis nodes_NoDup : NoDup nodes.
Hypothesis succ_nodes : ∀ n p, n ∈ succ p → p ∈ nodes ∧ n ∈ nodes.

(** The edges out of the nodes that are not finished. *)
Definition pending (D : list A) : list A := mjoin (succ <$> filter (.∉ D) nodes).

Lemma elem_of_pending D n : n ∈ pending D ↔ ∃ p, p ∉ D ∧ n ∈ succ p.
Proof.
  unfold pending. rewrite list_elem_of_join. setoid_rewrite list_elem_of_fmap.
  setoid_rewrite list_elem_of_filter. naive_solver.
Qed.

Lemma pending_split D R :
  NoDup (D ++ R) → R ⊆ nodes → pending D ≡ₚ mjoin (succ <$> R) ++ pending (D ++ R).
Proof.
  intros Hnd HR. unfold pending. rewrite <-join_app, <-fmap_app.
  apply NoDup_app in Hnd as (_ & HDR & HndR).
  assert (filter (.∉ D) nodes ≡ₚ R ++ filter (.∉ D ++ R) nodes) as ->; [|done].
  apply NoDup_Permutation.
  - by apply NoDup_filter.
  - apply NoDup_app. split_and!; [done| |by apply NoDup_filter].
    intros x ?. rewrite list_elem_of_filter. set_solver.
  - intros x. rewrite elem_of_app, !list_elem_of_filter, not_elem_of_app.
    destruct (decide (x ∈ R)); set_solver.
Qed.

(** Every node comes after all its predecessors, given that [D] came before. *)
Inductive topo : list A → list A → Prop :=
  | topo_nil D : topo D []
  | topo_cons D x l :
      (∀ p, x ∈ succ p → p ∈ D) → topo (D ++ [x]) l → topo D (x :: l).

Lemma topo_app D l k : topo D l → topo (D ++ l) k → topo D (l ++ k).
Proof.
  induction 1 as [D|D x l Hx Hl IH]; intros Hk; simpl.
  - by rewrite app_nil_r in Hk.
  - constructor; [done|]. apply IH. by rewrite <-(assoc_L (++)).
Qed.

Lemma topo_batch D l : (∀ x p, x ∈ l → x ∈ succ p → p ∈ D) → topo D l.
Proof.
  revert D. induction l as [|x l IH]; intros D Hl; constructor; [set_solver|].
  apply IH. set_solver.
Qed.

Record loop_inv (D R : list A) (m : list (A * nodeinfo)) : Prop := {
  inv_succ : ∀ n, successors (info m n) = succ n;
  inv_count : ∀ n, npredecessors (info m n) = cnt n (pending D);
  inv_nodup : NoDup (D ++ R);
  inv_nodes : D ++ R ⊆ nodes;
  inv_ready : ∀ n, n ∈ nodes → (n ∈ D ++ R ↔ n ∉ pending D);
}.

Lemma loop_inv_step D R m m' R' :
  loop_inv D R m → done_group m R = (m', R') → loop_inv (D ++ R) R' m'.
Proof.
  intros [Hs Hc Hnd Hsub Hr] Hd. unfold done_group in Hd.
  rewrite (done_group_decrement succ) in Hd by done.
  assert (∀ n, successors (info m' n) = succ n) as Hs'.
  { intros n. rewrite <-Hs, <-(decrement_successors (mjoin (succ <$> R)) m []). by rewrite Hd. }
  assert (pending D ≡ₚ mjoin (succ <$> R) ++ pending (D ++ R)) as Hp.
  { apply pending_split; set_solver. }
  apply (decrement_spec _ (pending (D ++ R))) in Hd as (Hc' & new & -> & Hndn & Hin).
  2: { intros n. rewrite Hc. by apply cnt_perm. }
  assert (∀ n, n ∈ pending D ↔ n ∈ mjoin (succ <$> R) ∨ n ∈ pending (D ++ R)) as Hp'.
  { intros n. by rewrite Hp, elem_of_app. }
  assert (∀ n, n ∈ mjoin (succ <$> R) → n ∈ nodes) as Hev.
  { intros n Hn. assert (n ∈ pending D) as (p & _ & ?)%elem_of_pending by set_solver.
    by apply (succ_nodes n p). }
  simpl. split.
  - done.
  - done.
  - apply NoDup_app. split_and!; [done| |done].
    intros x Hx [Hx' _]%Hin. apply Hr in Hx as ?; set_solver.
  - set_solver.
  - intros n Hn. rewrite elem_of_app, Hin. specialize (Hr n Hn). specialize (Hp' n).
    destruct (decide (n ∈ D ++ R)), (decide (n ∈ pending (D ++ R)));
      destruct (decide (n ∈ mjoin (succ <$> R))); tauto.
Qed.

Lemma order_loop_spec fuel D R m :
  loop_inv D R m → length nodes < fuel + length D →
  let out := order_loop fuel m R in
  NoDup (D ++ out) ∧ out ⊆ nodes ∧ topo D out ∧
  (∀ n, n ∈ nodes → n ∉ D ++ out → ∃ p, p ∈ nodes ∧ p ∉ D ++ out ∧ n ∈ succ p).
Proof.
  revert D R m. induction fuel as [|fuel IH]; intros D R m Hinv Hfuel.
  { exfalso. assert (length D ≤ length nodes); [|simpl in *; lia].
    apply submseteq_length, NoDup_submseteq.
    - by destruct (proj1 (NoDup_app _ _) (inv_nodup _ _ _ Hinv)).
    - intros x ?. apply (inv_nodes _ _ _ Hinv). set_solver. }
  intros out; subst out. destruct R as [|x R]; cbn [order_loop].
  { destruct Hinv as [Hs Hc Hnd Hsub Hr]. rewrite app_nil_r in *.
    split_and!; [done|set_solver|constructor|]. intros n Hn HnD.
    destruct (decide (n ∈ pending D)) as [(p & Hp & Hnp)%elem_of_pending|]; [|naive_solver].
    exists p. split_and!; try done. by apply (succ_nodes n p). }
  destruct (done_group m (x :: R)) as [m' R'] eqn:Hd.
  pose proof (loop_inv_step _ _ _ _ _ Hinv Hd) as Hinv'.
  destruct (IH _ _ _ Hinv') as (Hnd & Hsub & Htopo & Hstuck).
  { rewrite length_app. simpl. lia. }
  change (x :: R ++ ?l) with ((x :: R) ++ l). rewrite <-(assoc_L (++)) in Hnd, Hstuck.
  split_and!; [done| | |done].
  - pose proof (inv_nodes _ _ _ Hinv). set_solver.
  - apply topo_app; [|done]. apply topo_batch. intros y p Hy Hyp.
    destruct (decide (p ∈ D)); [done|]. exfalso.
    assert (y ∈ pending D) by (apply elem_of_pending; eauto).
    assert (y ∈ nodes) by (by apply (succ_nodes y p)).
    pose proof (inv_ready _ _ _ Hinv y). set_solver.
Qed.
End loop.

(** A finite set in which every node has a dependency has a cycle. *)
Lemma chain_cycle (R : relation A) (U : list A) x c :
  (∀ n, n ∈ U → ∃ p, p ∈ U ∧ R n p) →
  NoDup (x :: c) → x :: c ⊆ U → (∀ y, y ∈ x :: c → rtc R y x) → ∃ y, tc R y y.
Proof.
  intros HU. remember (length U - length c) as k eqn:Hk. revert x c Hk.
  induction k as [|k IH]; intros x c Hk Hnd Hsub Hreach.
  { assert (length (x :: c) ≤ length U); [|simpl in *; lia].
    apply submseteq_length, NoDup_submseteq; auto. }
  destruct (HU x) as (p & HpU & Hxp); [set_solver|].
  destruct (decide (p ∈ x :: c)) as [Hp|Hp].
  { exists x. eapply tc_rtc_r; [by apply tc_once|]. by apply Hreach. }
  apply (IH p (x :: c)); [simpl; lia|by apply NoDup_cons|set_solver|].
  intros y [->|Hy]%elem_of_cons; [done|]. eapply rtc_r; [by apply Hreach|done].
Qed.

Lemma exists_cycle (R : relation A) (U : list A) :
  U ≠ [] → (∀ n, n ∈ U → ∃ p, p ∈ U ∧ R n p) → ∃ x, tc R x x.
Proof.
  destruct U as [|x U]; [done|]. intros _ HU.
  apply (chain_cycle R (x :: U) x []); [done|apply NoDup_singleton|set_solver|].
  intros y ->%list_elem_of_singleton. done.
Qed.

(** An order is topological for [g]: dependencies come first. *)
Definition topological g (out : list A) : Prop :=
  ∀ l1 n l2, out = l1 ++ n :: l2 → ∀ p, dep g n p → p ∈ l1.

Lemma topo_topological succ g D out :
  (∀ n p, dep g n p → n ∈ succ p) → topo succ D out →
  ∀ l1 n l2, out = l1 ++ n :: l2 → ∀ p, dep g n p → p ∈ D ++ l1.
Proof.
  intros Hd. induction 1 as [D|D x l Hx Hl IH]; intros l1 n l2 Heq p Hp.
  { by destruct l1. }
  destruct l1 as [|y l1]; simplify_eq/=.
  - rewrite app_nil_r. auto.
  - change (y :: l1) with ([y] ++ l1). rewrite (assoc_L (++)). eauto.
Qed.

Lemma topological_tc g out l1 n l2 p :
  topological g out → out = l1 ++ n :: l2 → tc (dep g) n p → p ∈ l1.
Proof.
  intros Ht Heq Hp. revert l1 l2 Heq.
  induction Hp as [n p Hnp|n q p Hnq Hqp IH]; intros l1 l2 Heq; [by eapply Ht|].
  assert (q ∈ l1) as (l3 & l4 & ->)%list_elem_of_split by (by eapply Ht).
  rewrite <-(assoc_L (++)) in Heq. simpl in Heq. specialize (IH _ _ Heq). set_solver.
Qed.

Lemma topological_acyclic g out n :
  topological g out → NoDup out → n ∈ out → ¬ tc (dep g) n n.
Proof.
  intros Ht Hnd (l1 & l2 & ->)%list_elem_of_split Hc.
  eapply topological_tc in Hc; [|done..].
  apply NoDup_app in Hnd as (_ & Hnd & _). set_solver.
Qed.

Lemma node_table_inv g :
  loop_inv (dkeys (node_table g)) (λ n, successors (info (node_table g) n)) []
    (ready_nodes (node_table g)) (node_table g).
Proof.
  set (m := node_table g). set (succ := λ n, successors (info m n)).
  assert (NoDup (dkeys m)) as Hnd by apply node_table_NoDup.
  assert (pending (dkeys m) succ [] = targets m) as Hpend.
  { unfold pending, targets. f_equal. unfold dkeys.
    rewrite filter_all by set_solver.
    rewrite <-list_fmap_compose. apply list_fmap_ext. intros i [k v] Hi. unfold succ, compose, info.
    simpl. by rewrite (elem_of_dget m k v) by eauto using list_elem_of_lookup_2. }
  assert (∀ n, n ∈ ready_nodes m ↔ n ∈ dkeys m ∧ n ∉ targets m) as Hready.
  { intros n. rewrite <-cnt_zero. unfold m at 3. rewrite <-node_table_counted. fold m.
    unfold ready_nodes, dkeys. rewrite !list_elem_of_fmap. unfold info. split.
    - intros ([k v] & -> & [Hz Hin]%list_elem_of_filter). simpl in *.
      rewrite (elem_of_dget m k v) by done. simpl. split; [|done]. by exists (k, v).
    - intros [([k v] & -> & Hin) Hz]. simpl in *. rewrite (elem_of_dget m k v) in Hz by done.
      exists (k, v). split; [done|]. by apply list_elem_of_filter. }
  split.
  - done.
  - intros n. rewrite Hpend. apply node_table_counted.
  - by apply (NoDup_filter_keys (λ e, npredecessors e.2 = 0%Z)).
  - simpl. intros n. rewrite Hready. naive_solver.
  - intros n Hn. simpl. rewrite Hready, Hpend. naive_solver.
Qed.

Theorem static_order_correct g :
  match static_order g with
  | Ret out =>
      NoDup out ∧ (∀ n, n ∈ out ↔ graph_node g n) ∧ topological g out ∧
      ∀ n, ¬ tc (dep g) n n
  | Raise e => e = CycleError ∧ ∃ n, tc (dep g) n n
  end.
Proof.
  pose proof (node_table_inv g) as Hinv. unfold static_order.
  set (m := node_table g) in *.
  assert (∀ n p, n ∈ successors (info m p) → p ∈ dkeys m ∧ n ∈ dkeys m) as Hsn.
  { intros n p Hd%node_table_edges. unfold m. rewrite !node_table_keys. unfold graph_node.
    split; [right; eauto|]. eapply dep_node, Hd. }
  destruct (order_loop_spec _ _ (node_table_NoDup g) Hsn (S (length m)) _ _ _ Hinv)
    as (Hnd & Hsub & Htopo & Hstuck); [unfold dkeys; rewrite length_fmap; fold m; simpl; lia|].
  set (out := order_loop _ _ _) in *. simpl in Hnd, Hstuck.
  assert (topological g out) as Htop.
  { intros l1 n l2 Heq p Hp.
    eapply (topo_topological _ g [] out); eauto. intros. by apply node_table_edges. }
  case_decide as Hlen.
  - assert (∀ n, n ∈ out ↔ graph_node g n) as Hn.
    { assert (out ≡ₚ dkeys m) as Hperm.
      { apply submseteq_length_Permutation; [by apply NoDup_submseteq|].
        unfold dkeys. rewrite length_fmap. lia. }
      intros n. by rewrite <-node_table_keys, Hperm. }
    split_and!; [done|done|done|]. intros n Hc.
    eapply (topological_acyclic g out n); [done..| |done]. apply Hn.
    inversion Hc; eauto using dep_node.
  - split; [done|]. apply (exists_cycle _ (filter (.∉ out) (dkeys m))).
    + intros Hf. apply Hlen. rewrite <-(length_fmap fst m). change m.*1 with (dkeys m).
      apply Permutation_length, NoDup_Permutation; [done|apply node_table_NoDup|].
      intros n. split; [apply Hsub|]. intros Hn. destruct (decide (n ∈ out)); [done|].
      by destruct (filter_nil_not_elem_of (.∉ out) _ n Hf).
    + intros n [Hn Hk]%list_elem_of_filter. destruct (Hstuck n Hk Hn) as (p & ? & ? & ?).
      exists p. split; [by apply list_elem_of_filter|]. by apply node_table_edges.
Qed.
End graph.
