(* ===== verification/PyJson.v ===== *)
(** * JSON values as [json.load] returns them, and the Python operations on them

    The scripts index, iterate and test values that come straight from
    [json.load], so the dynamic behaviour of those operations on every JSON
    type is part of the model: [in], [[]], [.items()], [.values()], [.get()],
    truth value and [str()].  A float is kept as its [repr]. *)

From Stdlib Require Import Ascii.
From stdpp Require Import base list strings.
From S2P Require Import Prelude PyStr.

Inductive json :=
  | JNull
  | JBool (b : bool)
  | JInt (z : Z)
  | JFloat (repr : string)
  | JStr (s : string)
  | JList (l : list json)
  | JObj (kvs : list (string * json)).

(** Induction through the nested lists. *)
Section json_ind.
Context (P : json → Prop).
Hypothesis Hnull : P JNull.
Hypothesis Hbool : ∀ b, P (JBool b).
Hypothesis Hint : ∀ z, P (JInt z).
Hypothesis Hfloat : ∀ r, P (JFloat r).
Hypothesis Hstr : ∀ s, P (JStr s).
Hypothesis Hlist : ∀ l, Forall P l → P (JList l).
Hypothesis Hobj : ∀ kvs, Forall (λ kv, P kv.2) kvs → P (JObj kvs).

Fixpoint json_nested_ind (j : json) : P j :=
  match j with
  | JNull => Hnull
  | JBool b => Hbool b
  | JInt z => Hint z
  | JFloat r => Hfloat r
  | JStr s => Hstr s
  | JList l =>
      Hlist l ((fix go l : Forall P l :=
        match l with
        | [] => List.Forall_nil _
        | x :: l => List.Forall_cons _ _ _ (json_nested_ind x) (go l)
        end) l)
  | JObj kvs =>
      Hobj kvs ((fix go kvs : Forall (λ kv, P kv.2) kvs :=
        match kvs with
        | [] => List.Forall_nil _
        | kv :: kvs => List.Forall_cons _ _ _ (json_nested_ind kv.2) (go kvs)
        end) kvs)
  end.
End json_ind.

(** [type(data).__name__] *)
Definition type_name (j : json) : string :=
  match j with
  | JNull => "NoneType" | JBool _ => "bool" | JInt _ => "int" | JFloat _ => "float"
  | JStr _ => "str" | JList _ => "list" | JObj _ => "dict"
  end.

(** [bool(data)] *)
Definition truthy (j : json) : bool :=
  match j with
  | JNull => false
  | JBool b => b
  | JInt z => negb (bool_decide (z = 0%Z))
  | JFloat r => negb (bool_decide (r = "0.0") || bool_decide (r = "-0.0"))
  | JStr s => str_truthy s
  | JList l => match l with [] => false | _ => true end
  | JObj kvs => match kvs with [] => false | _ => true end
  end.

Definition is_str (s : string) (j : json) : bool :=
  match j with JStr s' => bool_decide (s = s') | _ => false end.

(** [k in data] for a [str] key: the keys of a dict, the elements of a list,
    the substrings of a str; other values are not containers. *)
Definition py_in (k : string) (j : json) : res bool :=
  match j with
  | JObj kvs => Ret (bool_decide (is_Some (dget kvs k)))
  | JList l => Ret (existsb (is_str k) l)
  | JStr s => Ret (str_in k s)
  | _ => Raise TypeError
  end.

(** [data[k]] for a [str] key *)
Definition py_getitem (j : json) (k : string) : res json :=
  match j with
  | JObj kvs => match dget kvs k with Some v => Ret v | None => Raise (KeyError k) end
  | _ => Raise TypeError
  end.

(** [data.items()], [data.values()] *)
Definition py_items (j : json) : res (list (string * json)) :=
  match j with JObj kvs => Ret kvs | _ => Raise AttributeError end.
Definition py_values (j : json) : res (list json) :=
  match j with JObj kvs => Ret kvs.*2 | _ => Raise AttributeError end.

(** [data.get(k, default)] *)
Definition py_get (j : json) (k : string) (default : json) : res json :=
  match j with
  | JObj kvs => Ret (match dget kvs k with Some v => v | None => default end)
  | _ => Raise AttributeError
  end.

(** [repr(data)] and [str(data)] *)
Fixpoint py_repr (j : json) : string :=
  match j with
  | JNull => "None"
  | JBool true => "True"
  | JBool false => "False"
  | JInt z => str_int z
  | JFloat r => r
  | JStr s => py_repr_str s
  | JList l => "[" +:+ str_join ", " (map py_repr l) +:+ "]"
  | JObj kvs =>
      "{" +:+ str_join ", " (map (λ kv, py_repr_str kv.1 +:+ ": " +:+ py_repr kv.2) kvs) +:+ "}"
  end.
Definition py_str (j : json) : string :=
  match j with JStr s => s | _ => py_repr j end.

(** Objects returned by [json.load] have distinct keys, at every depth. *)
Fixpoint json_wf (j : json) : Prop :=
  match j with
  | JList l => foldr (λ j P, json_wf j ∧ P) True l
  | JObj kvs => NoDup (dkeys kvs) ∧ foldr (λ kv P, json_wf kv.2 ∧ P) True kvs
  | _ => True
  end.

Lemma json_wf_obj kvs k v : json_wf (JObj kvs) → (k, v) ∈ kvs → json_wf v.
Proof.
  simpl. intros [_ H]. revert H. induction kvs as [|kv kvs IH]; [by intros _ ?%elem_of_nil|].
  simpl. intros [H1 H2] [<-|Hin]%elem_of_cons; auto.
Qed.

Lemma json_wf_keys kvs : json_wf (JObj kvs) → NoDup (dkeys kvs).
Proof. by intros [? _]. Qed.
