(* ===== verification/Schema.v ===== *)
(** * Configuration validation: [validate_config] and [CONFIG_SCHEMA] of [docker/build.py] *)

From Stdlib Require Import Ascii.
From stdpp Require Import base list strings sorting sets.
From S2P Require Import Prelude PyStr PyJson.

(** The Python types a schema names. *)
Inductive pytype := TDict | TStr | TList.

Definition pytype_name (t : pytype) : string :=
  match t with TDict => "dict" | TStr => "str" | TList => "list" end.

Definition isinstance (j : json) (t : pytype) : bool :=
  match t, j with
  | TDict, JObj _ | TStr, JStr _ | TList, JList _ => true
  | _, _ => false
  end.

(** A schema: the ["type"], ["properties"] and ["additional_properties"] of the
    dictionary; an absent ["properties"] is [[]], an absent
    ["additional_properties"] is [ATrue]. *)
Inductive schema :=
  | Schema (ty : option pytype) (properties : list (string * schema)) (additional : addl)
with addl :=
  | ATrue
  | AFalse
  | ASchema (s : schema).

Definition str_schema : schema := Schema (Some TStr) [] ATrue.
Definition str_dict_schema : schema := Schema (Some TDict) [] (ASchema str_schema).

Definition REGISTRY_SCHEMA : schema :=
  Schema (Some TDict)
    [("host", str_schema); ("project", str_schema);
     ("repository", str_schema); ("namespace", str_schema)] AFalse.

Definition IMAGE_SCHEMA : schema :=
  Schema (Some TDict)
    [("packages", str_dict_schema); ("keys", str_dict_schema);
     ("repositories", str_dict_schema)] AFalse.

Definition IMAGES_SCHEMA : schema := Schema (Some TDict) [] (ASchema IMAGE_SCHEMA).

Definition DOCKER_SCHEMA : schema :=
  Schema (Some TDict)
    [("registry", REGISTRY_SCHEMA);
     ("run", Schema (Some TList) [] ATrue);
     ("images", IMAGES_SCHEMA)] AFalse.

Definition CONFIG_SCHEMA : schema :=
  Schema (Some TDict) [("docker", DOCKER_SCHEMA)] AFalse.

(** [f"{path}.{key}" if path else key] *)
Definition sub_path (path key : string) : string :=
  if str_truthy path then path +:+ "." +:+ key else key.

Definition type_error_msg (path : string) (t : pytype) (data : json) : string :=
  "Invalid type at '" +:+ path +:+ "'. Expected " +:+ pytype_name t +:+
  ", got " +:+ type_name data +:+ ".".

Definition extra_keys_msg (path : string) (extra : list string) : string :=
  "Unexpected fields at '" +:+ path +:+ "': " +:+
  str_join ", " (merge_sort String.le extra).

(** [set(data.keys()) - set(properties.keys())] *)
Definition extra_keys (kvs : list (string * json)) (properties : list string) : list string :=
  remove_dups (filter (.∉ properties) (dkeys kvs)).

Fixpoint validate_config (sch : schema) (data : json) (path : string) : res unit :=
  match sch with
  | Schema ty properties additional =>
      _ ← match ty with
          | Some t => if isinstance data t then Ret tt
                      else Raise (ValueError (type_error_msg path t data))
          | None => Ret tt
          end;
      match data with
      | JObj kvs =>
          _ ← match additional with
              | AFalse =>
                  match extra_keys kvs (dkeys properties) with
                  | [] => Ret tt
                  | extra => Raise (ValueError (extra_keys_msg path extra))
                  end
              | _ => Ret tt
              end;
          _ ← check_all (λ '(key, prop_schema),
                match dget kvs key with
                | Some v => validate_config prop_schema v (sub_path path key)
                | None => Ret tt
                end) properties;
          match additional with
          | ASchema s =>
              check_all (λ '(key, value),
                if bool_decide (key ∈ dkeys properties) then Ret tt
                else validate_config s value (sub_path path key)) kvs
          | _ => Ret tt
          end
      | _ => Ret tt
      end
  end.

(** ** What a schema accepts *)

Inductive conforms : schema → json → Prop :=
  | conforms_intro ty properties additional data :
      (∀ t, ty = Some t → isinstance data t = true) →
      (∀ kvs k, data = JObj kvs → additional = AFalse → k ∈ dkeys kvs → k ∈ dkeys properties) →
      (∀ kvs k s v, data = JObj kvs → (k, s) ∈ properties → dget kvs k = Some v → conforms s v) →
      (∀ kvs k s v, data = JObj kvs → additional = ASchema s → (k, v) ∈ kvs →
                    k ∉ dkeys properties → conforms s v) →
      conforms (Schema ty properties additional) data.

Lemma extra_keys_nil kvs props :
  extra_keys kvs props = [] ↔ ∀ k, k ∈ dkeys kvs → k ∈ props.
Proof.
  unfold extra_keys. split.
  - intros H k Hk. destruct (decide (k ∈ props)); [done|].
    assert (k ∈ remove_dups (filter (.∉ props) (dkeys kvs))) as Hin.
    { by rewrite elem_of_remove_dups, list_elem_of_filter. }
    rewrite H in Hin. set_solver.
  - intros H. destruct (remove_dups _) as [|k l] eqn:Hr; [done|].
    assert (k ∈ remove_dups (filter (.∉ props) (dkeys kvs))) as Hk by (rewrite Hr; left).
    rewrite elem_of_remove_dups, list_elem_of_filter in Hk. naive_solver.
Qed.

Lemma validate_config_conforms data sch path :
  validate_config sch data path = Ret tt ↔ conforms sch data.
Proof.
  revert sch path. induction data using json_nested_ind; intros [ty props addl] path.
  1-6: split; [intros Hv|inversion 1 as [? ? ? ? Hty]; subst; simpl];
    [ constructor; [|done..]; intros t ->; simpl in Hv; by destruct (isinstance _ t)
    | destruct ty; [rewrite Hty by done|]; done ].
  assert (∀ k v, (k, v) ∈ kvs → ∀ sch path, validate_config sch v path = Ret tt ↔ conforms sch v)
    as IH.
  { intros k v Hin. rewrite Forall_forall in H. by apply (H (k, v)). }
  clear H. cbn [validate_config]. split.
  - intros ([] & Hty & ([] & Hextra & ([] & Hprops & Hv)%bind_Ret)%bind_Ret)%bind_Ret.
    rewrite check_all_ok in Hprops. constructor.
    + intros t ->. by destruct (isinstance _ t).
    + intros ? k [= <-] -> Hk. destruct (extra_keys _ _) eqn:Hx; [|done].
      by apply (proj1 (extra_keys_nil _ _) Hx).
    + intros ? k s v [= <-] Hin Hget. specialize (Hprops _ Hin). simpl in Hprops.
      rewrite Hget in Hprops. eapply IH; eauto using dget_elem_of.
    + intros ? k s v [= <-] -> Hin Hk. rewrite check_all_ok in Hv.
      specialize (Hv _ Hin). simpl in Hv. rewrite bool_decide_false in Hv by done.
      by eapply IH.
  - inversion 1 as [? ? ? ? Hty Hextra Hprops Hadd]; subst.
    apply bind_Ret. exists tt. split; [destruct ty; [by rewrite Hty|done]|].
    apply bind_Ret. exists tt. split.
    { destruct addl; [done| |done]. by rewrite (proj2 (extra_keys_nil kvs (dkeys props))) by eauto. }
    apply bind_Ret. exists tt. split.
    { apply check_all_ok. intros [k s] Hin. destruct (dget kvs k) as [v|] eqn:Hget; [|done].
      eapply IH; eauto using dget_elem_of. }
    destruct addl as [| |s]; [done|done|]. apply check_all_ok. intros [k v] Hin.
    case_bool_decide; [done|]. eapply IH; eauto.
Qed.

Lemma validate_config_raise data sch path e :
  validate_config sch data path = Raise e → is_ValueError e = true.
Proof.
  revert sch path. induction data using json_nested_ind; intros [ty props addl] path.
  1-6: simpl; destruct ty as [t|]; [destruct t|]; simpl; intros; by simplify_eq.
  assert (∀ k v, (k, v) ∈ kvs → ∀ sch path, validate_config sch v path = Raise e →
          is_ValueError e = true) as IH.
  { intros k v Hin. rewrite Forall_forall in H. by apply (H (k, v)). }
  clear H. cbn [validate_config].
  intros [Hv|([] & _ & [Hv|([] & _ & [Hv|([] & _ & Hv)]%bind_Raise)]%bind_Raise)]%bind_Raise.
  - destruct ty as [[]|]; simpl in *; by simplify_eq.
  - repeat case_match; by simplify_eq.
  - apply check_all_raise in Hv as ([k s] & _ & Hf). case_match; [|done]. eauto using dget_elem_of.
  - destruct addl; [done..|]. apply check_all_raise in Hv as ([k v] & Hin & Hf).
    case_bool_decide; [done|]. eauto.
Qed.

(** ** Reading a conforming value *)

Lemma conforms_dict props a data :
  conforms (Schema (Some TDict) props a) data → ∃ kvs, data = JObj kvs.
Proof. inversion 1 as [? ? ? ? Hty]; subst. specialize (Hty TDict eq_refl). destruct data; naive_solver. Qed.

Lemma conforms_str data : conforms str_schema data → ∃ s, data = JStr s.
Proof. inversion 1 as [? ? ? ? Hty]; subst. specialize (Hty TStr eq_refl). destruct data; naive_solver. Qed.

Lemma conforms_prop ty props a kvs k s v :
  conforms (Schema ty props a) (JObj kvs) → (k, s) ∈ props → dget kvs k = Some v → conforms s v.
Proof. inversion 1; subst. eauto. Qed.

Lemma conforms_additional ty props s kvs k v :
  conforms (Schema ty props (ASchema s)) (JObj kvs) → (k, v) ∈ kvs → k ∉ dkeys props →
  conforms s v.
Proof. inversion 1; subst. eauto. Qed.

Lemma conforms_str_dict data :
  conforms str_dict_schema data →
  ∃ kvs, data = JObj kvs ∧ ∀ k v, (k, v) ∈ kvs → ∃ s, v = JStr s.
Proof.
  intros Hc. destruct (conforms_dict _ _ _ Hc) as [kvs ->]. exists kvs. split; [done|].
  intros k v Hin. apply conforms_str. eapply conforms_additional; [done..|]. set_solver.
Qed.
