(* ===== verification/Registry.v ===== *)
(** * Registry configuration: [parse_registry_config] and [get_image_prefix] of [docker/build.py]

    The file system is what the process observes of it: the class [FileSystem]
    gives the result of each call the scripts make, with the laws they rely
    on: [json.load] returns objects with distinct keys, and a failed read
    raises an [Exception]. *)

From Stdlib Require Import Ascii.
From stdpp Require Import base list strings sets.
From S2P Require Import Prelude PyStr PyJson Schema.

Class FileSystem := {
  path_exists : string → bool;             (* [Path.exists], [os.path.exists] *)
  json_load : string → res json;           (* [open(p)] and [json.load] *)
  read_bytes : string → res (list Z);      (* [open(p, "rb")] and [read] *)
  realpath : string → string;              (* [os.path.realpath] *)
  json_load_wf : ∀ p j, json_load p = Ret j → json_wf j;
  json_load_exn : ∀ p e, json_load p = Raise e → is_Exception e = true;
  read_bytes_exn : ∀ p e, read_bytes p = Raise e → is_Exception e = true;
}.

(** [path / name] for a [pathlib.Path] given by its [str] *)
Definition path_div (path name : string) : string :=
  if bool_decide (path = ".") then name else os_path_join path name.

Definition parse_registry_config (config : json) : res (string * string) :=
  has_docker ← py_in "docker" config;
  if has_docker : bool then
    docker_config ← py_getitem config "docker";
    has_registry ← py_in "registry" docker_config;
    if has_registry : bool then
      registry ← py_getitem docker_config "registry";
      has_host ← py_in "host" registry;
      has_project ← (if has_host : bool then py_in "project" registry else Ret false);
      has_all ← (if has_project : bool then py_in "repository" registry else Ret false);
      repo ← (if has_all : bool then
                host ← py_getitem registry "host";
                project ← py_getitem registry "project";
                repository ← py_getitem registry "repository";
                Ret (if truthy host && truthy project && truthy repository
                     then py_str host +:+ "/" +:+ py_str project +:+ "/" +:+ py_str repository
                     else "")
              else Ret "");
      has_ns ← py_in "namespace" registry;
      namespace ← (if has_ns : bool then
                     ns ← py_getitem registry "namespace";
                     Ret (if truthy ns then "devkit/" +:+ py_str ns else "devkit")
                   else Ret "devkit");
      Ret (repo, namespace)
    else Ret ("", "devkit")
  else Ret ("", "devkit").

(** [except (json.JSONDecodeError, KeyError, ValueError)] *)
Definition prefix_handled (e : exn) : bool :=
  is_ValueError e || match e with KeyError _ => true | _ => false end.

Definition get_image_prefix `{FileSystem} (config_path : string) : res string :=
  if path_exists config_path then
    try_except prefix_handled
      (config ← json_load config_path;
       '(repo, namespace) ← parse_registry_config config;
       Ret (if str_truthy repo then repo +:+ "/" +:+ namespace else namespace))
      (λ _, Ret "devkit")
  else Ret "devkit".

(** ** The registry of a valid configuration *)

Definition lookup_str (kvs : list (string * json)) (k : string) : string :=
  match dget kvs k with Some (JStr s) => s | _ => "" end.

(** The registry section, [[]] when there is none. *)
Definition registry_section (config : json) : list (string * json) :=
  match config with
  | JObj kvs =>
      match dget kvs "docker" with
      | Some (JObj d) => match dget d "registry" with Some (JObj r) => r | _ => [] end
      | _ => []
      end
  | _ => []
  end.

(** What the registry section of a valid configuration means. *)
Definition registry_repo (r : list (string * json)) : string :=
  let h := lookup_str r "host" in
  let p := lookup_str r "project" in
  let y := lookup_str r "repository" in
  if str_truthy h && str_truthy p && str_truthy y then h +:+ "/" +:+ p +:+ "/" +:+ y else "".

Definition registry_namespace (r : list (string * json)) : string :=
  let n := lookup_str r "namespace" in
  if str_truthy n then "devkit/" +:+ n else "devkit".

Lemma parse_registry_section config :
  conforms CONFIG_SCHEMA config →
  parse_registry_config config =
    Ret (registry_repo (registry_section config), registry_namespace (registry_section config)).
Proof.
  intros Hc. destruct (conforms_dict _ _ _ Hc) as [kvs ->].
  unfold parse_registry_config, registry_section. simpl.
  destruct (dget kvs "docker") as [d|] eqn:Hd; simpl; [|done].
  apply (conforms_prop _ _ _ _ "docker" DOCKER_SCHEMA d) in Hc; [|set_solver|done].
  destruct (conforms_dict _ _ _ Hc) as [dk ->]. simpl.
  destruct (dget dk "registry") as [r|] eqn:Hr; simpl; [|done].
  apply (conforms_prop _ _ _ _ "registry" REGISTRY_SCHEMA r) in Hc; [|set_solver|done].
  destruct (conforms_dict _ _ _ Hc) as [rk ->]. simpl.
  assert (∀ k v, k ∈ ["host"; "project"; "repository"; "namespace"] → dget rk k = Some v →
            ∃ s, v = JStr s) as Hstr.
  { intros k v Hk Hget. apply conforms_str. eapply conforms_prop; [done| |done].
    unfold REGISTRY_SCHEMA. set_solver. }
  unfold registry_repo, registry_namespace, lookup_str.
  destruct (dget rk "host") as [h|] eqn:Hh; [destruct (Hstr "host" h) as [? ->]; [set_solver|done|]|];
  (destruct (dget rk "project") as [p|] eqn:Hp; [destruct (Hstr "project" p) as [? ->]; [set_solver|done|]|]);
  (destruct (dget rk "repository") as [y|] eqn:Hy; [destruct (Hstr "repository" y) as [? ->]; [set_solver|done|]|]);
  (destruct (dget rk "namespace") as [n|] eqn:Hn; [destruct (Hstr "namespace" n) as [? ->]; [set_solver|done|]|]);
  simpl; rewrite ?andb_false_r; try done.
Qed.
