(* ===== verification/Builder.v ===== *)
(** * Image graph and content-addressed tags: [DockerBuilder] of [docker/build.py]

    The attributes [__init__] sets are the record [builder]; [generated_tags],
    the one attribute the later methods change, is the state of an [ST] monad.
    A Python set of names is a [gset string]; the class [SetOrder] gives the
    order in which Python enumerates it, of which nothing but completeness is
    known. *)

From Stdlib Require Import Ascii.
From stdpp Require Import base list strings sorting gmap relations.
From S2P Require Import Prelude PyStr PyJson Schema Sha256 Graphlib Registry.

Class SetOrder := {
  set_iter : gset string → list string;
  set_iter_perm : ∀ s, set_iter s ≡ₚ elements s;
}.

(** ** Loading *)

Section load.
Context `{FileSystem}.

(** Loads all [deps.json] files of the search paths. *)
Definition load_image_configs (search_paths : list string) : res (dict json) :=
  for_each search_paths (λ path all_configs,
    let deps_file := path_div path "deps.json" in
    if path_exists deps_file then
      match json_load deps_file with
      | Ret (JObj configs) => Ret (dupdate all_configs configs)
      | Ret _ => Ret all_configs
      | Raise JSONDecodeError => Raise (SystemExit 1)
      | Raise e => Raise e
      end
    else Ret all_configs) [].

Record builder := Builder {
  config_path : string;
  search_paths : list string;
  repo : string;
  namespace : string;
  arch : string;
  extra_packages_map : dict (list string);
  extra_keys_map : dict (list string);
  extra_repositories_map : dict (list string);
  image_configs_map : dict json;
}.

(** The three maps [_load_images_config] fills. *)
Definition extra_maps : Type := dict (list string) * dict (list string) * dict (list string).

(** [[f"{k}={v}" for k, v in settings[section].items()]] *)
Definition key_values (items : list (string * json)) : list string :=
  map (λ '(k, v), k +:+ "=" +:+ py_str v) items.

Definition load_image_settings (img : string) (settings : json) (maps : extra_maps) : res extra_maps :=
  let '(packages_map, keys_map, repositories_map) := maps in
  has_packages ← py_in "packages" settings;
  packages_map ← (if has_packages : bool then
                    section ← py_getitem settings "packages";
                    items ← py_items section;
                    _ ← check_all (λ '(_, v), if truthy v then Ret tt else Raise (SystemExit 1)) items;
                    Ret (dset packages_map img (key_values items))
                  else Ret packages_map);
  has_keys ← py_in "keys" settings;
  keys_map ← (if has_keys : bool then
                section ← py_getitem settings "keys";
                items ← py_items section;
                Ret (dset keys_map img (key_values items))
              else Ret keys_map);
  has_repositories ← py_in "repositories" settings;
  repositories_map ← (if has_repositories : bool then
                        section ← py_getitem settings "repositories";
                        items ← py_items section;
                        Ret (dset repositories_map img (key_values items))
                      else Ret repositories_map);
  Ret (packages_map, keys_map, repositories_map).

Definition _load_images_config (config : json) : res extra_maps :=
  docker ← py_getitem config "docker";
  has_images ← py_in "images" docker;
  if has_images : bool then
    images ← py_getitem docker "images";
    items ← py_items images;
    for_each items (λ '(img, settings), load_image_settings img settings) ([], [], [])
  else Ret ([], [], []).

(** Repository, namespace and extra maps after [_load_config]. *)
Definition _load_config (config_path : string) : res (string * string * extra_maps) :=
  if path_exists config_path then
    try_except is_ValueError
      (config ← json_load config_path;
       _ ← validate_config CONFIG_SCHEMA config "";
       has_docker ← py_in "docker" config;
       if has_docker : bool then
         '(r, n) ← parse_registry_config config;
         maps ← _load_images_config config;
         Ret (r, n, maps)
       else Ret ("", "devkit", ([], [], [])))
      (λ _, Raise (SystemExit 1))
  else Ret ("", "devkit", ([], [], [])).

(** [DockerBuilder(config_path, search_paths)] *)
Definition DockerBuilder (config_path : string) (search_paths : list string) : res builder :=
  '(r, n, (packages_map, keys_map, repositories_map)) ← _load_config config_path;
  configs ← load_image_configs search_paths;
  Ret (Builder config_path search_paths r n "amd64"
         packages_map keys_map repositories_map configs).
End load.

(** ** The dependency graph *)

(** [deps.items()] of the [dict[str, str]] that [ImageConfig] declares. *)
Definition dep_items (deps : json) : res (dict string) :=
  items ← py_items deps;
  map_res (λ '(arg, v), match v with JStr s => Ret (arg, s) | _ => Raise TypeError end) items.

(** [conf["deps"].items()] *)
Definition conf_deps (conf : json) : res (dict string) :=
  deps ← py_getitem conf "deps";
  dep_items deps.

(** [{name: set(conf["deps"].values()) for name, conf in ...items()}] *)
Definition full_graph (configs : dict json) : res (dict (gset string)) :=
  map_res (λ '(name, conf), deps ← conf_deps conf; Ret (name, list_to_set (dvalues deps))) configs.

Section order.
Context `{SetOrder}.

(** [s.pop()] *)
Definition set_pop (s : gset string) : option (string * gset string) :=
  match set_iter s with [] => None | x :: _ => Some (x, s ∖ {[x]}) end.

(** The [while nodes_to_visit] loop of [get_dependency_subgraph]. *)
Fixpoint visit (fuel : nat) (g : dict (gset string)) (nodes_to_visit visited : gset string)
    : gset string :=
  match fuel with
  | O => visited
  | S fuel =>
      match set_pop nodes_to_visit with
      | None => visited
      | Some (current_node, rest) =>
          if decide (current_node ∈ visited) then visit fuel g rest visited
          else visit fuel g (match dget g current_node with
                             | Some deps => rest ∪ deps
                             | None => rest
                             end) ({[current_node]} ∪ visited)
      end
  end.

(** All names the loop can meet, and enough steps for it: a visited name is
    never visited again, and between two visits the set to visit shrinks. *)
Definition visit_universe (g : dict (gset string)) (targets : gset string) : gset string :=
  targets ∪ ⋃ (dvalues g).
Definition visit_fuel (g : dict (gset string)) (targets : gset string) : nat :=
  let n := size (visit_universe g targets) in S (n * S n + n).

Definition reachable_nodes (g : dict (gset string)) (targets : gset string) : gset string :=
  visit (visit_fuel g targets) g targets ∅.

(** [{node: full_graph[node] for node in visited_nodes if node in full_graph}] *)
Definition restrict_graph (g : dict (gset string)) (visited : gset string) : dict (gset string) :=
  omap (λ n, (λ s, (n, s)) <$> dget g n) (set_iter visited).

(** [graphlib.TopologicalSorter(graph).static_order()] *)
Definition sorter_graph (g : dict (gset string)) : list (string * list string) :=
  map (λ '(n, s), (n, set_iter s)) g.
Definition topological_sort (g : dict (gset string)) : res (list string) :=
  try_except is_Exception (static_order (sorter_graph g)) (λ _, Raise (SystemExit 1)).

Definition get_dependency_subgraph (targets : list string) (configs : dict json)
    : res (list string) :=
  g ← full_graph configs;
  topological_sort (restrict_graph g (reachable_nodes g (list_to_set targets))).

Definition get_build_order (b : builder) (target_images : list string) : res (list string) :=
  match target_images with
  | _ :: _ => get_dependency_subgraph target_images (image_configs_map b)
  | [] => g ← full_graph (image_configs_map b); topological_sort g
  end.
End order.

(** ** Tags *)

Section tags.
Context `{FileSystem} `{Hash}.

Definition calculate_sha256 (dockerfile_path : string) (sorted_build_args : list string) : res string :=
  content ← read_bytes dockerfile_path;
  Ret (hexdigest (content ++ mjoin (encode_utf8 <$> sorted_build_args))).

Definition get_image_tag (b : builder) (image_name sha : string) : string :=
  let image_path := namespace b +:+ "/" +:+ image_name in
  let tag_suffix := arch b +:+ "-" +:+ sha in
  if str_truthy (repo b) then repo b +:+ "/" +:+ image_path +:+ ":" +:+ tag_suffix
  else image_path +:+ ":" +:+ tag_suffix.

(** The first search path that holds [<image>.Dockerfile]. *)
Fixpoint find_dockerfile (paths : list string) (image_name : string) : option string :=
  match paths with
  | [] => None
  | path :: paths =>
      let potential_path := os_path_join path (image_name +:+ ".Dockerfile") in
      if path_exists potential_path then Some potential_path
      else find_dockerfile paths image_name
  end.

(** The [EXTRA_*] arguments: name and value, for the non-empty settings. *)
Definition extra_args (b : builder) (image_name : string) : list (string * string) :=
  omap (λ '(m, arg_name),
          match dget m image_name with
          | Some (v :: vs) => Some (arg_name, str_join " " (v :: vs))
          | _ => None
          end)
    [(extra_packages_map b, "EXTRA_PACKAGES"); (extra_keys_map b, "EXTRA_KEYS");
     (extra_repositories_map b, "EXTRA_REPOSITORIES")].

Definition arg_eq (kv : string * string) : string := kv.1 +:+ "=" +:+ kv.2.

(** [build_args_for_sha_calc.sort()] *)
Definition sorted_args (args : list (string * string)) : list string :=
  merge_sort String.le (arg_eq <$> args).

(** [calculate_tag_for_image]; [depth] is the number of Python frames left. *)
Fixpoint calculate_tag_for_image (depth : nat) (b : builder) (image_name : string)
    : ST (dict string) string :=
  match depth with
  | O => raise RecursionError
  | S depth =>
      generated_tags ← get;
      match dget generated_tags image_name with
      | Some tag => mret tag
      | None =>
          match dget (image_configs_map b) image_name with
          | None => raise (KeyError image_name)
          | Some image_conf =>
              dependencies ← lift (py_getitem image_conf "deps");
              match find_dockerfile (search_paths b) image_name with
              | None => sys_exit 1
              | Some dockerfile_path =>
                  items ← lift (dep_items dependencies);
                  dep_args ← mapM (λ '(arg_name, dep_image_name),
                    dep_tag ← calculate_tag_for_image depth b dep_image_name;
                    mret (arg_name, dep_tag)) items;
                  sha ← lift (calculate_sha256 (realpath dockerfile_path)
                                (sorted_args (dep_args ++ extra_args b image_name)));
                  let tag := get_image_tag b image_name sha in
                  _ ← modify (λ tags, dset tags image_name tag);
                  mret tag
              end
          end
      end
  end.

(** [self.generated_tags[name]] *)
Definition tag_lookup (name : string) : ST (dict string) string :=
  tags ← get; match dget tags name with Some t => mret t | None => raise (KeyError name) end.

Definition calculate_tags `{SetOrder} (depth : nat) (b : builder) (target_images : list string)
    : ST (dict string) (list string) :=
  images_to_process ← lift (get_build_order b target_images);
  _ ← mapM_ (λ name, _ ← calculate_tag_for_image depth b name; mret tt) images_to_process;
  mapM tag_lookup images_to_process.

Definition get_all_docker_image_tags `{SetOrder} (depth : nat) (config_path : string)
    (search_paths : list string) (target_images : list string) : res (list string) :=
  b ← DockerBuilder config_path search_paths;
  (calculate_tags depth b target_images []).1.
End tags.
