(* ===== verification/BuildOrder.v ===== *)
(** * The build order is the dependency order

    Theorems about [full_graph], the reachability loop, [get_dependency_subgraph]
    and [get_build_order] of [docker/build.py]. *)

From stdpp Require Import base list strings sorting gmap relations.
From S2P Require Import Prelude PyStr PyJson Schema Sha256 Graphlib Registry Builder.

(** Image [n] depends on image [p]: [p] is a value of [configs[n]["deps"]]. *)
Definition image_dep (configs : dict json) (n p : string) : Prop :=
  ∃ conf deps, dget configs n = Some conf ∧ conf_deps conf = Ret deps ∧ p ∈ dvalues deps.

(** The edges of a graph of sets. *)
Definition edge (g : dict (gset string)) (n p : string) : Prop :=
  ∃ s, dget g n = Some s ∧ p ∈ s.

Lemma full_graph_lookup configs g n :
  full_graph configs = Ret g →
  dget g n = match dget configs n with
             | Some conf => match conf_deps conf with
                            | Ret deps => Some (list_to_set (dvalues deps))
                            | Raise _ => None
                            end
             | None => None
             end.
Proof.
  unfold full_graph. revert g. induction configs as [|[k conf] configs IH]; intros g.
  { intros [= <-]. done. }
  simpl. intros ([k' s] & (deps & Hdeps & [= <- <-])%bind_Ret & (g' & Hg & [= <-])%bind_Ret)%bind_Ret.
  simpl. case_decide; [by rewrite Hdeps|]. by apply IH.
Qed.

Lemma full_graph_keys configs g : full_graph configs = Ret g → dkeys g = dkeys configs.
Proof.
  unfold full_graph. revert g. induction configs as [|[k conf] configs IH]; intros g.
  { by intros [= <-]. }
  simpl. intros ([k' s] & (deps & Hdeps & [= <- <-])%bind_Ret & (g' & Hg & [= <-])%bind_Ret)%bind_Ret.
  simpl. f_equal. by apply IH.
Qed.

Lemma full_graph_edge configs g n p :
  full_graph configs = Ret g → edge g n p ↔ image_dep configs n p.
Proof.
  intros Hg. unfold edge, image_dep. rewrite (full_graph_lookup configs g n Hg).
  destruct (dget configs n) as [conf|]; [|by split; [intros (? & ? & ?)|intros (? & ? & ? & ?)]].
  destruct (conf_deps conf) as [deps|] eqn:Hd; [|by split; [intros (? & ? & ?)|intros (? & ? & [= <-] & Hd' & _); rewrite Hd in Hd']].
  split.
  - intros (s & [= <-] & Hp). exists conf, deps. split_and!; [done..|]. by apply elem_of_list_to_set in Hp.
  - intros (? & ? & [= <-] & Hd' & Hp). rewrite Hd in Hd'. simplify_eq. eexists. split; [done|]. by apply elem_of_list_to_set.
Qed.

Lemma full_graph_total configs g n :
  full_graph configs = Ret g → n ∈ dkeys configs → is_Some (dget g n).
Proof. intros Hg Hn. apply dget_keys. by rewrite (full_graph_keys _ _ Hg). Qed.

Lemma tc_dep_first {A} (R : relation A) x y : tc R x y → ∃ z, R x z.
Proof. destruct 1; eauto. Qed.

Section order.
Context `{SetOrder}.

Lemma elem_of_set_iter x s : x ∈ set_iter s ↔ x ∈ s.
Proof. by rewrite set_iter_perm, elem_of_elements. Qed.

Lemma NoDup_set_iter s : NoDup (set_iter s).
Proof. rewrite set_iter_perm. apply NoDup_elements. Qed.

Lemma set_pop_None s : set_pop s = None → s = ∅.
Proof.
  unfold set_pop. destruct (set_iter s) as [|x l] eqn:Hs; [|done]. intros _.
  apply set_eq. intros y. rewrite <-elem_of_set_iter, Hs. set_solver.
Qed.

Lemma set_pop_Some s x r : set_pop s = Some (x, r) → x ∈ s ∧ r = s ∖ {[x]}.
Proof.
  unfold set_pop. destruct (set_iter s) as [|y l] eqn:Hs; [done|]. intros [= -> <-].
  split; [|done]. rewrite <-elem_of_set_iter, Hs. left.
Qed.

(** ** The reachability loop *)
Section visit.
Context (g : dict (gset string)) (targets : gset string).

Definition reached (n : string) : Prop := ∃ t, t ∈ targets ∧ rtc (edge g) t n.

Record visit_inv (todo visited : gset string) : Prop := {
  vi_reached : ∀ n, n ∈ todo ∪ visited → reached n;
  vi_targets : targets ⊆ todo ∪ visited;
  vi_closed : ∀ n p, n ∈ visited → edge g n p → p ∈ todo ∪ visited;
  vi_universe : todo ∪ visited ⊆ visit_universe g targets;
}.

Lemma edge_universe n p : edge g n p → p ∈ visit_universe g targets.
Proof.
  intros (s & Hs%dget_elem_of & Hp). unfold visit_universe. apply elem_of_union_r.
  apply elem_of_union_list. exists s. split; [|done].
  by apply (list_elem_of_fmap_2 snd _ _ Hs).
Qed.

Lemma visit_inv_skip todo visited x :
  visit_inv todo visited → x ∈ todo → x ∈ visited → visit_inv (todo ∖ {[x]}) visited.
Proof.
  intros [Hr Ht Hc Hu] Hx Hv.
  assert (todo ∖ {[x]} ∪ visited = todo ∪ visited) as Heq.
  { apply set_eq. intros y. destruct (decide (y = x)); set_solver. }
  split; rewrite Heq; auto.
Qed.

Lemma visit_inv_step todo visited x :
  visit_inv todo visited → x ∈ todo →
  visit_inv (match dget g x with Some deps => todo ∖ {[x]} ∪ deps | None => todo ∖ {[x]} end)
    ({[x]} ∪ visited).
Proof.
  intros [Hr Ht Hc Hu] Hx. set (todo' := match dget g x with Some _ => _ | None => _ end).
  assert (∀ y, y ∈ todo' ∪ ({[x]} ∪ visited) ↔ y ∈ todo ∪ visited ∨ edge g x y) as Hin.
  { intros y. unfold todo', edge. destruct (dget g x) as [s|]; destruct (decide (y = x)); set_solver. }
  assert (reached x) as Hrx by set_solver.
  split.
  - intros n [?|He]%Hin; [auto|]. destruct Hrx as (t & ? & ?). exists t.
    split; [done|]. by eapply rtc_r.
  - intros t Hin'. apply Hin. set_solver.
  - intros n p Hn He. apply Hin. apply elem_of_union in Hn as [->%elem_of_singleton|Hn]; eauto.
  - intros y [?|He]%Hin; [set_solver|]. by eapply edge_universe.
Qed.

Lemma visit_correct fuel todo visited :
  visit_inv todo visited →
  size (visit_universe g targets ∖ visited) * S (size (visit_universe g targets)) + size todo < fuel →
  ∀ n, n ∈ visit fuel g todo visited ↔ reached n.
Proof.
  revert todo visited. induction fuel as [|fuel IH]; intros todo visited Hinv Hfuel; [lia|].
  set (U := visit_universe g targets) in *. simpl. destruct (set_pop todo) as [[x rest]|] eqn:Hpop.
  - apply set_pop_Some in Hpop as [Hx ->].
    assert (size (todo ∖ {[x]}) < size todo) as Hlt.
    { rewrite size_difference, size_singleton by set_solver.
      assert (size todo ≠ 0); [|lia]. intros ?%size_empty_inv. set_solver. }
    case_decide as Hv.
    + apply IH; [by apply visit_inv_skip|]. lia.
    + apply IH; [by apply visit_inv_step|]. fold U.
      assert (x ∈ U) as HxU by (apply (vi_universe _ _ Hinv); set_solver).
      assert (size (U ∖ ({[x]} ∪ visited)) < size (U ∖ visited)) as Hlt'.
      { apply subset_size. split; [set_solver|]. intros Hs. specialize (Hs x). set_solver. }
      pose proof (visit_inv_step _ _ x Hinv Hx) as Hinv'.
      set (todo' := match dget g x with Some _ => _ | None => _ end) in *.
      assert (size todo' ≤ size U) as Hle.
      { apply subseteq_size. pose proof (vi_universe _ _ Hinv'). set_solver. }
      nia.
  - apply set_pop_None in Hpop as ->. destruct Hinv as [Hr Ht Hc Hu].
    intros n. split; [set_solver|]. intros (t & Htt & Hrtc).
    assert (t ∈ visited) as Hvis by set_solver. clear Htt.
    induction Hrtc as [|a b c Hab _ IHr]; [done|]. apply IHr. set_solver.
Qed.

Lemma reachable_nodes_correct n : n ∈ reachable_nodes g targets ↔ reached n.
Proof.
  apply visit_correct.
  - split; [intros m Hm; exists m; set_solver|set_solver|set_solver|].
    unfold visit_universe. set_solver.
  - unfold visit_fuel. set (U := visit_universe g targets).
    assert (size (U ∖ ∅) ≤ size U) by (apply subseteq_size; set_solver).
    assert (size targets ≤ size U) by (apply subseteq_size; unfold U, visit_universe; set_solver).
    nia.
Qed.
End visit.

(** ** The sorted subgraph *)

Lemma restrict_graph_keys g V : NoDup (dkeys (restrict_graph g V)).
Proof.
  unfold restrict_graph. generalize (NoDup_set_iter V). generalize (set_iter V) as l.
  induction l as [|x l IH]; simpl; [constructor|]. intros [Hx Hl]%NoDup_cons.
  destruct (dget g x); simpl; [|auto]. apply NoDup_cons. split; [|auto].
  intros (y & -> & (z & Hz & Heq)%list_elem_of_omap)%list_elem_of_fmap.
  destruct (dget g z); naive_solver.
Qed.

Lemma restrict_graph_elem g V n s : (n, s) ∈ restrict_graph g V ↔ n ∈ V ∧ dget g n = Some s.
Proof.
  unfold restrict_graph. rewrite list_elem_of_omap. setoid_rewrite elem_of_set_iter. split.
  - intros (x & Hx & Heq). destruct (dget g x) eqn:Hg; naive_solver.
  - intros [Hn Hs]. exists n. by rewrite Hs.
Qed.

Lemma sorter_graph_dep g n p : NoDup (dkeys g) → dep (sorter_graph g) n p ↔ edge g n p.
Proof.
  intros Hnd. unfold dep, edge, sorter_graph. setoid_rewrite list_elem_of_fmap. split.
  - intros (ps & ([n' s] & [= -> ->] & Hin) & Hp). exists s.
    rewrite elem_of_set_iter in Hp. eauto using elem_of_dget.
  - intros (s & Hs & Hp). exists (set_iter s). rewrite elem_of_set_iter.
    split; [|done]. exists (n, s). eauto using dget_elem_of.
Qed.

Lemma sorter_graph_node g n :
  NoDup (dkeys g) → graph_node (sorter_graph g) n ↔ n ∈ dkeys g ∨ ∃ m, edge g m n.
Proof.
  intros Hnd. unfold graph_node. setoid_rewrite sorter_graph_dep; [|done].
  replace (dkeys (sorter_graph g)) with (dkeys g); [done|].
  unfold dkeys, sorter_graph. rewrite <-list_fmap_compose. apply list_fmap_ext. by intros ? [].
Qed.

(** Dependencies come before what needs them. *)
Definition deps_first (R : string → string → Prop) (out : list string) : Prop :=
  ∀ l1 n l2, out = l1 ++ n :: l2 → ∀ p, R n p → p ∈ l1.

Lemma topological_sort_correct g :
  NoDup (dkeys g) →
  match topological_sort g with
  | Ret out =>
      NoDup out ∧ (∀ n, n ∈ out ↔ n ∈ dkeys g ∨ ∃ m, edge g m n) ∧ deps_first (edge g) out ∧
      ∀ n, ¬ tc (edge g) n n
  | Raise e => e = SystemExit 1 ∧ ∃ n, tc (edge g) n n
  end.
Proof.
  intros Hnd. unfold topological_sort. pose proof (static_order_correct (sorter_graph g)) as Hs.
  assert (∀ n p, tc (dep (sorter_graph g)) n p ↔ tc (edge g) n p) as Htc.
  { intros n p. split; apply tc_congruence with (f := id); intros ??; by apply sorter_graph_dep. }
  destruct (static_order _) as [out|e]; simpl.
  - destruct Hs as (? & Hn & Ht & Hc). split_and!; [done| | |].
    + intros n. rewrite Hn. by apply sorter_graph_node.
    + intros l1 n l2 Heq p Hp. eapply Ht; [done|]. by apply sorter_graph_dep.
    + intros n ?%Htc. by eapply Hc.
  - destruct Hs as (-> & n & ?%Htc). simpl. eauto.
Qed.

Lemma restrict_graph_edge g V n p : edge (restrict_graph g V) n p ↔ n ∈ V ∧ edge g n p.
Proof.
  unfold edge. split.
  - intros (s & [? ?]%dget_elem_of%restrict_graph_elem & ?). eauto.
  - intros (? & s & ? & ?). exists s. split; [|done].
    apply elem_of_dget; [apply restrict_graph_keys|]. by apply restrict_graph_elem.
Qed.

Lemma restrict_graph_key g V n : n ∈ dkeys (restrict_graph g V) ↔ n ∈ V ∧ n ∈ dkeys g.
Proof.
  rewrite <-!dget_keys. split.
  - intros [s [? Hs]%dget_elem_of%restrict_graph_elem]. by rewrite Hs.
  - intros [? [s ?]]. exists s. apply elem_of_dget; [apply restrict_graph_keys|].
    by apply restrict_graph_elem.
Qed.

(** The images a set of targets needs: the targets and all their dependencies. *)
Definition needed (configs : dict json) (targets : list string) (n : string) : Prop :=
  ∃ t, t ∈ targets ∧ rtc (image_dep configs) t n.

Lemma reachable_needed configs g targets n :
  full_graph configs = Ret g →
  n ∈ reachable_nodes g (list_to_set targets) ↔ needed configs targets n.
Proof.
  intros Hg. rewrite reachable_nodes_correct. unfold reached, needed.
  setoid_rewrite elem_of_list_to_set. f_equiv. intros t. f_equiv.
  split; apply rtc_congruence with (f := id); intros ??; by rewrite (full_graph_edge _ _ _ _ Hg).
Qed.

Lemma needed_step configs targets n p :
  needed configs targets n → image_dep configs n p → needed configs targets p.
Proof. intros (t & ? & ?) ?. exists t. split; [done|]. by eapply rtc_r. Qed.

Lemma needed_tc configs (R : string → string → Prop) targets n p :
  (∀ m q, needed configs targets m → image_dep configs m q → R m q) →
  needed configs targets n → tc (image_dep configs) n p → tc R n p.
Proof.
  intros HR Hn Htc. induction Htc as [n p Hnp|n m p Hnm Hmp IH].
  - apply tc_once. auto.
  - eapply tc_l; [by apply HR|]. apply IH. by eapply needed_step.
Qed.

Lemma get_dependency_subgraph_spec targets configs g :
  full_graph configs = Ret g →
  (∀ t, t ∈ targets → t ∈ dkeys configs) →
  match get_dependency_subgraph targets configs with
  | Ret out =>
      NoDup out ∧ (∀ n, n ∈ out ↔ needed configs targets n) ∧
      deps_first (image_dep configs) out ∧
      (∀ n, needed configs targets n → ¬ tc (image_dep configs) n n)
  | Raise e => e = SystemExit 1 ∧ ∃ n, needed configs targets n ∧ tc (image_dep configs) n n
  end.
Proof.
  intros Hg Ht. unfold get_dependency_subgraph. rewrite Hg. simpl.
  set (V := reachable_nodes g (list_to_set targets)).
  assert (∀ n, n ∈ V ↔ needed configs targets n) as HV by (intros; by apply reachable_needed).
  assert (∀ n p, edge (restrict_graph g V) n p ↔ needed configs targets n ∧ image_dep configs n p)
    as He.
  { intros n p. by rewrite restrict_graph_edge, HV, (full_graph_edge _ _ _ _ Hg). }
  pose proof (topological_sort_correct _ (restrict_graph_keys g V)) as Hs.
  destruct (topological_sort _) as [out|e].
  - destruct Hs as (Hnd & Hin & Hdf & Hac).
    assert (∀ n, n ∈ out ↔ needed configs targets n) as Hneed.
    { intros n. rewrite Hin, restrict_graph_key, HV, (full_graph_keys _ _ Hg). setoid_rewrite He.
      split; [naive_solver eauto using needed_step|]. intros (t & Htt & Hrtc).
      apply rtc_inv_r in Hrtc as [->|(m & ? & ?)]; [left|right; exists m]; unfold needed; eauto using rtc_refl. }
    split_and!; [done|done| |].
    + intros l1 n l2 -> p Hp. eapply Hdf; [done|]. apply He. split; [|done].
      apply Hneed. set_solver.
    + intros n Hn Hc. apply (Hac n). eapply needed_tc; [|done..]. intros. by apply He.
  - destruct Hs as (-> & n & Hc). split; [done|]. exists n. split.
    + inversion Hc; naive_solver.
    + eapply tc_congruence with (f := id); [|done]. naive_solver.
Qed.

Lemma get_build_order_all b g :
  full_graph (image_configs_map b) = Ret g → NoDup (dkeys (image_configs_map b)) →
  match get_build_order b [] with
  | Ret out =>
      NoDup out ∧
      (∀ n, n ∈ out ↔ n ∈ dkeys (image_configs_map b) ∨ ∃ m, image_dep (image_configs_map b) m n) ∧
      deps_first (image_dep (image_configs_map b)) out ∧
      ∀ n, ¬ tc (image_dep (image_configs_map b)) n n
  | Raise e => e = SystemExit 1 ∧ ∃ n, tc (image_dep (image_configs_map b)) n n
  end.
Proof.
  intros Hg Hnd. unfold get_build_order. rewrite Hg. simpl.
  assert (∀ n p, edge g n p ↔ image_dep (image_configs_map b) n p) as He.
  { intros. by apply full_graph_edge. }
  assert (∀ n p, tc (edge g) n p ↔ tc (image_dep (image_configs_map b)) n p) as Htc.
  { intros n p. split; apply tc_congruence with (f := id); intros ??; by rewrite He. }
  pose proof (topological_sort_correct g) as Hs. rewrite (full_graph_keys _ _ Hg) in Hs.
  specialize (Hs Hnd). destruct (topological_sort g) as [out|e].
  - destruct Hs as (? & Hin & Hdf & Hac). split_and!; [done| | |].
    + intros n. rewrite Hin. by setoid_rewrite He.
    + intros l1 n l2 ? p Hp. eapply Hdf; [done|]. by apply He.
    + intros n ?%Htc. by eapply Hac.
  - destruct Hs as (-> & n & ?%Htc). eauto.
Qed.

(** The images of a build: those the targets need, or all of them. *)
Definition wanted (configs : dict json) (targets : list string) (n : string) : Prop :=
  match targets with
  | [] => n ∈ dkeys configs ∨ ∃ m, image_dep configs m n
  | _ => needed configs targets n
  end.

Lemma wanted_all configs targets n :
  (∀ t, t ∈ targets → t ∈ dkeys configs) → wanted configs targets n → wanted configs [] n.
Proof.
  intros Ht. destruct targets as [|t0 targets]; [done|]. intros (t & Hin & Hr).
  apply rtc_inv_r in Hr as [->|(m & _ & ?)]; [left; auto|right; eauto].
Qed.

Lemma get_build_order_spec b targets g :
  full_graph (image_configs_map b) = Ret g → NoDup (dkeys (image_configs_map b)) →
  (∀ t, t ∈ targets → t ∈ dkeys (image_configs_map b)) →
  match get_build_order b targets with
  | Ret out =>
      NoDup out ∧ (∀ n, n ∈ out ↔ wanted (image_configs_map b) targets n) ∧
      deps_first (image_dep (image_configs_map b)) out ∧
      (∀ n, wanted (image_configs_map b) targets n → ¬ tc (image_dep (image_configs_map b)) n n)
  | Raise e =>
      e = SystemExit 1 ∧
      ∃ n, wanted (image_configs_map b) targets n ∧ tc (image_dep (image_configs_map b)) n n
  end.
Proof.
  intros Hg Hnd Ht. destruct targets as [|t targets].
  - pose proof (get_build_order_all b g Hg Hnd) as Hs. destruct (get_build_order b []) as [out|e].
    + destruct Hs as (? & ? & ? & ?). split_and!; auto.
    + destruct Hs as (-> & n & Hc). split; [done|]. exists n. split; [|done].
      destruct (tc_dep_first _ _ _ Hc) as [p Hp]. left.
      destruct Hp as (conf & deps & Hget & _). apply dget_keys. by rewrite Hget.
  - exact (get_dependency_subgraph_spec (t :: targets) _ g Hg Ht).
Qed.
End order.
