(* ===== verification/BuildTags.v ===== *)
(** * Tags are a function of the image's content

    [tag_of] says what the tag of an image is, without memoisation, order or
    recursion limit; the theorems show that [calculate_tag_for_image] and
    [calculate_tags] of [docker/build.py] compute it. *)

From stdpp Require Import base list strings sorting gmap relations.
From S2P Require Import Prelude PyStr PyJson Schema Sha256 Graphlib Registry Builder BuildOrder.

Section tag_of.
Context `{FileSystem} `{Hash}.
Implicit Types (b : builder) (tags : dict string).

Inductive tag_of b : string → string → Prop :=
  | tag_of_intro name conf deps dep_args path sha :
      dget (image_configs_map b) name = Some conf →
      conf_deps conf = Ret deps →
      find_dockerfile (search_paths b) name = Some path →
      dep_tags b deps dep_args →
      calculate_sha256 (realpath path) (sorted_args (dep_args ++ extra_args b name)) = Ret sha →
      tag_of b name (get_image_tag b name sha)
with dep_tags b : list (string * string) → list (string * string) → Prop :=
  | dep_tags_nil : dep_tags b [] []
  | dep_tags_cons arg dep deps tag rest :
      tag_of b dep tag → dep_tags b deps rest →
      dep_tags b ((arg, dep) :: deps) ((arg, tag) :: rest).

Scheme tag_of_mut := Minimality for tag_of Sort Prop
  with dep_tags_mut := Minimality for dep_tags Sort Prop.

Lemma tag_of_functional b n t1 t2 : tag_of b n t1 → tag_of b n t2 → t1 = t2.
Proof.
  intros H1. revert t2.
  apply (tag_of_mut b (λ n t, ∀ t2, tag_of b n t2 → t = t2)
           (λ deps args, ∀ args2, dep_tags b deps args2 → args = args2)); [| | |done].
  - intros name conf deps args path sha Hc Hd Hp _ IH Hs t2.
    inversion 1 as [? conf2 deps2 args2 path2 sha2 Hc2 Hd2 Hp2 Ha2 Hs2]; subst.
    rewrite Hc in Hc2. injection Hc2 as <-. rewrite Hd in Hd2. injection Hd2 as <-.
    apply IH in Ha2 as <-. congruence.
  - inversion 1; done.
  - intros arg dep deps tag rest _ IHt _ IHr args2. inversion 1; subst. f_equal; [f_equal|]; auto.
Qed.

(** ** The memo table only holds correct tags *)
Definition tags_ok b tags : Prop := ∀ n t, dget tags n = Some t → tag_of b n t.
Definition tags_extend tags tags' : Prop := ∀ n t, dget tags n = Some t → dget tags' n = Some t.

#[local] Instance tags_extend_preorder : PreOrder tags_extend.
Proof. split; [by intros ???|]. intros t1 t2 t3 H12 H23 n t ?. by apply H23, H12. Qed.

Definition calc_post b name tags (out : res string * dict string) : Prop :=
  tags_ok b out.2 ∧ tags_extend tags out.2 ∧
  ∀ t, out.1 = Ret t → tag_of b name t ∧ dget out.2 name = Some t.

Definition dep_arg depth b (e : string * string) : ST (dict string) (string * string) :=
  let '(arg_name, dep_image_name) := e in
  dep_tag ← calculate_tag_for_image depth b dep_image_name;
  mret (arg_name, dep_tag).

Lemma dep_args_sound depth b deps tags out tags' :
  (∀ name tags, tags_ok b tags → calc_post b name tags (calculate_tag_for_image depth b name tags)) →
  tags_ok b tags → mapM (dep_arg depth b) deps tags = (out, tags') →
  tags_ok b tags' ∧ tags_extend tags tags' ∧ ∀ args, out = Ret args → dep_tags b deps args.
Proof.
  intros IH. revert tags out tags'.
  induction deps as [|[arg dep] deps IHd]; intros tags out tags' Hok Heq.
  { simpl in Heq. unfold mret, ST_ret in Heq. simplify_eq. split_and!; [done..|].
    intros ? [= <-]. constructor. }
  simpl in Heq. unfold mbind, ST_bind, mret, ST_ret in Heq.
  destruct (IH dep tags Hok) as (Hok1 & Hext1 & Hpost).
  destruct (calculate_tag_for_image depth b dep tags) as [[t|e] tags1]; simplify_eq/=; [|by split_and!].
  destruct (mapM (dep_arg depth b) deps tags1) as [out2 tags2] eqn:Hm.
  apply IHd in Hm as (Hok2 & Hext2 & Hargs); [|done].
  assert (tags_extend tags tags2) by (by etrans).
  destruct out2 as [args|e]; simplify_eq/=; [|by split_and!].
  split_and!; [done..|]. intros ? [= <-]. constructor; [by apply Hpost|auto].
Qed.

Lemma calculate_tag_sound depth b name tags :
  tags_ok b tags → calc_post b name tags (calculate_tag_for_image depth b name tags).
Proof.
  revert name tags. induction depth as [|depth IH]; intros name tags Hok; [done|].
  cbn [calculate_tag_for_image]. fold (dep_arg depth b).
  unfold mbind, ST_bind, get, mret, ST_ret, lift, raise, sys_exit, modify, raise.
  destruct (dget tags name) as [t|] eqn:Ht.
  { split_and!; [done..|]. simpl. intros ? [= <-]. auto. }
  destruct (dget (image_configs_map b) name) as [conf|] eqn:Hc; [|done].
  destruct (py_getitem conf "deps") as [djson|] eqn:Hj; [|done].
  destruct (find_dockerfile _ name) as [path|] eqn:Hp; [|done].
  destruct (dep_items djson) as [deps|] eqn:Hd; [|done].
  assert (conf_deps conf = Ret deps) by (unfold conf_deps; by rewrite Hj).
  destruct (mapM (dep_arg depth b) deps tags) as [out tags1] eqn:Hm.
  apply dep_args_sound in Hm as (Hok1 & Hext1 & Hargs); [|done..].
  destruct out as [args|e]; [|done].
  destruct (calculate_sha256 _ _) as [sha|e] eqn:Hs; [|done].
  assert (tag_of b name (get_image_tag b name sha)) as Htag by (econstructor; eauto).
  unfold calc_post; simpl. split_and!.
  - intros n t. rewrite dget_dset. case_decide; [intros [= <-]; by subst|auto].
  - intros n t Hn. rewrite dget_dset. case_decide; [subst; congruence|auto].
  - intros t [= <-]. by rewrite dget_dset_eq.
Qed.

(** ** Two frames are enough once the dependencies are in the table *)
Definition buildable b (n : string) : Prop :=
  ∃ conf deps path content,
    dget (image_configs_map b) n = Some conf ∧ conf_deps conf = Ret deps ∧
    find_dockerfile (search_paths b) n = Some path ∧ read_bytes (realpath path) = Ret content.

Lemma dep_args_memo depth b deps tags :
  (∀ p, p ∈ dvalues deps → is_Some (dget tags p)) →
  ∃ args, mapM (dep_arg (S depth) b) deps tags = (Ret args, tags).
Proof.
  induction deps as [|[arg dep] deps IH]; intros Hd; [by eexists|].
  destruct (Hd dep) as [t Ht]; [left|].
  destruct IH as [args Hargs]; [intros p ?; apply Hd; by right|].
  exists ((arg, t) :: args). simpl. unfold mbind, ST_bind, get, mret, ST_ret. rewrite Ht. simpl.
  unfold mbind, ST_bind, get, mret, ST_ret in Hargs. by rewrite Hargs.
Qed.

Lemma calculate_tag_complete depth b n tags :
  buildable b n → (∀ p, image_dep (image_configs_map b) n p → is_Some (dget tags p)) →
  ∃ t, (calculate_tag_for_image (S (S depth)) b n tags).1 = Ret t.
Proof.
  intros (conf & deps & path & content & Hc & Hd & Hp & Hr) Hdeps.
  destruct (dep_args_memo depth b deps tags) as [args Hargs].
  { intros p Hin. apply Hdeps. exists conf, deps. auto. }
  change (calculate_tag_for_image (S (S depth)) b n) with
    (tags ← get;
     match dget tags n with
     | Some tag => mret tag
     | None =>
         match dget (image_configs_map b) n with
         | None => raise (KeyError n)
         | Some image_conf =>
             dependencies ← lift (py_getitem image_conf "deps");
             match find_dockerfile (search_paths b) n with
             | None => sys_exit 1
             | Some dockerfile_path =>
                 items ← lift (dep_items dependencies);
                 dep_args ← mapM (dep_arg (S depth) b) items;
                 sha ← lift (calculate_sha256 (realpath dockerfile_path)
                               (sorted_args (dep_args ++ extra_args b n)));
                 let tag := get_image_tag b n sha in
                 _ ← modify (λ tags, dset tags n tag);
                 mret tag
             end
         end
     end).
  unfold mbind at 1. unfold ST_bind at 1. unfold get.
  destruct (dget tags n) as [t|]; [by exists t|]. rewrite Hc.
  apply bind_Ret in Hd as (djson & Hj & Hd).
  unfold mbind, ST_bind, lift. rewrite Hj, Hp, Hd, Hargs. unfold calculate_sha256. rewrite Hr. by eexists.
Qed.

Lemma process_all_sound depth b l tags tags' u :
  tags_ok b tags →
  mapM_ (λ name, _ ← calculate_tag_for_image depth b name; mret tt) l tags = (u, tags') →
  tags_ok b tags' ∧ tags_extend tags tags'.
Proof.
  revert tags. induction l as [|n l IH]; intros tags Hok Heq.
  { simpl in Heq. unfold mret, ST_ret in Heq. by simplify_eq. }
  simpl in Heq. unfold mbind, ST_bind, mret, ST_ret in Heq.
  destruct (calculate_tag_sound depth b n tags Hok) as (Hok1 & Hext1 & _).
  destruct (calculate_tag_for_image depth b n tags) as [[t|e] tags1]; simplify_eq/=; [|done].
  apply IH in Heq as [? Hext]; [|done]. split; [done|]. by etrans.
Qed.

Lemma process_all_complete depth b seen l tags :
  tags_ok b tags → (∀ p, p ∈ seen → is_Some (dget tags p)) →
  (∀ l1 n l2, l = l1 ++ n :: l2 → ∀ p, image_dep (image_configs_map b) n p → p ∈ seen ++ l1) →
  (∀ n, n ∈ l → buildable b n) →
  ∃ tags', mapM_ (λ name, _ ← calculate_tag_for_image (S (S depth)) b name; mret tt) l tags
             = (Ret tt, tags') ∧ ∀ n, n ∈ seen ++ l → is_Some (dget tags' n).
Proof.
  revert seen tags. induction l as [|n l IH]; intros seen tags Hok Hdone Horder Hb.
  { exists tags. split; [done|]. intros n. rewrite app_nil_r. auto. }
  destruct (calculate_tag_complete depth b n tags) as [t Ht].
  { apply Hb. left. }
  { intros p Hp. apply Hdone. specialize (Horder [] n l eq_refl p Hp). by rewrite app_nil_r in Horder. }
  destruct (calculate_tag_sound (S (S depth)) b n tags Hok) as (Hok1 & Hext1 & Hpost).
  destruct (IH (seen ++ [n]) (calculate_tag_for_image (S (S depth)) b n tags).2) as (tags' & Hm & Hin).
  - done.
  - intros p [Hp| ->%list_elem_of_singleton]%elem_of_app.
    + destruct (Hdone p Hp) as [tp Htp]. exists tp. by apply Hext1.
    + exists t. by apply Hpost.
  - intros l1 m l2 -> p Hp. rewrite <-(assoc_L (++)). by eapply (Horder (n :: l1)).
  - intros m Hm. apply Hb. by right.
  - exists tags'. rewrite <-(assoc_L (++)) in Hin. split; [|done].
    cbn [mapM_]. unfold mbind, ST_bind.
    destruct (calculate_tag_for_image (S (S depth)) b n tags) as [r1 tags1]. simpl in *. subst r1. done.
Qed.

Lemma tag_lookup_Ret n tags t s :
  tag_lookup n tags = (Ret t, s) ↔ dget tags n = Some t ∧ s = tags.
Proof.
  unfold tag_lookup, mbind, ST_bind, get.
  destruct (dget tags n); unfold mret, ST_ret, raise; naive_solver.
Qed.

Lemma lookup_all_sound b l tags out tags' :
  tags_ok b tags → mapM tag_lookup l tags = (Ret out, tags') → Forall2 (tag_of b) l out.
Proof.
  intros Hok. revert out tags'. induction l as [|n l IH]; intros out tags'.
  { intros [= <- <-]. constructor. }
  intros (t & s1 & [Ht ->]%tag_lookup_Ret & (out' & s2 & Hm & [= <- <-])%ST_bind_Ret)%ST_bind_Ret.
  constructor; eauto.
Qed.

Lemma lookup_all_complete l tags :
  (∀ n, n ∈ l → is_Some (dget tags n)) → ∃ out, mapM tag_lookup l tags = (Ret out, tags).
Proof.
  induction l as [|n l IH]; intros Hl; [by eexists|].
  destruct (Hl n) as [t Ht]; [left|]. destruct IH as [out Hout]; [intros; apply Hl; by right|].
  exists (t :: out). apply ST_bind_Ret. exists t, tags. split; [by apply tag_lookup_Ret|].
  apply ST_bind_Ret. eauto.
Qed.

(** ** [calculate_tags] *)
Lemma calculate_tags_sound `{SetOrder} depth b targets tags out tags' :
  tags_ok b tags →
  calculate_tags depth b targets tags = (Ret out, tags') →
  ∃ order, get_build_order b targets = Ret order ∧ Forall2 (tag_of b) order out.
Proof.
  intros Hok. unfold calculate_tags, lift. unfold mbind at 1, ST_bind at 1.
  destruct (get_build_order b targets) as [order|e]; [|done].
  intros (u & tags1 & Hp & Hl)%ST_bind_Ret. exists order. split; [done|].
  apply process_all_sound in Hp as [Hok1 _]; [|done]. by eapply lookup_all_sound.
Qed.

Lemma calculate_tags_complete `{SetOrder} depth b targets order :
  get_build_order b targets = Ret order →
  deps_first (image_dep (image_configs_map b)) order →
  (∀ n, n ∈ order → buildable b n) →
  ∃ out tags', calculate_tags (S (S depth)) b targets [] = (Ret out, tags') ∧
               Forall2 (tag_of b) order out.
Proof.
  intros Ho Hdf Hb. assert (tags_ok b []) as Hok by done.
  destruct (process_all_complete depth b [] order [] Hok) as (tags1 & Hp & Hin); [|done|done|].
  { intros p ?%elem_of_nil. done. }
  destruct (lookup_all_complete order tags1 Hin) as [out Hl].
  exists out, tags1. split.
  - unfold calculate_tags, lift. unfold mbind at 1, ST_bind at 1. rewrite Ho.
    apply ST_bind_Ret. eauto.
  - apply process_all_sound in Hp as [Hok1 _]; [|done]. by eapply lookup_all_sound.
Qed.

(** ** How a tag calculation can fail *)
Definition tag_failure (e : exn) : Prop := e = SystemExit 1 ∨ is_Exception e = true.

Lemma py_getitem_raises j k e : py_getitem j k = Raise e → is_Exception e = true.
Proof. destruct j; simpl; repeat case_match; by intros; simplify_eq. Qed.

Lemma dep_items_raises deps e : dep_items deps = Raise e → is_Exception e = true.
Proof.
  unfold dep_items. intros [H1|(i & _ & ([a v] & _ & H1)%map_res_Raise)]%bind_Raise.
  - by destruct deps; simplify_eq/=.
  - destruct v; by simplify_eq/=.
Qed.

Lemma conf_deps_raises conf e : conf_deps conf = Raise e → is_Exception e = true.
Proof.
  unfold conf_deps.
  intros [?%py_getitem_raises|(d & _ & ?%dep_items_raises)]%bind_Raise; done.
Qed.

Lemma calculate_tag_raises depth b n :
  raises_in tag_failure (calculate_tag_for_image depth b n).
Proof.
  unfold tag_failure. revert n. induction depth as [|depth IH]; intros n;
    cbn [calculate_tag_for_image]; solve_raises; auto.
  - eauto using py_getitem_raises.
  - eauto using dep_items_raises.
  - match goal with |- raises_in _ (mapM _ ?l) => induction l as [|[arg dep] l IHl] end;
      [apply raises_ret|]. cbn [mapM]. solve_raises; auto.
  - unfold calculate_sha256. intros e [He|(c & _ & He)]%bind_Raise; [|done]. eauto using read_bytes_exn.
Qed.
End tag_of.

(** ** How loading the configuration can fail *)
Section load_failure.
Context `{FileSystem}.

Lemma py_in_raises k j e : py_in k j = Raise e → is_Exception e = true.
Proof. by destruct j; simpl; intros; simplify_eq. Qed.
Lemma py_items_raises j e : py_items j = Raise e → is_Exception e = true.
Proof. by destruct j; simpl; intros; simplify_eq. Qed.

Lemma for_each_raises {A S} (l : list A) (f : A → S → res S) s e :
  for_each l f s = Raise e → ∃ x s', x ∈ l ∧ f x s' = Raise e.
Proof.
  revert s. induction l as [|x l IH]; intros s; [done|].
  intros [Hx|(s1 & _ & Hl)]%bind_Raise; [exists x, s; split; [left|done]|].
  apply IH in Hl as (y & s' & ? & ?). exists y, s'. split; [by right|done].
Qed.

Lemma load_image_configs_raises paths e :
  load_image_configs paths = Raise e → tag_failure e.
Proof.
  unfold load_image_configs. intros (p & cfgs & _ & Hp)%for_each_raises.
  case_match; [|done]. destruct (json_load _) as [[]|e'] eqn:Hj; try done.
  apply json_load_exn in Hj. unfold tag_failure. destruct e'; simplify_eq; auto.
Qed.

Lemma load_image_configs_NoDup paths cfgs :
  load_image_configs paths = Ret cfgs → NoDup (dkeys cfgs).
Proof.
  unfold load_image_configs.
  assert (∀ l acc, NoDup (dkeys acc) → ∀ cfgs, for_each l (λ path all_configs,
    let deps_file := path_div path "deps.json" in
    if path_exists deps_file then
      match json_load deps_file with
      | Ret (JObj configs) => Ret (dupdate all_configs configs)
      | Ret _ => Ret all_configs
      | Raise JSONDecodeError => Raise (SystemExit 1)
      | Raise e => Raise e
      end
    else Ret all_configs) acc = Ret cfgs → NoDup (dkeys cfgs)) as Hl.
  { induction l as [|p l IH]; intros acc Hacc c; [by intros [= <-]|].
    intros (acc' & Hp & Hrest)%bind_Ret. eapply IH, Hrest. simpl in Hp.
    repeat case_match; simplify_eq; auto using NoDup_dupdate. }
  apply Hl. constructor.
Qed.

(** Without a valid configuration the constructor exits with code 1; it can
    only raise otherwise when a file cannot be read. *)
Lemma load_image_settings_raises img settings maps e :
  load_image_settings img settings maps = Raise e → tag_failure e.
Proof.
  destruct maps as [[m1 m2] m3]. unfold load_image_settings, tag_failure.
  intros [?|(? & _ & [Hp|(? & _ & [?|(? & _ & [Hk|(? & _ & [?|(? & _ & [Hr|(? & _ & ?)]%bind_Raise)]
    %bind_Raise)]%bind_Raise)]%bind_Raise)]%bind_Raise)]%bind_Raise;
    try done; eauto using py_in_raises; case_match; try done.
  - apply bind_Raise in Hp as [?|(? & _ & [?|(it & _ & [Hc|(? & _ & ?)]%bind_Raise)]%bind_Raise)];
      eauto using py_getitem_raises, py_items_raises; [|done].
    apply check_all_raise in Hc as ([k v] & _ & Hc). case_match; naive_solver.
  - apply bind_Raise in Hk as [?|(? & _ & [?|(it & _ & ?)]%bind_Raise)];
      eauto using py_getitem_raises, py_items_raises; done.
  - apply bind_Raise in Hr as [?|(? & _ & [?|(it & _ & ?)]%bind_Raise)];
      eauto using py_getitem_raises, py_items_raises; done.
Qed.

Lemma load_images_config_raises config e :
  _load_images_config config = Raise e → tag_failure e.
Proof.
  unfold _load_images_config, tag_failure.
  intros [?|(d & _ & [?|(b & _ & Hi)]%bind_Raise)]%bind_Raise;
    eauto using py_getitem_raises, py_in_raises.
  destruct b; [|done].
  apply bind_Raise in Hi as [?|(im & _ & [?|(it & _ & Hf)]%bind_Raise)];
    eauto using py_getitem_raises, py_items_raises.
  apply for_each_raises in Hf as ([img st] & m & _ & Hf). by apply load_image_settings_raises in Hf.
Qed.
End load_failure.
