(* ===== verification/BuildConfig.v ===== *)
(** * Loading [devkit.json]: what a validated configuration gives the builder

    The theorems tie the loader ([_load_config], [_load_images_config] of
    [docker/build.py]) to the schema: what the schema accepts is loaded without
    a type error, and means what its sections say. *)

From stdpp Require Import base list strings sorting gmap relations.
From S2P Require Import Prelude PyStr PyJson Schema Registry Builder BuildTags.

(** The images section, [[]] when there is none. *)
Definition images_section (config : json) : list (string * json) :=
  match config with
  | JObj kvs =>
      match dget kvs "docker" with
      | Some (JObj d) => match dget d "images" with Some (JObj i) => i | _ => [] end
      | _ => []
      end
  | _ => []
  end.

(** A section of an image's settings. *)
Definition setting (settings : json) (section : string) : option (list (string * json)) :=
  match settings with
  | JObj kvs => match dget kvs section with Some (JObj l) => Some l | _ => None end
  | _ => None
  end.

(** Every package of the image has a version. *)
Definition versions_ok (settings : json) : bool :=
  match setting settings "packages" with
  | Some items => forallb (λ kv, truthy kv.2) items
  | None => true
  end.

(** The value a map gets for an image: from its settings, else what it had. *)
Definition setting_update (settings : json) (section : string) (old : option (list string))
    : option (list string) :=
  match setting settings section with Some items => Some (key_values items) | None => old end.

Lemma check_versions (items : list (string * json)) :
  check_all (λ '(_, v), if truthy v then Ret tt else Raise (SystemExit 1)) items =
  if forallb (λ kv, truthy kv.2) items then Ret tt else Raise (SystemExit 1).
Proof.
  induction items as [|[k v] items IH]; [done|]. simpl. destruct (truthy v); simpl; [|done].
  apply IH.
Qed.

(** A section of the settings goes into its map under the image's name. *)
Definition store (settings : json) (section img : string) (m : dict (list string)) : dict (list string) :=
  match setting settings section with Some items => dset m img (key_values items) | None => m end.

Lemma load_image_settings_spec img settings p k r :
  conforms IMAGE_SCHEMA settings →
  load_image_settings img settings (p, k, r) =
  if versions_ok settings
  then Ret (store settings "packages" img p, store settings "keys" img k,
            store settings "repositories" img r)
  else Raise (SystemExit 1).
Proof.
  intros Hc. destruct (conforms_dict _ _ _ Hc) as [kvs ->].
  assert (∀ n v, n ∈ ["packages"; "keys"; "repositories"] → dget kvs n = Some v →
            ∃ l, v = JObj l) as Hn.
  { intros n v Hin Hv.
    assert (conforms str_dict_schema v) as (l & -> & _)%conforms_str_dict; [|by exists l].
    eapply (conforms_prop _ _ _ _ n); [done| |done]. unfold IMAGE_SCHEMA. set_solver. }
  unfold load_image_settings, versions_ok, store, setting. simpl.
  destruct (dget kvs "packages") as [vp|] eqn:Hp;
    [destruct (Hn "packages" vp) as [lp ->]; [set_solver|done|]; simpl; rewrite check_versions;
     destruct (forallb _ lp); simpl; [|done]|simpl];
  (destruct (dget kvs "keys") as [vk|] eqn:Hk;
    [destruct (Hn "keys" vk) as [lk ->]; [set_solver|done|]|]);
  (destruct (dget kvs "repositories") as [vr|] eqn:Hr;
    [destruct (Hn "repositories" vr) as [lr ->]; [set_solver|done|]|]); done.
Qed.

Lemma dget_store settings section img m n :
  dget (store settings section img m) n =
  if decide (img = n) then setting_update settings section (dget m n) else dget m n.
Proof.
  unfold store, setting_update. destruct (setting _ _); [apply dget_dset|]. by case_decide.
Qed.

(** What [_load_images_config] computes from the items of the images section. *)
Lemma load_images_spec items p k r :
  NoDup (dkeys items) → (∀ n s, (n, s) ∈ items → conforms IMAGE_SCHEMA s) →
  match for_each items (λ '(img, settings), load_image_settings img settings) (p, k, r) with
  | Ret (p', k', r') =>
      (∀ n s, (n, s) ∈ items → versions_ok s = true) ∧
      (∀ n, let upd section m := match dget items n with
                                 | Some s => setting_update s section (dget m n)
                                 | None => dget m n
                                 end in
            dget p' n = upd "packages" p ∧ dget k' n = upd "keys" k ∧
            dget r' n = upd "repositories" r)
  | Raise e => e = SystemExit 1 ∧ ∃ n s, (n, s) ∈ items ∧ versions_ok s = false
  end.
Proof.
  revert p k r. induction items as [|[img s] items IH]; intros p k r Hnd Hc.
  { split; [set_solver|done]. }
  apply NoDup_cons in Hnd as [Hni Hnd]. cbn [for_each].
  rewrite load_image_settings_spec by (apply (Hc img s); left).
  destruct (versions_ok s) eqn:Hv; simpl.
  2: { split; [done|]. exists img, s. split; [left|done]. }
  assert (∀ n s', (n, s') ∈ items → conforms IMAGE_SCHEMA s') as Hc'.
  { intros n s' ?. apply (Hc n s'). by right. }
  specialize (IH (store s "packages" img p) (store s "keys" img k) (store s "repositories" img r) Hnd Hc').
  destruct (for_each items _ _) as [[[p' k'] r']|e].
  - destruct IH as [IHv IHl]. split.
    { intros n s' [[= -> ->]|?]%elem_of_cons; eauto. }
    intros n. destruct (IHl n) as (H1 & H2 & H3). rewrite H1, H2, H3, !dget_store.
    destruct (decide (n = img)) as [->|].
    + assert (dget items img = None) as -> by (by apply dget_None). by rewrite !decide_True.
    + by rewrite !decide_False by done.
  - destruct IH as (-> & n & s' & ? & ?). split; [done|]. exists n, s'. split; [by right|done].
Qed.

(** ** [_load_config] on a configuration file *)
Section load_config.
Context `{FileSystem}.

Definition all_versions_ok (config : json) : Prop :=
  ∀ img s, (img, s) ∈ images_section config → versions_ok s = true.

(** The extra maps hold, for each image, what its settings say. *)
Definition maps_match (config : json) (maps : extra_maps) : Prop :=
  let '(p, k, r) := maps in
  ∀ img,
    let stated section := match dget (images_section config) img with
                      | Some s => key_values <$> setting s section
                      | None => None
                      end in
    dget p img = stated "packages" ∧ dget k img = stated "keys" ∧ dget r img = stated "repositories".

Lemma conforms_images config :
  conforms CONFIG_SCHEMA config → json_wf config →
  NoDup (dkeys (images_section config)) ∧
  ∀ n s, (n, s) ∈ images_section config → conforms IMAGE_SCHEMA s.
Proof.
  intros Hc Hwf. destruct (conforms_dict _ _ _ Hc) as [kvs ->]. simpl.
  assert (NoDup (dkeys ([] : list (string * json))) ∧
          ∀ n s, (n, s) ∈ ([] : list (string * json)) → conforms IMAGE_SCHEMA s) as Hnil.
  { split; [constructor|by intros ?? ?%elem_of_nil]. }
  destruct (dget kvs "docker") as [d|] eqn:Hd; [|done].
  apply (conforms_prop _ _ _ _ "docker" DOCKER_SCHEMA d) in Hc; [|set_solver|done].
  destruct (conforms_dict _ _ _ Hc) as [dk ->].
  destruct (dget dk "images") as [i|] eqn:Hi; [|done].
  apply (conforms_prop _ _ _ _ "images" IMAGES_SCHEMA i) in Hc; [|set_solver|done].
  destruct (conforms_dict _ _ _ Hc) as [ik ->]. split.
  - eapply json_wf_keys, (json_wf_obj dk), dget_elem_of, Hi.
    eapply (json_wf_obj kvs), dget_elem_of, Hd. done.
  - intros n s Hin. eapply conforms_additional; [done..|]. set_solver.
Qed.

Lemma load_images_config_section config :
  conforms CONFIG_SCHEMA config → is_Some (match config with JObj kvs => dget kvs "docker" | _ => None end) →
  _load_images_config config =
  for_each (images_section config) (λ '(img, settings), load_image_settings img settings) ([], [], []).
Proof.
  intros Hc [d Hd]. destruct (conforms_dict _ _ _ Hc) as [kvs ->].
  unfold _load_images_config. simpl. rewrite Hd. simpl.
  apply (conforms_prop _ _ _ _ "docker" DOCKER_SCHEMA d) in Hc; [|set_solver|done].
  destruct (conforms_dict _ _ _ Hc) as [dk ->]. simpl.
  destruct (dget dk "images") as [i|] eqn:Hi; [|done]. simpl.
  apply (conforms_prop _ _ _ _ "images" IMAGES_SCHEMA i) in Hc; [|set_solver|done].
  by destruct (conforms_dict _ _ _ Hc) as [ik ->].
Qed.

Lemma load_config_valid path config :
  path_exists path = true → json_load path = Ret config → conforms CONFIG_SCHEMA config →
  match _load_config path with
  | Ret (r, n, maps) =>
      all_versions_ok config ∧ r = registry_repo (registry_section config) ∧
      n = registry_namespace (registry_section config) ∧ maps_match config maps
  | Raise e => e = SystemExit 1 ∧ ¬ all_versions_ok config
  end.
Proof.
  intros Hex Hload Hc. unfold _load_config. rewrite Hex, Hload.
  assert (validate_config CONFIG_SCHEMA config "" = Ret tt) as Hv by (by apply validate_config_conforms).
  pose proof (json_load_wf _ _ Hload) as Hwf.
  destruct (conforms_images config Hc Hwf) as [Hnd Hcs].
  destruct (conforms_dict _ _ _ Hc) as [kvs ->].
  unfold mbind at 1, res_bind at 1. unfold mbind at 1, res_bind at 1. rewrite Hv.
  unfold mbind at 1, res_bind at 1. cbn [py_in].
  destruct (dget kvs "docker") as [d|] eqn:Hd; simpl bool_decide.
  2: { unfold all_versions_ok. simpl. rewrite Hd.
       split_and!; [by intros ?? ?%elem_of_nil|done..]. }
  rewrite parse_registry_section by done. unfold mbind at 1, res_bind at 1.
  rewrite load_images_config_section by (rewrite ?Hd; eauto).
  pose proof (load_images_spec (images_section (JObj kvs)) [] [] [] Hnd Hcs) as Hs.
  destruct (for_each _ _ _) as [[[p k] r]|e]; simpl try_except.
  - destruct Hs as [Hvers Hl]. split_and!; [done..|]. intros img.
    destruct (Hl img) as (-> & -> & ->). unfold setting_update.
    by destruct (dget _ img) as [s|]; [repeat destruct (setting s _)|].
  - destruct Hs as (-> & n & s & Hin & Hf). simpl. split; [done|]. intros Ha.
    specialize (Ha n s Hin). congruence.
Qed.

Lemma load_config_invalid path :
  path_exists path = true →
  (json_load path = Raise JSONDecodeError ∨
   ∃ config, json_load path = Ret config ∧ ¬ conforms CONFIG_SCHEMA config) →
  _load_config path = Raise (SystemExit 1).
Proof.
  intros Hex Hbad. unfold _load_config. rewrite Hex.
  destruct Hbad as [->|(config & -> & Hc)]; [done|].
  unfold mbind at 1, res_bind at 1. unfold mbind at 1, res_bind at 1.
  destruct (validate_config CONFIG_SCHEMA config "") as [[]|e] eqn:Hv.
  - by apply validate_config_conforms in Hv.
  - apply validate_config_raise in Hv. simpl. by rewrite Hv.
Qed.

Lemma load_config_raises path e : _load_config path = Raise e → tag_failure e.
Proof.
  intros He. destruct (path_exists path) eqn:Hex.
  2: { unfold _load_config in He. by rewrite Hex in He. }
  destruct (json_load path) as [config|e'] eqn:Hload.
  - destruct (validate_config CONFIG_SCHEMA config "") as [[]|e'] eqn:Hv.
    + apply validate_config_conforms in Hv.
      pose proof (load_config_valid path config Hex Hload Hv) as Hl.
      rewrite He in Hl. left. by destruct Hl.
    + rewrite load_config_invalid in He; [injection He as <-; by left|done|].
      right. exists config. split; [done|]. rewrite <-(validate_config_conforms _ _ ""). congruence.
  - unfold _load_config in He. rewrite Hex, Hload in He. simpl in He.
    apply json_load_exn in Hload. destruct (is_ValueError e'); injection He as <-; [by left|by right].
Qed.

Lemma DockerBuilder_raises path paths e : DockerBuilder path paths = Raise e → tag_failure e.
Proof.
  unfold DockerBuilder.
  intros [He|([[r n] [[p k] q]] & _ & [He|(c & _ & ?)]%bind_Raise)]%bind_Raise; [| |done].
  - by apply load_config_raises in He.
  - by apply load_image_configs_raises in He.
Qed.

Lemma DockerBuilder_NoDup path paths b :
  DockerBuilder path paths = Ret b → NoDup (dkeys (image_configs_map b)).
Proof.
  unfold DockerBuilder.
  intros ([[r n] [[p k] q]] & _ & (c & Hc & [= <-])%bind_Ret)%bind_Ret.
  by apply load_image_configs_NoDup in Hc.
Qed.
End load_config.
