(* ===== verification/DockerImage.v ===== *)
(** * Docker image operations of [docker/build.py]

    The docker command line is a service: the class [Docker] gives the result
    of running a command in a state of the daemon.  [io] records, beside that
    state, every command issued and every line printed on standard output.
    Log messages and progress on standard error are not modelled. *)

From Stdlib Require Import Ascii.
From stdpp Require Import base list strings sets.
From S2P Require Import Prelude PyStr.

(** What [subprocess.run] sees: an exit code, or no such program. *)
Inductive proc :=
  | Exited (returncode : Z)
  | NoProgram.

#[export] Instance proc_eq_dec : EqDecision proc.
Proof. solve_decision. Defined.

Class Docker := {
  daemon : Type;
  docker_exec : list string → daemon → proc * daemon;
}.

Section ops.
Context `{Docker}.

Record io := IO {
  io_daemon : daemon;
  io_commands : list (list string);
  io_stdout : list string;
}.

(** [subprocess.run(cmd, check=check)] *)
Definition subprocess_run (cmd : list string) (check : bool) : ST io Z := λ w,
  let '(p, d) := docker_exec cmd (io_daemon w) in
  let w' := IO d (io_commands w ++ [cmd]) (io_stdout w) in
  match p with
  | NoProgram => (Raise FileNotFoundError, w')
  | Exited rc =>
      if check && negb (bool_decide (rc = 0%Z)) then (Raise (CalledProcessError rc), w')
      else (Ret rc, w')
  end.

(** [print(line)] *)
Definition print_line (line : string) : ST io unit :=
  modify (λ w, IO (io_daemon w) (io_commands w) (io_stdout w ++ [line])).

(** [except (subprocess.CalledProcessError, FileNotFoundError)] *)
Definition docker_handled (e : exn) : bool :=
  match e with CalledProcessError _ | FileNotFoundError => true | _ => false end.

Definition check_docker_installed : ST io unit :=
  try_catch docker_handled
    (_ ← subprocess_run ["docker"; "--version"] true; mret tt)
    (λ _, sys_exit 1).

Definition check_docker_buildx_installed : ST io unit :=
  try_catch docker_handled
    (_ ← subprocess_run ["docker"; "buildx"; "version"] true; mret tt)
    (λ _, sys_exit 1).

Definition inspect_cmd (tag : string) : list string := ["docker"; "image"; "inspect"; tag].
Definition manifest_inspect_cmd (tag : string) : list string :=
  ["docker"; "manifest"; "inspect"; tag].
Definition pull_cmd (tag : string) : list string := ["docker"; "pull"; tag].
Definition push_cmd (tag : string) : list string := ["docker"; "push"; tag].

Definition check_if_image_exists_locally (tag : string) : ST io bool :=
  rc ← subprocess_run (inspect_cmd tag) false;
  mret (bool_decide (rc = 0%Z)).

Definition check_if_image_exists_in_remote_registry (tag : string) : ST io bool :=
  rc ← subprocess_run (manifest_inspect_cmd tag) false;
  mret (bool_decide (rc = 0%Z)).

Definition pull_image_from_registry (tag : string) : ST io unit :=
  _ ← subprocess_run (pull_cmd tag) true;
  mret tt.

(** A failed push is reported and otherwise ignored. *)
Definition push_image_to_registry (tag : string) : ST io unit :=
  _ ← subprocess_run (push_cmd tag) false;
  mret tt.

(** The [while idx < len(build_args_list)] loop: names at even indices,
    values at odd ones; [build_args_list[idx + 1]] raises on an odd length. *)
Fixpoint build_arg_flags (build_args_list : list string) : res (list string) :=
  match build_args_list with
  | [] => Ret []
  | [_] => Raise IndexError
  | arg_name :: arg_value :: rest =>
      flags ← build_arg_flags rest;
      Ret ("--build-arg" :: (arg_name +:+ "=" +:+ arg_value) :: flags)
  end.

Definition build_cmd (tag dockerfile_path : string) (flags : list string)
    (context_path : string) (no_cache : bool) : list string :=
  ["docker"; "buildx"; "build"; "--tag"; tag; "--file"; dockerfile_path]
  ++ (if no_cache then ["--no-cache"] else []) ++ flags ++ [context_path].

Definition build_image (tag dockerfile_path : string) (build_args_list : list string)
    (context_path : string) (no_cache : bool) : ST io unit :=
  flags ← lift (build_arg_flags build_args_list);
  _ ← subprocess_run (build_cmd tag dockerfile_path flags context_path no_cache) true;
  mret tt.

Definition manage_docker_image (tag dockerfile_path : string) (build_args_list : list string)
    (context_path : string) (local_image_mode no_cache : bool) (repo : string) : ST io unit :=
  try_catch docker_handled
    (exists_locally ← (if no_cache then mret false else check_if_image_exists_locally tag);
     if exists_locally : bool then mret tt
     else if negb (str_truthy repo) || local_image_mode then
       build_image tag dockerfile_path build_args_list context_path no_cache
     else
       exists_remotely ←
         (if no_cache then mret false else check_if_image_exists_in_remote_registry tag);
       if exists_remotely : bool then pull_image_from_registry tag
       else
         _ ← build_image tag dockerfile_path build_args_list context_path no_cache;
         push_image_to_registry tag)
    (λ e, match e with
          | CalledProcessError rc => sys_exit (if bool_decide (rc = 0%Z) then 1 else rc)
          | _ => sys_exit 1
          end).
End ops.

(** ** Lemmas *)

Section facts.
Context `{Docker}.

Lemma subprocess_run_Ret cmd check w rc w' :
  subprocess_run cmd check w = (Ret rc, w') →
  ∃ d, docker_exec cmd (io_daemon w) = (Exited rc, d) ∧
       w' = IO d (io_commands w ++ [cmd]) (io_stdout w) ∧ (check = true → rc = 0%Z).
Proof.
  unfold subprocess_run. destruct (docker_exec cmd (io_daemon w)) as [[rc'|] d]; [|done].
  destruct check; simpl; [case_bool_decide; simpl; [|done]|]; intros; simplify_eq; naive_solver.
Qed.

Lemma subprocess_run_Raise cmd check w e w' :
  subprocess_run cmd check w = (Raise e, w') →
  docker_handled e = true ∧
  ∃ p d, docker_exec cmd (io_daemon w) = (p, d) ∧
         w' = IO d (io_commands w ++ [cmd]) (io_stdout w).
Proof.
  unfold subprocess_run. destruct (docker_exec cmd (io_daemon w)) as [[rc'|] d] eqn:Hd.
  - destruct (check && _); [|done]. intros; simplify_eq. eauto.
  - intros; simplify_eq. eauto.
Qed.

(** The arguments of [build_images]: name, value, name, value, ... *)
Definition flat_args (args : list (string * string)) : list string :=
  mjoin ((λ kv, [kv.1; kv.2]) <$> args).

Lemma build_arg_flags_flat args :
  build_arg_flags (flat_args args) =
  Ret (mjoin ((λ kv, ["--build-arg"; kv.1 +:+ "=" +:+ kv.2]) <$> args)).
Proof. induction args as [|[k v] args IH]; [done|]. simpl. by setoid_rewrite IH. Qed.

(** ** Histories: the commands of a run, each with docker's answer *)

Inductive ran : list (list string * proc) → daemon → daemon → Prop :=
  | ran_nil d : ran [] d d
  | ran_cons c p h d d1 d2 : docker_exec c d = (p, d1) → ran h d1 d2 → ran ((c, p) :: h) d d2.

Definition history (w w' : io) (h : list (list string * proc)) : Prop :=
  io_commands w' = io_commands w ++ h.*1 ∧ ran h (io_daemon w) (io_daemon w').

Lemma ran_app h1 h2 d1 d2 d3 : ran h1 d1 d2 → ran h2 d2 d3 → ran (h1 ++ h2) d1 d3.
Proof. induction 1; intros; simpl; [done|]. econstructor; eauto. Qed.

Lemma history_nil w w' : io_commands w' = io_commands w → io_daemon w' = io_daemon w → history w w' [].
Proof. intros Hc Hd. split; [by rewrite Hc, app_nil_r|rewrite Hd; constructor]. Qed.

Lemma history_app w1 w2 w3 h1 h2 : history w1 w2 h1 → history w2 w3 h2 → history w1 w3 (h1 ++ h2).
Proof.
  intros [Hc1 Hr1] [Hc2 Hr2]. split; [by rewrite Hc2, Hc1, fmap_app, (assoc_L (++))|by eapply ran_app].
Qed.

(** However [m] ends, its result and its history are in [Q]; the rules below are those
    of a weakest precondition. *)
Definition leaves {A} (Q : res A → list (list string * proc) → Prop) (m : ST io A) : Prop :=
  ∀ w, ∃ h, history w (m w).2 h ∧ Q (m w).1 h.

(** The result of [subprocess.run] when docker answers [p]. *)
Definition run_result (check : bool) (p : proc) : res Z :=
  match p with
  | NoProgram => Raise FileNotFoundError
  | Exited rc => if check && negb (bool_decide (rc = 0%Z)) then Raise (CalledProcessError rc) else Ret rc
  end.

Lemma leaves_pure {A} (Q : res A → list (list string * proc) → Prop) r : Q r [] → leaves Q (λ w, (r, w)).
Proof. intros HQ w. exists []. split; [by apply history_nil|done]. Qed.

Lemma leaves_run Q cmd check : (∀ p, Q (run_result check p) [(cmd, p)]) → leaves Q (subprocess_run cmd check).
Proof.
  intros HQ w. unfold subprocess_run. destruct (docker_exec cmd (io_daemon w)) as [p d] eqn:Hd.
  exists [(cmd, p)]. specialize (HQ p).
  assert (ran [(cmd, p)] (io_daemon w) d) by (econstructor; [done|constructor]).
  destruct p; [simpl in *; destruct (check && _)|]; done.
Qed.

Lemma leaves_bind {A B} Q (m : ST io A) (f : A → ST io B) :
  leaves (λ r h, match r with
                 | Ret a => leaves (λ r' h', Q r' (h ++ h')) (f a)
                 | Raise e => Q (Raise e) h
                 end) m → leaves Q (m ≫= f).
Proof.
  intros Hm w. destruct (Hm w) as (h & Hh & HQ). unfold mbind, ST_bind.
  destruct (m w) as [[a|e] w1]; simpl in *; [|by exists h].
  destruct (HQ w1) as (h' & Hh' & HQ'). exists (h ++ h'). split; [by eapply history_app|done].
Qed.

Lemma leaves_catch {A} Q (handled : exn → bool) (m : ST io A) (f : exn → ST io A) :
  leaves (λ r h, match r with
                 | Raise e => if handled e then leaves (λ r' h', Q r' (h ++ h')) (f e) else Q (Raise e) h
                 | Ret a => Q (Ret a) h
                 end) m → leaves Q (try_catch handled m f).
Proof.
  intros Hm w. destruct (Hm w) as (h & Hh & HQ). unfold try_catch.
  destruct (m w) as [[a|e] w1]; simpl in *; [by exists h|]. destruct (handled e); [|by exists h].
  destruct (HQ w1) as (h' & Hh' & HQ'). exists (h ++ h'). split; [by eapply history_app|done].
Qed.

Lemma leaves_weaken {A} (Q Q' : res A → list (list string * proc) → Prop) (m : ST io A) :
  (∀ r h, Q r h → Q' r h) → leaves Q m → leaves Q' m.
Proof. intros HQ Hm w. destruct (Hm w) as (h & ? & ?). eauto. Qed.

(** A history is what happened: docker's answers are determined by the commands. *)
Lemma ran_functional h h' d d1 d2 : ran h d d1 → ran h' d d2 → h.*1 = h'.*1 → h = h'.
Proof.
  intros Hr. revert h' d2. induction Hr as [d|c p h d e f Hc Hr IH]; intros h' d2 Hr' Heq.
  - by destruct h'.
  - destruct Hr' as [d|c' p' h' d e' f' Hc' Hr']; [done|]. simpl in Heq. injection Heq as <- Heq.
    rewrite Hc in Hc'. injection Hc' as <- <-. f_equal. by eapply IH.
Qed.

Lemma history_functional w w' h h' : history w w' h → history w w' h' → h = h'.
Proof. intros [Hc Hr] [Hc' Hr']. rewrite Hc in Hc'. apply app_inv_head in Hc'. by eapply ran_functional. Qed.

(** ** Computations that print nothing on standard output *)
Definition silent {A} (m : ST io A) : Prop := ∀ w, io_stdout (m w).2 = io_stdout w.

Lemma silent_pure {A} (r : res A) : silent (λ w, (r, w)).
Proof. done. Qed.
Lemma silent_run cmd check : silent (subprocess_run cmd check).
Proof. intros w. unfold subprocess_run. by repeat case_match. Qed.
Lemma silent_bind {A B} (m : ST io A) (f : A → ST io B) :
  silent m → (∀ a, silent (f a)) → silent (m ≫= f).
Proof.
  intros Hm Hf w. unfold mbind, ST_bind. specialize (Hm w).
  destruct (m w) as [[a|e] w1]; simpl in *; [|done]. by rewrite Hf.
Qed.
Lemma silent_catch {A} h (m : ST io A) (f : exn → ST io A) :
  silent m → (∀ e, silent (f e)) → silent (try_catch h m f).
Proof.
  intros Hm Hf w. unfold try_catch. specialize (Hm w).
  destruct (m w) as [[a|e] w1]; simpl in *; [done|]. destruct (h e); [|done]. by rewrite Hf.
Qed.
End facts.

Ltac solve_silent :=
  repeat lazymatch goal with
    | |- silent (mret _) => apply silent_pure
    | |- silent (raise _) => apply silent_pure
    | |- silent (sys_exit _) => apply silent_pure
    | |- silent (lift _) => apply silent_pure
    | |- silent (mbind _ _) => apply silent_bind; [|intros ?]
    | |- silent (try_catch _ _ _) => apply silent_catch; [|intros ?]
    | |- silent (subprocess_run _ _) => apply silent_run
    | |- silent (match ?x with _ => _ end) => destruct x
    end.

(** Follows a computation through the rules for [leaves], one case per answer of docker. *)
Ltac solve_leaves :=
  repeat lazymatch goal with
    | |- leaves _ (mret _) => apply leaves_pure
    | |- leaves _ (raise _) => apply leaves_pure
    | |- leaves _ (sys_exit _) => apply leaves_pure
    | |- leaves _ (lift _) => apply leaves_pure
    | |- leaves _ (mbind _ _) => apply leaves_bind
    | |- leaves _ (try_catch _ _ _) => apply leaves_catch
    | |- leaves _ (subprocess_run _ _) => apply leaves_run; intros [?|]; simpl
    | |- leaves _ (match ?x with _ => _ end) => destruct x eqn:?
    | |- context [bool_decide _] => case_bool_decide; simplify_eq/=
    | |- match ?x with _ => _ end => destruct x eqn:?; simpl
    end.

Section manage.
Context `{Docker}.

(** [docker buildx build ...] *)
Definition is_build (c : list string) : Prop := take 3 c = ["docker"; "buildx"; "build"].

(** The options for the build arguments [args]. *)
Definition arg_flags (args : list (string * string)) : list string :=
  mjoin ((λ kv, ["--build-arg"; kv.1 +:+ "=" +:+ kv.2]) <$> args).

(** The commands whose success means that docker has the image: it was found, it was
    pulled, or it was built; with [--no-cache] only the build counts. *)
Definition provides (tag : string) (build : list string) (no_cache : bool) (c : list string) : Prop :=
  c = build ∨ (no_cache = false ∧ (c = ["docker"; "image"; "inspect"; tag] ∨ c = ["docker"; "pull"; tag])).

(** However it ends, the only build command is the one given; and it ends well only
    after docker reported success. *)
Lemma manage_leaves tag df args ctx local no_cache repo :
  let build := build_cmd tag df (arg_flags args) ctx no_cache in
  leaves (λ r h, (∀ c p, (c, p) ∈ h → is_build c → c = build) ∧
                 (r = Ret tt → ∃ c, provides tag build no_cache c ∧ (c, Exited 0) ∈ h))
    (manage_docker_image tag df (flat_args args) ctx local no_cache repo).
Proof.
  unfold manage_docker_image, build_image, check_if_image_exists_locally,
    check_if_image_exists_in_remote_registry, pull_image_from_registry, push_image_to_registry.
  rewrite build_arg_flags_flat. fold (arg_flags args).
  cbv zeta. solve_leaves.
  all: simpl; split; [unfold is_build; set_solver|].
  all: intros ?; simplify_eq; unfold provides; rewrite ?bool_decide_eq_true in *; subst.
  all: first [eexists; split; [by left|set_solver]
             |eexists; split; [right; split; [done|by left]|set_solver]
             |eexists; split; [right; split; [done|by right]|set_solver]].
Qed.

Lemma manage_silent tag df args ctx local no_cache repo :
  silent (manage_docker_image tag df args ctx local no_cache repo).
Proof.
  unfold manage_docker_image, build_image, push_image_to_registry, pull_image_from_registry,
    check_if_image_exists_in_remote_registry, check_if_image_exists_locally.
  solve_silent.
Qed.

Lemma raises_run cmd check : raises_in (λ e, docker_handled e = true) (subprocess_run cmd check).
Proof. by intros w e w' [? _]%subprocess_run_Raise. Qed.

Lemma build_image_raises tag df args ctx no_cache :
  raises_in (λ e, docker_handled e = true) (build_image tag df (flat_args args) ctx no_cache).
Proof.
  unfold build_image. rewrite build_arg_flags_flat. solve_raises; [done|apply raises_run].
Qed.

(** A run that fails ends in [sys.exit] with a non-zero code. *)
Lemma manage_raises tag df args ctx local no_cache repo :
  raises_in (λ e, ∃ c, e = SystemExit c ∧ c ≠ 0%Z)
    (manage_docker_image tag df (flat_args args) ctx local no_cache repo).
Proof.
  unfold manage_docker_image. apply (raises_catch _ (λ e, docker_handled e = true)).
  - unfold check_if_image_exists_locally, check_if_image_exists_in_remote_registry,
      pull_image_from_registry, push_image_to_registry.
    solve_raises; auto using raises_run, build_image_raises.
  - congruence.
  - intros e _ He. destruct e; try done; apply raises_raise; eexists; (split; [done|]).
    + done.
    + case_bool_decide; lia.
Qed.
End manage.
