(* ===== verification/BuildMain.v ===== *)
(** * [build_images] and [main] of [docker/build.py]

    The state of a run is the memo table [generated_tags] beside the docker
    world [io]. *)

From stdpp Require Import base list strings sorting gmap relations.
From S2P Require Import Prelude PyStr PyJson Schema Sha256 Graphlib Registry Builder BuildOrder.
From S2P Require Import BuildTags BuildConfig DockerImage.

Section build.
Context `{FileSystem} `{Hash} `{SetOrder} `{Docker}.

Definition session : Type := dict string * io.

Definition with_tags {A} (m : ST (dict string) A) : ST session A :=
  λ s, let '(r, t) := m s.1 in (r, (t, s.2)).
Definition with_io {A} (m : ST io A) : ST session A :=
  λ s, let '(r, w) := m s.2 in (r, (s.1, w)).

(** [local_flag or image_conf.get("local", False)], as a truth value *)
Definition local_mode (local_flag : bool) (image_conf : json) : res bool :=
  if local_flag then Ret true
  else v ← py_get image_conf "local" (JBool false); Ret (truthy v).

(** The body of the [for image_name in images_to_process] loop. *)
Definition build_one (depth : nat) (b : builder) (target_image_for_tag_print : option string)
    (no_cache local_flag : bool) (image_name : string) : ST session unit :=
  tag ← with_tags (calculate_tag_for_image depth b image_name);
  image_conf ← lift (match dget (image_configs_map b) image_name with
                     | Some c => Ret c
                     | None => Raise (KeyError image_name)
                     end);
  local_image_mode ← lift (local_mode local_flag image_conf);
  match find_dockerfile (search_paths b) image_name with
  | None => sys_exit 1
  | Some path =>
      let dockerfile_path := realpath path in
      let context_path := os_path_dirname dockerfile_path in
      dependencies ← lift (conf_deps image_conf);
      dep_args ← mapM (λ '(arg_name, dep_image_name),
        t ← with_tags (tag_lookup dep_image_name); mret (arg_name, t)) dependencies;
      let build_args_for_manage := flat_args (dep_args ++ extra_args b image_name) in
      _ ← with_io (manage_docker_image tag dockerfile_path build_args_for_manage context_path
                     local_image_mode no_cache (repo b));
      if bool_decide (target_image_for_tag_print = Some image_name) then
        _ ← with_io (print_line tag); sys_exit 0
      else mret tt
  end.

Definition build_images (depth : nat) (b : builder) (target_images : list string)
    (print_tag_mode no_cache local_flag : bool) : ST session unit :=
  images_to_process ← lift (get_build_order b target_images);
  target ← lift (if print_tag_mode then
                   match target_images with t :: _ => Ret (Some t) | [] => Raise IndexError end
                 else Ret None);
  mapM_ (build_one depth b target no_cache local_flag) images_to_process.

(** Run when the module is loaded: [environ] is [os.environ], which the docker
    commands inherit. *)
Definition ensure_cloudsdk_python_is_set (environ : dict string) : dict string :=
  match dget environ "CLOUDSDK_PYTHON" with
  | Some _ => environ
  | None =>
      match List.find path_exists ["/usr/bin/python3"; "/usr/bin/python"] with
      | Some candidate => dset environ "CLOUDSDK_PYTHON" candidate
      | None => environ
      end
  end.

(** The parsed command line. *)
Record build_args := BuildArgs {
  arg_target_images : list string;
  arg_print_tag : bool;
  arg_config : string;
  arg_search_path : list string;
  arg_local : bool;
  arg_no_cache : bool;
}.

(** [if name not in all_image_names: sys.exit(1)] *)
Definition check_image_name (b : builder) (name : string) : res unit :=
  if bool_decide (name ∈ dkeys (image_configs_map b)) then Ret tt else Raise (SystemExit 1).

Definition check_targets (b : builder) (args : build_args) : res unit :=
  if arg_print_tag args then
    match arg_target_images args with
    | [target] => check_image_name b target
    | _ => Raise (SystemExit 1)
    end
  else check_all (check_image_name b) (arg_target_images args).

Definition main (depth : nat) (args : build_args) : ST session unit :=
  _ ← with_io check_docker_installed;
  _ ← with_io check_docker_buildx_installed;
  b ← lift (DockerBuilder (arg_config args) (arg_search_path args));
  _ ← lift (check_targets b args);
  build_images depth b (arg_target_images args) (arg_print_tag args)
    (arg_no_cache args) (arg_local args).

(** ** Lemmas *)

(** A value that is set is kept, otherwise the variable names the first system Python that
    exists, if one does; no other variable changes. *)
Lemma cloudsdk_python environ v :
  dget environ "CLOUDSDK_PYTHON" = None →
  dget (ensure_cloudsdk_python_is_set environ) "CLOUDSDK_PYTHON" = Some v →
  path_exists v = true ∧ (v = "/usr/bin/python3" ∨ v = "/usr/bin/python" ∧ path_exists "/usr/bin/python3" = false).
Proof.
  intros Hn. unfold ensure_cloudsdk_python_is_set. rewrite Hn. cbn [List.find].
  destruct (path_exists "/usr/bin/python3") eqn:Hp3; [|destruct (path_exists "/usr/bin/python") eqn:Hp2];
    rewrite ?dget_dset_eq; intros ?; simplify_eq; auto.
Qed.

Lemma cloudsdk_other environ k :
  k ≠ "CLOUDSDK_PYTHON" ∨ is_Some (dget environ k) → dget (ensure_cloudsdk_python_is_set environ) k = dget environ k.
Proof.
  intros Hk. unfold ensure_cloudsdk_python_is_set. destruct (dget environ "CLOUDSDK_PYTHON") eqn:Hd; [done|].
  destruct (List.find _ _); [|done]. apply dget_dset_ne. intros <-.
  destruct Hk as [?|[? ?]]; [done|]. congruence.
Qed.

Lemma with_tags_eq {A} (m : ST (dict string) A) s r s' :
  with_tags m s = (r, s') ↔ ∃ t, m s.1 = (r, t) ∧ s' = (t, s.2).
Proof. unfold with_tags. destruct (m s.1) as [r1 t1]. naive_solver. Qed.

Lemma with_io_eq {A} (m : ST io A) s r s' :
  with_io m s = (r, s') ↔ ∃ w, m s.2 = (r, w) ∧ s' = (s.1, w).
Proof. unfold with_io. destruct (m s.2) as [r1 w1]. naive_solver. Qed.

Lemma lift_eq {S A} (x : res A) (s : S) r s' : lift x s = (r, s') ↔ x = r ∧ s' = s.
Proof. unfold lift. naive_solver. Qed.

Lemma dep_lookups_Ret (deps args : list (string * string)) s s' :
  mapM (λ '(arg_name, dep_image_name),
    t ← with_tags (tag_lookup dep_image_name); mret (arg_name, t)) deps s = (Ret args, s') →
  s' = s ∧ Forall2 (λ d a, a.1 = d.1 ∧ dget s.1 d.2 = Some a.2) deps args.
Proof.
  revert args. induction deps as [|[arg dep] deps IH]; intros args.
  { intros [= <- <-]. split; [done|constructor]. }
  intros ([a t] & s1 & Hd & (args' & s2 & Hm & [= <- <-])%ST_bind_Ret)%ST_bind_Ret.
  apply ST_bind_Ret in Hd as (t' & s3 & (tg & [Hl ->]%tag_lookup_Ret & ->)%with_tags_eq & [= <- <- <-]).
  rewrite <-surjective_pairing in Hm. apply IH in Hm as [-> Hf].
  destruct s. split; [done|]. by constructor.
Qed.

Lemma dep_lookups_raises (deps : list (string * string)) s e s' :
  mapM (λ '(arg_name, dep_image_name),
    t ← with_tags (tag_lookup dep_image_name); mret (arg_name, t)) deps s = (Raise e, s') →
  is_Exception e = true.
Proof.
  revert s. induction deps as [|[arg dep] deps IH]; intros s; [done|].
  intros [Hd|(a & s1 & _ & [?|(x & s2 & _ & ?)]%ST_bind_Raise)]%ST_bind_Raise; [|eauto|done].
  apply ST_bind_Raise in Hd as [(t & Hl & _)%with_tags_eq|(t & s2 & _ & ?)]; [|done].
  unfold tag_lookup, mbind, ST_bind, get in Hl. destruct (dget s.1 dep); [done|].
  by injection Hl as <- <-.
Qed.

(** ** The docker commands of a build *)

(** The build of image [n]: its Dockerfile, in its own directory, with the tags of its
    dependencies and its extra settings as build arguments. *)
Definition image_build (b : builder) (no_cache : bool) (n tag : string) (c : list string) : Prop :=
  ∃ conf deps args path,
    dget (image_configs_map b) n = Some conf ∧ conf_deps conf = Ret deps ∧ dep_tags b deps args ∧
    find_dockerfile (search_paths b) n = Some path ∧
    c = ["docker"; "buildx"; "build"; "--tag"; tag; "--file"; realpath path]
        ++ (if no_cache then ["--no-cache"] else []) ++ arg_flags (args ++ extra_args b n)
        ++ [os_path_dirname (realpath path)].

(** In the history [h] docker reported that it has image [n] under its tag: the lookup, the
    pull or the build of that tag succeeded. *)
Definition provided (b : builder) (no_cache : bool) (h : list (list string * proc)) (n : string) : Prop :=
  ∃ t build c, tag_of b n t ∧ image_build b no_cache n t build ∧
               provides t build no_cache c ∧ (c, Exited 0) ∈ h.

Lemma provided_app b no_cache h1 h2 n :
  provided b no_cache h1 n ∨ provided b no_cache h2 n → provided b no_cache (h1 ++ h2) n.
Proof.
  intros [(t & bc & c & ? & ? & ? & ?)|(t & bc & c & ? & ? & ? & ?)]; exists t, bc, c;
    rewrite elem_of_app; auto.
Qed.

Lemma lookup_dep_tags b memo deps args :
  tags_ok b memo → Forall2 (λ d a, a.1 = d.1 ∧ dget memo d.2 = Some a.2) deps args → dep_tags b deps args.
Proof.
  intros Hok. induction 1 as [|[arg dep] [arg' t] deps args [Ha Ht] _ IH]; [constructor|].
  simpl in Ha, Ht. subst. constructor; [by apply Hok|done].
Qed.

(** One turn of the loop, however it ends: its only build is that of its image; it goes on
    only when docker has the image, and exits with code 0 only after printing the requested tag. *)
Definition turn_post (b : builder) (target : option string) (no_cache : bool) (n : string)
    (s s' : session) (h : list (list string * proc)) (r : res unit) : Prop :=
  (∀ c p, (c, p) ∈ h → is_build c → ∃ t, tag_of b n t ∧ image_build b no_cache n t c) ∧
  match r with
  | Ret _ => target ≠ Some n ∧ io_stdout s'.2 = io_stdout s.2 ∧ provided b no_cache h n
  | Raise (SystemExit 0) =>
      target = Some n ∧ provided b no_cache h n ∧
      ∃ t, tag_of b n t ∧ io_stdout s'.2 = io_stdout s.2 ++ [t]
  | Raise _ => True
  end.

Lemma dep_lookups_state (deps : list (string * string)) s r s' :
  mapM (λ '(arg_name, dep_image_name),
    t ← with_tags (tag_lookup dep_image_name); mret (arg_name, t)) deps s = (r, s') → s' = s.
Proof.
  apply mapM_state. clear. intros [arg dep] [m w] r s'.
  unfold with_tags, tag_lookup, mbind, ST_bind, get. simpl.
  destruct (dget m dep); by intros [= _ <-].
Qed.

(** A turn fails before docker is asked, or it runs [manage_docker_image] for the image and
    its tag. *)
Definition turn_runs (b : builder) (target : option string) (no_cache : bool) (n : string)
    (s s' : session) (r : res unit) : Prop :=
  ∃ tag df args ctx lm rm w,
    tag_of b n tag ∧
    image_build b no_cache n tag (build_cmd tag df (arg_flags args) ctx no_cache) ∧
    manage_docker_image tag df (flat_args args) ctx lm no_cache (repo b) s.2 = (rm, w) ∧
    match rm with
    | Raise e => r = Raise e ∧ s'.2 = w
    | Ret _ => if bool_decide (target = Some n)
               then r = Raise (SystemExit 0) ∧ s'.2 = (print_line tag w).2
               else r = Ret tt ∧ s'.2 = w
    end.

Lemma build_one_runs depth b target no_cache local n s r s' :
  tags_ok b s.1 → build_one depth b target no_cache local n s = (r, s') →
  tags_ok b s'.1 ∧
  ((∃ e, r = Raise e ∧ e ≠ SystemExit 0 ∧ s'.2 = s.2) ∨ turn_runs b target no_cache n s s' r).
Proof.
  intros Hok. unfold build_one. pose proof (calculate_tag_sound depth b n s.1 Hok) as (Hok1 & _ & Hpost).
  intros [(e & (t1 & Hcalc & ->)%with_tags_eq & ->)|(tag & s1 & (t1 & Hcalc & ->)%with_tags_eq & Hrest)]%ST_bind_inv;
    rewrite Hcalc in Hok1, Hpost; simpl in Hok1, Hpost.
  { split; [done|]. left. exists e. split_and!; [done| |done]. intros ->. by apply calculate_tag_raises in Hcalc as [?|?]. }
  destruct (Hpost tag eq_refl) as [Htag _]. clear Hpost.
  apply ST_bind_inv in Hrest as [(e & (He & ->)%lift_eq & ->)|(conf & s2 & (Hconf & ->)%lift_eq & Hrest)].
  { split; [done|]. left. exists e. destruct (dget _ n); by simplify_eq. }
  destruct (dget (image_configs_map b) n) as [conf'|] eqn:Hget; simplify_eq.
  apply ST_bind_inv in Hrest as [(e & (He & ->)%lift_eq & ->)|(lm & s3 & (_ & ->)%lift_eq & Hrest)].
  { split; [done|]. left. exists e. split_and!; [done| |done]. intros ->. unfold local_mode in He. by destruct local, conf. }
  destruct (find_dockerfile _ n) as [path|] eqn:Hpath.
  2: { injection Hrest as <- <-. split; [done|]. left. by exists (SystemExit 1). }
  apply ST_bind_inv in Hrest as [(e & (He & ->)%lift_eq & ->)|(deps & s4 & (Hdeps & ->)%lift_eq & Hrest)].
  { split; [done|]. left. exists e. split_and!; [done| |done]. intros ->. by apply conf_deps_raises in He. }
  apply ST_bind_inv in Hrest as [(e & He & ->)|(args & s5 & (-> & Hargs)%dep_lookups_Ret & Hrest)].
  { rewrite (dep_lookups_state _ _ _ _ He). split; [done|]. left. exists e. split_and!; [done| |done].
    intros ->. by apply dep_lookups_raises in He. }
  apply (lookup_dep_tags b) in Hargs; [|done].
  unfold mbind at 1, ST_bind at 1, with_io at 1 in Hrest. simpl in Hrest.
  destruct (manage_docker_image tag _ _ _ _ _ _ s.2) as [rm w] eqn:Hman.
  assert (s'.1 = t1 ∧ match rm with
    | Raise e => r = Raise e ∧ s'.2 = w
    | Ret _ => if bool_decide (target = Some n) then r = Raise (SystemExit 0) ∧ s'.2 = (print_line tag w).2
               else r = Ret tt ∧ s'.2 = w
    end) as [-> Hend].
  { destruct rm as [[]|e]; [case_bool_decide|]; by injection Hrest as <- <-. }
  split; [done|]. right. do 7 eexists. split; [done|]. split; [|split; [exact Hman|exact Hend]].
  exists conf, deps, args, path. done.
Qed.

Lemma build_one_turn depth b target no_cache local n s r s' :
  tags_ok b s.1 → build_one depth b target no_cache local n s = (r, s') →
  tags_ok b s'.1 ∧ ∃ h, history s.2 s'.2 h ∧ turn_post b target no_cache n s s' h r.
Proof.
  intros Hok [Hok' [(e & -> & He & Hs)|Hruns]]%build_one_runs; [| |done]; (split; [done|]).
  { exists []. rewrite Hs. split; [by apply history_nil|]. split; [by intros ?? ?%elem_of_nil|].
    destruct e; try done. by destruct code. }
  destruct Hruns as (tag & df & args & ctx & lm & rm & w & Htag & Hbuild & Hman & Hend).
  destruct (manage_leaves tag df args ctx lm no_cache (repo b) s.2) as (h & Hh & Hb & Hprov).
  pose proof (manage_silent tag df (flat_args args) ctx lm no_cache (repo b) s.2) as Hsil.
  pose proof (manage_raises tag df args ctx lm no_cache (repo b) s.2) as Hexit.
  rewrite Hman in Hh, Hprov, Hsil, Hexit. simpl in *. exists h.
  assert (history s.2 s'.2 h ∧ (rm = Ret tt → provided b no_cache h n)) as [Hh' Hp].
  { split; [|intros Hr; destruct (Hprov Hr) as (c & ? & ?); eexists tag, _, c; eauto].
    destruct rm as [[]|e]; [case_bool_decide|]; destruct Hend as [_ ->]; done. }
  split; [done|]. split; [intros c p Hc Hbc; exists tag; by rewrite (Hb c p Hc Hbc)|].
  destruct rm as [[]|e].
  - case_bool_decide as Ht; destruct Hend as [-> ->]; [|by split_and!; auto].
    split_and!; auto. exists tag. simpl. by rewrite Hsil.
  - destruct Hend as [-> _]. destruct (Hexit e w eq_refl) as (c & -> & ?). by destruct c.
Qed.

(** The builds of [h] are those of the images [ns], each after docker had all the images it
    is built from; [h0] is what happened before. *)
Definition bottom_up (b : builder) (no_cache : bool) (ns : list string)
    (h0 h : list (list string * proc)) : Prop :=
  ∀ h1 c p h2, h = h1 ++ (c, p) :: h2 → is_build c →
  ∃ n t, n ∈ ns ∧ tag_of b n t ∧ image_build b no_cache n t c ∧
         ∀ q, image_dep (image_configs_map b) n q → provided b no_cache (h0 ++ h1) q.

Lemma bottom_up_app b no_cache ns h0 h h' :
  bottom_up b no_cache ns h0 h → bottom_up b no_cache ns (h0 ++ h) h' → bottom_up b no_cache ns h0 (h ++ h').
Proof.
  intros Hh Hh' h1 c p h2 Heq Hb. apply app_eq_inv in Heq as [(k & -> & Hk)|(k & -> & ->)].
  - destruct k as [|x k]; simplify_eq/=; [|by eapply Hh].
    destruct (Hh' [] c p h2) as (n & t & ?); [done|done|]. exists n, t. by rewrite !app_nil_r in *.
  - destruct (Hh' k c p h2) as (n & t & ?); [done|done|]. exists n, t. by rewrite (assoc_L (++)).
Qed.

Lemma bottom_up_mono b no_cache ns ns' h0 h :
  ns ⊆ ns' → bottom_up b no_cache ns h0 h → bottom_up b no_cache ns' h0 h.
Proof. intros Hs Hh h1 c p h2 Heq Hb. destruct (Hh h1 c p h2 Heq Hb) as (n & t & ? & ?). exists n, t. auto. Qed.

Lemma bottom_up_none b no_cache ns h0 h : (∀ c p, (c, p) ∈ h → ¬ is_build c) → bottom_up b no_cache ns h0 h.
Proof. intros Hn h1 c p h2 -> Hb. destruct (Hn c p); [set_solver|done]. Qed.

(** The loop over images whose dependencies come first, however it ends. *)
Definition loop_post (b : builder) (target : option string) (no_cache : bool) (l : list string)
    (h0 : list (list string * proc)) (s s' : session) (r : res unit) : Prop :=
  ∃ h, history s.2 s'.2 h ∧ bottom_up b no_cache l h0 h ∧
       match r with
       | Ret _ => io_stdout s'.2 = io_stdout s.2 ∧ ∀ n, n ∈ l → target ≠ Some n ∧ provided b no_cache h n
       | Raise (SystemExit 0) =>
           ∃ n t, target = Some n ∧ provided b no_cache h n ∧ tag_of b n t ∧
                  io_stdout s'.2 = io_stdout s.2 ++ [t]
       | Raise _ => True
       end.

Lemma build_all_loop depth b target no_cache local seen h0 l s r s' :
  tags_ok b s.1 → (∀ q, q ∈ seen → provided b no_cache h0 q) →
  (∀ l1 n l2, l = l1 ++ n :: l2 → ∀ q, image_dep (image_configs_map b) n q → q ∈ seen ++ l1) →
  mapM_ (build_one depth b target no_cache local) l s = (r, s') →
  loop_post b target no_cache l h0 s s' r.
Proof.
  revert seen h0 s. induction l as [|n l IH]; intros seen h0 s Hok Hseen Hord.
  { intros [= <- <-]. exists []. split; [by apply history_nil|].
    split; [apply bottom_up_none; by intros ?? ?%elem_of_nil|]. split; [done|]. by intros n ?%elem_of_nil. }
  intros Hrun. assert (∃ s1 r1, build_one depth b target no_cache local n s = (r1, s1) ∧
    match r1 with
    | Raise e => r = Raise e ∧ s' = s1
    | Ret _ => mapM_ (build_one depth b target no_cache local) l s1 = (r, s')
    end) as (s1 & r1 & Hone & Hrest).
  { apply ST_bind_inv in Hrun as [(e & ? & ->)|([] & s1 & ? & ?)]; [by exists s', (Raise e)|by exists s1, (Ret tt)]. }
  apply build_one_turn in Hone as (Hok1 & h & Hh & Hb & Hend); [|done].
  assert (bottom_up b no_cache (n :: l) h0 h) as Hup.
  { intros h1 c p h2 -> Hbc. destruct (Hb c p) as (t & ? & ?); [set_solver|done|].
    exists n, t. split; [left|]. split_and!; [done..|]. intros q Hq.
    apply provided_app. left. apply Hseen. specialize (Hord [] n l eq_refl q Hq).
    by rewrite app_nil_r in Hord. }
  destruct r1 as [[]|e].
  2: { destruct Hrest as [-> ->]. exists h. split_and!; [done..|]. destruct e as []; try done.
       destruct code; try done. destruct Hend as (? & ? & t & ? & ?). by exists n, t. }
  destruct Hend as (Ht & Hout & Hprov).
  destruct (IH (seen ++ [n]) (h0 ++ h) s1) as (h' & Hh' & Hup' & Hend'); [done| | |done|].
  { intros q [Hq| ->%list_elem_of_singleton]%elem_of_app; apply provided_app; auto. }
  { intros l1 m l2 -> q Hq. rewrite <-(assoc_L (++)). by eapply (Hord (n :: l1)). }
  exists (h ++ h'). split; [by eapply history_app|]. split.
  { eapply bottom_up_app; [done|]. eapply bottom_up_mono; [|done]. set_solver. }
  destruct r as [[]|e].
  - destruct Hend' as [Hout' Hall]. split; [congruence|].
    intros m [->|Hm]%elem_of_cons; (split; [|apply provided_app]); naive_solver.
  - destruct e as []; try done. destruct code; try done. destruct Hend' as (m & t & ? & ? & ? & Hout').
    exists m, t. split_and!; [done|apply provided_app; auto|done|congruence].
Qed.

(** ** [main] *)

Lemma get_build_order_graph b targets order :
  get_build_order b targets = Ret order → ∃ g, full_graph (image_configs_map b) = Ret g.
Proof. destruct targets; unfold get_build_order, get_dependency_subgraph; intros (g & ? & _)%bind_Ret; eauto. Qed.

Lemma check_targets_known b args t :
  check_targets b args = Ret tt → t ∈ arg_target_images args → t ∈ dkeys (image_configs_map b).
Proof.
  unfold check_targets. destruct (arg_print_tag args).
  - destruct (arg_target_images args) as [|x [|]]; try done.
    unfold check_image_name. case_bool_decide; [|done]. intros _ ->%list_elem_of_singleton. done.
  - rewrite check_all_ok. intros Hall Ht. specialize (Hall t Ht). unfold check_image_name in Hall.
    by case_bool_decide.
Qed.

(** What the order of a run over accepted targets holds. *)
Lemma order_facts b args order :
  check_targets b args = Ret tt → NoDup (dkeys (image_configs_map b)) →
  get_build_order b (arg_target_images args) = Ret order →
  (∀ n, n ∈ order ↔ wanted (image_configs_map b) (arg_target_images args) n) ∧
  deps_first (image_dep (image_configs_map b)) order.
Proof.
  intros Hc Hnd Ho. destruct (get_build_order_graph _ _ _ Ho) as [g Hg].
  pose proof (get_build_order_spec b (arg_target_images args) g Hg Hnd
                (λ t, check_targets_known b args t Hc)) as Hs.
  rewrite Ho in Hs. by destruct Hs as (_ & ? & ? & _).
Qed.

Lemma get_build_order_raises b targets e : get_build_order b targets = Raise e → tag_failure e.
Proof.
  assert (∀ g, topological_sort g = Raise e → tag_failure e) as Ht.
  { intros g. unfold topological_sort, try_except.
    destruct (static_order _) as [|e'] eqn:Hs; [done|]. destruct (is_Exception e') eqn:He; intros [= <-].
    - by left.
    - pose proof (static_order_correct (sorter_graph g)) as Hc. rewrite Hs in Hc. by destruct Hc as [-> _]. }
  destruct targets; unfold get_build_order, get_dependency_subgraph;
    intros [Hg|(g & _ & ?)]%bind_Raise; [|by eapply Ht| |by eapply Ht];
    apply map_res_Raise in Hg as ([n c] & _ & [Hd|(? & _ & ?)]%bind_Raise); try done;
    right; by eapply conf_deps_raises.
Qed.

Lemma print_target b args :
  arg_print_tag args = true → check_targets b args = Ret tt → ∃ t, arg_target_images args = [t].
Proof.
  unfold check_targets. intros ->. destruct (arg_target_images args) as [|t [|]]; try done. eauto.
Qed.

(** The checks issue no build and end in exit code 1 or not at all. *)
Lemma check_installed_leaves :
  let Q r h := r ∈ [Ret tt; Raise (SystemExit 1)] ∧ ∀ c p, (c, p) ∈ h → ¬ is_build c in
  leaves Q check_docker_installed ∧ leaves Q check_docker_buildx_installed.
Proof.
  unfold check_docker_installed, check_docker_buildx_installed, is_build. cbv zeta.
  split; solve_leaves; set_solver.
Qed.

Lemma check_installed_quiet :
  silent check_docker_installed ∧ silent check_docker_buildx_installed.
Proof. split; unfold check_docker_installed, check_docker_buildx_installed; solve_silent. Qed.

Lemma check_targets_raises b args e : check_targets b args = Raise e → e = SystemExit 1.
Proof.
  assert (∀ n, check_image_name b n = Raise e → e = SystemExit 1) as Hcn.
  { intros n. unfold check_image_name. case_bool_decide; congruence. }
  unfold check_targets. destruct (arg_print_tag args).
  - repeat case_match; try congruence. eauto.
  - intros (x & _ & ?)%check_all_raise. eauto.
Qed.

(** After the checks a run fails, or it is the loop over the build order. *)
Definition main_fails (w : io) (s' : session) (r : res unit) : Prop :=
  s'.2 = w ∧ ∃ e, r = Raise e ∧ e ≠ SystemExit 0.

Definition main_loops (depth : nat) (args : build_args) (w : io) (s' : session) (r : res unit) : Prop :=
  ∃ b order, DockerBuilder (arg_config args) (arg_search_path args) = Ret b ∧
    check_targets b args = Ret tt ∧ get_build_order b (arg_target_images args) = Ret order ∧
    mapM_ (build_one depth b (if arg_print_tag args then head (arg_target_images args) else None)
             (arg_no_cache args) (arg_local args)) order ([], w) = (r, s').

Lemma main_after_checks depth args w s' r :
  (b ← lift (DockerBuilder (arg_config args) (arg_search_path args));
   _ ← lift (check_targets b args);
   build_images depth b (arg_target_images args) (arg_print_tag args)
     (arg_no_cache args) (arg_local args)) ([], w) = (r, s') →
  main_fails w s' r ∨ main_loops depth args w s' r.
Proof.
  intros [(e & (He & ->)%lift_eq & ->)|(b & s1 & (Hb & ->)%lift_eq & Hrest)]%ST_bind_inv.
  { left. split; [done|]. exists e. split; [done|]. apply DockerBuilder_raises in He as [->|?]; naive_solver. }
  apply ST_bind_inv in Hrest as [(e & (He & ->)%lift_eq & ->)|([] & s1 & (Hc & ->)%lift_eq & Hrest)].
  { left. split; [done|]. exists e. split; [done|]. by apply check_targets_raises in He as ->. }
  apply ST_bind_inv in Hrest as [(e & (He & ->)%lift_eq & ->)|(order & s1 & (Ho & ->)%lift_eq & Hrest)].
  { left. split; [done|]. exists e. split; [done|]. apply get_build_order_raises in He as [->|?]; naive_solver. }
  apply ST_bind_inv in Hrest as [(e & (He & ->)%lift_eq & ->)|(target & s1 & (Ht & ->)%lift_eq & Hrest)].
  { left. split; [done|]. exists e. split; [done|]. by repeat case_match; simplify_eq. }
  right. exists b, order. split_and!; [done..|].
  assert ((if arg_print_tag args then head (arg_target_images args) else None) = target) as ->; [|done].
  by repeat case_match; simplify_eq/=.
Qed.

Lemma main_checks depth args w r s' :
  main depth args ([], w) = (r, s') →
  ∃ w1 h, history w w1 h ∧ io_stdout w1 = io_stdout w ∧ (∀ c p, (c, p) ∈ h → ¬ is_build c) ∧
          (main_fails w1 s' r ∨ main_loops depth args w1 s' r).
Proof.
  destruct check_installed_leaves as [Hc1 Hc2]. destruct check_installed_quiet as [Hs1 Hs2].
  destruct (Hc1 w) as (h1 & Hh1 & Hr1 & Hn1). specialize (Hs1 w).
  unfold main. unfold mbind at 1, ST_bind at 1, with_io at 1. simpl.
  destruct (check_docker_installed w) as [r1 w1]. simpl in *.
  destruct r1 as [[]|e1].
  2: { intros [= <- <-]. exists w1, h1. split_and!; [done..|]. left. split; [done|]. exists e1. set_solver. }
  destruct (Hc2 w1) as (h2 & Hh2 & Hr2 & Hn2). specialize (Hs2 w1).
  unfold mbind at 1, ST_bind at 1, with_io at 1. simpl.
  destruct (check_docker_buildx_installed w1) as [r2 w2]. simpl in *. intros Hrest.
  exists w2, (h1 ++ h2). split; [by eapply history_app|]. split; [congruence|].
  split; [intros c p [?|?]%elem_of_app; eauto|].
  destruct r2 as [[]|e2]; [by apply main_after_checks|].
  injection Hrest as <- <-. left. split; [done|]. exists e2. set_solver.
Qed.

(** What a run of [main] did, however it ended. *)
Definition main_post (args : build_args) (w : io) (s' : session) (r : res unit) : Prop :=
  ∃ h, history w s'.2 h ∧
  (∀ h1 c p h2, h = h1 ++ (c, p) :: h2 → is_build c →
   ∃ b n t, DockerBuilder (arg_config args) (arg_search_path args) = Ret b ∧
     wanted (image_configs_map b) (arg_target_images args) n ∧ tag_of b n t ∧
     image_build b (arg_no_cache args) n t c ∧
     ∀ q, image_dep (image_configs_map b) n q → provided b (arg_no_cache args) h1 q) ∧
  match r with
  | Ret _ =>
      ∃ b, DockerBuilder (arg_config args) (arg_search_path args) = Ret b ∧
        arg_print_tag args = false ∧ io_stdout s'.2 = io_stdout w ∧
        ∀ n, wanted (image_configs_map b) (arg_target_images args) n → provided b (arg_no_cache args) h n
  | Raise (SystemExit 0) =>
      arg_print_tag args = true ∧
      ∃ b n t, DockerBuilder (arg_config args) (arg_search_path args) = Ret b ∧
        arg_target_images args = [n] ∧ tag_of b n t ∧ io_stdout s'.2 = io_stdout w ++ [t] ∧
        provided b (arg_no_cache args) h n
  | Raise _ => True
  end.

Lemma main_spec depth args w r s' : main depth args ([], w) = (r, s') → main_post args w s' r.
Proof.
  intros (w1 & h0 & Hh0 & Hout0 & Hn0 & [[Hs (e & -> & He)]|(b & order & Hb & Hc & Ho & Hall)])%main_checks.
  { exists h0. rewrite Hs. split; [done|]. split.
    - intros h1 c p h2 -> Hbc. destruct (Hn0 c p); [set_solver|done].
    - destruct e; try done. by destruct code. }
  destruct (order_facts b args order Hc (DockerBuilder_NoDup _ _ _ Hb) Ho) as [Hin Hfirst].
  apply (build_all_loop _ _ _ _ _ [] h0) in Hall as (h & Hh & Hup & Hend);
    [|done|by intros ? ?%elem_of_nil|exact Hfirst].
  exists (h0 ++ h). split; [by eapply history_app|]. split.
  { intros h1 c p h2 Heq Hbc.
    destruct (bottom_up_app b (arg_no_cache args) order [] h0 h (bottom_up_none _ _ _ _ _ Hn0) Hup h1 c p h2 Heq Hbc)
      as (n & t & Hn & ? & ? & ?). exists b, n, t. split_and!; [done|by apply Hin|done..]. }
  simpl in Hend. rewrite Hout0 in Hend. destruct r as [[]|e].
  - exists b. destruct Hend as [Hout Hall]. split; [done|]. split; [|split; [done|]].
    + destruct (arg_print_tag args) eqn:Hp; [|done]. destruct (print_target b args Hp Hc) as (t & Hts).
      rewrite Hts in *. destruct (Hall t) as [? _]; [|done]. apply Hin. exists t. split; [left|constructor].
    + intros n Hn%Hin. apply provided_app. right. by apply Hall.
  - destruct e; try done. destruct code; try done. destruct Hend as (n & t & Ht & Hprov & Htag & Hout).
    destruct (arg_print_tag args) eqn:Hp; [|done]. split; [done|].
    destruct (print_target b args Hp Hc) as (t' & Hts). rewrite Hts in *. injection Ht as ->.
    exists b, n, t. split_and!; [done..|]. apply provided_app. by right.
Qed.

(** ** Progress: a build whose docker commands succeed runs to its end *)

(** Looking up, building and pulling work; a push may fail. *)
Definition docker_works : Prop :=
  (∀ t d, ∃ rc d', docker_exec (inspect_cmd t) d = (Exited rc, d')) ∧
  (∀ t d, ∃ rc d', docker_exec (manifest_inspect_cmd t) d = (Exited rc, d') ∧
                   (rc = 0%Z → ∃ d'', docker_exec (pull_cmd t) d' = (Exited 0, d''))) ∧
  (∀ t d, ∃ rc d', docker_exec (push_cmd t) d = (Exited rc, d')) ∧
  (∀ t f flags c nc d, ∃ d', docker_exec (build_cmd t f flags c nc) d = (Exited 0, d')).

Lemma manage_total tag df args ctx local no_cache r w :
  docker_works →
  ∃ w', manage_docker_image tag df (flat_args args) ctx local no_cache r w = (Ret tt, w').
Proof.
  intros (Hi & Hm & Hp & Hb).
  unfold manage_docker_image, build_image. rewrite build_arg_flags_flat.
  unfold try_catch, check_if_image_exists_locally, check_if_image_exists_in_remote_registry,
    pull_image_from_registry, push_image_to_registry, mbind, ST_bind, lift, mret, ST_ret,
    subprocess_run.
  set (flags := mjoin ((λ kv, ["--build-arg"; kv.1 +:+ "=" +:+ kv.2]) <$> args)).
  destruct no_cache; simpl.
  - destruct (negb (str_truthy r) || local); simpl.
    + destruct (Hb tag df flags ctx true (io_daemon w)) as [d ->]. simpl. eauto.
    + destruct (Hb tag df flags ctx true (io_daemon w)) as [d ->]. simpl.
      destruct (Hp tag d) as (rc & d' & ->). simpl. eauto.
  - destruct (Hi tag (io_daemon w)) as (rc & d & ->). simpl.
    case_bool_decide; simpl; [eauto|].
    destruct (negb (str_truthy r) || local); simpl.
    + destruct (Hb tag df flags ctx false d) as [d1 ->]. simpl. eauto.
    + destruct (Hm tag d) as (rc' & d1 & -> & Hpull). simpl. case_bool_decide as Hrc; simpl.
      * destruct (Hpull Hrc) as [d2 ->]. simpl. eauto.
      * destruct (Hb tag df flags ctx false d1) as [d2 ->]. simpl.
        destruct (Hp tag d2) as (rc2 & d3 & ->). simpl. eauto.
Qed.

Lemma dep_lookups_total (deps : list (string * string)) (s : session) :
  (∀ p, p ∈ dvalues deps → is_Some (dget s.1 p)) →
  ∃ args, mapM (λ '(arg_name, dep_image_name),
    t ← with_tags (tag_lookup dep_image_name); mret (arg_name, t)) deps s = (Ret args, s).
Proof.
  intros Hd. induction deps as [|[arg dep] deps IH]; [by exists []|].
  destruct (Hd dep) as [t Ht]; [left|]. destruct IH as [args Hargs].
  { intros p Hp. apply Hd. by right. }
  exists ((arg, t) :: args). apply ST_bind_Ret. exists (arg, t), s. split.
  - apply ST_bind_Ret. exists t, s. split; [|done]. apply with_tags_eq. exists s.1.
    split; [|by destruct s]. unfold tag_lookup, mbind, ST_bind, get. by rewrite Ht.
  - apply ST_bind_Ret. by exists args, s.
Qed.

Lemma conf_deps_local conf deps local : conf_deps conf = Ret deps → ∃ v, local_mode local conf = Ret v.
Proof.
  unfold conf_deps, local_mode. intros (d & Hd & _)%bind_Ret. destruct local; [eauto|].
  destruct conf; simpl in *; try done. eauto.
Qed.

Lemma build_one_total depth b no_cache local n s :
  docker_works → tags_ok b s.1 → buildable b n →
  (∀ p, image_dep (image_configs_map b) n p → is_Some (dget s.1 p)) →
  ∃ s', build_one (S (S depth)) b None no_cache local n s = (Ret tt, s') ∧
        tags_ok b s'.1 ∧ is_Some (dget s'.1 n) ∧
        ∀ p, is_Some (dget s.1 p) → is_Some (dget s'.1 p).
Proof.
  intros Hw Hok Hb Hdeps. destruct (calculate_tag_complete depth b n s.1 Hb Hdeps) as [t Ht].
  destruct Hb as (conf & deps & path & content & Hc & Hd & Hp & Hr).
  destruct (calculate_tag_sound (S (S depth)) b n s.1 Hok) as (Hok1 & Hext & Hpost).
  destruct (calculate_tag_for_image (S (S depth)) b n s.1) as [r1 tags1] eqn:Hcalc.
  simpl in Ht, Hok1, Hext, Hpost. subst r1. destruct (Hpost t eq_refl) as [_ Hn].
  destruct (conf_deps_local conf deps local Hd) as [v Hv].
  destruct (dep_lookups_total deps (tags1, s.2)) as [args Hargs].
  { intros p Hin. destruct (Hdeps p) as [tp Htp]; [exists conf, deps; auto|]. exists tp. by apply Hext. }
  destruct (manage_total t (realpath path) (args ++ extra_args b n) (os_path_dirname (realpath path))
              v no_cache (repo b) s.2 Hw) as [w' Hman].
  exists (tags1, w'). split; [|split_and!; [done|eauto|intros p [tp ?]; exists tp; by apply Hext]].
  unfold build_one. apply ST_bind_Ret. exists t, (tags1, s.2). split.
  { apply with_tags_eq. by exists tags1. }
  rewrite Hc, Hp. apply ST_bind_Ret. exists conf, (tags1, s.2). split; [done|].
  apply ST_bind_Ret. exists v, (tags1, s.2). split; [by apply lift_eq|].
  apply ST_bind_Ret. exists deps, (tags1, s.2). split; [by apply lift_eq|].
  apply ST_bind_Ret. exists args, (tags1, s.2). split; [done|].
  apply ST_bind_Ret. exists tt, (tags1, w'). split; [|done].
  apply with_io_eq. by exists w'.
Qed.

Lemma build_all_total depth b no_cache local seen l s :
  docker_works → tags_ok b s.1 → (∀ p, p ∈ seen → is_Some (dget s.1 p)) →
  (∀ l1 n l2, l = l1 ++ n :: l2 → ∀ p, image_dep (image_configs_map b) n p → p ∈ seen ++ l1) →
  (∀ n, n ∈ l → buildable b n) →
  ∃ s', mapM_ (build_one (S (S depth)) b None no_cache local) l s = (Ret tt, s').
Proof.
  intros Hw. revert seen s. induction l as [|n l IH]; intros seen s Hok Hseen Hord Hb; [by exists s|].
  destruct (build_one_total depth b no_cache local n s Hw Hok) as (s1 & Hs1 & Hok1 & Hn & Hext).
  { apply Hb. left. }
  { intros p Hp. apply Hseen. specialize (Hord [] n l eq_refl p Hp). by rewrite app_nil_r in Hord. }
  destruct (IH (seen ++ [n]) s1) as [s' Hs']; [done| | | |].
  - intros p [Hp| ->%list_elem_of_singleton]%elem_of_app; auto.
  - intros l1 m l2 -> p Hp. rewrite <-(assoc_L (++)). by eapply (Hord (n :: l1)).
  - intros m Hm. apply Hb. by right.
  - exists s'. apply ST_bind_Ret. eauto.
Qed.
End build.
