(* ===== verification/Samples.v ===== *)
(** * Concrete environments

    A file system given by its files, a docker daemon that keeps two sets of
    tags, Python's set order instantiated by [elements], and a small project
    with three images.  They instantiate the parameters of the model, so that
    every hypothesis of the theorems is met by a running example. *)

From Stdlib Require Import Ascii.
From stdpp Require Import base list strings sorting gmap relations.
From S2P Require Import Prelude PyStr PyJson Schema Sha256 Graphlib Registry Builder BuildOrder.
From S2P Require Import BuildTags BuildConfig DockerImage.

(** ** Files *)

(** A file system from the JSON files and the text files it holds. *)
Definition json_files_wf (js : list (string * json)) : Prop := ∀ p j, dget js p = Some j → json_wf j.

Program Definition files_fs (js : list (string * json)) (fs : list (string * string))
    (Hwf : json_files_wf js) : FileSystem := {|
  path_exists p := bool_decide (p ∈ dkeys js ++ dkeys fs);
  json_load p := match dget js p with Some j => Ret j | None => Raise FileNotFoundError end;
  read_bytes p := match dget fs p with Some s => Ret (encode_utf8 s) | None => Raise FileNotFoundError end;
  realpath p := p;
|}.
Next Obligation. intros js fs Hwf p j. simpl. destruct (dget js p) eqn:?; naive_solver. Qed.
Next Obligation. intros js fs Hwf p e. simpl. destruct (dget js p) eqn:?; naive_solver. Qed.
Next Obligation. intros js fs Hwf p e. simpl. destruct (dget fs p) eqn:?; naive_solver. Qed.

(** ** Set order *)
#[export] Instance elements_order : SetOrder := {| set_iter := elements; set_iter_perm s := reflexivity _ |}.

(** ** A docker daemon with a local and a remote set of tags *)

Definition sample_exec (cmd : list string) (d : gset string * gset string) : proc * (gset string * gset string) :=
  let '(local, remote) := d in
  if decide (take 3 cmd = ["docker"; "image"; "inspect"]) then
    match drop 3 cmd with
    | [t] => (Exited (if decide (t ∈ local) then 0 else 1), d)
    | _ => (Exited 1, d)
    end
  else if decide (take 3 cmd = ["docker"; "manifest"; "inspect"]) then
    match drop 3 cmd with
    | [t] => (Exited (if decide (t ∈ remote) then 0 else 1), d)
    | _ => (Exited 1, d)
    end
  else if decide (take 2 cmd = ["docker"; "pull"]) then
    match drop 2 cmd with
    | [t] => if decide (t ∈ remote) then (Exited 0, ({[t]} ∪ local, remote)) else (Exited 1, d)
    | _ => (Exited 1, d)
    end
  else if decide (take 2 cmd = ["docker"; "push"]) then
    match drop 2 cmd with
    | [t] => if decide (t ∈ local) then (Exited 0, (local, {[t]} ∪ remote)) else (Exited 1, d)
    | _ => (Exited 1, d)
    end
  else if decide (take 2 cmd = ["docker"; "rmi"]) then
    match drop 2 cmd with
    | [t] => if decide (t ∈ local) then (Exited 0, (local ∖ {[t]}, remote)) else (Exited 1, d)
    | _ => (Exited 1, d)
    end
  else if decide (take 4 cmd = ["docker"; "buildx"; "build"; "--tag"]) then
    match drop 4 cmd with
    | t :: _ => (Exited 0, ({[t]} ∪ local, remote))
    | _ => (Exited 1, d)
    end
  else (Exited 0, d).

#[export] Instance sample_docker : Docker := {|
  daemon := gset string * gset string;
  docker_exec := sample_exec;
|}.

(** ** A project with three images: dev-env on build-env on tool-env *)

Definition image_entry (deps : list (string * string)) : json :=
  JObj [("deps", JObj ((λ kv, (kv.1, JStr kv.2)) <$> deps))].

Definition sample_configs : dict json :=
  [("dev-env", image_entry [("BASE", "build-env")]);
   ("build-env", image_entry [("BASE", "tool-env")]);
   ("tool-env", image_entry [])].

Definition sample_config : json :=
  JObj [("docker", JObj
    [("registry", JObj [("host", JStr "gcr.io"); ("project", JStr "p"); ("repository", JStr "r");
                        ("namespace", JStr "demo")]);
     ("images", JObj [("tool-env", JObj [("packages", JObj [("zip", JStr "*")])])])])].

Definition sample_json_files : list (string * json) :=
  [("devkit.json", sample_config); ("images/deps.json", JObj sample_configs)].

Definition sample_text_files : list (string * string) :=
  [("images/tool-env.Dockerfile", "FROM scratch");
   ("images/build-env.Dockerfile", "ARG BASE");
   ("images/dev-env.Dockerfile", "ARG BASE")].

Lemma sample_json_wf : json_files_wf sample_json_files.
Proof.
  intros p j. simpl. case_decide; [intros [= <-]|case_decide; [intros [= <-]|done]];
    simpl; repeat split; repeat (apply NoDup_cons; split; [set_solver|]); try apply NoDup_nil_2; done.
Qed.

Definition sample_fs : FileSystem := files_fs sample_json_files sample_text_files sample_json_wf.

Definition sample_builder : builder :=
  Builder "devkit.json" ["images"] "gcr.io/p/r" "devkit/demo" "amd64"
    [("tool-env", ["zip=*"])] [] [] sample_configs.

Example sample_builder_loaded : @DockerBuilder sample_fs "devkit.json" ["images"] = Ret sample_builder.
Proof. vm_compute. reflexivity. Qed.

Example sample_order : get_build_order sample_builder ["dev-env"] = Ret ["tool-env"; "build-env"; "dev-env"].
Proof. vm_compute. reflexivity. Qed.

Lemma sample_NoDup : NoDup (dkeys (image_configs_map sample_builder)).
Proof. apply (bool_decide_unpack _). vm_compute. exact I. Qed.

Lemma sample_known t :
  t ∈ ["dev-env"; "build-env"; "tool-env"] → t ∈ dkeys (image_configs_map sample_builder).
Proof. done. Qed.
