(* ===== verification/BuildTheorems.v ===== *)
(** * What [docker/build.py] guarantees

    The main results about configuration, build order, tags, docker operations
    and [main], each with a run of the sample project that meets its
    hypotheses. *)

From Stdlib Require Import Ascii.
From stdpp Require Import base list strings sorting gmap relations.
From S2P Require Import Prelude PyStr PyJson Schema Sha256 Graphlib Registry Builder BuildOrder.
From S2P Require Import BuildTags BuildConfig DockerImage BuildMain Samples.

(** ** Build order *)

(** C1: the build order of a set of targets (or of all images) holds exactly the
    images that are wanted, each once and after all its dependencies; the build
    exits with code 1 exactly when the wanted images have a dependency cycle. *)
Theorem build_order_correct `{SetOrder} b targets g :
  full_graph (image_configs_map b) = Ret g → NoDup (dkeys (image_configs_map b)) →
  (∀ t, t ∈ targets → t ∈ dkeys (image_configs_map b)) →
  match get_build_order b targets with
  | Ret out =>
      NoDup out ∧ (∀ n, n ∈ out ↔ wanted (image_configs_map b) targets n) ∧
      deps_first (image_dep (image_configs_map b)) out ∧
      (∀ n, wanted (image_configs_map b) targets n → ¬ tc (image_dep (image_configs_map b)) n n)
  | Raise e =>
      e = SystemExit 1 ∧
      ∃ n, wanted (image_configs_map b) targets n ∧ tc (image_dep (image_configs_map b)) n n
  end.
Proof. apply get_build_order_spec. Qed.

Lemma build_order_correct_witness :
  match get_build_order sample_builder ["build-env"] with
  | Ret out => out = ["tool-env"; "build-env"] ∧ deps_first (image_dep sample_configs) out
  | Raise _ => False
  end.
Proof.
  pose proof (build_order_correct sample_builder ["build-env"] _ eq_refl) as Hb.
  assert (get_build_order sample_builder ["build-env"] = Ret ["tool-env"; "build-env"]) as Ho
    by (vm_compute; reflexivity).
  rewrite Ho in Hb. rewrite Ho. split; [done|].
  destruct Hb as (_ & _ & Hd & _); [apply sample_NoDup| |exact Hd].
  intros t ->%list_elem_of_singleton. apply sample_known. right. left.
Defined.

(** ** Tags *)

(** C4: when a build order exists and every image of it has a configuration, a
    Dockerfile in a search path and readable content, [calculate_tags] returns
    the tag of each image in build order; two Python frames are enough, because
    the order puts every dependency in the memo table first. *)
Theorem calculate_tags_total `{FileSystem} `{Hash} `{SetOrder} depth b targets order :
  2 ≤ depth → NoDup (dkeys (image_configs_map b)) →
  (∀ t, t ∈ targets → t ∈ dkeys (image_configs_map b)) →
  get_build_order b targets = Ret order → (∀ n, n ∈ order → buildable b n) →
  ∃ tags memo, calculate_tags depth b targets [] = (Ret tags, memo) ∧ Forall2 (tag_of b) order tags.
Proof.
  intros Hd Hnd Ht Ho Hb. destruct depth as [|[|depth]]; [lia..|].
  destruct (get_build_order_graph b targets order Ho) as [g Hg].
  pose proof (get_build_order_spec b targets g Hg Hnd Ht) as Hs. rewrite Ho in Hs.
  by apply calculate_tags_complete; [|apply Hs|].
Qed.

Lemma calculate_tags_total_witness :
  ∃ tags memo, @calculate_tags sample_fs sha256_Hash elements_order 2 sample_builder [] [] =
                 (Ret tags, memo) ∧
               Forall2 (@tag_of sample_fs sha256_Hash sample_builder)
                 ["tool-env"; "build-env"; "dev-env"] tags.
Proof.
  apply (@calculate_tags_total sample_fs sha256_Hash elements_order 2 sample_builder []
           ["tool-env"; "build-env"; "dev-env"]).
  - lia.
  - apply sample_NoDup.
  - by intros t ?%elem_of_nil.
  - vm_compute. reflexivity.
  - intros n Hn. repeat (apply elem_of_cons in Hn as [->|Hn];
      [by repeat (first [eexists|split]; try reflexivity)|]). by apply elem_of_nil in Hn.
Defined.

(** C37: the tag of an image does not depend on what it is built for: every tag a
    targeted build computes is among the tags computed for all images, whatever
    the set order of either run and however deep its recursion. *)
Theorem targeted_tags_among_all `{FileSystem} `{Hash} (so1 so2 : SetOrder) d1 d2 b targets out all m1 m2 :
  NoDup (dkeys (image_configs_map b)) → (∀ t, t ∈ targets → t ∈ dkeys (image_configs_map b)) →
  @calculate_tags _ _ so1 d1 b targets [] = (Ret out, m1) →
  @calculate_tags _ _ so2 d2 b [] [] = (Ret all, m2) →
  out ⊆ all.
Proof.
  intros Hnd Ht H1 H2.
  apply calculate_tags_sound in H1 as (o1 & Ho1 & Hf1); [|done].
  apply calculate_tags_sound in H2 as (o2 & Ho2 & Hf2); [|done].
  destruct (get_build_order_graph b targets o1 Ho1) as [g Hg].
  pose proof (@get_build_order_spec so1 b targets g Hg Hnd Ht) as Hs1. rewrite Ho1 in Hs1.
  pose proof (@get_build_order_spec so2 b [] g Hg Hnd ltac:(by intros ? ?%elem_of_nil)) as Hs2.
  rewrite Ho2 in Hs2. destruct Hs1 as (_ & Hin1 & _). destruct Hs2 as (_ & Hin2 & _).
  intros t (n & Hn & Htag)%(Forall2_elem_r _ _ _ _ Hf1).
  assert (n ∈ o2) as Hn2 by (by apply Hin2, (wanted_all _ targets), Hin1).
  destruct (Forall2_elem_l _ _ _ _ Hf2 Hn2) as (t' & Ht' & Htag').
  by rewrite (tag_of_functional b n t t').
Qed.

Lemma targeted_tags_among_all_witness :
  ∃ out all m1 m2,
    @calculate_tags sample_fs sha256_Hash elements_order 2 sample_builder ["build-env"] [] = (Ret out, m1) ∧
    @calculate_tags sample_fs sha256_Hash elements_order 2 sample_builder [] [] = (Ret all, m2) ∧
    length out = 2 ∧ length all = 3 ∧ out ⊆ all.
Proof.
  destruct (@calculate_tags sample_fs sha256_Hash elements_order 2 sample_builder ["build-env"] [])
    as [r1 m1] eqn:H1.
  destruct (@calculate_tags sample_fs sha256_Hash elements_order 2 sample_builder [] [])
    as [r2 m2] eqn:H2.
  vm_compute in H1. vm_compute in H2. injection H1 as <- <-. injection H2 as <- <-.
  do 4 eexists. split; [reflexivity|]. split; [reflexivity|].
  split; [reflexivity|]. split; [reflexivity|].
  eapply (@targeted_tags_among_all sample_fs sha256_Hash elements_order elements_order 2 2
            sample_builder ["build-env"]); [apply sample_NoDup| | |].
  - intros t ->%list_elem_of_singleton. apply sample_known. right. left.
  - vm_compute. reflexivity.
  - vm_compute. reflexivity.
Defined.

(** Two builders that differ only in the order of each image's dependencies. *)
Definition same_up_to_dep_order (b b' : builder) : Prop :=
  search_paths b' = search_paths b ∧ repo b' = repo b ∧ namespace b' = namespace b ∧
  arch b' = arch b ∧ (∀ n, extra_args b' n = extra_args b n) ∧
  ∀ n conf deps, dget (image_configs_map b) n = Some conf → conf_deps conf = Ret deps →
    ∃ conf' deps', dget (image_configs_map b') n = Some conf' ∧ conf_deps conf' = Ret deps' ∧
                   deps ≡ₚ deps'.

Lemma dep_tags_perm `{FileSystem} `{Hash} b deps args deps' :
  dep_tags b deps args → deps ≡ₚ deps' → ∃ args', args ≡ₚ args' ∧ dep_tags b deps' args'.
Proof.
  intros Hd Hp. revert args Hd. induction Hp as [|[a d] l l' Hp IH|[a d] [a' d'] l|l1 l2 l3 Hp1 IH1 Hp2 IH2];
    intros args Hd.
  - by exists args.
  - inversion Hd as [|? ? ? t rest Ht Hr]; subst. destruct (IH _ Hr) as (r' & ? & ?).
    exists ((a, t) :: r'). split; [by apply perm_skip|by constructor].
  - inversion Hd as [|? ? ? t rest Ht Hr]; subst. inversion Hr as [|? ? ? t' rest' Ht' Hr']; subst.
    exists ((a, t') :: (a', t) :: rest'). split; [apply perm_swap|]. by repeat constructor.
  - destruct (IH1 _ Hd) as (a2 & ? & Hd2). destruct (IH2 _ Hd2) as (a3 & ? & ?).
    exists a3. split; [by etrans|done].
Qed.

Lemma sorted_args_perm args args' : args ≡ₚ args' → sorted_args args = sorted_args args'.
Proof.
  intros Hp. unfold sorted_args. apply (StronglySorted_unique String.le).
  - apply StronglySorted_merge_sort; apply _.
  - apply StronglySorted_merge_sort; apply _.
  - by rewrite !merge_sort_Permutation, Hp.
Qed.

Lemma tag_of_dep_order `{FileSystem} `{Hash} b b' n t :
  same_up_to_dep_order b b' → tag_of b n t → tag_of b' n t.
Proof.
  intros (Hp & Hr & Hn & Ha & Hx & Hd).
  apply (tag_of_mut b (λ n t, tag_of b' n t) (λ deps args, dep_tags b' deps args)).
  - intros name conf deps args path sha Hconf Hdeps Hpath _ IH Hsha.
    destruct (Hd name conf deps Hconf Hdeps) as (conf' & deps' & Hconf' & Hdeps' & Hperm).
    destruct (dep_tags_perm b' deps args deps' IH Hperm) as (args' & Hargs & Htags).
    replace (get_image_tag b name sha) with (get_image_tag b' name sha)
      by (unfold get_image_tag; by rewrite Hr, Hn, Ha).
    eapply tag_of_intro; [done|done|by rewrite Hp|done|].
    rewrite Hx, <-Hsha. f_equal. apply sorted_args_perm. by rewrite Hargs.
  - constructor.
  - intros; by constructor.
Qed.

Lemma calculated_tag_of `{FileSystem} `{Hash} depth b n t memo :
  calculate_tag_for_image depth b n [] = (Ret t, memo) → tag_of b n t.
Proof.
  intros Hc. destruct (calculate_tag_sound depth b n []) as (_ & _ & Hpost); [done|].
  rewrite Hc in Hpost. by destruct (Hpost t eq_refl).
Qed.

(** C38: sorting the build arguments makes the tag independent of the order in
    which [deps.json] lists the dependencies of an image. *)
Theorem tag_ignores_dependency_order `{FileSystem} `{Hash} d d' b b' n t t' m m' :
  same_up_to_dep_order b b' →
  calculate_tag_for_image d b n [] = (Ret t, m) →
  calculate_tag_for_image d' b' n [] = (Ret t', m') → t = t'.
Proof.
  intros Hs Ht%calculated_tag_of Ht'%calculated_tag_of.
  apply (tag_of_functional b' n); [by eapply tag_of_dep_order|done].
Qed.

Definition sample_two_deps (deps : list (string * string)) : builder :=
  Builder "devkit.json" ["images"] "" "devkit" "amd64" [] [] []
    [("dev-env", image_entry deps); ("build-env", image_entry []); ("tool-env", image_entry [])].

Lemma tag_ignores_dependency_order_witness :
  ∃ t t' m m',
    @calculate_tag_for_image sample_fs sha256_Hash 2
      (sample_two_deps [("A", "tool-env"); ("B", "build-env")]) "dev-env" [] = (Ret t, m) ∧
    @calculate_tag_for_image sample_fs sha256_Hash 2
      (sample_two_deps [("B", "build-env"); ("A", "tool-env")]) "dev-env" [] = (Ret t', m') ∧
    String.length t = 85 ∧ t = t'.
Proof.
  do 4 eexists. split; [vm_compute; reflexivity|]. split; [vm_compute; reflexivity|].
  split; [reflexivity|].
  eapply (@tag_ignores_dependency_order sample_fs sha256_Hash 2 2
            (sample_two_deps [("A", "tool-env"); ("B", "build-env")])
            (sample_two_deps [("B", "build-env"); ("A", "tool-env")]) "dev-env").
  - split_and!; [done..|]. intros n conf deps. simpl. intros Hc Hd.
    case_decide; [|exists conf, deps; by repeat case_decide].
    injection Hc as <-. vm_compute in Hd. injection Hd as <-. do 2 eexists.
    split; [reflexivity|]. split; [vm_compute; reflexivity|]. apply perm_swap.
  - vm_compute. reflexivity.
  - vm_compute. reflexivity.
Defined.

(** ** Configuration *)

(** C35: [validate_config] decides the schema: it returns exactly on the values
    that conform, and fails with a [ValueError] on all others. *)
Theorem validate_config_correct sch data path :
  match validate_config sch data path with
  | Ret _ => conforms sch data
  | Raise e => is_ValueError e = true ∧ ¬ conforms sch data
  end.
Proof.
  destruct (validate_config sch data path) as [[]|e] eqn:Hv.
  - by apply validate_config_conforms in Hv.
  - split; [by apply validate_config_raise in Hv|].
    rewrite <-(validate_config_conforms data sch path). congruence.
Qed.

(** C11: a configuration file is loaded exactly when it conforms to the schema
    and every package has a version; the result is the registry prefix, the
    namespace and the per-image settings its sections state.  Every other
    parsed or malformed file ends in exit code 1, never in a type error. *)
Theorem load_config_correct `{FileSystem} path :
  path_exists path = true →
  match json_load path with
  | Ret config =>
      match _load_config path with
      | Ret (r, n, maps) =>
          conforms CONFIG_SCHEMA config ∧ all_versions_ok config ∧
          r = registry_repo (registry_section config) ∧
          n = registry_namespace (registry_section config) ∧ maps_match config maps
      | Raise e => e = SystemExit 1 ∧ ¬ (conforms CONFIG_SCHEMA config ∧ all_versions_ok config)
      end
  | Raise e => _load_config path = Raise (if is_ValueError e then SystemExit 1 else e)
  end.
Proof.
  intros Hex. destruct (json_load path) as [config|e] eqn:Hload.
  - destruct (validate_config CONFIG_SCHEMA config "") as [[]|e] eqn:Hv.
    + apply validate_config_conforms in Hv.
      pose proof (load_config_valid path config Hex Hload Hv) as Hl.
      destruct (_load_config path) as [[[r n] maps]|e]; naive_solver.
    + assert (¬ conforms CONFIG_SCHEMA config)
        by (rewrite <-(validate_config_conforms _ _ ""); congruence).
      rewrite load_config_invalid; [|done|eauto]. naive_solver.
  - unfold _load_config. rewrite Hex, Hload. simpl. by destruct (is_ValueError e).
Qed.

Lemma load_config_correct_witness :
  match @_load_config sample_fs "devkit.json" with
  | Ret (r, n, maps) =>
      r = "gcr.io/p/r" ∧ n = "devkit/demo" ∧ maps_match sample_config maps
  | Raise e => False
  end.
Proof.
  pose proof (@load_config_correct sample_fs "devkit.json" eq_refl) as Hl.
  destruct (@_load_config sample_fs "devkit.json") as [[[r n] maps]|e] eqn:Hc; vm_compute in Hc; [|done].
  injection Hc as <- <- <-.
  change (json_load "devkit.json") with (@Ret json sample_config) in Hl.
  destruct Hl as (_ & _ & _ & _ & Hm). done.
Defined.

(** ** Docker operations *)



(** ** [main] *)

(** C2: when [main] returns, docker has reported for every wanted image (the targets and
    all they depend on, or all images) that it has the image under its tag: in the
    commands of the run with docker's answers, the lookup or the pull of that tag
    succeeded, or the build of the image's Dockerfile with the tags of its dependencies
    did; with [--no-cache] always the build.  Nothing was printed on standard output. *)
Theorem main_builds_wanted `{FileSystem} `{Hash} `{SetOrder} `{Docker} depth args w u s' :
  main depth args ([], w) = (Ret u, s') →
  ∃ b h, DockerBuilder (arg_config args) (arg_search_path args) = Ret b ∧ history w s'.2 h ∧
       io_stdout s'.2 = io_stdout w ∧ arg_print_tag args = false ∧
       ∀ n, wanted (image_configs_map b) (arg_target_images args) n →
            provided b (arg_no_cache args) h n.
Proof.
  intros (h & Hh & _ & b & Hb & Hp & Hout & Hall)%main_spec. by exists b, h.
Qed.

Definition sample_args (targets : list string) (print_tag : bool) : build_args :=
  BuildArgs targets print_tag "devkit.json" ["images"] false false.

Definition sample_world : @io sample_docker := @IO sample_docker (∅, ∅) [] [].

Lemma main_builds_wanted_witness :
  ∃ s' h, @main sample_fs sha256_Hash elements_order sample_docker 2 (sample_args ["build-env"] false)
            ([], sample_world) = (Ret tt, s') ∧
        history sample_world s'.2 h ∧ length h = 10 ∧
        @provided sample_fs sha256_Hash sample_builder false h "tool-env".
Proof.
  pose (out := @main sample_fs sha256_Hash elements_order sample_docker 2
                 (sample_args ["build-env"] false) ([], sample_world)).
  assert (out.1 = Ret tt) as Hr by (vm_compute; reflexivity).
  assert (length (io_commands out.2.2) = 10) as Hlen by (vm_compute; reflexivity).
  assert (out = (Ret tt, out.2)) as Hm by (rewrite <-Hr; apply surjective_pairing).
  destruct (@main_builds_wanted sample_fs sha256_Hash elements_order sample_docker
              2 (sample_args ["build-env"] false) sample_world tt out.2 Hm) as (b & h & Hb & Hh & _ & _ & Hall).
  exists out.2, h. split; [exact Hm|]. split; [exact Hh|]. split.
  { destruct Hh as [Hc _]. rewrite Hc in Hlen. simpl in Hlen. by rewrite length_fmap in Hlen. }
  change (@DockerBuilder sample_fs "devkit.json" ["images"] = Ret b) in Hb.
  rewrite sample_builder_loaded in Hb. injection Hb as <-. apply Hall.
  exists "build-env". split; [left|]. apply rtc_once. do 2 eexists.
  split; [reflexivity|]. split; [reflexivity|]. left.
Defined.

(** With [--print-tag], a run that ends well exits with code 0 after printing
    exactly one line, the tag of the one target, which docker then has; without
    it no run exits with code 0 from inside the loop. *)
Lemma main_exit0 `{FileSystem} `{Hash} `{SetOrder} `{Docker} depth args w s' :
  main depth args ([], w) = (Raise (SystemExit 0), s') →
  arg_print_tag args = true ∧
  ∃ b h n t, DockerBuilder (arg_config args) (arg_search_path args) = Ret b ∧ history w s'.2 h ∧
           arg_target_images args = [n] ∧ tag_of b n t ∧
           io_stdout s'.2 = io_stdout w ++ [t] ∧ provided b (arg_no_cache args) h n.
Proof.
  intros (h & Hh & _ & Hp & b & n & t & Hb & Hts & Htag & Hout & Hprov)%main_spec.
  split; [done|]. by exists b, h, n, t.
Qed.

(** C10: images are built bottom up.  However a run of [main] ends (well, with a printed
    tag, with an error), every [docker buildx build] it issued is that of a wanted image,
    under its tag, from its Dockerfile, with the tags of its dependencies as build arguments;
    and before it docker had reported for each of these dependencies that it has the
    image under its tag. *)
Theorem dependencies_available_first `{FileSystem} `{Hash} `{SetOrder} `{Docker} depth args w :
  ∃ h, history w (main depth args ([], w)).2.2 h ∧
  ∀ h1 c p h2, h = h1 ++ (c, p) :: h2 → is_build c →
  ∃ b n t, DockerBuilder (arg_config args) (arg_search_path args) = Ret b ∧
    wanted (image_configs_map b) (arg_target_images args) n ∧ tag_of b n t ∧
    image_build b (arg_no_cache args) n t c ∧
    ∀ q, image_dep (image_configs_map b) n q → provided b (arg_no_cache args) h1 q.
Proof.
  destruct (main depth args ([], w)) as [r s'] eqn:Hm. apply main_spec in Hm as (h & Hh & Hup & _).
  by exists h.
Qed.

(** A concrete run: the build of [build-env] gets the tag of [tool-env], which was built before. *)
Example sample_build_commands :
  let tool := "gcr.io/p/r/devkit/demo/tool-env:amd64-9fae3f39efa9337faaab78f2313c9370f0e9f0b7a9c5eb6932669c3b83c90c0c" in
  let build := "gcr.io/p/r/devkit/demo/build-env:amd64-016b176d36e4bc55751daa1663e8575c9d4ee87df5dde6bd17bc236a1af4fa37" in
  filter (λ c, take 3 c = ["docker"; "buildx"; "build"])
    (io_commands (@main sample_fs sha256_Hash elements_order sample_docker 2
                (sample_args ["build-env"] false) ([], sample_world)).2.2) =
  [["docker"; "buildx"; "build"; "--tag"; tool; "--file"; "images/tool-env.Dockerfile";
    "--build-arg"; "EXTRA_PACKAGES=zip=*"; "images"];
   ["docker"; "buildx"; "build"; "--tag"; build; "--file"; "images/build-env.Dockerfile";
    "--build-arg"; "BASE=" +:+ tool; "images"]].
Proof. vm_compute. reflexivity. Qed.

(** C18: a build never gets stuck of its own: when an order exists, every image of
    it can be read, and docker carries out what it is asked, [build_images] runs
    to the end; in particular no tag is ever looked up before it is known. *)
Theorem build_images_total `{FileSystem} `{Hash} `{SetOrder} `{Docker}
    depth b targets order no_cache local w :
  2 ≤ depth → NoDup (dkeys (image_configs_map b)) →
  (∀ t, t ∈ targets → t ∈ dkeys (image_configs_map b)) →
  get_build_order b targets = Ret order → (∀ n, n ∈ order → buildable b n) → docker_works →
  ∃ s', build_images depth b targets false no_cache local ([], w) = (Ret tt, s').
Proof.
  intros Hd Hnd Ht Ho Hb Hw. destruct depth as [|[|depth]]; [lia..|].
  destruct (get_build_order_graph b targets order Ho) as [g Hg].
  pose proof (get_build_order_spec b targets g Hg Hnd Ht) as Hs. rewrite Ho in Hs.
  destruct (build_all_total depth b no_cache local [] order ([], w) Hw) as [s' Hs'];
    [done|by intros ? ?%elem_of_nil|apply Hs|done|].
  exists s'. unfold build_images, mbind, ST_bind, lift. by rewrite Ho.
Qed.

Lemma sample_docker_works : @docker_works sample_docker.
Proof.
  split_and!.
  - intros t [l r]. unfold docker_exec, sample_docker, sample_exec. simpl.
    do 2 eexists; reflexivity.
  - intros t [l r]. unfold docker_exec, sample_docker, sample_exec. simpl.
    do 2 eexists. split; [reflexivity|]. case_decide; [|lia]. intros _.
    eexists. by rewrite decide_True by done.
  - intros t [l r]. unfold docker_exec, sample_docker, sample_exec. simpl.
    case_decide; do 2 eexists; reflexivity.
  - intros t f flags c nc [l r]. eexists. reflexivity.
Qed.

Lemma build_images_total_witness :
  ∃ s', @build_images sample_fs sha256_Hash elements_order sample_docker 2 sample_builder
          ["dev-env"] false true false ([], sample_world) = (Ret tt, s').
Proof.
  apply (@build_images_total sample_fs sha256_Hash elements_order sample_docker 2 sample_builder
           ["dev-env"] ["tool-env"; "build-env"; "dev-env"]).
  - lia.
  - apply sample_NoDup.
  - intros t ->%list_elem_of_singleton. apply sample_known. left.
  - vm_compute. reflexivity.
  - intros n Hn. repeat (apply elem_of_cons in Hn as [->|Hn];
      [by repeat (first [eexists|split]; try reflexivity)|]). by apply elem_of_nil in Hn.
  - apply sample_docker_works.
Defined.
