(* ===== verification/Regex.v ===== *)
(** * Python regular expressions

    The fragment of [re] that [docker_cleanup.py] uses, as a deep embedding:
    character classes, greedy repetition of a class, an optional group,
    capturing groups and the anchors.  [matches] lists the ways an expression
    matches from a position in the order in which [re] tries them, so that the
    first one is the match [re] returns. *)

From Stdlib Require Import Ascii.
From stdpp Require Import base list strings sets.
From S2P Require Import Prelude PyStr.

Inductive regex :=
  | RStart                                  (* ^ *)
  | REnd                                    (* $ *)
  | RClass (p : ascii → bool)               (* [...] or . or a literal *)
  | RStar (p : ascii → bool)                (* [...]* *)
  | RSeq (r1 r2 : regex)
  | ROpt (r : regex)                        (* (?:...)? *)
  | RGroup (n : nat) (r : regex).           (* (...) *)

Definition newline : ascii := ascii_of_N 10.

(** [.] without the flag [DOTALL] *)
Definition any_char (a : ascii) : bool := negb (bool_decide (a = newline)).

(** The text of the groups matched so far, the latest first. *)
Definition groups : Type := list (nat * string).

(** A position: how many characters are behind it, and what is ahead. *)
Definition pos : Type := nat * string.

(** Greedy repetition: the longest run of the class first. *)
Fixpoint star (p : ascii → bool) (n : nat) (s : string) : list pos :=
  match s with
  | String a s' => if p a then star p (S n) s' ++ [(n, s)] else [(n, s)]
  | EmptyString => [(n, s)]
  end.

(** The first [k] characters. *)
Fixpoint str_take (k : nat) (s : string) : string :=
  match k, s with
  | S k, String a s => String a (str_take k s)
  | _, _ => ""
  end.

Fixpoint matches (r : regex) (g : groups) (p : pos) : list (groups * pos) :=
  let '(n, s) := p in
  match r with
  | RStart => if bool_decide (n = 0) then [(g, p)] else []
  | REnd => if bool_decide (s = "") || bool_decide (s = String newline "") then [(g, p)] else []
  | RClass c =>
      match s with
      | String a s' => if c a then [(g, (S n, s'))] else []
      | EmptyString => []
      end
  | RStar c => (λ q, (g, q)) <$> star c n s
  | RSeq r1 r2 => mjoin ((λ gp, matches r2 gp.1 gp.2) <$> matches r1 g p)
  | ROpt r => matches r g p ++ [(g, p)]
  | RGroup k r =>
      (λ gp, ((k, str_take (gp.2.1 - n) s) :: gp.1, gp.2)) <$> matches r g p
  end.

(** [pattern.match(s)]: the groups, or no match *)
Definition re_match (r : regex) (s : string) : option groups :=
  fst <$> head (matches r [] (0, s)).

(** [m.group(k)] *)
Definition group (g : groups) (k : nat) : option string := dget g k.

Definition RPlus (p : ascii → bool) : regex := RSeq (RClass p) (RStar p).

Definition RLit (a : ascii) : regex := RClass (λ b, bool_decide (b = a)).

(** A literal text followed by [r] *)
Fixpoint RText (t : string) (r : regex) : regex :=
  match t with
  | EmptyString => r
  | String a t => RSeq (RLit a) (RText t r)
  end.

(** [[...]{k}] followed by [r] *)
Fixpoint RTimes (k : nat) (p : ascii → bool) (r : regex) : regex :=
  match k with
  | O => r
  | S k => RSeq (RClass p) (RTimes k p r)
  end.

(** The class [{k}] on its own, for a positive [k]. *)
Definition RExactly (k : nat) (p : ascii → bool) : regex := RTimes (pred k) p (RClass p).

(** ** What the pieces match *)

Lemma elem_of_star p n s n' s' :
  (n', s') ∈ star p n s ↔ ∃ x, s = x +:+ s' ∧ str_all p x = true ∧ n' = n + String.length x.
Proof.
  revert n. induction s as [|a s IH]; intros n; simpl.
  - rewrite list_elem_of_singleton. split.
    + intros [= -> ->]. exists "". simpl. rewrite Nat.add_0_r. done.
    + intros (x & Hx & _ & ->). destruct x; [|done]. change ("" = s') in Hx. subst s'. simpl. by rewrite Nat.add_0_r.
  - assert ((n', s') = (n, String a s) ↔ ∃ x, x = "" ∧ String a s = x +:+ s' ∧ n' = n + String.length x) as Hnil.
    { split; [intros [= -> ->]; exists ""; simpl; by rewrite Nat.add_0_r|].
      intros (x & -> & Hs & ->). change (String a s = s') in Hs. simpl. rewrite Nat.add_0_r. by rewrite Hs. }
    destruct (p a) eqn:Hp.
    + rewrite elem_of_app, IH, list_elem_of_singleton, Hnil. split.
      * intros [(x & -> & Hx & ->)|(x & -> & Hx & ->)].
        -- exists (String a x). simpl. rewrite Hp. split_and!; [done|done|lia].
        -- by exists "".
      * intros (x & Hs & Hx & ->). destruct x as [|b x]; [right; by exists ""|left].
        injection Hs as -> Hs. simpl in Hx. apply andb_true_iff in Hx as [_ Hx].
        exists x. simpl. split_and!; [done|done|lia].
    + rewrite list_elem_of_singleton, Hnil. split.
      * intros (x & -> & Hx & ->). by exists "".
      * intros (x & Hs & Hx & ->). destruct x as [|b x]; [by exists ""|].
        injection Hs as -> Hs. simpl in Hx. by rewrite Hp in Hx.
Qed.

Lemma elem_of_matches_seq r1 r2 g p g' p' :
  (g', p') ∈ matches (RSeq r1 r2) g p ↔
  ∃ g1 p1, (g1, p1) ∈ matches r1 g p ∧ (g', p') ∈ matches r2 g1 p1.
Proof.
  destruct p as [n s]. simpl. rewrite list_elem_of_join. split.
  - intros (l & Hl & ([g1 p1] & -> & ?)%list_elem_of_fmap). eauto.
  - intros (g1 & p1 & H1 & H2). eexists. split; [exact H2|]. apply list_elem_of_fmap.
    by exists (g1, p1).
Qed.

Lemma elem_of_matches_class c g n s g' n' s' :
  (g', (n', s')) ∈ matches (RClass c) g (n, s) ↔
  g' = g ∧ n' = S n ∧ ∃ a, c a = true ∧ s = String a s'.
Proof.
  simpl. destruct s as [|a s]; [split; [by intros ?%elem_of_nil|by intros (_ & _ & ? & _ & ?)]|].
  destruct (c a) eqn:Hc.
  - rewrite list_elem_of_singleton. split; [intros [= -> -> ->]; eauto|].
    by intros (-> & -> & ? & _ & [= -> ->]).
  - split; [by intros ?%elem_of_nil|]. intros (_ & _ & ? & ? & [= -> ->]). congruence.
Qed.

Lemma elem_of_matches_star c g n s g' n' s' :
  (g', (n', s')) ∈ matches (RStar c) g (n, s) ↔
  g' = g ∧ ∃ x, s = x +:+ s' ∧ str_all c x = true ∧ n' = n + String.length x.
Proof.
  simpl. rewrite list_elem_of_fmap. rewrite <-elem_of_star. split.
  - intros (q & [= -> <-] & Hq). done.
  - intros [-> Hq]. by exists (n', s').
Qed.

Lemma elem_of_matches_plus c g n s g' n' s' :
  (g', (n', s')) ∈ matches (RPlus c) g (n, s) ↔
  g' = g ∧ ∃ x, x ≠ "" ∧ s = x +:+ s' ∧ str_all c x = true ∧ n' = n + String.length x.
Proof.
  unfold RPlus. rewrite elem_of_matches_seq. split.
  - intros (g1 & [n1 s1] & (-> & -> & a & Ha & ->)%elem_of_matches_class &
            (-> & x & -> & Hx & ->)%elem_of_matches_star).
    split; [done|]. exists (String a x). simpl. rewrite Ha. split_and!; [done|done|done|lia].
  - intros (-> & x & Hne & -> & Hx & ->). destruct x as [|a x]; [done|].
    simpl in Hx. apply andb_true_iff in Hx as [Ha Hx]. exists g, (S n, x +:+ s').
    split; [apply elem_of_matches_class; eauto|]. apply elem_of_matches_star. split; [done|].
    exists x. simpl. split_and!; [done|done|lia].
Qed.

Lemma elem_of_matches_opt r g p g' p' :
  (g', p') ∈ matches (ROpt r) g p ↔ (g', p') ∈ matches r g p ∨ (g' = g ∧ p' = p).
Proof. destruct p as [n s]. simpl. rewrite elem_of_app, list_elem_of_singleton. naive_solver. Qed.

Lemma str_take_app x s : str_take (String.length x) (x +:+ s) = x.
Proof. induction x as [|a x IH]; [by destruct s|]. rewrite str_app_cons. simpl. by rewrite IH. Qed.

Lemma elem_of_matches_text t r g n s g' p' :
  (g', p') ∈ matches (RText t r) g (n, s) ↔
  ∃ s1, s = t +:+ s1 ∧ (g', p') ∈ matches r g (n + String.length t, s1).
Proof.
  revert n s. induction t as [|a t IH]; intros n s.
  - simpl RText. rewrite Nat.add_0_r. split; [by exists s|]. intros (s1 & -> & ?). done.
  - cbn [RText]. rewrite elem_of_matches_seq. split.
    + intros (g1 & [n1 s1] & (-> & -> & b & Hb & ->)%elem_of_matches_class & (s2 & -> & Hm)%IH).
      apply bool_decide_eq_true in Hb as ->. exists s2. split; [done|].
      by replace (n + String.length (String a t)) with (S n + String.length t) by (simpl; lia).
    + intros (s1 & -> & Hm). exists g, (S n, t +:+ s1).
      split; [apply elem_of_matches_class; split_and!; [done|done|]; exists a; by rewrite bool_decide_true|]. apply IH. exists s1. split; [done|].
      by replace (S n + String.length t) with (n + String.length (String a t)) by (simpl; lia).
Qed.

Lemma elem_of_matches_times k c r g n s g' p' :
  (g', p') ∈ matches (RTimes k c r) g (n, s) ↔
  ∃ x s1, s = x +:+ s1 ∧ String.length x = k ∧ str_all c x = true ∧
          (g', p') ∈ matches r g (n + k, s1).
Proof.
  revert n s. induction k as [|k IH]; intros n s.
  - cbn [RTimes]. rewrite Nat.add_0_r. split; [by exists "", s|].
    intros (x & s1 & -> & Hx & _ & Hm). destruct x; [done|done].
  - cbn [RTimes]. rewrite elem_of_matches_seq. split.
    + intros (g1 & [n1 s1] & (-> & -> & a & Ha & ->)%elem_of_matches_class &
              (x & s2 & -> & Hl & Hx & Hm)%IH).
      exists (String a x), s2. simpl. rewrite Ha, Hl. split_and!; [done..|].
      by replace (n + S k) with (S n + k) by lia.
    + intros (x & s1 & -> & Hl & Hx & Hm). destruct x as [|a x]; [done|].
      simpl in Hx. apply andb_true_iff in Hx as [Ha Hx]. exists g, (S n, x +:+ s1).
      split; [apply elem_of_matches_class; eauto|]. apply IH. exists x, s1.
      replace (S n + k) with (n + S k) by lia. split_and!; [done|by injection Hl|done|done].
Qed.

Lemma elem_of_matches_end g n s g' p' :
  (g', p') ∈ matches REnd g (n, s) ↔ g' = g ∧ p' = (n, s) ∧ (s = "" ∨ s = String newline "").
Proof.
  simpl. destruct (bool_decide (s = "") || bool_decide (s = String newline "")) eqn:Hs.
  - rewrite list_elem_of_singleton. apply orb_true_iff in Hs. rewrite !bool_decide_eq_true in Hs. naive_solver.
  - apply orb_false_iff in Hs as [H1%bool_decide_eq_false H2%bool_decide_eq_false].
    split; [by intros ?%elem_of_nil|naive_solver].
Qed.

Lemma re_match_Some r s g : re_match r s = Some g → ∃ p, (g, p) ∈ matches r [] (0, s).
Proof.
  unfold re_match. destruct (matches r [] (0, s)) as [|[g' p] l]; [done|].
  intros [= <-]. exists p. left.
Qed.

Lemma re_match_is_Some r s g p : (g, p) ∈ matches r [] (0, s) → is_Some (re_match r s).
Proof.
  unfold re_match. destruct (matches r [] (0, s)) as [|gp l]; [by intros ?%elem_of_nil|]. simpl. eauto.
Qed.
