(* ===== verification/ImagePattern.v ===== *)
(** * The image format of [docker_cleanup.py]: [IMAGE_PATTERN]

    The regular expression, and the proof that its match is the reading of a
    tag as [<path>/<name>:<arch>-<sha256>] with [devkit] among the components
    of the path. *)

From Stdlib Require Import Ascii.
From stdpp Require Import base list strings sets.
From S2P Require Import Prelude PyStr Regex.

(** [[^/:]] *)
Definition name_char (a : ascii) : bool :=
  negb (bool_decide (a = "/"%char)) && negb (bool_decide (a = ":"%char)).

(** [[a-zA-Z0-9_]] *)
Definition word_char (a : ascii) : bool :=
  let n := code a in
  ((97 <=? n) && (n <=? 122) || (65 <=? n) && (n <=? 90) || (48 <=? n) && (n <=? 57) || (n =? 95))%Z.

(** [[a-f0-9]] *)
Definition hex_char (a : ascii) : bool :=
  let n := code a in ((97 <=? n) && (n <=? 102) || (48 <=? n) && (n <=? 57))%Z.

Definition IMAGE_PATTERN : regex :=
  RSeq RStart
  (RSeq (ROpt (RSeq (RStar any_char) (RLit "/")))
  (RText "devkit"
  (RSeq (ROpt (RSeq (RLit "/") (RStar any_char)))
  (RSeq (RLit "/")
  (RSeq (RGroup 1 (RPlus name_char))
  (RSeq (RLit ":")
  (RSeq (RGroup 2 (RPlus word_char))
  (RSeq (RLit "-")
  (RSeq (RGroup 3 (RExactly 64 hex_char))
   REnd))))))))).

(** The reading of a tag that the pattern stands for. *)
Definition image_format (img name arch sha : string) : Prop :=
  ∃ path nl,
    img = path +:+ "/" +:+ name +:+ ":" +:+ arch +:+ "-" +:+ sha +:+ nl ∧
    "devkit" ∈ split_on "/" path ∧ str_all any_char path = true ∧
    name ≠ "" ∧ str_all name_char name = true ∧
    arch ≠ "" ∧ str_all word_char arch = true ∧
    String.length sha = 64 ∧ str_all hex_char sha = true ∧
    (nl = "" ∨ nl = String newline "").

(** ** Strings cut at a character *)

Lemma split_on_cut c s1 s2 : split_on c (s1 +:+ String c s2) = split_on c s1 ++ split_on c s2.
Proof.
  induction s1 as [|a s1 IH]; [simpl; by case_decide|].
  rewrite str_app_cons. simpl. rewrite IH. case_decide; [done|].
  destruct (split_on c s1) eqn:Hs; [|done].
  by destruct s1; simpl in Hs; repeat case_match.
Qed.

Lemma split_on_ne c s : split_on c s ≠ [].
Proof. destruct s; simpl; repeat case_match; done. Qed.

(** A component of a path: between two separators or at an end. *)
Lemma split_on_component c w s :
  w ∈ split_on c s → ∃ x y, s = x +:+ w +:+ y ∧
    (x = "" ∨ ∃ x0, x = x0 +:+ String c "") ∧ (y = "" ∨ ∃ y0, y = String c y0).
Proof.
  intros (l1 & l2 & Hs)%list_elem_of_split. rewrite <-(split_on_join c s), Hs.
  assert (∃ y, str_join (String c "") (w :: l2) = w +:+ y ∧ (y = "" ∨ ∃ y0, y = String c y0)) as (y & Hy & Hyc).
  { destruct l2 as [|z l2]; [exists ""; rewrite str_app_nil_r; auto|].
    eexists. split; [reflexivity|]. right. eexists. reflexivity. }
  destruct l1 as [|z l1].
  - exists "", y. rewrite <-Hy. auto.
  - exists (str_join (String c "") (z :: l1) +:+ String c ""), y.
    rewrite str_join_app, Hy, str_app_assoc by done. eauto.
Qed.

Lemma component_split_on c w x y :
  str_free c w = true →
  (x = "" ∨ ∃ x0, x = x0 +:+ String c "") → (y = "" ∨ ∃ y0, y = String c y0) →
  w ∈ split_on c (x +:+ w +:+ y).
Proof.
  intros Hw Hx Hy.
  assert (w ∈ split_on c (w +:+ y)) as Hwy.
  { destruct Hy as [->|[y0 ->]]; [rewrite str_app_nil_r, split_on_free by done; left|].
    rewrite split_on_app by done. left. }
  destruct Hx as [->|[x0 ->]]; [done|].
  rewrite str_app_assoc. change (String c "" +:+ ?s) with (String c s).
  rewrite split_on_cut. apply elem_of_app. by right.
Qed.

Lemma str_free_all c p s : p c = false → str_all p s = true → str_free c s = true.
Proof.
  intros Hc. induction s as [|a s IH]; [done|]. simpl. intros [Ha Hs]%andb_true_iff.
  apply andb_true_iff. split; [|auto]. case_bool_decide; [congruence|done].
Qed.

(** The last and the first occurrence of a character. *)
Lemma cut_last c u1 v1 u2 v2 :
  str_free c v1 = true → str_free c v2 = true →
  u1 +:+ String c v1 = u2 +:+ String c v2 → u1 = u2 ∧ v1 = v2.
Proof.
  intros H1 H2. revert u2. induction u1 as [|a u1 IH]; intros [|b u2] Heq.
  - by injection Heq as ->.
  - injection Heq as <- ->. change (String.app u2 ?s) with (u2 +:+ s) in H1.
    rewrite str_free_app in H1. simpl in H1.
    rewrite bool_decide_true in H1 by done. by rewrite andb_false_r in H1.
  - injection Heq as -> <-. change (String.app u1 ?s) with (u1 +:+ s) in H2.
    rewrite str_free_app in H2. simpl in H2.
    rewrite bool_decide_true in H2 by done. by rewrite andb_false_r in H2.
  - injection Heq as -> Heq. destruct (IH u2 Heq) as [-> ->]. done.
Qed.

Lemma cut_first c u1 v1 u2 v2 :
  str_free c u1 = true → str_free c u2 = true →
  u1 +:+ String c v1 = u2 +:+ String c v2 → u1 = u2 ∧ v1 = v2.
Proof.
  revert u2. induction u1 as [|a u1 IH]; intros [|b u2] H1 H2 Heq.
  - by injection Heq as ->.
  - injection Heq as <- ->. simpl in H2. by rewrite bool_decide_true in H2.
  - injection Heq as -> Heq. simpl in H1. by rewrite bool_decide_true in H1.
  - injection Heq as -> Heq. simpl in H1, H2. apply andb_true_iff in H1 as [_ H1].
    apply andb_true_iff in H2 as [_ H2]. destruct (IH u2 H1 H2 Heq) as [-> ->]. done.
Qed.

Lemma str_app_inj_length (u1 v1 u2 v2 : string) :
  String.length u1 = String.length u2 → u1 +:+ v1 = u2 +:+ v2 → u1 = u2 ∧ v1 = v2.
Proof.
  revert u2. induction u1 as [|a u1 IH]; intros [|b u2] Hl Heq; try done.
  injection Heq as -> Heq. injection Hl as Hl. destruct (IH u2 Hl Heq) as [-> ->]. done.
Qed.

(** ** The format is unambiguous *)

Lemma image_format_functional img n1 a1 h1 n2 a2 h2 :
  image_format img n1 a1 h1 → image_format img n2 a2 h2 → n1 = n2 ∧ a1 = a2 ∧ h1 = h2.
Proof.
  intros (p1 & nl1 & -> & _ & _ & _ & Hn1 & _ & Ha1 & Hl1 & Hh1 & Hnl1)
         (p2 & nl2 & Heq & _ & _ & _ & Hn2 & _ & Ha2 & Hl2 & Hh2 & Hnl2).
  assert (∀ a h nl, str_all word_char a = true → str_all hex_char h = true →
            (nl = "" ∨ nl = String newline "") → str_free ":" (a +:+ "-" +:+ h +:+ nl) = true) as Hfree.
  { intros a h nl Ha Hh Hnl. rewrite !str_free_app.
    rewrite (str_free_all _ word_char a), (str_free_all _ hex_char h) by done.
    by destruct Hnl as [-> | ->]. }
  replace (p1 +:+ "/" +:+ n1 +:+ ":" +:+ a1 +:+ "-" +:+ h1 +:+ nl1)
    with ((p1 +:+ "/" +:+ n1) +:+ String ":" (a1 +:+ "-" +:+ h1 +:+ nl1)) in Heq
    by (by rewrite !str_app_assoc).
  replace (p2 +:+ "/" +:+ n2 +:+ ":" +:+ a2 +:+ "-" +:+ h2 +:+ nl2)
    with ((p2 +:+ "/" +:+ n2) +:+ String ":" (a2 +:+ "-" +:+ h2 +:+ nl2)) in Heq
    by (by rewrite !str_app_assoc).
  apply cut_last in Heq as [Hpre Hsuf]; [|by apply Hfree..].
  apply (cut_last "/" p1 n1 p2 n2) in Hpre as [_ ->];
    [|by apply (str_free_all _ name_char)..].
  apply (cut_first "-" a1 (h1 +:+ nl1) a2 (h2 +:+ nl2)) in Hsuf as [-> Hsuf];
    [|by apply (str_free_all _ word_char)..].
  apply str_app_inj_length in Hsuf as [-> _]; [done|congruence].
Qed.

(** ** The pattern matches exactly the format *)

Lemma elem_of_matches_group_plus k c g n s g' n' s' :
  (g', (n', s')) ∈ matches (RGroup k (RPlus c)) g (n, s) ↔
  ∃ x, g' = (k, x) :: g ∧ x ≠ "" ∧ s = x +:+ s' ∧ str_all c x = true ∧ n' = n + String.length x.
Proof.
  change (matches (RGroup k (RPlus c)) g (n, s)) with
    ((λ gp : groups * pos, ((k, str_take (gp.2.1 - n) s) :: gp.1, gp.2)) <$> matches (RPlus c) g (n, s)).
  rewrite list_elem_of_fmap. split.
  - intros ([g1 [n1 s1]] & [= -> -> ->] & (-> & x & Hne & -> & Hx & ->)%elem_of_matches_plus).
    exists x. simpl. replace (n + String.length x - n) with (String.length x) by lia.
    by rewrite str_take_app.
  - intros (x & -> & Hne & -> & Hx & ->). exists (g, (n + String.length x, s')). simpl. split.
    + replace (n + String.length x - n) with (String.length x) by lia. by rewrite str_take_app.
    + apply elem_of_matches_plus. eauto 6.
Qed.

Lemma elem_of_matches_group_exactly k m c g n s g' n' s' :
  0 < m →
  (g', (n', s')) ∈ matches (RGroup k (RExactly m c)) g (n, s) ↔
  ∃ x, g' = (k, x) :: g ∧ String.length x = m ∧ s = x +:+ s' ∧ str_all c x = true ∧ n' = n + m.
Proof.
  intros Hm. destruct m as [|m]; [lia|]. unfold RExactly. simpl pred.
  assert (∀ g1 n1 s1, (g1, (n1, s1)) ∈ matches (RTimes m c (RClass c)) g (n, s) ↔
    ∃ x, g1 = g ∧ String.length x = S m ∧ s = x +:+ s1 ∧ str_all c x = true ∧ n1 = n + S m) as Hin.
  { intros g1 n1 s1. rewrite elem_of_matches_times. split.
    - intros (x & s2 & -> & Hl & Hx & (-> & -> & a & Ha & ->)%elem_of_matches_class).
      exists (x +:+ String a ""). rewrite str_all_app, Hx. simpl. rewrite Ha.
      split_and!; [done| |by rewrite str_app_assoc|done|lia].
      rewrite length_app_string. simpl. lia.
    - intros (x & -> & Hl & -> & Hx & ->).
      destruct (str_snoc x m Hl) as (y & a & -> & Hy). rewrite str_all_app in Hx.
      apply andb_true_iff in Hx as [Hxy Ha]. simpl in Ha. rewrite andb_true_r in Ha.
      exists y, (String a s1). split_and!; [by rewrite str_app_assoc|done|done|].
      apply elem_of_matches_class. split_and!; [done|lia|eauto]. }
  change (matches (RGroup k (RTimes m c (RClass c))) g (n, s)) with
    ((λ gp : groups * pos, ((k, str_take (gp.2.1 - n) s) :: gp.1, gp.2))
       <$> matches (RTimes m c (RClass c)) g (n, s)).
  rewrite list_elem_of_fmap. split.
  - intros ([g1 [n1 s1]] & [= -> -> ->] & (x & -> & Hl & -> & Hx & ->)%Hin).
    exists x. simpl. replace (n + S m - n) with (String.length x) by lia.
    by rewrite str_take_app.
  - intros (x & -> & Hl & -> & Hx & ->). exists (g, (n + S m, s')). simpl. split.
    + replace (n + S m - n) with (String.length x) by lia. by rewrite str_take_app.
    + apply Hin. eauto 6.
Qed.

Lemma elem_of_matches_lit a g n s g' n' s' :
  (g', (n', s')) ∈ matches (RLit a) g (n, s) ↔ g' = g ∧ n' = S n ∧ s = String a s'.
Proof.
  unfold RLit. rewrite elem_of_matches_class. split.
  - intros (-> & -> & b & ->%bool_decide_eq_true & ->). done.
  - intros (-> & -> & ->). split_and!; [done|done|]. exists a. by rewrite bool_decide_true.
Qed.

(** The optional group before [devkit]: any text up to a slash. *)
Lemma elem_of_matches_before g n s g' n' s' :
  (g', (n', s')) ∈ matches (ROpt (RSeq (RStar any_char) (RLit "/"))) g (n, s) ↔
  g' = g ∧ ∃ x, s = x +:+ s' ∧ n' = n + String.length x ∧
    (x = "" ∨ ∃ x0, x = x0 +:+ "/" ∧ str_all any_char x0 = true).
Proof.
  rewrite elem_of_matches_opt, elem_of_matches_seq. split.
  - intros [(g1 & [n1 s1] & (-> & x & -> & Hx & ->)%elem_of_matches_star &
             (-> & -> & ->)%elem_of_matches_lit)|[-> [= -> ->]]].
    + split; [done|]. exists (x +:+ "/"). rewrite str_app_assoc, length_app_string. simpl.
      split_and!; [done|lia|eauto].
    + split; [done|]. exists "". simpl. rewrite Nat.add_0_r. auto.
  - intros (-> & x & -> & -> & [->|(x0 & -> & Hx)]).
    + right. simpl. by rewrite Nat.add_0_r.
    + left. exists g, (n + String.length x0, String "/" s'). split.
      * apply elem_of_matches_star. split; [done|]. exists x0. by rewrite str_app_assoc.
      * apply elem_of_matches_lit. rewrite length_app_string. simpl. split_and!; [done|lia|done].
Qed.

(** The optional group after [devkit]: a slash and any text. *)
Lemma elem_of_matches_after g n s g' n' s' :
  (g', (n', s')) ∈ matches (ROpt (RSeq (RLit "/") (RStar any_char))) g (n, s) ↔
  g' = g ∧ ∃ y, s = y +:+ s' ∧ n' = n + String.length y ∧
    (y = "" ∨ ∃ y0, y = String "/" y0 ∧ str_all any_char y0 = true).
Proof.
  rewrite elem_of_matches_opt, elem_of_matches_seq. split.
  - intros [(g1 & [n1 s1] & (-> & -> & ->)%elem_of_matches_lit &
             (-> & y & -> & Hy & ->)%elem_of_matches_star)|[-> [= -> ->]]].
    + split; [done|]. exists (String "/" y). simpl. split_and!; [done|lia|eauto].
    + split; [done|]. exists "". simpl. rewrite Nat.add_0_r. auto.
  - intros (-> & y & -> & -> & [->|(y0 & -> & Hy)]).
    + right. simpl. by rewrite Nat.add_0_r.
    + left. exists g, (S n, y0 +:+ s'). split; [by apply elem_of_matches_lit|].
      apply elem_of_matches_star. split; [done|]. exists y0. simpl. split_and!; [done|done|lia].
Qed.

(** A path with [devkit] among its components, as the pattern cuts it. *)
Definition devkit_path (path : string) : Prop :=
  ∃ x y, path = x +:+ "devkit" +:+ y ∧
    (x = "" ∨ ∃ x0, x = x0 +:+ "/" ∧ str_all any_char x0 = true) ∧
    (y = "" ∨ ∃ y0, y = String "/" y0 ∧ str_all any_char y0 = true).

Lemma devkit_path_split path :
  devkit_path path ↔ "devkit" ∈ split_on "/" path ∧ str_all any_char path = true.
Proof.
  split.
  - intros (x & y & -> & Hx & Hy). split.
    + apply component_split_on; [done| |].
      * destruct Hx as [->|(x0 & -> & _)]; eauto.
      * destruct Hy as [->|(y0 & -> & _)]; eauto.
    + rewrite !str_all_app. apply andb_true_iff. split; [|apply andb_true_iff; split; [done|]].
      * destruct Hx as [->|(x0 & -> & Hx)]; [done|]. by rewrite str_all_app, Hx.
      * destruct Hy as [->|(y0 & -> & Hy)]; [done|]. simpl. by rewrite Hy.
  - intros [Hin Hall]. apply split_on_component in Hin as (x & y & -> & Hx & Hy).
    rewrite !str_all_app in Hall. apply andb_true_iff in Hall as [Hax Hall].
    apply andb_true_iff in Hall as [_ Hay]. exists x, y. split; [done|]. split.
    + destruct Hx as [->|[x0 ->]]; [by left|right]. exists x0. split; [done|].
      rewrite str_all_app in Hax. by apply andb_true_iff in Hax as [? _].
    + destruct Hy as [->|[y0 ->]]; [by left|right]. exists y0. split; [done|].
      by simpl in Hay.
Qed.

Lemma IMAGE_PATTERN_sound img g p :
  (g, p) ∈ matches IMAGE_PATTERN [] (0, img) →
  ∃ name arch sha, g = [(3, sha); (2, arch); (1, name)] ∧ image_format img name arch sha.
Proof.
  unfold IMAGE_PATTERN. rewrite elem_of_matches_seq.
  intros (g0 & p0 & Hstart & Hm). apply list_elem_of_singleton in Hstart as [= -> ->].
  apply elem_of_matches_seq in Hm as (g1 & [n1 s1] & (-> & x & Hs1 & -> & Hx)%elem_of_matches_before & Hm).
  apply elem_of_matches_text in Hm as (s2 & -> & Hm).
  apply elem_of_matches_seq in Hm as (g3 & [n3 s3] & (-> & y & -> & -> & Hy)%elem_of_matches_after & Hm).
  apply elem_of_matches_seq in Hm as (g4 & [n4 s4] & (-> & -> & ->)%elem_of_matches_lit & Hm).
  apply elem_of_matches_seq in Hm
    as (g5 & [n5 s5] & (name & -> & Hn & -> & Hnc & ->)%elem_of_matches_group_plus & Hm).
  apply elem_of_matches_seq in Hm as (g6 & [n6 s6] & (-> & -> & ->)%elem_of_matches_lit & Hm).
  apply elem_of_matches_seq in Hm
    as (g7 & [n7 s7] & (arch & -> & Ha & -> & Hac & ->)%elem_of_matches_group_plus & Hm).
  apply elem_of_matches_seq in Hm as (g8 & [n8 s8] & (-> & -> & ->)%elem_of_matches_lit & Hm).
  apply elem_of_matches_seq in Hm as (g9 & [n9 s9] & Hsha & (-> & -> & Hnl)%elem_of_matches_end).
  apply elem_of_matches_group_exactly in Hsha as (sha & -> & Hl & -> & Hh & ->); [|lia].
  exists name, arch, sha. split; [done|]. exists (x +:+ "devkit" +:+ y), s9.
  assert (devkit_path (x +:+ "devkit" +:+ y)) as [Hd1 Hd2]%devkit_path_split by (by exists x, y).
  split_and!; try done. rewrite Hs1. by rewrite !str_app_assoc.
Qed.

Lemma IMAGE_PATTERN_complete img name arch sha :
  image_format img name arch sha → ∃ g p, (g, p) ∈ matches IMAGE_PATTERN [] (0, img).
Proof.
  intros (path & nl & -> & Hd1 & Hd2 & Hn & Hnc & Ha & Hac & Hl & Hh & Hnl).
  destruct (proj2 (devkit_path_split path) (conj Hd1 Hd2)) as (x & y & -> & Hx & Hy).
  rewrite !str_app_assoc. do 2 eexists. unfold IMAGE_PATTERN.
  apply elem_of_matches_seq. do 2 eexists. split; [left|].
  apply elem_of_matches_seq. do 2 eexists. split; [by apply elem_of_matches_before; eauto|].
  apply elem_of_matches_text. eexists. split; [reflexivity|].
  apply elem_of_matches_seq. do 2 eexists. split; [by apply elem_of_matches_after; eauto|].
  apply elem_of_matches_seq. do 2 eexists. split; [by apply elem_of_matches_lit|].
  apply elem_of_matches_seq. do 2 eexists. split; [apply elem_of_matches_group_plus; eauto 7|].
  apply elem_of_matches_seq. do 2 eexists. split; [by apply elem_of_matches_lit|].
  apply elem_of_matches_seq. do 2 eexists. split; [apply elem_of_matches_group_plus; eauto 7|].
  apply elem_of_matches_seq. do 2 eexists. split; [by apply elem_of_matches_lit|].
  apply elem_of_matches_seq. do 2 eexists. split; [apply elem_of_matches_group_exactly; [lia|eauto 7]|].
  by apply elem_of_matches_end.
Qed.

(** The match and its groups are the format and its parts. *)
Lemma IMAGE_PATTERN_match img name arch sha :
  re_match IMAGE_PATTERN img = Some [(3, sha); (2, arch); (1, name)] ↔ image_format img name arch sha.
Proof.
  split.
  - intros (p & (n & a & h & [= -> -> ->] & Hf)%IMAGE_PATTERN_sound)%re_match_Some. done.
  - intros Hf. destruct (IMAGE_PATTERN_complete _ _ _ _ Hf) as (g & p & Hin).
    apply re_match_is_Some in Hin as [g' Hg'].
    destruct (re_match_Some _ _ _ Hg') as (p' & (n & a & h & -> & Hf')%IMAGE_PATTERN_sound).
    destruct (image_format_functional _ _ _ _ _ _ _ Hf Hf') as (-> & -> & ->). done.
Qed.
