(* ===== verification/Cleanup.v ===== *)
(** * Background image cleanup: [docker_cleanup.py]

    The cleanup thread shares an [Event] with the thread that started it: other
    threads may set it at any time, nobody clears it.  The class [CleanupEnv]
    says when: [cancel_time] is the observation of the event (counted by the
    clock of the state) from which on it is set.  It also gives what
    [docker] prints, how often [poll] finds a removal still running, and what
    a terminated removal leaves behind.  Delays only bound how long [wait]
    blocks and do not appear. *)

From Stdlib Require Import Ascii.
From stdpp Require Import base list strings sorting gmap relations.
From S2P Require Import Prelude PyStr PyJson Schema Sha256 Graphlib Registry Builder DockerImage.
From S2P Require Import Regex ImagePattern.

Definition CLEANUP_BATCH_SIZE : Z := 4.
Definition CLEANUP_THRESHOLD_DAYS : Z := 7.

Definition ALLOWED_IMAGE_NAMES : list string :=
  ["build-env"; "build-env-debian"; "build-env-rockylinux"; "clion-ide"; "dev-env"; "gcloud-env";
   "goland-ide"; "ide-env"; "intellij-ide"; "nitro-cli-linux6"; "pycharm-ide"; "tool-env";
   "vscode-ide"; "vscode-server"].

Class CleanupEnv `{Docker} := {
  docker_output : list string → daemon → string;
  docker_terminated : list string → daemon → daemon;
  polls : list string → daemon → nat;
  cancel_time : option nat;
}.

(** [range(start, stop, step)] *)
Definition py_range (start stop step : Z) : res (list Z) :=
  if (step =? 0)%Z then Raise (ValueError "range() arg 3 must not be zero")
  else
    let n := (if (0 <? step)%Z then (stop - start + step - 1) `div` step
              else (start - stop - step - 1) `div` (- step))%Z in
    Ret ((λ k, start + Z.of_nat k * step)%Z <$> seq 0 (Z.to_nat n)).

(** [l[i:j]] for non-negative indices *)
Definition py_slice {A} (l : list A) (i j : Z) : list A :=
  take (Z.to_nat j - Z.to_nat i) (drop (Z.to_nat i) l).

Definition images_cmd (image_prefix : string) (threshold_hours : Z) : list string :=
  ["docker"; "images"; "--filter"; "reference=" +:+ image_prefix +:+ "/*";
   "--filter"; "until=" +:+ str_int threshold_hours +:+ "h";
   "--format"; "{{.Repository}}:{{.Tag}}"].

Definition rmi_cmd (tag : string) : list string := ["docker"; "rmi"; tag].

(** The two tests of the loop of [filter_allowed_images]. *)
Definition is_allowed_image (img : string) : bool :=
  match re_match IMAGE_PATTERN img with
  | Some m => match group m 1 with
              | Some image_name => bool_decide (image_name ∈ ALLOWED_IMAGE_NAMES)
              | None => false
              end
  | None => false
  end.

Definition filter_allowed_images (images : list string) : list string :=
  filter is_allowed_image images.

Section cleanup.
Context `{FileSystem} `{Hash} `{SetOrder} `{CleanupEnv}.

(** Any [Exception] means that no image is protected. *)
Definition get_ignored_images (depth : nat) (config_path : string) (search_paths : list string)
    : res (list string) :=
  try_except is_Exception (get_all_docker_image_tags depth config_path search_paths [])
    (λ _, Ret []).

(** [subprocess.run(cmd, capture_output=True, text=True, check=True).stdout] *)
Definition run_captured (cmd : list string) : ST io string := λ w,
  let out := docker_output cmd (io_daemon w) in
  (_ ← subprocess_run cmd true; mret out) w.

Definition get_images (image_prefix : string) (threshold_days : Z) : ST io (list string) :=
  let threshold_hours := (threshold_days * 24)%Z in
  try_catch docker_handled
    (stdout ← run_captured (images_cmd image_prefix threshold_hours);
     mret (splitlines (strip stdout)))
    (λ _, mret []).

Definition get_images_to_cleanup (depth : nat) (config_path : string) (search_paths : list string)
    (threshold_days : Z) : ST io (list string) :=
  image_prefix ← lift (get_image_prefix config_path);
  all_images ← get_images image_prefix threshold_days;
  match all_images with
  | [] => mret []
  | _ =>
      let allowed_images := filter_allowed_images all_images in
      match allowed_images with
      | [] => mret []
      | _ =>
          ignored_images ← lift (get_ignored_images depth config_path search_paths);
          mret (filter (.∉ ignored_images) allowed_images)
      end
  end.

(** ** The cleanup thread *)

Record cleaner := Cleaner {
  cl_io : io;
  cl_clock : nat;      (* observations of the cancel event so far *)
}.

Definition with_cl {A} (m : ST io A) : ST cleaner A := λ s,
  let '(r, w) := m (cl_io s) in (r, Cleaner w (cl_clock s)).

Definition cancelled_at (clock : nat) : bool :=
  match cancel_time with Some t => t <=? clock | None => false end.

(** [cancel_event.is_set()] and [cancel_event.wait(timeout)] *)
Definition event_is_set : ST cleaner bool := λ s,
  (Ret (cancelled_at (cl_clock s)), Cleaner (cl_io s) (S (cl_clock s))).

(** [while proc.poll() is None: if cancel_event.wait(...): ...]; the result
    tells whether the removal was cancelled. *)
Fixpoint poll_loop (running : nat) : ST cleaner bool :=
  match running with
  | O => mret false
  | S running =>
      cancelled ← event_is_set;
      if cancelled : bool then mret true else poll_loop running
  end.

(** The body of the [try] block: start [docker rmi], wait for it; on
    cancellation the client is terminated. *)
Definition remove_image (tag : string) : ST cleaner bool := λ s,
  let w := cl_io s in
  let cmd := rmi_cmd tag in
  let '(p, d) := docker_exec cmd (io_daemon w) in
  let started d := IO d (io_commands w ++ [cmd]) (io_stdout w) in
  match p with
  | NoProgram => (Raise FileNotFoundError, Cleaner (started d) (cl_clock s))
  | Exited _ =>
      match poll_loop (polls cmd (io_daemon w)) s with
      | (Ret true, s') =>
          (Ret true, Cleaner (started (docker_terminated cmd (io_daemon w))) (cl_clock s'))
      | (r, s') => (r, Cleaner (started d) (cl_clock s'))
      end
  end.

Fixpoint cleanup_images_batch (images_to_cleanup : list string) : ST cleaner unit :=
  match images_to_cleanup with
  | [] => mret tt
  | tag :: rest =>
      is_set ← event_is_set;
      if is_set : bool then mret tt
      else
        cancelled ← try_catch is_Exception (remove_image tag) (λ _, mret false);
        if cancelled : bool then mret tt else cleanup_images_batch rest
  end.

(** [for i in range(...): ...; if cancel_event.wait(interval): break] *)
Fixpoint cleanup_rounds (batch_size : Z) (all_to_cleanup : list string) (indices : list Z)
    : ST cleaner unit :=
  match indices with
  | [] => mret tt
  | i :: rest =>
      let batch := py_slice all_to_cleanup i (i + batch_size) in
      _ ← cleanup_images_batch batch;
      stop ← event_is_set;
      if stop : bool then mret tt else cleanup_rounds batch_size all_to_cleanup rest
  end.

Definition cleanup_images (depth : nat) (config_path : string) (search_paths : list string)
    (batch_size threshold_days : Z) : ST cleaner unit :=
  stop ← event_is_set;
  if stop : bool then mret tt
  else
    all_to_cleanup ← with_cl (get_images_to_cleanup depth config_path search_paths threshold_days);
    indices ← lift (py_range 0 (Z.of_nat (length all_to_cleanup)) batch_size);
    cleanup_rounds batch_size all_to_cleanup indices.

(** The name of the thread and what it runs; its cancel event is the one of
    [CleanupEnv]. *)
Definition start_background_cleanup (depth : nat) (config_path : string) (search_paths : list string)
    : string * ST cleaner unit :=
  ("DockerCleanupThread",
   cleanup_images depth config_path search_paths CLEANUP_BATCH_SIZE CLEANUP_THRESHOLD_DAYS).

(** The manual entry point, from the parsed arguments on: Ctrl-C ends it quietly. *)
Definition cleanup_main (depth : nat) (config_path : string) (search_paths : list string)
    (batch_size threshold_days : Z) : ST cleaner unit :=
  try_catch (λ e, bool_decide (e = KeyboardInterrupt))
    (cleanup_images depth config_path search_paths batch_size threshold_days)
    (λ _, mret tt).
End cleanup.

(** ** Lemmas *)

Lemma mjoin_slices {A} (l : list A) (m n : nat) :
  mjoin ((λ k, take m (drop (k * m) l)) <$> seq 0 n) = take (n * m) l.
Proof.
  induction n as [|n IH]; [done|]. rewrite seq_S, fmap_app, join_app, IH. simpl.
  rewrite app_nil_r, take_take_drop. f_equal. lia.
Qed.

(** The batches are the list, cut into pieces. *)
Lemma batches_join {A} (l : list A) (size : Z) :
  (0 < size)%Z →
  ∃ indices, py_range 0 (Z.of_nat (length l)) size = Ret indices ∧
             mjoin ((λ i, py_slice l i (i + size)) <$> indices) = l.
Proof.
  intros Hs. unfold py_range. destruct (Z.eqb_spec size 0) as [?|_]; [lia|].
  destruct (Z.ltb_spec 0 size) as [_|?]; [|lia]. eexists. split; [reflexivity|].
  set (n := Z.to_nat _). set (m := Z.to_nat size).
  rewrite <-list_fmap_compose.
  replace ((λ i, py_slice l i (i + size)) ∘ (λ k : nat, 0 + Z.of_nat k * size)%Z <$> seq 0 n)
    with ((λ k, take m (drop (k * m) l)) <$> seq 0 n).
  - rewrite mjoin_slices. apply take_ge. subst n m.
    apply Nat2Z.inj_le. rewrite Nat2Z.inj_mul, !Z2Nat.id; [|lia|apply Z.div_pos; lia].
    pose proof (Z.div_mod (Z.of_nat (length l) - 0 + size - 1) size).
    pose proof (Z.mod_pos_bound (Z.of_nat (length l) - 0 + size - 1) size). nia.
  - apply list_fmap_ext. intros i k _. unfold py_slice, compose. subst m. f_equal; [lia|]. f_equal. nia.
Qed.

Section facts.
Context `{FileSystem} `{Hash} `{SetOrder} `{CleanupEnv}.

Lemma cancelled_later n n' : n ≤ n' → cancelled_at n = true → cancelled_at n' = true.
Proof. unfold cancelled_at. destruct cancel_time; [|done]. rewrite !Nat.leb_le. lia. Qed.

Lemma poll_loop_spec n s :
  ∃ c, poll_loop n s = (Ret c, Cleaner (cl_io s) (cl_clock (poll_loop n s).2)) ∧
       cl_clock s ≤ cl_clock (poll_loop n s).2 ∧
       (c = true → cancelled_at (cl_clock (poll_loop n s).2) = true).
Proof.
  revert s. induction n as [|n IH]; intros s; [exists false; destruct s; simpl; split_and!; done|].
  cbn [poll_loop]. unfold mbind, ST_bind, event_is_set.
  destruct (cancelled_at (cl_clock s)) eqn:Hc.
  - exists true. simpl. split_and!; [done|lia|]. intros _. by eapply cancelled_later, Hc; lia.
  - destruct (IH (Cleaner (cl_io s) (S (cl_clock s)))) as (c & Heq & Hle & Hset). exists c.
    simpl in *. split_and!; [done|lia|done].
Qed.

(** One removal: the command is issued, nothing else. *)
Lemma remove_image_spec tag s :
  ∃ c s', try_catch is_Exception (remove_image tag) (λ _, mret false) s = (Ret c, s') ∧
          io_commands (cl_io s') = io_commands (cl_io s) ++ [rmi_cmd tag] ∧
          cl_clock s ≤ cl_clock s' ∧ (c = true → cancelled_at (cl_clock s') = true) ∧
          (io_daemon (cl_io s') = (docker_exec (rmi_cmd tag) (io_daemon (cl_io s))).2 ∨
           io_daemon (cl_io s') = docker_terminated (rmi_cmd tag) (io_daemon (cl_io s))).
Proof.
  unfold try_catch, remove_image. destruct (docker_exec _ _) as [[rc|] d].
  - destruct (poll_loop_spec (polls (rmi_cmd tag) (io_daemon (cl_io s))) s) as (c & Heq & Hle & Hset).
    rewrite Heq. destruct c; simpl; do 2 eexists; (split; [reflexivity|]); simpl; split_and!; auto.
  - do 2 eexists. split; [reflexivity|]. simpl. split_and!; auto. done.
Qed.

(** A batch removes its images in order, up to a cancellation. *)
Lemma cleanup_batch_spec batch s :
  ∃ removed s', cleanup_images_batch batch s = (Ret tt, s') ∧
    removed `prefix_of` batch ∧
    io_commands (cl_io s') = io_commands (cl_io s) ++ (rmi_cmd <$> removed) ∧
    cl_clock s ≤ cl_clock s' ∧ (removed = batch ∨ cancelled_at (cl_clock s') = true).
Proof.
  revert s. induction batch as [|tag batch IH]; intros s.
  { exists [], s. rewrite app_nil_r. split_and!; [done|done|done|lia|by left]. }
  cbn [cleanup_images_batch]. unfold mbind, ST_bind. unfold event_is_set at 1.
  destruct (cancelled_at (cl_clock s)) eqn:Hc.
  { do 2 eexists. split; [reflexivity|]. split; [apply prefix_nil|]. simpl. rewrite app_nil_r.
    split_and!; [done|lia|]. right. eapply cancelled_later; [|exact Hc]. lia. }
  destruct (remove_image_spec tag (Cleaner (cl_io s) (S (cl_clock s)))) as (c & s1 & -> & Hio & Hle & Hset & _).
  simpl in *. destruct c.
  { exists [tag], s1. split; [done|]. split; [apply prefix_cons, prefix_nil|].
    split_and!; [done|lia|auto]. }
  destruct (IH s1) as (removed & s2 & -> & Hp & Hcmd & Hle2 & Hdone).
  exists (tag :: removed), s2. split; [done|]. split; [by apply prefix_cons|].
  rewrite Hcmd, Hio, <-(assoc_L (++)). split_and!; [done|lia|].
  destruct Hdone as [-> | ?]; auto.
Qed.

(** All rounds: the images of the batches in order, up to a cancellation. *)
Lemma cleanup_rounds_spec size l indices s :
  ∃ removed s', cleanup_rounds size l indices s = (Ret tt, s') ∧
    removed `prefix_of` mjoin ((λ i, py_slice l i (i + size)) <$> indices) ∧
    io_commands (cl_io s') = io_commands (cl_io s) ++ (rmi_cmd <$> removed) ∧
    (removed = mjoin ((λ i, py_slice l i (i + size)) <$> indices) ∨ is_Some cancel_time).
Proof.
  revert s. induction indices as [|i indices IH]; intros s.
  { exists [], s. rewrite app_nil_r. split_and!; [done|done|done|by left]. }
  cbn [cleanup_rounds fmap list_fmap mjoin list_join]. unfold mbind, ST_bind.
  destruct (cleanup_batch_spec (py_slice l i (i + size)) s) as (r1 & s1 & -> & Hp1 & Hc1 & Hle1 & Hd1).
  unfold event_is_set at 1. destruct (cancelled_at (cl_clock s1)) eqn:Hc.
  { exists r1. eexists. split; [reflexivity|]. split; [by apply prefix_app_r|]. split; [done|].
    right. unfold cancelled_at in Hc. destruct cancel_time; [eauto|done]. }
  destruct Hd1 as [-> | ?]; [|congruence].
  destruct (IH (Cleaner (cl_io s1) (S (cl_clock s1)))) as (r2 & s2 & -> & Hp2 & Hc2 & Hd2).
  exists (py_slice l i (i + size) ++ r2), s2. split; [done|]. split; [by apply prefix_app|].
  rewrite Hc2. simpl. rewrite Hc1, fmap_app, (assoc_L (++)). split; [done|].
  destruct Hd2 as [-> | ?]; auto.
Qed.
End facts.
