(* ===== verification/CleanupTheorems.v ===== *)
(** * What [docker_cleanup.py] guarantees

    Which images a cleanup selects and removes, and that the tags
    [docker/build.py] makes are the ones it recognises. *)

From Stdlib Require Import Ascii.
From stdpp Require Import base list strings sorting gmap relations.
From S2P Require Import Prelude PyStr PyJson Schema Sha256 Graphlib Registry Builder BuildOrder.
From S2P Require Import BuildTags BuildConfig DockerImage BuildMain Samples BuildTheorems Regex ImagePattern Cleanup.

(** ** Tags and the image format *)

(** C28: [IMAGE_PATTERN] matches exactly the tags
    [<path>/<name>:<arch>-<sha256>] whose path has a component [devkit], up to a
    final newline, and its three groups are the name, the architecture and the
    hash, which the tag determines. *)
Theorem IMAGE_PATTERN_correct img g :
  re_match IMAGE_PATTERN img = Some g ↔
  ∃ name arch sha, g = [(3, sha); (2, arch); (1, name)] ∧ image_format img name arch sha.
Proof.
  split.
  - intros Hm. destruct (re_match_Some _ _ _ Hm) as (p & (n & a & h & -> & ?)%IMAGE_PATTERN_sound).
    by exists n, a, h.
  - intros (n & a & h & -> & Hf). by apply IMAGE_PATTERN_match.
Qed.

Lemma is_allowed_image_iff img :
  is_allowed_image img = true ↔
  ∃ name arch sha, image_format img name arch sha ∧ name ∈ ALLOWED_IMAGE_NAMES.
Proof.
  unfold is_allowed_image. destruct (re_match IMAGE_PATTERN img) as [g|] eqn:Hm.
  - destruct (re_match_Some _ _ _ Hm) as (p & (n & a & h & -> & Hf)%IMAGE_PATTERN_sound). simpl.
    rewrite bool_decide_eq_true. split; [intros; by exists n, a, h|].
    intros (n' & a' & h' & Hf' & ?). by destruct (image_format_functional _ _ _ _ _ _ _ Hf Hf') as (-> & _).
  - split; [done|]. intros (n & a & h & Hf & _). apply IMAGE_PATTERN_match in Hf. congruence.
Qed.

Section prefix.
Context `{FileSystem}.

Definition devkit_namespace (n : string) : Prop := n = "devkit" ∨ ∃ x, n = "devkit" +:+ "/" +:+ x.

(** The prefix and the parts of the tag come from the same configuration. *)
Lemma load_config_prefix path r n maps :
  _load_config path = Ret (r, n, maps) →
  devkit_namespace n ∧
  get_image_prefix path = Ret (if str_truthy r then r +:+ "/" +:+ n else n).
Proof.
  intros Hl. unfold get_image_prefix. destruct (path_exists path) eqn:Hex.
  2: { unfold _load_config in Hl. rewrite Hex in Hl. injection Hl as <- <- <-. by split; [left|]. }
  destruct (json_load path) as [config|e] eqn:Hload.
  2: { unfold _load_config in Hl. rewrite Hex, Hload in Hl. simpl in Hl. by destruct (is_ValueError e). }
  destruct (validate_config CONFIG_SCHEMA config "") as [[]|e] eqn:Hv.
  - apply validate_config_conforms in Hv.
    pose proof (load_config_valid path config Hex Hload Hv) as Hs. rewrite Hl in Hs.
    destruct Hs as (_ & -> & -> & _). split.
    + unfold registry_namespace, devkit_namespace. case_match; eauto.
    + simpl. rewrite parse_registry_section by done. done.
  - rewrite load_config_invalid in Hl; [done|done|]. right. exists config. split; [done|].
    rewrite <-(validate_config_conforms _ _ ""). congruence.
Qed.

Lemma DockerBuilder_parts cfg paths b :
  DockerBuilder cfg paths = Ret b →
  arch b = "amd64" ∧ devkit_namespace (namespace b) ∧
  get_image_prefix cfg = Ret (if str_truthy (repo b) then repo b +:+ "/" +:+ namespace b else namespace b).
Proof.
  unfold DockerBuilder. intros ([[r n] [[p k] q]] & Hl & (c & _ & [= <-])%bind_Ret)%bind_Ret. simpl.
  by apply load_config_prefix in Hl as [? ?].
Qed.
End prefix.

(** The prefix by which the cleanup looks for images is the prefix of every
    tag the build gives them: whenever the configuration loads, the two readers
    of [devkit.json] agree. *)
Theorem tag_starts_with_prefix `{FileSystem} cfg paths b :
  DockerBuilder cfg paths = Ret b →
  ∃ prefix, get_image_prefix cfg = Ret prefix ∧
    ∀ name sha, get_image_tag b name sha = prefix +:+ "/" +:+ name +:+ ":amd64-" +:+ sha.
Proof.
  intros (Ha & _ & Hp)%DockerBuilder_parts. eexists. split; [exact Hp|].
  intros name sha. unfold get_image_tag. rewrite Ha.
  destruct (str_truthy (repo b)); by rewrite !str_app_assoc.
Qed.

Lemma tag_starts_with_prefix_witness :
  ∃ prefix, @get_image_prefix sample_fs "devkit.json" = Ret prefix ∧
    ∀ name sha, get_image_tag sample_builder name sha = prefix +:+ "/" +:+ name +:+ ":amd64-" +:+ sha.
Proof. exact (@tag_starts_with_prefix sample_fs "devkit.json" ["images"] sample_builder sample_builder_loaded). Defined.

(** C27: for an image whose name is not empty and has no [/] and no [:], and registry settings
    without line feeds, the tag the build computes is one the cleanup recognises, and the
    name it reads from the tag is the name of the image, with [amd64] and a SHA-256 as the
    other parts. *)
Theorem computed_tag_recognised `{FileSystem} `{Hash} cfg paths b depth name tag memo :
  DockerBuilder cfg paths = Ret b →
  calculate_tag_for_image depth b name [] = (Ret tag, memo) →
  name ≠ "" → str_all name_char name = true →
  str_all any_char (repo b) = true → str_all any_char (namespace b) = true →
  ∃ sha, re_match IMAGE_PATTERN tag = Some [(3, sha); (2, "amd64"); (1, name)].
Proof.
  intros (Ha & Hns & _)%DockerBuilder_parts Ht Hne Hnc Hr Hn.
  destruct (calculate_tag_sound depth b name []) as (_ & _ & Hpost); [done|].
  rewrite Ht in Hpost. destruct (Hpost tag eq_refl) as [Htag _].
  inversion Htag as [? conf deps args path sha _ _ _ _ Hsha]; subst.
  exists sha. apply IMAGE_PATTERN_match.
  unfold calculate_sha256 in Hsha. apply bind_Ret in Hsha as (content & _ & [= <-]).
  exists (if str_truthy (repo b) then repo b +:+ "/" +:+ namespace b else namespace b), "".
  assert ("devkit" ∈ split_on "/" (namespace b)) as Hd.
  { destruct Hns as [->|[x ->]]; [left|].
    change ("devkit" +:+ "/" +:+ x) with ("devkit" +:+ String "/" x).
    rewrite split_on_app by done. left. }
  split_and!; try done; auto using hexdigest_length.
  - unfold get_image_tag. rewrite Ha, str_app_nil_r.
    destruct (str_truthy (repo b)); by rewrite !str_app_assoc.
  - destruct (str_truthy (repo b)); [|done].
    change (repo b +:+ "/" +:+ namespace b) with (repo b +:+ String "/" (namespace b)).
    rewrite split_on_cut. apply elem_of_app. by right.
  - destruct (str_truthy (repo b)); [|done]. by rewrite !str_all_app, Hr, Hn.
  - eapply str_all_impl, hexdigest_hex. intros a. unfold is_hex, hex_char. by rewrite orb_comm.
Qed.

Lemma computed_tag_recognised_witness :
  ∃ tag memo sha,
    @calculate_tag_for_image sample_fs sha256_Hash 2 sample_builder "build-env" [] = (Ret tag, memo) ∧
    re_match IMAGE_PATTERN tag = Some [(3, sha); (2, "amd64"); (1, "build-env")].
Proof.
  destruct (@calculate_tag_for_image sample_fs sha256_Hash 2 sample_builder "build-env" [])
    as [[tag|e] memo] eqn:Ht; [|by vm_compute in Ht].
  destruct (@computed_tag_recognised sample_fs sha256_Hash "devkit.json" ["images"] sample_builder 2
              "build-env" tag memo sample_builder_loaded Ht) as [sha Hsha]; [done..|].
  by exists tag, memo, sha.
Defined.

(** ** Selection *)

Section selection.
Context `{FileSystem} `{Hash} `{SetOrder} `{CleanupEnv}.

(** What [docker images] lists for the prefix, one image per line. *)
Definition listing (prefix : string) (threshold_days : Z) : list string :=
  ["docker"; "images"; "--filter"; "reference=" +:+ prefix +:+ "/*";
   "--filter"; "until=" +:+ str_int (threshold_days * 24) +:+ "h"; "--format"; "{{.Repository}}:{{.Tag}}"].
Definition listed_images (prefix : string) (threshold_days : Z) (d : daemon) : list string :=
  let cmd := listing prefix threshold_days in
  match (docker_exec cmd d).1 with
  | Exited rc => if bool_decide (rc = 0%Z) then splitlines (strip (docker_output cmd d)) else []
  | NoProgram => []
  end.

Lemma get_images_spec prefix days w :
  get_images prefix days w =
    (Ret (listed_images prefix days (io_daemon w)),
     IO (docker_exec (listing prefix days) (io_daemon w)).2
        (io_commands w ++ [listing prefix days]) (io_stdout w)).
Proof.
  unfold get_images, listed_images, try_catch, run_captured, subprocess_run, mbind, ST_bind.
  destruct (docker_exec _ (io_daemon w)) as [[rc|] d]; simpl; [|done].
  by case_bool_decide.
Qed.

(** The images the selection protects. *)
Definition protected (depth : nat) (cfg : string) (paths : list string) : list string :=
  match get_all_docker_image_tags depth cfg paths [] with Ret tags => tags | Raise _ => [] end.

(** What a selection returns: of the listed images those with an allowed name
    that are not protected. *)
Lemma get_images_to_cleanup_Ret depth cfg paths days w l w' :
  get_images_to_cleanup depth cfg paths days w = (Ret l, w') →
  ∃ prefix, get_image_prefix cfg = Ret prefix ∧
    io_commands w' = io_commands w ++ [listing prefix days] ∧
    io_daemon w' = (docker_exec (listing prefix days) (io_daemon w)).2 ∧
    ∀ t, t ∈ l ↔ t ∈ listed_images prefix days (io_daemon w) ∧ is_allowed_image t = true ∧
                 t ∉ protected depth cfg paths.
Proof.
  unfold get_images_to_cleanup, protected. unfold mbind at 1, ST_bind at 1, lift at 1.
  destruct (get_image_prefix cfg) as [prefix|e]; [|done].
  unfold mbind at 1, ST_bind at 1. rewrite get_images_spec. intros Hsel. exists prefix. split; [done|].
  assert (∀ t, t ∈ filter_allowed_images (listed_images prefix days (io_daemon w)) ↔
               t ∈ listed_images prefix days (io_daemon w) ∧ is_allowed_image t = true) as Hfil.
  { intros t. unfold filter_allowed_images. rewrite list_elem_of_filter. destruct (is_allowed_image t); naive_solver. }
  destruct (listed_images prefix days (io_daemon w)) as [|i imgs] eqn:Hl.
  { injection Hsel as <- <-. simpl. split_and!; [done|done|].
    intros t. rewrite !elem_of_nil. naive_solver. }
  destruct (filter_allowed_images (i :: imgs)) as [|a al] eqn:Ha.
  { injection Hsel as <- <-. simpl. split_and!; [done|done|].
    intros t. specialize (Hfil t). rewrite elem_of_nil in Hfil. rewrite elem_of_nil. naive_solver. }
  unfold mbind, ST_bind, lift, get_ignored_images, try_except in Hsel.
  destruct (get_all_docker_image_tags depth cfg paths []) as [tags|e] eqn:Hg.
  - injection Hsel as <- <-. simpl io_commands. split_and!; [done|done|].
    intros t. rewrite list_elem_of_filter, Hfil. naive_solver.
  - destruct (is_Exception e); [|done]. injection Hsel as <- <-. simpl io_commands.
    split_and!; [done|done|]. intros t. rewrite list_elem_of_filter, Hfil. naive_solver.
Qed.
End selection.

(** C14: when the tags of the current sources can be calculated, a selection holds exactly
    the images that docker lists for the project's prefix and age, whose tag has the devkit
    format with an allowed name, and that are not among these tags. *)
Theorem cleanup_selects_safely `{FileSystem} `{Hash} `{SetOrder} `{CleanupEnv}
    depth cfg paths days w l w' tags :
  get_images_to_cleanup depth cfg paths days w = (Ret l, w') →
  get_all_docker_image_tags depth cfg paths [] = Ret tags →
  ∃ prefix, get_image_prefix cfg = Ret prefix ∧
    ∀ t, t ∈ l ↔ t ∈ listed_images prefix days (io_daemon w) ∧
                 (∃ name arch sha, image_format t name arch sha ∧ name ∈ ALLOWED_IMAGE_NAMES) ∧
                 t ∉ tags.
Proof.
  intros (prefix & Hp & _ & _ & Hl)%get_images_to_cleanup_Ret Ht. exists prefix. split; [done|].
  intros t. rewrite Hl, is_allowed_image_iff. unfold protected. by rewrite Ht.
Qed.

(** ** A daemon to clean *)

Definition line_feed : string := String newline "".

(** The sample daemon lists its local images; a removal takes two polls; a
    terminated one has done nothing; the event is set at [cancel]. *)
Definition sample_cleanup (cancel : option nat) : @CleanupEnv sample_docker :=
  {| docker_output := λ _ (d : @daemon sample_docker), str_join line_feed (elements d.1);
     docker_terminated := λ _ d, d; polls := λ _ _, 2; cancel_time := cancel |}.

Fixpoint str_repeat (n : nat) (a : ascii) : string :=
  match n with O => "" | S n => String a (str_repeat n a) end.

(** An old image of the project, one it needs, one with another name and one
    that is none of its images. *)
Definition old_tag : string := "gcr.io/p/r/devkit/demo/tool-env:amd64-" +:+ str_repeat 64 "a".
Definition old_tag' : string := "gcr.io/p/r/devkit/demo/dev-env:amd64-" +:+ str_repeat 64 "b".
Definition foreign_tag : string := "gcr.io/p/r/devkit/demo/other:amd64-" +:+ str_repeat 64 "a".
Definition used_tag : string :=
  match (@calculate_tag_for_image sample_fs sha256_Hash 2 sample_builder "tool-env" []).1 with
  | Ret t => t
  | Raise _ => ""
  end.

Definition dirty_world : @io sample_docker :=
  @IO sample_docker ({[old_tag; used_tag; foreign_tag; old_tag'; "debian:12"]}, ∅) [] [].

Definition sample_select : res (list string) * @io sample_docker :=
  @get_images_to_cleanup sample_fs sha256_Hash elements_order sample_docker (sample_cleanup None)
    2 "devkit.json" ["images"] 7 dirty_world.

Example sample_selects : sample_select.1 = Ret [old_tag; old_tag'].
Proof. vm_compute. reflexivity. Qed.

Lemma cleanup_selects_safely_witness :
  ∃ tags, @get_all_docker_image_tags sample_fs sha256_Hash elements_order 2 "devkit.json" ["images"] [] = Ret tags ∧
          old_tag ∉ tags ∧ ∃ name arch sha, image_format old_tag name arch sha ∧ name ∈ ALLOWED_IMAGE_NAMES.
Proof.
  destruct (@get_all_docker_image_tags sample_fs sha256_Hash elements_order 2 "devkit.json" ["images"] [])
    as [tags|e] eqn:Ht; [|by vm_compute in Ht].
  assert (sample_select = (Ret [old_tag; old_tag'], sample_select.2)) as Hs
    by (rewrite <-sample_selects; apply surjective_pairing).
  destruct (@cleanup_selects_safely sample_fs sha256_Hash elements_order sample_docker
              (sample_cleanup None) 2 "devkit.json" ["images"] 7 dirty_world _ _ tags Hs Ht)
    as (prefix & _ & Hl).
  exists tags. split; [reflexivity|].
  destruct (proj1 (Hl old_tag)) as (_ & Hf & Hn); [left|]. exact (conj Hn Hf).
Defined.

(** C40: the protection fails open: when the current tags cannot be calculated
    because of any [Exception] (an unknown dependency, an unreadable
    Dockerfile), the selection is all listed images with an allowed name, the
    ones in use included. *)
Theorem cleanup_fails_open `{FileSystem} `{Hash} `{SetOrder} `{CleanupEnv}
    depth cfg paths days w prefix e :
  get_image_prefix cfg = Ret prefix →
  get_all_docker_image_tags depth cfg paths [] = Raise e → is_Exception e = true →
  ∃ l w', get_images_to_cleanup depth cfg paths days w = (Ret l, w') ∧
    ∀ t, t ∈ l ↔ t ∈ listed_images prefix days (io_daemon w) ∧ is_allowed_image t = true.
Proof.
  intros Hp Hg He.
  destruct (get_images_to_cleanup depth cfg paths days w) as [[l|e'] w'] eqn:Hs.
  - destruct (get_images_to_cleanup_Ret _ _ _ _ _ _ _ Hs) as (prefix' & Hp' & _ & _ & Hl).
    rewrite Hp in Hp'. injection Hp' as <-. exists l, w'. split; [done|]. intros t.
    rewrite Hl. unfold protected. rewrite Hg. rewrite elem_of_nil. naive_solver.
  - exfalso. unfold get_images_to_cleanup, mbind, ST_bind, lift in Hs. rewrite Hp, get_images_spec in Hs.
    unfold get_ignored_images, try_except in Hs. rewrite Hg, He in Hs. by repeat case_match.
Qed.

(** The sample project after [tool-env] was dropped from [deps.json]. *)
Definition broken_json_files : list (string * json) :=
  [("devkit.json", sample_config);
   ("images/deps.json", JObj [("build-env", image_entry [("BASE", "tool-env")])])].

Lemma broken_json_wf : json_files_wf broken_json_files.
Proof.
  intros p j. simpl. case_decide; [intros [= <-]|case_decide; [intros [= <-]|done]];
    simpl; repeat split; repeat (apply NoDup_cons; split; [set_solver|]); try apply NoDup_nil_2; done.
Qed.

Definition broken_fs : FileSystem := files_fs broken_json_files sample_text_files broken_json_wf.

Lemma cleanup_fails_open_witness :
  ∃ l w', @get_images_to_cleanup broken_fs sha256_Hash elements_order sample_docker (sample_cleanup None)
            2 "devkit.json" ["images"] 7 dirty_world = (Ret l, w') ∧ used_tag ∈ l.
Proof.
  destruct (@cleanup_fails_open broken_fs sha256_Hash elements_order sample_docker
              (sample_cleanup None) 2 "devkit.json" ["images"] 7 dirty_world "gcr.io/p/r/devkit/demo"
              (KeyError "tool-env")) as (l & w' & Hs & Hl).
  - vm_compute. reflexivity.
  - vm_compute. reflexivity.
  - reflexivity.
  - exists l, w'. split; [exact Hs|]. apply Hl. split.
    + apply (bool_decide_unpack _). vm_compute. exact I.
    + vm_compute. reflexivity.
Defined.

(** ** Removal *)

(** A negative step has no indices. *)
Lemma py_range_negative (l : list string) size : (size < 0)%Z → py_range 0 (Z.of_nat (length l)) size = Ret [].
Proof.
  intros Hs. unfold py_range. rewrite (proj2 (Z.eqb_neq size 0)) by lia.
  rewrite (proj2 (Z.ltb_ge 0 size)) by lia. f_equal.
  assert ((0 - Z.of_nat (length l) - size - 1) `div` (- size) ≤ 0)%Z as Hle.
  { apply Z.lt_succ_r, Z.div_lt_upper_bound; lia. }
  by replace (Z.to_nat _) with 0 by lia.
Qed.

(** C26: a cleanup that is not cancelled before its selection removes the selected images
    in order, each once, in batches of a positive size: the commands after the selection are
    [docker rmi] for a prefix of the selection, for all of it if nobody cancels;
    failing removals do not stop it.  With a batch size of 0 it ends in a [ValueError] and with a
    negative one normally, both without removing anything; its only other exceptions are those of the
    selection. *)
Theorem cleanup_removes_selection `{FileSystem} `{Hash} `{SetOrder} `{CleanupEnv}
    depth cfg paths size days s :
  cancelled_at (cl_clock s) = false →
  match get_images_to_cleanup depth cfg paths days (cl_io s) with
  | (Ret l, w) =>
      (size = 0%Z → ∃ c m, cleanup_images depth cfg paths size days s = (Raise (ValueError m), Cleaner w c)) ∧
      (size ≠ 0%Z →
       ∃ removed s', cleanup_images depth cfg paths size days s = (Ret tt, s') ∧
        removed `prefix_of` l ∧
        io_commands (cl_io s') = io_commands w ++ ((λ t, ["docker"; "rmi"; t]) <$> removed) ∧
        ((size < 0)%Z → removed = []) ∧ ((0 < size)%Z → cancel_time = None → removed = l))
  | (Raise e, w) => ∃ c, cleanup_images depth cfg paths size days s = (Raise e, Cleaner w c)
  end.
Proof.
  intros Hc. unfold cleanup_images. unfold mbind, ST_bind. unfold event_is_set, with_cl. rewrite Hc. simpl.
  destruct (get_images_to_cleanup depth cfg paths days (cl_io s)) as [[l|e] w]; [|by eexists].
  unfold lift. split; [intros ->; by do 2 eexists|]. intros Hne.
  assert (∃ indices, py_range 0 (Z.of_nat (length l)) size = Ret indices ∧
            mjoin ((λ i, py_slice l i (i + size)) <$> indices) = if (0 <? size)%Z then l else [])
    as (indices & -> & Hj).
  { destruct (Z.ltb_spec 0 size); [by apply batches_join|]. exists []. by rewrite py_range_negative by lia. }
  destruct (cleanup_rounds_spec size l indices (Cleaner w (S (cl_clock s))))
    as (removed & s' & -> & Hp & Hcmd & Hdone).
  rewrite Hj in Hp, Hdone. exists removed, s'. split; [done|].
  destruct (Z.ltb_spec 0 size); split_and!; try done; try lia.
  - intros _ Hn. rewrite Hn in Hdone. by destruct Hdone as [? | [? ?]].
  - apply prefix_nil_inv in Hp as ->. apply prefix_nil.
  - intros _. by apply prefix_nil_inv in Hp.
Qed.

Lemma cleanup_removes_selection_witness :
  ∃ s', @cleanup_images sample_fs sha256_Hash elements_order sample_docker (sample_cleanup None)
          2 "devkit.json" ["images"] 1 7 (Cleaner dirty_world 0) = (Ret tt, s') ∧
        io_commands (cl_io s') = io_commands sample_select.2 ++ [["docker"; "rmi"; old_tag]; ["docker"; "rmi"; old_tag']].
Proof.
  pose proof (@cleanup_removes_selection sample_fs sha256_Hash elements_order sample_docker
                (sample_cleanup None) 2 "devkit.json" ["images"] 1 7 (Cleaner dirty_world 0)
                eq_refl) as Hr.
  change (@get_images_to_cleanup _ _ _ _ _ _ _ _ _ _) with sample_select in Hr.
  replace sample_select with (@Ret (list string) [old_tag; old_tag'], sample_select.2) in Hr
    by (rewrite <-sample_selects; symmetry; apply surjective_pairing).
  destruct (proj2 Hr ltac:(lia)) as (removed & s' & Hs & _ & Hcmd & _ & Hall). exists s'. split; [exact Hs|].
  rewrite Hcmd, (Hall ltac:(lia) eq_refl). reflexivity.
Defined.

(** ** The images in use *)

(** The calculated tags are those of all configured images. *)
Lemma all_tags_calculated `{FileSystem} `{Hash} `{SetOrder} depth cfg paths tags b n t :
  get_all_docker_image_tags depth cfg paths [] = Ret tags → DockerBuilder cfg paths = Ret b →
  n ∈ dkeys (image_configs_map b) → tag_of b n t → t ∈ tags.
Proof.
  unfold get_all_docker_image_tags. intros Hg Hb Hn Ht. rewrite Hb in Hg.
  change ((calculate_tags depth b [] []).1 = Ret tags) in Hg.
  destruct (calculate_tags depth b [] []) as [r memo] eqn:Hc. simpl in Hg. subst r.
  apply calculate_tags_sound in Hc as (order & Ho & Hf); [|done].
  destruct (get_build_order_graph b [] order Ho) as [g Hgr].
  pose proof (get_build_order_spec b [] g Hgr (DockerBuilder_NoDup _ _ _ Hb)
                ltac:(by intros ? ?%elem_of_nil)) as Hs.
  rewrite Ho in Hs. destruct Hs as (_ & Hin & _).
  destruct (Forall2_elem_l _ _ _ n Hf) as (t' & Ht' & Htag); [apply Hin; by left|].
  by rewrite (tag_of_functional b n t t').
Qed.

Lemma elem_of_slices {A} (l : list A) size indices x :
  x ∈ mjoin ((λ i, py_slice l i (i + size)) <$> indices) → x ∈ l.
Proof.
  intros (k & Hx & (i & -> & _)%list_elem_of_fmap)%list_elem_of_join.
  unfold py_slice in Hx. by eapply subseteq_drop, subseteq_take.
Qed.

Lemma get_images_to_cleanup_commands `{FileSystem} `{Hash} `{SetOrder} `{CleanupEnv} depth cfg paths days w e w' :
  get_images_to_cleanup depth cfg paths days w = (Raise e, w') →
  ∃ cs, io_commands w' = io_commands w ++ cs ∧
        ∀ c, c ∈ cs → ∃ prefix, get_image_prefix cfg = Ret prefix ∧ c = listing prefix days.
Proof.
  unfold get_images_to_cleanup. unfold mbind at 1, ST_bind at 1, lift at 1.
  destruct (get_image_prefix cfg) as [prefix|e'].
  2: { intros [= _ <-]. exists []. rewrite app_nil_r. split; [done|]. by intros ? ?%elem_of_nil. }
  unfold mbind at 1, ST_bind at 1. rewrite get_images_spec. intros Hsel.
  exists [listing prefix days]. split; [|intros c ->%list_elem_of_singleton; eauto].
  unfold mbind, ST_bind, lift in Hsel. by repeat case_match; simplify_eq.
Qed.

(** The commands of a cleanup: the listing, and removals of selected images. *)
Lemma cleanup_commands `{FileSystem} `{Hash} `{SetOrder} `{CleanupEnv} depth cfg paths size days s :
  ∃ cs, io_commands (cl_io (cleanup_images depth cfg paths size days s).2) = io_commands (cl_io s) ++ cs ∧
  ∀ c, c ∈ cs → ∃ prefix, get_image_prefix cfg = Ret prefix ∧
    (c = listing prefix days ∨
     ∃ t, c = ["docker"; "rmi"; t] ∧ t ∈ listed_images prefix days (io_daemon (cl_io s)) ∧
          is_allowed_image t = true ∧ t ∉ protected depth cfg paths).
Proof.
  unfold cleanup_images, mbind, ST_bind. unfold event_is_set at 1.
  destruct (cancelled_at (cl_clock s)); [exists []; split; [by rewrite app_nil_r|by intros ? ?%elem_of_nil]|].
  unfold with_cl. simpl.
  destruct (get_images_to_cleanup depth cfg paths days (cl_io s)) as [[l|e] w] eqn:Hs.
  2: { destruct (get_images_to_cleanup_commands _ _ _ _ _ _ _ Hs) as (cs & Hc & Hall). exists cs. split; [done|].
       intros c (prefix & ? & ->)%Hall. exists prefix. auto. }
  destruct (get_images_to_cleanup_Ret _ _ _ _ _ _ _ Hs) as (prefix & Hp & Hc & _ & Hl).
  unfold lift. destruct (py_range _ _ _) as [indices|e].
  2: { exists [listing prefix days]. split; [done|]. intros c ->%list_elem_of_singleton. eauto. }
  destruct (cleanup_rounds_spec size l indices (Cleaner w (S (cl_clock s)))) as (removed & s' & -> & Hpre & Hcmd & _).
  exists (listing prefix days :: ((λ t, ["docker"; "rmi"; t]) <$> removed)). simpl in *.
  split; [by rewrite Hcmd, Hc, <-(assoc_L (++))|].
  intros c [->|(t & -> & Ht)%list_elem_of_fmap]%elem_of_cons; exists prefix; (split; [done|]); [by left|right].
  exists t. split; [done|]. apply Hl. eapply elem_of_slices. by eapply elem_of_prefix.
Qed.

(** C3: when the tags of the current sources can be calculated, a cleanup never asks docker
    to remove one of them: however it ends, whatever is selected, however it is batched and
    whenever it is cancelled, its commands are the listing of old images and [docker rmi] of
    listed tags of the devkit format, with an allowed name, none of which is the tag of a
    configured image. *)
Theorem needed_images_not_removed `{FileSystem} `{Hash} `{SetOrder} `{CleanupEnv}
    depth cfg paths size days tags s :
  get_all_docker_image_tags depth cfg paths [] = Ret tags →
  ∃ cs, io_commands (cl_io (cleanup_images depth cfg paths size days s).2) = io_commands (cl_io s) ++ cs ∧
  ∀ c, c ∈ cs → ∃ prefix, get_image_prefix cfg = Ret prefix ∧
    (c = listing prefix days ∨
     ∃ t, c = ["docker"; "rmi"; t] ∧ t ∈ listed_images prefix days (io_daemon (cl_io s)) ∧
          (∃ name arch sha, image_format t name arch sha ∧ name ∈ ALLOWED_IMAGE_NAMES) ∧ t ∉ tags ∧
          ∀ b n, DockerBuilder cfg paths = Ret b → n ∈ dkeys (image_configs_map b) → ¬ tag_of b n t).
Proof.
  intros Hg. destruct (cleanup_commands depth cfg paths size days s) as (cs & Hcs & Hall).
  exists cs. split; [done|]. intros c Hc. destruct (Hall c Hc) as (prefix & Hp & [->|(t & -> & Hl & Ha & Hn)]);
    exists prefix; (split; [done|]); [by left|right].
  unfold protected in Hn. rewrite Hg in Hn. exists t. split_and!; [done|done|by apply is_allowed_image_iff|done|].
  intros b n Hb Hin Ht. destruct Hn. by eapply all_tags_calculated.
Qed.

(** A cleanup cancelled during its first removal: two commands, the needed image is not named. *)
Lemma needed_images_not_removed_witness :
  let s' := (@cleanup_images sample_fs sha256_Hash elements_order sample_docker
         (sample_cleanup (Some 3)) 2 "devkit.json" ["images"] 4 7 (Cleaner dirty_world 0)).2 in
  length (io_commands (cl_io s')) = 2 ∧ ["docker"; "rmi"; old_tag] ∈ io_commands (cl_io s') ∧
  @tag_of sample_fs sha256_Hash sample_builder "tool-env" used_tag ∧
  ["docker"; "rmi"; used_tag] ∉ io_commands (cl_io s').
Proof.
  intros s'.
  assert (@tag_of sample_fs sha256_Hash sample_builder "tool-env" used_tag) as Hused.
  { refine (@calculated_tag_of sample_fs sha256_Hash 2 sample_builder "tool-env" used_tag [("tool-env", used_tag)] _).
    vm_compute. reflexivity. }
  split; [vm_compute; reflexivity|]. split; [apply (bool_decide_unpack _); vm_compute; exact I|].
  split; [exact Hused|].
  destruct (@get_all_docker_image_tags sample_fs sha256_Hash elements_order 2 "devkit.json" ["images"] [])
    as [tags|e] eqn:Ht; [|by vm_compute in Ht].
  destruct (@needed_images_not_removed sample_fs sha256_Hash elements_order sample_docker
           (sample_cleanup (Some 3)) 2 "devkit.json" ["images"] 4 7 tags (Cleaner dirty_world 0) Ht)
    as (cs & Hcs & Hall).
  intros Hin. unfold s' in Hin. rewrite Hcs in Hin.
  destruct (Hall _ Hin) as (prefix & _ & [[=]|(t & [= <-] & _ & _ & _ & Hno)]).
  apply (Hno sample_builder "tool-env"); [apply sample_builder_loaded|apply sample_known; right; right; left|exact Hused].
Defined.
