(* ===== verification/Mounts.v ===== *)
(** * External mounts: [list_external_mounts.py]

    A [pathlib.Path] is its root and its parts; [os.path.normpath] and
    [os.path.commonpath] act on the parts.  The class [MountFS] is what the
    script sees of the file system; looking at a path may raise, for instance a
    [PermissionError].  Its laws are facts of every file system: [resolve] gives
    resolved paths, the names in a directory differ, directory trees are well founded, a
    link whose target exists leads on to the end of its chain after finitely many
    links, and there are finitely many link targets.  The last three bound the three loops.
    A directory that cannot be listed is empty for [os.walk]. *)

From Stdlib Require Import Ascii.
From stdpp Require Import base list strings sorting gmap relations.
From S2P Require Import Prelude PyStr.

(** ** Paths *)

Record path := Path {
  p_root : string;
  p_tail : list string;
}.

#[export] Instance path_eq_dec : EqDecision path.
Proof. solve_decision. Defined.

#[export] Instance path_countable : Countable path.
Proof.
  refine (inj_countable' (λ p, (p_root p, p_tail p)) (λ '(r, t), Path r t) _).
  by intros [].
Defined.

(** [Path(s)]: one or at least three leading slashes are one root, two are kept;
    empty and [.] components are dropped. *)
Definition path_of_str (s : string) : path :=
  let root := if startswith s "//" && negb (startswith s "///") then "//"
              else if startswith s "/" then "/" else "" in
  Path root (filter (λ c, c ≠ "" ∧ c ≠ ".") (split_on "/" s)).

(** [str(p)] *)
Definition path_str (p : path) : string :=
  match p_root p, p_tail p with
  | EmptyString, [] => "."
  | r, t => r +:+ str_join "/" t
  end.

(** [p / q] *)
Definition path_join (p q : path) : path :=
  if str_truthy (p_root q) then q else Path (p_root p) (p_tail p ++ p_tail q).

(** [p / name] for the name of a directory entry *)
Definition path_entry (p : path) (name : string) : path := Path (p_root p) (p_tail p ++ [name]).

(** [p.parent] *)
Definition parent (p : path) : path := Path (p_root p) (removelast (p_tail p)).

(** [p.parents] *)
Definition parents (p : path) : list path :=
  (λ k, Path (p_root p) (take k (p_tail p))) <$> reverse (seq 0 (length (p_tail p))).

(** [p.is_relative_to(q)]: [q == p or q in p.parents] *)
Definition is_relative_to (p q : path) : bool := bool_decide (q = p) || bool_decide (q ∈ parents p).

(** [Path(os.path.normpath(str(p)))] *)
Definition norm_comp (initial_slashes : bool) (new_comps : list string) (comp : string) : list string :=
  match reverse new_comps with
  | [] => if bool_decide (comp = "..") && initial_slashes then [] else [comp]
  | last_comp :: _ =>
      if negb (bool_decide (comp = "..")) || bool_decide (last_comp = "..") then new_comps ++ [comp]
      else removelast new_comps
  end.
Definition normpath (p : path) : path :=
  Path (p_root p) (fold_left (norm_comp (str_truthy (p_root p))) (p_tail p) []).

(** [Path(os.path.commonpath([str(p), str(q)]))] *)
Fixpoint common_prefix (l k : list string) : list string :=
  match l, k with
  | x :: l, y :: k => if decide (x = y) then x :: common_prefix l k else []
  | _, _ => []
  end.
Definition commonpath (p q : path) : res path :=
  if bool_decide (str_truthy (p_root p) = str_truthy (p_root q)) then
    Ret (Path (if str_truthy (p_root p) then "/" else "") (common_prefix (p_tail p) (p_tail q)))
  else Raise (ValueError "Can't mix absolute and relative paths").

(** The order of [sorted]: the strings cut at the slashes, compared as lists. *)
Fixpoint list_le (l k : list string) : bool :=
  match l, k with
  | [], _ => true
  | _ :: _, [] => false
  | x :: l, y :: k => if decide (x = y) then list_le l k else bool_decide (String.le x y)
  end.
Definition path_le (p q : path) : Prop :=
  list_le (split_on "/" (path_str p)) (split_on "/" (path_str q)) = true.

#[export] Instance path_le_dec : RelDecision path_le.
Proof. intros p q. unfold path_le. apply _. Defined.

(** ** [_minimize_paths] *)

(** One turn of the loop. *)
Definition minimize_step (minimal_paths : gset path) (p : path) : gset path :=
  if bool_decide (set_Exists (λ q, is_relative_to p q = true) minimal_paths) then minimal_paths
  else {[p]} ∪ filter (λ q, is_relative_to q p = false) minimal_paths.

Definition _minimize_paths (paths : gset path) : gset path :=
  fold_left minimize_step (merge_sort path_le (elements paths)) ∅.

(** ** [list_external_mounts] *)

(** An absolute path without [..] and without empty components. *)
Definition resolved (p : path) : Prop :=
  p_root p = "/" ∧ Forall (λ c, c ≠ "" ∧ c ≠ "..") (p_tail p).

Class MountFS := {
  is_symlink : path → res bool;
  readlink : path → res path;
  exists_path : path → res bool;
  is_dir : path → res bool;
  resolve : path → path;
  scandir : path → list (string * bool);     (* entry and whether it is a directory *)
  tree_depth : path → nat;
  chain_length : path → nat;
  link_targets : gset path;
  resolve_resolved : ∀ p, resolved (resolve p);
  scandir_NoDup : ∀ p, NoDup (scandir p).*1;
  tree_wf : ∀ p name, (name, true) ∈ scandir p → is_symlink (path_entry p name) ≠ Ret true →
    tree_depth (path_entry p name) < tree_depth p;
  chain_wf : ∀ p t, is_symlink p = Ret true → readlink p = Ret t →
    exists_path (path_join (parent p) t) = Ret true →
    chain_length (path_join (parent p) t) < chain_length p;
  targets_finite : ∀ p t, is_symlink p = Ret true → readlink p = Ret t →
    exists_path (path_join (parent p) t) = Ret true →
    normpath (path_join (parent p) t) ∈ link_targets;
}.

Section mounts.
Context `{MountFS}.

(** [if ".venv" in dirs: dirs.remove(".venv")] *)
Fixpoint remove_first (x : string) (l : list string) : list string :=
  match l with
  | [] => []
  | y :: l => if decide (y = x) then l else y :: remove_first x l
  end.

(** [os.path.islink(p)], which is false when [lstat] fails *)
Definition islink (p : path) : bool := match is_symlink p with Ret b => b | Raise _ => false end.

(** [os.walk(top, topdown=True, followlinks=False)] with the caller's change
    of [dirs].  The fuel is the depth of the tree ([os_walk_spec] in [MountTheorems]). *)
Fixpoint walk (fuel : nat) (top : path) : list (path * list string * list string) :=
  match fuel with
  | O => []
  | S fuel =>
      let dirs := remove_first ".venv" (omap (λ '(n, d), if d : bool then Some n else None) (scandir top)) in
      let files := omap (λ '(n, d), if d : bool then None else Some n) (scandir top) in
      (top, dirs, files) ::
      mjoin ((λ d, if islink (path_entry top d) then [] else walk fuel (path_entry top d)) <$> dirs)
  end.
Definition os_walk (top : path) : list (path * list string * list string) :=
  walk (S (tree_depth top)) top.

(** [external_paths] and [worklist] *)
Definition scan_state : Type := gset path * list path.

(** The test against the scanned directory and what follows from it. *)
Definition note_target (scan_dir_abs abs_target : path) (st : scan_state) : res scan_state :=
  common ← commonpath scan_dir_abs (normpath abs_target);
  if bool_decide (path_str (normpath common) ≠ path_str scan_dir_abs) then
    let norm_target := normpath abs_target in
    let '(external_paths, worklist) := st in
    if bool_decide (norm_target ∉ external_paths) then
      directory ← is_dir norm_target;
      Ret ({[norm_target]} ∪ external_paths,
           if directory : bool then worklist ++ [norm_target] else worklist)
    else Ret st
  else Ret st.

(** The [while current_path.is_symlink()] loop. *)
Fixpoint follow_chain (fuel : nat) (scan_dir_abs current_path : path) (visited_in_chain : gset path)
    (st : scan_state) : res scan_state :=
  match fuel with
  | O => Ret st
  | S fuel =>
      linked ← is_symlink current_path;
      if linked : bool then
        if bool_decide (current_path ∈ visited_in_chain) then Ret st
        else
          match readlink current_path with
          | Raise FileNotFoundError => Ret st
          | Raise e => Raise e
          | Ret target =>
              let abs_target := path_join (parent current_path) target in
              present ← exists_path abs_target;
              if present : bool then
                st ← note_target scan_dir_abs abs_target st;
                follow_chain fuel scan_dir_abs abs_target ({[current_path]} ∪ visited_in_chain) st
              else Ret st
          end
      else Ret st
  end.
Definition _process_symlink (p scan_dir_abs : path) (st : scan_state) : res scan_state :=
  follow_chain (S (chain_length p)) scan_dir_abs p ∅ st.

(** The loops over [os.walk] and over the entries. *)
Definition scan_entry (scan_dir_abs root : path) (name : string) (st : scan_state) : res scan_state :=
  let p := path_entry root name in
  linked ← is_symlink p;
  if linked : bool then
    if startswith name "bazel-" then Ret st else _process_symlink p scan_dir_abs st
  else Ret st.
Definition scan_directory (scan_dir_abs current_dir : path) (st : scan_state) : res scan_state :=
  for_each (os_walk current_dir) (λ '(root, dirs, files) st,
    for_each (dirs ++ files) (scan_entry scan_dir_abs root) st) st.

(** The [while worklist] loop; [None] when the fuel is used up. *)
Fixpoint scan_loop (fuel : nat) (scan_dir_abs : path) (scanned : gset path) (st : scan_state)
    : option (res (gset path)) :=
  match st with
  | (external_paths, []) => Some (Ret external_paths)
  | (external_paths, current_dir :: worklist) =>
      match fuel with
      | O => None
      | S fuel =>
          if bool_decide (current_dir ∈ scanned) then
            scan_loop fuel scan_dir_abs scanned (external_paths, worklist)
          else
            match scan_directory scan_dir_abs current_dir (external_paths, worklist) with
            | Ret st => scan_loop fuel scan_dir_abs ({[current_dir]} ∪ scanned) st
            | Raise e => Some (Raise e)
            end
      end
  end.

Definition list_external_mounts (scan_dir : path) : option (res (gset path)) :=
  let scan_dir_abs := resolve scan_dir in
  scan_loop (S (size link_targets)) scan_dir_abs ∅ (∅, [scan_dir_abs]).

Definition get_minimal_mounts (root_dir : path) (existing_mounts : list path)
    : option (res (gset path)) :=
  match list_external_mounts root_dir with
  | Some (Ret symlink_paths) => Some (
      linked ← is_symlink root_dir;
      let existing_paths : gset path :=
        list_to_set existing_mounts ∪ list_to_set (resolve <$> existing_mounts) ∪
        (if linked : bool then {[resolve root_dir]} else ∅) in
      Ret (_minimize_paths (symlink_paths ∪ existing_paths)))
  | r => r
  end.
End mounts.
