(* ===== verification/MountTheorems.v ===== *)
(** * What [list_external_mounts.py] guarantees *)

From Stdlib Require Import Ascii.
From stdpp Require Import base list strings sorting gmap relations.
From S2P Require Import Prelude PyStr Mounts.

(** ** The order of paths *)

Lemma is_relative_to_iff p q :
  is_relative_to p q = true ↔ p_root q = p_root p ∧ p_tail q `prefix_of` p_tail p.
Proof.
  unfold is_relative_to, parents. rewrite orb_true_iff, !bool_decide_eq_true, list_elem_of_fmap. split.
  - intros [->|(k & -> & _)]; [done|]. split; [done|]. simpl. apply prefix_take.
  - intros [Hr [rest Ht]]. destruct p as [r t], q as [r' t']; simpl in *; subst.
    destruct rest as [|x rest]; [left; by rewrite app_nil_r|right].
    exists (length t'). rewrite take_app_length. split; [done|].
    rewrite elem_of_reverse, elem_of_seq, length_app. simpl. lia.
Qed.

#[export] Instance is_relative_to_preorder : PreOrder (λ p q, is_relative_to p q = true).
Proof.
  split.
  - intros p. by apply is_relative_to_iff.
  - intros p q r [Hr1 Ht1]%is_relative_to_iff [Hr2 Ht2]%is_relative_to_iff.
    apply is_relative_to_iff. split; [congruence|by etrans].
Qed.

Lemma is_relative_to_antisym p q :
  is_relative_to p q = true → is_relative_to q p = true → p = q.
Proof.
  intros [Hr1 Ht1]%is_relative_to_iff [_ Ht2]%is_relative_to_iff.
  destruct p, q; simpl in *. f_equal; [done|]. by apply (anti_symm prefix).
Qed.

(** ** Minimal paths *)

(** What the loop keeps: some of the paths seen, none below another, and every
    path seen below one of them. *)
Record minimal_of (seen : path → Prop) (m : gset path) : Prop := {
  minimal_seen : ∀ p, p ∈ m → seen p;
  minimal_antichain : ∀ p q, p ∈ m → q ∈ m → is_relative_to p q = true → p = q;
  minimal_covers : ∀ p, seen p → ∃ q, q ∈ m ∧ is_relative_to p q = true;
}.

Lemma minimize_step_minimal seen m p :
  minimal_of seen m → minimal_of (λ q, q = p ∨ seen q) (minimize_step m p).
Proof.
  intros [Hs Ha Hc]. unfold minimize_step. case_bool_decide as Hex.
  - destruct Hex as (q & Hq & Hpq). split; [auto|auto|].
    intros r [->|Hr]; [by exists q|auto].
  - assert (∀ q, q ∈ m → is_relative_to p q = false) as Hno.
    { intros q Hq. apply not_true_iff_false. contradict Hex. by exists q. }
    split.
    + intros q. rewrite elem_of_union, elem_of_singleton, elem_of_filter. naive_solver.
    + intros q1 q2. rewrite !elem_of_union, !elem_of_singleton, !elem_of_filter.
      intros [->|[H1 ?]] [->|[H2 ?]] Hrel; [done| | |auto].
      * by rewrite Hno in Hrel.
      * congruence.
    + intros r [->|Hr]; [exists p; split; [set_solver|by apply is_relative_to_iff]|].
      destruct (Hc r Hr) as (q & Hq & Hrq). destruct (is_relative_to q p) eqn:Hqp.
      * exists p. split; [set_solver|].
        exact (@transitivity _ _ (PreOrder_Transitive (PreOrder := is_relative_to_preorder)) r q p Hrq Hqp).
      * exists q. split; [|done]. rewrite elem_of_union, elem_of_filter. auto.
Qed.

Lemma minimize_loop_minimal l seen m :
  minimal_of seen m → minimal_of (λ q, q ∈ l ∨ seen q) (fold_left minimize_step l m).
Proof.
  revert seen m. induction l as [|p l IH]; intros seen m Hm; simpl.
  - destruct Hm as [Hs Ha Hc]. split; [auto|auto|].
    intros q [?%elem_of_nil|?]; [done|auto].
  - destruct (IH _ _ (minimize_step_minimal seen m p Hm)) as [Hs Ha Hc].
    split; [intros q Hq; specialize (Hs q Hq); set_solver|auto|].
    intros q Hq. apply Hc. set_solver.
Qed.

Lemma minimize_minimal paths : minimal_of (.∈ paths) (_minimize_paths paths).
Proof.
  unfold _minimize_paths.
  destruct (minimize_loop_minimal (merge_sort path_le (elements paths)) (λ _, False) ∅) as [Hs Ha Hc].
  { split; set_solver. }
  assert (∀ p, p ∈ merge_sort path_le (elements paths) ↔ p ∈ paths) as Hin.
  { intros p. by rewrite merge_sort_Permutation, elem_of_elements. }
  split; [|done|].
  - intros p Hp. destruct (Hs p Hp) as [?%Hin|[]]. done.
  - intros p Hp. apply Hc. left. by apply Hin.
Qed.

(** Minimizing a set of paths keeps exactly the paths that lie below no other
    path of the set, whatever order they are sorted in. *)
Theorem minimize_paths_correct paths p :
  p ∈ _minimize_paths paths ↔
  p ∈ paths ∧ ∀ q, q ∈ paths → is_relative_to p q = true → q = p.
Proof.
  destruct (minimize_minimal paths) as [Hs Ha Hc]. split.
  - intros Hp. split; [auto|]. intros q Hq Hpq. destruct (Hc q Hq) as (r & Hr & Hqr).
    assert (is_relative_to p r = true) as Hpr
      by exact (@transitivity _ _ (PreOrder_Transitive (PreOrder := is_relative_to_preorder)) p q r Hpq Hqr).
    rewrite (Ha p r Hp Hr Hpr) in *. by apply is_relative_to_antisym.
  - intros [Hp Hmin]. destruct (Hc p Hp) as (q & Hq & Hpq). by rewrite <-(Hmin q (Hs q Hq) Hpq).
Qed.

(** ** The external targets *)

Section external.
Context `{MountFS}.

(** A subdirectory that is searched: no link, and not called [.venv]. *)
Definition subdir (p q : path) : Prop :=
  ∃ name, (name, true) ∈ scandir p ∧ name ≠ ".venv" ∧ q = path_entry p name ∧ is_symlink q ≠ Ret true.

(** The entries of a directory tree, without those called [.venv] that are directories. *)
Definition tree_entry (d : path) (name : string) (p : path) : Prop :=
  ∃ root dir, rtc subdir d root ∧ (name, dir) ∈ scandir root ∧ ¬ (dir = true ∧ name = ".venv") ∧
              p = path_entry root name.

(** A link in a directory tree that is looked at. *)
Definition found_link (d p : path) : Prop :=
  ∃ name, tree_entry d name p ∧ is_symlink p = Ret true ∧ startswith name "bazel-" = false.

(** What a link says, and the target of a link that leads somewhere. *)
Definition link_target (p q : path) : Prop :=
  is_symlink p = Ret true ∧ ∃ t, readlink p = Ret t ∧ q = path_join (parent p) t.
Definition link_hop (p q : path) : Prop := link_target p q ∧ exists_path q = Ret true.

(** A path that is not inside the scanned directory. *)
Definition outside (scan q : path) : Prop := ¬ p_tail scan `prefix_of` p_tail (normpath q).

(** The external mounts of a directory: the targets outside it of the chains
    that start at its links, and at the links of the directories so found. *)
Inductive mount (scan : path) : path → Prop :=
  | mount_scan p q :
      found_link scan p → tc link_hop p q → outside scan q → mount scan (normpath q)
  | mount_dir d p q :
      mount scan d → is_dir d = Ret true →
      found_link d p → tc link_hop p q → outside scan q → mount scan (normpath q).

(** An error of looking at a path that the script does not handle. *)
Definition look_error (p : path) (e : exn) : Prop :=
  is_symlink p = Raise e ∨ exists_path p = Raise e ∨ is_dir (normpath p) = Raise e ∨
  (e ≠ FileNotFoundError ∧ is_symlink p = Ret true ∧ readlink p = Raise e).

(** Such an error at an entry of the tree of [d] or further along its chain. *)
Definition tree_error (d : path) (e : exn) : Prop :=
  ∃ name p q, tree_entry d name p ∧ rtc link_target p q ∧ look_error q e.

(** The directories that are searched for links. *)
Definition searched (scan d : path) : Prop := d = scan ∨ (mount scan d ∧ is_dir d = Ret true).

Definition scan_error (scan : path) (e : exn) : Prop := ∃ d, searched scan d ∧ tree_error d e.

(** The paths in [N] are added, and each new directory is queued once. *)
Definition grows (N : path → Prop) (st st' : scan_state) : Prop :=
  (∀ m, m ∈ st'.1 ↔ m ∈ st.1 ∨ N m) ∧
  ∃ added, st'.2 = st.2 ++ added ∧ NoDup added ∧
           ∀ d, d ∈ added ↔ d ∈ st'.1 ∧ d ∉ st.1 ∧ is_dir d = Ret true.

Lemma grows_same (N : path → Prop) st : (∀ m, N m → m ∈ st.1) → grows N st st.
Proof.
  intros HN. split; [naive_solver|]. exists []. rewrite app_nil_r.
  split; [done|]. split; [apply NoDup_nil_2|]. intros d. rewrite elem_of_nil. naive_solver.
Qed.

Lemma grows_trans (N1 N2 N : path → Prop) st1 st2 st3 :
  grows N1 st1 st2 → grows N2 st2 st3 → (∀ m, N m ↔ N1 m ∨ N2 m) → grows N st1 st3.
Proof.
  intros [Hm1 (a1 & Ha1 & Hnd1 & Hd1)] [Hm2 (a2 & Ha2 & Hnd2 & Hd2)] HN. split.
  - intros m. rewrite Hm2, Hm1, HN. naive_solver.
  - exists (a1 ++ a2). rewrite Ha2, Ha1, (assoc_L (++)). split; [done|]. split.
    + apply NoDup_app. split; [done|]. split; [|done]. intros d Hin1 Hin2.
      apply Hd1 in Hin1 as (? & _). by apply Hd2 in Hin2 as (_ & ? & _).
    + intros d. rewrite elem_of_app, Hd1, Hd2.
      specialize (Hm1 d). specialize (Hm2 d). destruct (decide (d ∈ st2.1)); naive_solver.
Qed.

(** The result adds the paths in [N], or the exception is in [E]. *)
Definition scan_post (E : exn → Prop) (N : path → Prop) (st : scan_state) (r : res scan_state) : Prop :=
  match r with Ret st' => grows N st st' | Raise e => E e end.

Lemma scan_post_weaken (E E' : exn → Prop) (N N' : path → Prop) st r :
  (∀ e, E e → E' e) → (∀ m, N m ↔ N' m) → scan_post E N st r → scan_post E' N' st r.
Proof.
  intros HE HN. destruct r as [st'|e]; [|apply HE]. intros [Hm Ha]. split; [|done].
  intros m. by rewrite Hm, HN.
Qed.

Lemma for_each_post {A} E (l : list A) f (N : A → path → Prop) st :
  (∀ x st, x ∈ l → scan_post E (N x) st (f x st)) →
  scan_post E (λ m, ∃ x, x ∈ l ∧ N x m) st (for_each l f st).
Proof.
  revert st. induction l as [|x l IH]; intros st Hf.
  - apply grows_same. by intros m (? & ?%elem_of_nil & _).
  - cbn [for_each]. pose proof (Hf x st ltac:(left)) as Hx.
    destruct (f x st) as [st1|e]; [|done].
    pose proof (IH st1 ltac:(intros y st' Hy; apply Hf; by right)) as Hl.
    change (mbind (λ s', for_each l f s') (Ret st1)) with (for_each l f st1).
    destruct (for_each l f st1) as [st2|e]; [|done].
    eapply grows_trans; [exact Hx|exact Hl|]. intros m. setoid_rewrite elem_of_cons. naive_solver.
Qed.

(** ** The test for external targets *)

Lemma norm_comps_plain slashes acc t :
  Forall (λ c, c ≠ "..") t → fold_left (norm_comp slashes) t acc = acc ++ t.
Proof.
  intros Ht. revert acc. induction Ht as [|c t Hc _ IH]; intros acc; simpl; [by rewrite app_nil_r|].
  rewrite IH. replace (norm_comp slashes acc c) with (acc ++ [c]); [by rewrite <-(assoc_L (++))|].
  unfold norm_comp. rewrite (bool_decide_false (c = "..")) by done. simpl.
  destruct (reverse acc) eqn:Hr; [|done]. apply (f_equal reverse) in Hr. rewrite reverse_involutive in Hr.
  by subst.
Qed.

Lemma common_prefix_spec l k :
  common_prefix l k `prefix_of` l ∧ (common_prefix l k = l ↔ l `prefix_of` k).
Proof.
  revert k. induction l as [|x l IH]; intros k; simpl.
  - split; [done|]. split; [intros _; apply prefix_nil|done].
  - destruct k as [|y k]; [split; [apply prefix_nil|]; split; [done|intros ?%prefix_nil_inv; done]|].
    case_decide as Hxy.
    + subst y. destruct (IH k) as [Hp Hiff]. split; [by apply prefix_cons|]. split.
      * intros [= Heq]. apply prefix_cons. by apply Hiff.
      * intros Hc%prefix_cons_inv_2. f_equal. by apply Hiff.
    + split; [apply prefix_nil|]. split; [done|]. by intros ?%prefix_cons_inv_1.
Qed.

Lemma join_prefix_inj l k :
  l `prefix_of` k → Forall (λ c, c ≠ "") k → str_join "/" l = str_join "/" k → l = k.
Proof.
  intros [r ->] Hk Heq. destruct r as [|c r]; [by rewrite app_nil_r|exfalso].
  apply Forall_app in Hk as [_ Hr]. apply Forall_cons in Hr as [Hc _].
  destruct l as [|x l].
  - destruct c; [done|]. destruct r; [done|].
    apply (f_equal String.length) in Heq. simpl in Heq. rewrite length_app_string in Heq. done.
  - rewrite str_join_app in Heq by done.
    apply (f_equal String.length) in Heq. rewrite !length_app_string in Heq. simpl in Heq. lia.
Qed.

Lemma note_target_test scan q :
  resolved scan → str_truthy (p_root q) = true →
  ∃ common, commonpath scan (normpath q) = Ret common ∧
    (path_str (normpath common) ≠ path_str scan ↔ outside scan q).
Proof.
  intros [Hr Ht] Hq. unfold commonpath.
  replace (str_truthy (p_root scan)) with true by (by rewrite Hr).
  replace (str_truthy (p_root (normpath q))) with true by (by rewrite <-Hq).
  rewrite bool_decide_true by done. eexists. split; [reflexivity|].
  destruct (common_prefix_spec (p_tail scan) (p_tail (normpath q))) as [Hp Hiff].
  set (c := common_prefix _ _) in *.
  assert (Forall (λ c, c ≠ "..") c) as Hc.
  { destruct Hp as [r Hp]. rewrite Hp in Ht. apply Forall_app in Ht as [Ht _].
    eapply Forall_impl; [exact Ht|]. naive_solver. }
  unfold normpath at 1. cbn [p_root p_tail]. rewrite norm_comps_plain by done.
  unfold path_str. cbn [p_root p_tail]. rewrite Hr, app_nil_l.
  unfold outside. rewrite <-Hiff. split; [congruence|]. intros Hne Heq. apply Hne.
  apply join_prefix_inj; [done| |by injection Heq].
  eapply Forall_impl; [exact Ht|]. naive_solver.
Qed.

Lemma note_target_post scan q st :
  resolved scan → str_truthy (p_root q) = true →
  scan_post (look_error q) (λ m, outside scan q ∧ m = normpath q) st (note_target scan q st).
Proof.
  intros Hs Hq. unfold note_target. destruct (note_target_test scan q Hs Hq) as (common & -> & Hiff).
  change (mbind ?f (Ret common)) with (f common). cbv beta.
  destruct (bool_decide (path_str (normpath common) ≠ path_str scan)) eqn:Hout.
  - apply bool_decide_eq_true, Hiff in Hout. destruct st as [ext wl]. case_bool_decide as Hin.
    + destruct (is_dir (normpath q)) as [dir|e] eqn:Hd; [|unfold scan_post, look_error; simpl; auto].
      split; [simpl; set_solver|]. exists (if dir then [normpath q] else []). destruct dir; simpl.
      * split; [done|]. split; [apply NoDup_singleton|]. intros d. set_solver.
      * rewrite app_nil_r. split; [done|]. split; [apply NoDup_nil_2|].
        intros d. rewrite elem_of_nil. split; [done|]. intros (? & ? & ?).
        assert (d = normpath q) by set_solver. congruence.
    + apply grows_same. by intros m [_ ->].
  - apply bool_decide_eq_false in Hout. apply grows_same. intros m [? _]. naive_solver.
Qed.

Lemma link_hop_functional p q q' : link_hop p q → link_hop p q' → q = q'.
Proof. intros [(_ & t & Ht & ->) _] [(_ & t' & Ht' & ->) _]. congruence. Qed.

Lemma join_root p q : str_truthy (p_root p) = true → str_truthy (p_root (path_join (parent p) q)) = true.
Proof. unfold path_join. intros Hp. by destruct (str_truthy (p_root q)) eqn:Hq. Qed.

Lemma no_hop_post (N : path → path → Prop) p st :
  (∀ q, ¬ link_hop p q) → grows (λ m, ∃ q, tc link_hop p q ∧ N q m) st st.
Proof.
  intros Hno. apply grows_same. intros m (q & Htc & _). exfalso.
  inversion Htc as [? ? Hh|? ? ? Hh _]; subst; by eapply Hno.
Qed.

Lemma chain_step scan p q m :
  link_hop p q →
  (∃ r, tc link_hop p r ∧ (outside scan r ∧ m = normpath r)) ↔
  (outside scan q ∧ m = normpath q) ∨ ∃ r, tc link_hop q r ∧ (outside scan r ∧ m = normpath r).
Proof.
  intros Hhop. split.
  - intros (r & Hr & Hm). inversion Hr as [? ? Hh|? q' ? Hh Hrr]; subst.
    + left. by rewrite (link_hop_functional p r q Hh Hhop) in Hm.
    + right. rewrite (link_hop_functional p q' q Hh Hhop) in Hrr. by exists r.
  - intros [Hm|(r & Hr & Hm)]; [exists q; split; [by apply tc_once|done]|].
    exists r. split; [by eapply tc_l|done].
Qed.

(** A chain is followed to its end. *)
Lemma follow_chain_post scan fuel p visited st :
  resolved scan → str_truthy (p_root p) = true → chain_length p < fuel →
  (∀ v, v ∈ visited → chain_length p < chain_length v) →
  scan_post (λ e, ∃ q, rtc link_target p q ∧ look_error q e)
    (λ m, ∃ q, tc link_hop p q ∧ (outside scan q ∧ m = normpath q)) st
    (follow_chain fuel scan p visited st).
Proof.
  intros Hs. revert p visited st. induction fuel as [|fuel IH]; intros p visited st Hp Hf Hv; [lia|].
  cbn [follow_chain]. destruct (is_symlink p) as [[]|e] eqn:Hl.
  2: { apply no_hop_post. intros q [(? & _) _]. congruence. }
  2: { exists p. split; [done|by left]. }
  change (mbind ?f (Ret true)) with (f true). cbv beta iota.
  rewrite (bool_decide_false (p ∈ visited)) by (intros ?%Hv; lia).
  destruct (readlink p) as [t|e] eqn:Ht.
  2: { assert (∀ q, ¬ link_hop p q) by (intros q [(_ & t & ? & _) _]; congruence).
       destruct e; try (by apply no_hop_post); (exists p; split; [done|]; right; right; right; done). }
  set (q := path_join (parent p) t) in *. assert (link_target p q) as Htgt by (split; [done|by exists t]).
  destruct (exists_path q) as [[]|e] eqn:He.
  2: { apply no_hop_post. intros q' [(_ & t' & ? & ->) ?]. subst q. congruence. }
  2: { exists q. split; [by apply rtc_once|right; by left]. }
  change (mbind ?f (Ret true)) with (f true). cbv beta iota.
  pose proof (chain_wf p t Hl Ht He) as Hlt. fold q in Hlt.
  pose proof (note_target_post scan q st Hs (join_root p t Hp)) as Hn.
  destruct (note_target scan q st) as [st1|e]; [|exists q; split; [by apply rtc_once|exact Hn]].
  change (mbind ?f (Ret st1)) with (f st1). cbv beta.
  assert (∀ v, v ∈ {[p]} ∪ visited → chain_length q < chain_length v) as Hv'
    by (intros v [->%elem_of_singleton|?%Hv]%elem_of_union; lia).
  pose proof (IH q ({[p]} ∪ visited) st1 (join_root p t Hp) ltac:(lia) Hv') as Hrest.
  destruct (follow_chain fuel scan q _ st1) as [st2|e].
  2: { destruct Hrest as (q' & ? & ?). exists q'. split; [by eapply rtc_l|done]. }
  eapply grows_trans; [exact Hn|exact Hrest|]. intros m. by apply chain_step.
Qed.

(** ** One directory *)

Lemma elem_of_remove_first x y l : NoDup l → x ∈ remove_first y l ↔ x ∈ l ∧ x ≠ y.
Proof.
  induction 1 as [|z l Hz Hl IH]; simpl; [rewrite elem_of_nil; naive_solver|].
  case_decide as Hzy; [|rewrite !elem_of_cons, IH; naive_solver].
  subst z. rewrite elem_of_cons. split; [|naive_solver]. intros Hx. split; [by right|]. by intros ->.
Qed.

Lemma NoDup_names {A} (f : string * A → option string) (l : list (string * A)) :
  (∀ x n, f x = Some n → n = x.1) → NoDup l.*1 → NoDup (omap f l).
Proof.
  intros Hf. induction l as [|x l IH]; [intros _; apply NoDup_nil_2|]. intros [Hx Hl]%NoDup_cons. simpl.
  destruct (f x) as [n|] eqn:Hn; [|auto]. apply NoDup_cons. split; [|auto].
  intros (y & Hy & Hny)%list_elem_of_omap. apply Hx. apply Hf in Hn, Hny. subst. rewrite Hny.
  by apply (list_elem_of_fmap_2 fst).
Qed.

(** The directories and files [os.walk] yields for a directory. *)
Definition listing (top : path) : list string * list string :=
  (remove_first ".venv" (omap (λ '(n, d), if d : bool then Some n else None) (scandir top)),
   omap (λ '(n, d), if d : bool then None else Some n) (scandir top)).

Lemma elem_of_dirs top name : name ∈ (listing top).1 ↔ (name, true) ∈ scandir top ∧ name ≠ ".venv".
Proof.
  unfold listing. simpl. rewrite elem_of_remove_first.
  2: { apply NoDup_names; [|apply scandir_NoDup]. by intros [n []] n' [= ->]. }
  rewrite list_elem_of_omap. split.
  - intros [([n []] & Hin & [= ->]) ?]. done.
  - intros [Hin ?]. split; [|done]. by exists (name, true).
Qed.

Lemma elem_of_files top name : name ∈ (listing top).2 ↔ (name, false) ∈ scandir top.
Proof.
  unfold listing. simpl. rewrite list_elem_of_omap. split.
  - by intros ([n []] & Hin & [= ->]).
  - intros Hin. by exists (name, false).
Qed.

(** The walk visits exactly the directories of the tree that are searched, and its fuel is enough. *)
Lemma walk_spec fuel top root dirs files :
  tree_depth top < fuel →
  (root, dirs, files) ∈ walk fuel top ↔ rtc subdir top root ∧ (dirs, files) = listing root.
Proof.
  revert top. induction fuel as [|fuel IH]; intros top Hf; [lia|].
  cbn [walk]. fold (listing top). rewrite elem_of_cons, list_elem_of_join.
  change (remove_first ".venv" _) with (listing top).1. change (omap _ (scandir top)) with (listing top).2.
  assert (∀ d, d ∈ (listing top).1 → islink (path_entry top d) = false →
            subdir top (path_entry top d) ∧ tree_depth (path_entry top d) < fuel) as Hsub.
  { intros d [Hin Hne]%elem_of_dirs Hl. assert (is_symlink (path_entry top d) ≠ Ret true) as Hnl.
    { intros Heq. unfold islink in Hl. by rewrite Heq in Hl. }
    split; [by exists d|]. pose proof (tree_wf top d Hin Hnl). lia. }
  split.
  - intros [[= -> -> ->]|(l & Hin & (d & -> & Hd)%list_elem_of_fmap)]; [split; [done|reflexivity]|].
    destruct (islink (path_entry top d)) eqn:Hl; [by apply elem_of_nil in Hin|].
    destruct (Hsub d Hd Hl) as [? ?]. apply IH in Hin as [? ?]; [|done]. split; [by eapply rtc_l|done].
  - intros [Hr Hlist]. apply rtc_inv in Hr as [->|(q & (d & Hin & Hne & -> & Hl) & Hr)].
    + left. by rewrite <-Hlist.
    + right. assert (islink (path_entry top d) = false) as Hl'.
      { unfold islink. by destruct (is_symlink _) as [[]|]. }
      assert (d ∈ (listing top).1) as Hd by (by apply elem_of_dirs).
      destruct (Hsub d Hd Hl') as [? ?]. eexists. split; [|apply list_elem_of_fmap; exists d; split; [reflexivity|done]].
      rewrite Hl'. by apply IH.
Qed.

Lemma os_walk_spec d root dirs files :
  (root, dirs, files) ∈ os_walk d ↔ rtc subdir d root ∧ (dirs, files) = listing root.
Proof. apply walk_spec. lia. Qed.

Lemma tree_entry_iff d name p :
  tree_entry d name p ↔
  ∃ root dirs files, (root, dirs, files) ∈ os_walk d ∧ name ∈ dirs ++ files ∧ p = path_entry root name.
Proof.
  split.
  - intros (root & dir & Hr & Hin & Hv & ->). exists root, (listing root).1, (listing root).2.
    rewrite os_walk_spec, elem_of_app, elem_of_dirs, elem_of_files.
    split_and!; [done|reflexivity| |done]. destruct dir; [left|by right]. split; [done|]. intros ->. by apply Hv.
  - intros (root & dirs & files & [Hr Hl]%os_walk_spec & Hn & ->).
    assert (dirs = (listing root).1 ∧ files = (listing root).2) as [-> ->] by (by rewrite <-Hl).
    apply elem_of_app in Hn as [[Hin Hne]%elem_of_dirs|Hin%elem_of_files].
    + exists root, true. naive_solver.
    + exists root, false. naive_solver.
Qed.

Lemma subdir_root d root : rtc subdir d root → p_root root = p_root d.
Proof. induction 1 as [|d e root (name & _ & _ & -> & _) _ IH]; [done|by rewrite IH]. Qed.

Lemma tree_entry_root d name p : tree_entry d name p → p_root p = p_root d.
Proof. intros (root & dir & Hr & _ & _ & ->). simpl. by apply subdir_root. Qed.

Definition targets_from (scan d m : path) : Prop :=
  ∃ p q, found_link d p ∧ tc link_hop p q ∧ outside scan q ∧ m = normpath q.

Lemma scan_directory_post scan d st :
  resolved scan → str_truthy (p_root d) = true →
  scan_post (tree_error d) (targets_from scan d) st (scan_directory scan d st).
Proof.
  intros Hs Hd. unfold scan_directory.
  eapply scan_post_weaken; [done| |apply (for_each_post (tree_error d) (os_walk d) _
    (λ '(root, dirs, files) m, ∃ name, name ∈ dirs ++ files ∧
       (is_symlink (path_entry root name) = Ret true ∧ startswith name "bazel-" = false ∧
        ∃ q, tc link_hop (path_entry root name) q ∧ (outside scan q ∧ m = normpath q))))].
  - intros m. split.
    + intros ([[root dirs] files] & Hin & name & Hn & Hl & Hb & q & Hq & Ho & ->).
      exists (path_entry root name), q. split; [|done]. exists name. split; [|done].
      apply tree_entry_iff. by exists root, dirs, files.
    + intros (p & q & (name & (root & dirs & files & Hin & Hn & ->)%tree_entry_iff & Hl & Hb) & Hq & Ho & ->).
      exists (root, dirs, files). split; [done|]. exists name. split_and!; [done..|]. by exists q.
  - intros [[root dirs] files] st1 Hin. apply for_each_post. intros name st2 Hn.
    assert (tree_entry d name (path_entry root name)) as Hent by (apply tree_entry_iff; by exists root, dirs, files).
    unfold scan_entry. destruct (is_symlink (path_entry root name)) as [[]|e] eqn:Hl.
    2: { apply grows_same. by intros m (? & _). }
    2: { exists name, (path_entry root name), (path_entry root name). split_and!; [done|done|by left]. }
    change (mbind ?f (Ret true)) with (f true). cbv beta iota.
    destruct (startswith name "bazel-") eqn:Hb; [apply grows_same; by intros m (_ & ? & _)|].
    eapply scan_post_weaken; [| |apply (follow_chain_post scan); [done| |lia|by intros ? ?%elem_of_empty]].
    + intros e (q & ? & ?). by exists name, (path_entry root name), q.
    + naive_solver.
    + by rewrite (tree_entry_root d name).
Qed.

(** ** The worklist *)

Lemma tc_hop_root p q : str_truthy (p_root p) = true → tc link_hop p q → str_truthy (p_root q) = true.
Proof.
  intros Hp Htc. induction Htc as [p q [(_ & t & _ & ->) _]|p q r [(_ & t & _ & ->) _] _ IH];
    auto using join_root.
Qed.

Lemma tc_hop_target p q : tc link_hop p q → normpath q ∈ link_targets.
Proof.
  induction 1 as [p q [(Hl & t & Ht & ->) He]|]; [|done]. by apply targets_finite.
Qed.

Lemma mount_facts scan m :
  resolved scan → mount scan m → str_truthy (p_root m) = true ∧ m ∈ link_targets.
Proof.
  intros [Hr _].
  assert (∀ d p q, str_truthy (p_root d) = true → found_link d p → tc link_hop p q →
            str_truthy (p_root (normpath q)) = true ∧ normpath q ∈ link_targets) as Hlink.
  { intros d p q Hd (name & He%tree_entry_root & _) Htc.
    split; [|by eapply tc_hop_target]. apply (tc_hop_root p q); [|done]. by rewrite He. }
  induction 1 as [p q Hf Htc Ho|d p q Hd [IH _] Hdir Hf Htc Ho]; [|by eapply Hlink].
  eapply Hlink; [|done..]. by rewrite Hr.
Qed.

Record mount_inv (scan : path) (scanned : gset path) (st : scan_state) : Prop := {
  inv_sound : ∀ m, m ∈ st.1 → mount scan m;
  inv_work : ∀ d, d ∈ st.2 → searched scan d;
  inv_scanned : ∀ d m, d ∈ scanned → targets_from scan d m → m ∈ st.1;
  inv_queued : ∀ d, d ∈ st.1 → is_dir d = Ret true → d ∈ scanned ∨ d ∈ st.2;
  inv_root : scan ∈ scanned ∨ scan ∈ st.2;
}.

Lemma mount_inv_step scan scanned ext d wl st' :
  mount_inv scan scanned (ext, d :: wl) → grows (targets_from scan d) (ext, wl) st' →
  mount_inv scan ({[d]} ∪ scanned) st'.
Proof.
  intros [Hs Hw Hsc Hq Hr] [Hm (added & Ha & _ & Hadd)]. simpl in *.
  assert (∀ m, m ∈ st'.1 → mount scan m) as Hs'.
  { intros m [?|(p & q & Hf & Htc & Ho & ->)]%Hm; [auto|].
    destruct (Hw d) as [->|[? ?]]; [left|by eapply mount_scan|by eapply mount_dir]. }
  split.
  - done.
  - intros x. rewrite Ha. intros [Hx|(Hx & _ & Hdir)%Hadd]%elem_of_app; [apply Hw; by right|].
    right. split; [by apply Hs'|done].
  - intros x m [->%elem_of_singleton|Hx]%elem_of_union Ht; apply Hm; [by right|left; eauto].
  - intros x Hx Hdir. destruct (decide (x ∈ ext)) as [Hin|Hni].
    + destruct (Hq x Hin Hdir) as [?|[->|?]%elem_of_cons]; [left; set_solver|left; set_solver|].
      right. rewrite Ha. set_solver.
    + right. rewrite Ha. apply elem_of_app. right. by apply Hadd.
  - destruct Hr as [?|[->|?]%elem_of_cons]; [left; set_solver|left; set_solver|].
    right. rewrite Ha. set_solver.
Qed.

Lemma mount_inv_skip scan scanned ext d wl :
  d ∈ scanned → mount_inv scan scanned (ext, d :: wl) → mount_inv scan scanned (ext, wl).
Proof.
  intros Hd [Hs Hw Hsc Hq Hr]. simpl in *. split; simpl; [done| |done| |].
  - intros x Hx. apply Hw. by right.
  - intros x Hx Hdir. destruct (Hq x Hx Hdir) as [?|[->|?]%elem_of_cons]; auto.
  - destruct Hr as [?|[->|?]%elem_of_cons]; auto.
Qed.

Lemma mount_inv_end scan scanned ext m : mount_inv scan scanned (ext, []) → m ∈ ext ↔ mount scan m.
Proof.
  intros [Hs _ Hsc Hq Hr]. simpl in *. split; [auto|].
  induction 1 as [p q Hf Htc Ho|d p q Hd IH Hdir Hf Htc Ho].
  - apply (Hsc scan); [|by exists p, q]. by destruct Hr as [?|?%elem_of_nil].
  - apply (Hsc d); [|by exists p, q]. by destruct (Hq d IH Hdir) as [?|?%elem_of_nil].
Qed.

(** New directories are paid for by new external paths. *)
Lemma grows_measure scan scanned st' N ext wl :
  resolved scan → mount_inv scan scanned st' → grows N (ext, wl) st' →
  size (link_targets ∖ st'.1) + length st'.2 ≤ size (link_targets ∖ ext) + length wl.
Proof.
  intros Hs Hinv [Hm (added & Ha & Hnd & Hadd)]. simpl in *. rewrite Ha, length_app.
  assert (length added = size (list_to_set added : gset path)) as -> by (by rewrite size_list_to_set).
  enough (size (link_targets ∖ st'.1) + size (list_to_set added : gset path) ≤ size (link_targets ∖ ext)) by lia.
  rewrite <-size_union.
  - apply subseteq_size. intros x. rewrite elem_of_union, !elem_of_difference, elem_of_list_to_set, Hadd.
    intros [[Hx Hni]|(Hx & Hni & _)]; (split; [|done || (contradict Hni; apply Hm; by left)]).
    + done.
    + apply (mount_facts scan); [done|]. by apply (inv_sound _ _ _ Hinv).
  - intros x. rewrite elem_of_difference, elem_of_list_to_set, Hadd. naive_solver.
Qed.

Lemma scan_loop_correct fuel scan scanned st :
  resolved scan → mount_inv scan scanned st →
  size (link_targets ∖ st.1) + length st.2 ≤ fuel →
  match scan_loop fuel scan scanned st with
  | Some (Ret ext) => ∀ m, m ∈ ext ↔ mount scan m
  | Some (Raise e) => scan_error scan e
  | None => False
  end.
Proof.
  intros Hs. revert scanned st. induction fuel as [|fuel IH]; intros scanned [ext [|d wl]] Hinv Hf;
    simpl in Hf; [|lia| |]; cbn [scan_loop].
  - intros m. by eapply mount_inv_end.
  - intros m. by eapply mount_inv_end.
  - case_bool_decide as Hd.
    + apply IH; [by eapply mount_inv_skip|simpl; lia].
    + assert (str_truthy (p_root d) = true) as Hroot.
      { destruct (inv_work _ _ _ Hinv d) as [->|[Hm _]]; [left| |by apply (mount_facts scan)].
        destruct Hs as [-> _]. done. }
      pose proof (scan_directory_post scan d (ext, wl) Hs Hroot) as Hp.
      destruct (scan_directory scan d (ext, wl)) as [st'|e].
      2: { exists d. split; [apply (inv_work _ _ _ Hinv); left|done]. }
      pose proof (mount_inv_step _ _ _ _ _ _ Hinv Hp) as Hinv'. apply IH; [done|].
      pose proof (grows_measure _ _ _ _ _ _ Hs Hinv' Hp). lia.
Qed.

Lemma list_external_mounts_spec scan_dir :
  match list_external_mounts scan_dir with
  | Some (Ret external_paths) => ∀ m, m ∈ external_paths ↔ mount (resolve scan_dir) m
  | Some (Raise e) => scan_error (resolve scan_dir) e
  | None => False
  end.
Proof.
  unfold list_external_mounts. apply scan_loop_correct.
  - apply resolve_resolved.
  - split; simpl; [set_solver| |set_solver|set_solver|set_solver].
    intros d ->%list_elem_of_singleton. by left.
  - simpl. rewrite difference_empty_L. lia.
Qed.
End external.

(** C5: the scan ends, and finds exactly the external mounts: the normalized
    targets outside the directory of the link chains that start at links of its tree, and
    of the trees of the external directories so found, leaving out [.venv] directories and
    [bazel-] links.  It fails only with an error of looking at one of the entries of these
    trees or of the targets along their chains. *)
Theorem external_mounts_correct `{MountFS} scan_dir :
  match list_external_mounts scan_dir with
  | Some (Ret external_paths) => ∀ m, m ∈ external_paths ↔ mount (resolve scan_dir) m
  | Some (Raise e) => scan_error (resolve scan_dir) e
  | None => False
  end.
Proof. apply list_external_mounts_spec. Qed.

Lemma minimal_mounts_spec `{MountFS} root_dir existing_mounts mounts :
  get_minimal_mounts root_dir existing_mounts = Some (Ret mounts) →
  (∀ p q, p ∈ mounts → q ∈ mounts → is_relative_to p q = true → p = q) ∧
  ∀ p, p ∈ existing_mounts ∨ p ∈ (resolve <$> existing_mounts) ∨ mount (resolve root_dir) p ∨
       (is_symlink root_dir = Ret true ∧ p = resolve root_dir) →
       ∃ q, q ∈ mounts ∧ is_relative_to p q = true.
Proof.
  unfold get_minimal_mounts. intros Hg.
  destruct (list_external_mounts root_dir) as [[ext|e]|] eqn:Hl; simplify_eq.
  assert (∀ m, m ∈ ext ↔ mount (resolve root_dir) m) as Hm.
  { pose proof (list_external_mounts_spec root_dir) as Hs. by rewrite Hl in Hs. }
  destruct (is_symlink root_dir) as [linked|e] eqn:Hlink; [|done].
  injection Hg as <-.
  match goal with |- context [_minimize_paths ?s] => destruct (minimize_minimal s) as [_ Ha Hc] end.
  split; [done|]. intros p Hp. apply Hc.
  rewrite !elem_of_union, Hm, !elem_of_list_to_set.
  destruct Hp as [?|[?|[?|[[= ->] ->]]]]; [auto..|]. right. right. by apply elem_of_singleton.
Qed.

Lemma minimal_mounts_total `{MountFS} root_dir existing_mounts :
  is_Some (get_minimal_mounts root_dir existing_mounts).
Proof.
  unfold get_minimal_mounts. pose proof (list_external_mounts_spec root_dir) as Hs.
  destruct (list_external_mounts root_dir) as [[]|]; eauto. done.
Qed.

(** C36: the mounts handed to docker cover all that is needed and nothing twice:
    every given mount, as it is written and resolved, every external mount and,
    for a linked root, its real directory lies below one of them, and none lies
    below another. *)
Theorem minimal_mounts_cover `{MountFS} root_dir existing_mounts mounts :
  get_minimal_mounts root_dir existing_mounts = Some (Ret mounts) →
  (∀ p q, p ∈ mounts → q ∈ mounts → is_relative_to p q = true → p = q) ∧
  ∀ p, p ∈ existing_mounts ∨ p ∈ (resolve <$> existing_mounts) ∨ mount (resolve root_dir) p ∨
       (is_symlink root_dir = Ret true ∧ p = resolve root_dir) →
       ∃ q, q ∈ mounts ∧ is_relative_to p q = true.
Proof. apply minimal_mounts_spec. Qed.

(** ** A small file system *)

Module SampleMounts.
Definition abs (l : list string) : path := Path "/" l.

(** [/src/ext] leads to a directory with a link of its own, [/src/sub/log] is a link in a
    subdirectory; [/src/bazel-out] and the tree [/src/.venv] are skipped. *)
Definition links : list (path * path) :=
  [(abs ["src"; "ext"], abs ["data"; "lib"]);
   (abs ["src"; "bazel-out"], abs ["out"]);
   (abs ["src"; "sub"; "log"], abs ["var"; "log"]);
   (abs ["src"; ".venv"; "python"], abs ["usr"; "bin"]);
   (abs ["data"; "lib"; "deep"], Path "" [".."; "deep"])].

Definition entries : list (path * list (string * bool)) :=
  [(abs ["src"], [("ext", true); (".venv", true); ("bazel-out", true); ("sub", true); ("main.py", false)]);
   (abs ["src"; "sub"], [("log", false)]);
   (abs ["src"; ".venv"], [("python", false)]);
   (abs ["data"; "lib"], [("deep", false)])].

Definition present : list path :=
  [abs ["data"; "lib"]; abs ["out"]; abs ["var"; "log"]; abs ["usr"; "bin"]; abs ["data"; "lib"; ".."; "deep"]].

#[export, program] Instance fs : MountFS := {|
  is_symlink p := Ret (bool_decide (p ∈ dkeys links));
  readlink p := from_option Ret (Raise OSError) (dget links p);
  exists_path p := Ret (bool_decide (p ∈ present));
  is_dir p := Ret (bool_decide (p ∈ dkeys entries));
  resolve p := abs (filter (λ c, c ≠ "" ∧ c ≠ "..") (p_tail p));
  scandir p := default [] (dget entries p);
  tree_depth p := if decide (p = abs ["src"]) then 2 else if decide (p ∈ dkeys entries) then 1 else 0;
  chain_length p := if decide (p ∈ dkeys links) then 1 else 0;
  link_targets := {[abs ["data"; "lib"]; abs ["out"]; abs ["var"; "log"]; abs ["usr"; "bin"]; abs ["data"; "deep"]]};
|}.
Next Obligation.
  intros p. split; [done|]. apply Forall_forall. intros c [? _]%list_elem_of_filter. done.
Qed.
Next Obligation.
  intros p. simpl. repeat (case_decide; [apply (bool_decide_unpack _); vm_compute; exact I|]). apply NoDup_nil_2.
Qed.
Next Obligation.
  intros p name Hin Hl. simpl in Hin. unfold entries in Hin. simpl in Hin.
  repeat (case_decide as Hp; simpl in Hin;
    [subst p; repeat (apply elem_of_cons in Hin as [Heq|Hin];
       [simplify_eq; vm_compute in Hl |- *; first [done|lia]|]); by apply elem_of_nil in Hin|clear Hp]).
  by apply elem_of_nil in Hin.
Qed.
Next Obligation.
  intros p t Hl Ht _. simpl in Ht. repeat (case_decide as Hp; [injection Ht as <-; subst p; vm_compute; lia|clear Hp]). done.
Qed.
Next Obligation.
  intros p t Hl Ht _. simpl in Ht.
  repeat (case_decide as Hp; [injection Ht as <-; subst p; apply (bool_decide_unpack _); vm_compute; exact I|clear Hp]).
  done.
Qed.

Example sample_external :
  (λ r, r ≫= λ ext : res (gset path), match ext with Ret e => Some e | Raise _ => None end)
    (list_external_mounts (abs ["src"])) =
  Some (list_to_set (abs <$> [["data"; "lib"]; ["var"; "log"]; ["data"; "deep"]])).
Proof. vm_compute. reflexivity. Qed.
End SampleMounts.

(** Two mounts given, one inside a directory the links lead to. *)
Definition sample_mounts : option (res (gset path)) :=
  @get_minimal_mounts SampleMounts.fs (SampleMounts.abs ["src"])
    [SampleMounts.abs ["data"; "lib"; "x"]; SampleMounts.abs ["home"]].

Lemma minimal_mounts_cover_witness :
  ∃ mounts, sample_mounts = Some (Ret mounts) ∧
    elements mounts ≡ₚ SampleMounts.abs <$> [["data"; "lib"]; ["var"; "log"]; ["data"; "deep"]; ["home"]] ∧
    ∃ q, q ∈ mounts ∧ is_relative_to (SampleMounts.abs ["data"; "lib"; "x"]) q = true.
Proof.
  assert (match sample_mounts with
          | Some (Ret m) => bool_decide (elements m ≡ₚ SampleMounts.abs <$> [["data"; "lib"]; ["var"; "log"]; ["data"; "deep"]; ["home"]])
          | _ => false
          end = true) as Hc by (vm_compute; reflexivity).
  destruct sample_mounts as [[mounts|e]|] eqn:Hm; [|discriminate Hc..].
  exists mounts. split; [reflexivity|]. split; [exact (bool_decide_eq_true_1 _ Hc)|].
  destruct (@minimal_mounts_cover SampleMounts.fs (SampleMounts.abs ["src"])
    [SampleMounts.abs ["data"; "lib"; "x"]; SampleMounts.abs ["home"]] mounts Hm) as [_ Hcover].
  apply Hcover. left. left.
Defined.
