(* ===== verification/ProjectRoot.v ===== *)
(** * The project root: [find_project_root.py]

    The environment is the variable [PWD], the current directory and which
    paths exist. *)

From Stdlib Require Import Ascii.
From stdpp Require Import base list strings sorting gmap relations.
From S2P Require Import Prelude PyStr Mounts MountTheorems.

Section root.
(** [Path.exists], [os.getenv("PWD")] and [Path.cwd()] *)
Variable there : path → bool.
Variable PWD : option string.
Variable cwd : path.

Definition current_dir : path := path_of_str (default (path_str cwd) PWD).

(** The [for] loop with its early return. *)
Definition find_project_root : res path :=
  match list_find (λ p, there (path_entry p "devkit") = true) (current_dir :: parents current_dir) with
  | Some (_, p) => Ret p
  | None => Raise FileNotFoundError
  end.

(** The printed line, or the exit code. *)
Definition find_root_main : res string :=
  try_except (λ e, bool_decide (e = FileNotFoundError))
    (root ← find_project_root; Ret (path_str root)) (λ _, Raise (SystemExit 1)).
End root.



