(* ===== verification/PyInt.v ===== *)
(** * Python [int] and [str.replace]

    [int(s)] of a string, with the proof that it reads back what [str] writes,
    and [s.replace(old, "")]. *)

From Stdlib Require Import Ascii DecimalString DecimalZ.
From stdpp Require Import base list strings numbers.
From S2P Require Import Prelude PyStr.

Definition is_digit (a : ascii) : bool := let n := code a in ((48 <=? n) && (n <=? 57))%Z.

(** Digits in groups separated by single underscores. *)
Definition digits_value (s : string) : option Z :=
  let groups := split_on "_" s in
  if forallb (λ g, str_truthy g && str_all is_digit g) groups then
    (λ u, Z.of_int (Decimal.Pos u)) <$> NilZero.uint_of_string (str_join "" groups)
  else None.

(** The blanks [int] skips: not the separators U+001C to U+001F. *)
Definition int_isspace (a : ascii) : bool :=
  py_isspace a && negb ((28 <=? code a) && (code a <=? 31))%Z.

(** The value of a literal: blanks, a sign, digits. *)
Definition int_literal (s : string) : option Z :=
  match strip_by int_isspace s with
  | String a r =>
      if decide (a = "-"%char) then Z.opp <$> digits_value r
      else if decide (a = "+"%char) then digits_value r
      else digits_value (String a r)
  | EmptyString => None
  end.

(** [int(s)] *)
Definition py_int (s : string) : res Z :=
  match int_literal s with
  | Some z => Ret z
  | None => Raise (ValueError ("invalid literal for int() with base 10: " +:+ py_repr_str s))
  end.

(** [s.replace(old, "")] for a non-empty [old]; [skip] counts the characters of
    an occurrence that are still to be dropped. *)
Fixpoint remove_from (old : string) (skip : nat) (s : string) : string :=
  match s with
  | EmptyString => ""
  | String a r =>
      match skip with
      | S skip => remove_from old skip r
      | O => if startswith s old then remove_from old (pred (String.length old)) r
             else String a (remove_from old 0 r)
      end
  end.
Definition str_remove (old s : string) : string := remove_from old 0 s.

(** ** Lemmas *)

Lemma remove_from_skip old x s : remove_from old (String.length x) (x +:+ s) = remove_from old 0 s.
Proof. induction x as [|a x IH]; [by destruct s|]. rewrite str_app_cons. simpl. done. Qed.

Lemma str_remove_absent old s : str_in old s = false → str_remove old s = s.
Proof.
  unfold str_remove. induction s as [|a s IH]; [done|]. cbn [str_in remove_from].
  intros [Hs Hin]%orb_false_iff. rewrite Hs, IH by done. done.
Qed.

Lemma str_remove_prefix old s :
  old ≠ "" → str_in old s = false → str_remove old (old +:+ s) = s.
Proof.
  intros Hne Hs. destruct old as [|a old]; [done|]. unfold str_remove. rewrite str_app_cons.
  cbn [remove_from]. rewrite <-str_app_cons, startswith_app. simpl pred.
  rewrite remove_from_skip. by apply str_remove_absent.
Qed.

(** A needle that starts with a character the string does not have. *)
Lemma str_in_free a old s : str_free a s = true → str_in (String a old) s = false.
Proof.
  induction s as [|b s IH]; [done|]. cbn [str_free str_in startswith].
  intros [Hb Hs]%andb_true_iff. rewrite IH by done.
  rewrite bool_decide_false; [done|]. intros ->. by rewrite bool_decide_true in Hb.
Qed.

Lemma lstrip_all p s : str_all (λ a, negb (p a)) s = true → lstrip_by p s = s.
Proof. destruct s as [|a s]; [done|]. simpl. by destruct (p a). Qed.

Lemma str_rev_app_all p s acc :
  str_all p (String.rev_app s acc) = str_all p s && str_all p acc.
Proof.
  revert acc. induction s as [|a s IH]; intros acc; simpl; [done|].
  rewrite IH. simpl. by rewrite andb_assoc, (andb_comm (str_all p s)).
Qed.

Lemma str_rev_all p s : str_all p (String.rev s) = str_all p s.
Proof. unfold String.rev. by rewrite str_rev_app_all, andb_true_r. Qed.

Lemma str_rev_app_app s acc acc' :
  String.rev_app s (acc +:+ acc') = String.rev_app s acc +:+ acc'.
Proof.
  revert acc. induction s as [|a s IH]; intros acc; simpl; [done|].
  by rewrite <-str_app_cons, IH.
Qed.

Lemma str_rev_cons a s : String.rev (String a s) = String.rev s +:+ String a "".
Proof. unfold String.rev. simpl. change (String a "") with ("" +:+ String a ""). by rewrite <-str_rev_app_app. Qed.

Lemma str_rev_snoc s a : String.rev (s +:+ String a "") = String a (String.rev s).
Proof.
  induction s as [|b s IH]; [done|]. rewrite str_app_cons, !str_rev_cons, IH. done.
Qed.

Lemma str_rev_involutive s : String.rev (String.rev s) = s.
Proof. induction s as [|a s IH]; [done|]. by rewrite str_rev_cons, str_rev_snoc, IH. Qed.

Lemma strip_by_all p s : str_all (λ a, negb (p a)) s = true → strip_by p s = s.
Proof.
  intros Hs. unfold strip_by. rewrite (lstrip_all p s), lstrip_all by (by rewrite ?str_rev_all).
  apply str_rev_involutive.
Qed.

Lemma strip_all s : str_all (λ a, negb (py_isspace a)) s = true → strip s = s.
Proof. apply strip_by_all. Qed.

(** ** [int(str(z)) == z] *)

Lemma to_int_nonnil z : Z.to_int z ≠ Decimal.Pos Decimal.Nil ∧ Z.to_int z ≠ Decimal.Neg Decimal.Nil.
Proof.
  assert (Decimal.norm (Z.to_int z) = Z.to_int z) as Hn.
  { by rewrite <-DecimalZ.to_of, DecimalZ.of_to. }
  split; intros Hz; rewrite Hz in Hn; done.
Qed.

Lemma string_of_uint_digits u :
  str_all is_digit (NilZero.string_of_uint u) = true ∧ str_truthy (NilZero.string_of_uint u) = true.
Proof.
  assert (∀ u, str_all is_digit (NilEmpty.string_of_uint u) = true) as Hd.
  { clear u. induction u as [|u IH|u IH|u IH|u IH|u IH|u IH|u IH|u IH|u IH|u IH]; [done|..];
      exact IH. }
  destruct u as [|u|u|u|u|u|u|u|u|u|u]; [done|..]; (split; [|done]); exact (Hd u).
Qed.

Lemma digits_value_uint u :
  u ≠ Decimal.Nil → digits_value (NilZero.string_of_uint u) = Some (Z.of_int (Decimal.Pos u)).
Proof.
  intros Hu. destruct (string_of_uint_digits u) as [Hd Ht]. unfold digits_value.
  rewrite split_on_free.
  - simpl. rewrite Hd, Ht. simpl. by rewrite NilZero.usu.
  - revert Hd. generalize (NilZero.string_of_uint u) as s. induction s as [|a s IH]; [done|].
    simpl. intros [Ha Hs]%andb_true_iff. rewrite IH by done.
    case_bool_decide; [by subst a|done].
Qed.

(** The characters [str] writes for an integer. *)
Definition int_char (a : ascii) : bool := is_digit a || bool_decide (a = "-"%char).

Lemma str_int_chars z : str_all int_char (str_int z) = true.
Proof.
  assert (∀ u, str_all int_char (NilZero.string_of_uint u) = true) as Hu.
  { intros u. eapply str_all_impl; [|apply (string_of_uint_digits u)].
    intros a Ha. unfold int_char. by rewrite Ha. }
  unfold str_int. destruct (Z.to_int z) as [u|u]; simpl; [apply Hu|].
  apply Hu.
Qed.

Lemma int_char_not_space a : int_char a = true → negb (py_isspace a) = true.
Proof.
  unfold int_char, is_digit, py_isspace. intros [Hd|Hm]%orb_true_iff.
  - apply andb_true_iff in Hd as [H1%Z.leb_le H2%Z.leb_le].
    apply negb_true_iff. rewrite !orb_false_iff, !andb_false_iff, !Z.leb_gt, !Z.eqb_neq. lia.
  - by apply bool_decide_eq_true in Hm as ->.
Qed.

Lemma int_literal_str_int z : int_literal (str_int z) = Some z.
Proof.
  unfold int_literal. rewrite strip_by_all.
  2: { eapply str_all_impl, str_int_chars. intros a Ha%int_char_not_space. unfold int_isspace.
       by destruct (py_isspace a). }
  destruct (to_int_nonnil z) as [Hp Hn]. unfold str_int.
  destruct (Z.to_int z) as [u|u] eqn:Hz; simpl NilZero.string_of_int.
  - assert (u ≠ Decimal.Nil) as Hu by congruence.
    pose proof (digits_value_uint u Hu) as Hv. destruct (string_of_uint_digits u) as [Hd Ht].
    destruct (NilZero.string_of_uint u) as [|a r]; [done|].
    simpl in Hd. apply andb_true_iff in Hd as [Ha _].
    case_decide; [by subst a|]. case_decide; [by subst a|]. rewrite Hv.
    by rewrite <-Hz, DecimalZ.of_to.
  - assert (u ≠ Decimal.Nil) as Hu by congruence. cbv iota beta. rewrite decide_True by done.
    rewrite (digits_value_uint u Hu). simpl.
    change (Some (- Z.of_int (Decimal.Pos u))%Z = Some z).
    change (- Z.of_int (Decimal.Pos u))%Z with (Z.of_int (Decimal.Neg u)).
    by rewrite <-Hz, DecimalZ.of_to.
Qed.

Lemma py_int_str_int z : py_int (str_int z) = Ret z.
Proof. unfold py_int. by rewrite int_literal_str_int. Qed.
