(* ===== verification/PyFloat.v ===== *)
(** * Python [float]

    IEEE binary64 numbers with the executable reference semantics of the
    Standard Library, and the conversions the scripts use: the quotient of two
    integers, [float] of a string, rounding to an integer, and the nearest
    binary64 number of a positive fraction as mantissa and exponent. *)

From Stdlib Require Import Ascii Floats.SpecFloat.
From stdpp Require Import numbers base strings list.
From S2P Require Import Prelude PyStr PyInt.

(** An [int] as a [float], exact or rounded. *)
Definition float_of_Z (z : Z) : spec_float := binary_normalize 53 1024 z 0 false.

(** [a / b] of integers: the quotient, rounded once.  Where Python raises [OverflowError], for a
    quotient beyond the largest float, it is an infinity. *)
Definition sf_int (z : Z) : spec_float :=
  match z with
  | Z0 => S754_zero false
  | Zpos p => S754_finite false p 0
  | Zneg p => S754_finite true p 0
  end.
Definition truediv (a b : Z) : spec_float := SFdiv 53 1024 (sf_int a) (sf_int b).

(** ** [float(s)] *)

(** An underscore stands between two digits. *)
Fixpoint underscores_ok (after_digit : bool) (s : string) : bool :=
  match s with
  | EmptyString => true
  | String a r =>
      if decide (a = "_"%char) then
        after_digit && match r with String b _ => is_digit b | EmptyString => false end && underscores_ok false r
      else underscores_ok (is_digit a) r
  end.

(** The leading digits with their value and number, and the rest. *)
Fixpoint read_digits (value : Z) (count : nat) (s : string) : Z * nat * string :=
  match s with
  | String a r =>
      if is_digit a then read_digits (10 * value + (code a - 48)) (S count) r else (value, count, s)
  | EmptyString => (value, count, s)
  end.

Definition read_sign (s : string) : bool * string :=
  match s with
  | String a r =>
      if decide (a = "-"%char) then (true, r) else if decide (a = "+"%char) then (false, r) else (false, s)
  | EmptyString => (false, s)
  end.

(** [m * 10 ^ e], rounded once.  Values below [10 ^ -400] are zero and values of at
    least [10 ^ 401] infinite, without computing the power. *)
Definition float_of_decimal (negative : bool) (m e : Z) : spec_float :=
  let signed := if negative then (- m)%Z else m in
  if ((m =? 0) || (e + Z.log2 m <? -400))%Z then S754_zero negative
  else if (400 <? e)%Z then S754_infinity negative
  else if (0 <=? e)%Z then truediv (signed * 10 ^ e) 1
  else truediv signed (10 ^ (- e)).

(** An exponent, or nothing, up to the end. *)
Definition read_exponent (s : string) : option Z :=
  match s with
  | EmptyString => Some 0%Z
  | String a r =>
      if decide (a = "e"%char ∨ a = "E"%char) then
        let '(negative, r) := read_sign r in
        match read_digits 0 0 r with
        | (_, O, _) => None
        | (e, _, EmptyString) => Some (if negative then (- e)%Z else e)
        | _ => None
        end
      else None
  end.

Definition ascii_lower (a : ascii) : ascii :=
  if ((65 <=? code a) && (code a <=? 90))%Z then ascii_of_N (N_of_ascii a + 32) else a.

Definition unsigned_float (negative : bool) (s : string) : option spec_float :=
  let word := str_map ascii_lower s in
  if decide (word = "inf" ∨ word = "infinity") then Some (S754_infinity negative)
  else if decide (word = "nan") then Some S754_nan
  else
    let '(whole, n, r) := read_digits 0 0 s in
    let '(m, fraction, r) := match r with
                             | String "." r => read_digits whole 0 r
                             | _ => (whole, O, r)
                             end in
    match (n + fraction)%nat with
    | O => None
    | _ => (λ e, float_of_decimal negative m (e - Z.of_nat fraction)) <$> read_exponent r
    end.

Definition py_float (s : string) : res spec_float :=
  let literal := strip_by int_isspace s in
  let '(negative, r) := read_sign (str_remove "_" literal) in
  match (if underscores_ok false literal then unsigned_float negative r else None) with
  | Some x => Ret x
  | None => Raise (ValueError ("could not convert string to float: " +:+ py_repr_str s))
  end.

Example py_float_texts :
  py_float " 100 " = Ret (truediv 100 1) ∧ py_float "85.5" = Ret (truediv 171 2) ∧
  py_float "-1_0.5e-1" = Ret (truediv (-105) 100) ∧ py_float ".5E+2" = Ret (truediv 50 1) ∧
  py_float "1e400" = Ret (S754_infinity false) ∧ py_float "-Infinity" = Ret (S754_infinity true) ∧
  py_float "nan" = Ret S754_nan ∧ py_float "1e-400" = Ret (S754_zero false) ∧
  py_float "5." = Ret (truediv 5 1) ∧
  (∀ s, s ∈ [""; "."; "1e"; "_1"; "1__0"; "1_.5"; "0x10"; "1 0"; "e5"] → ∃ m, py_float s = Raise (ValueError m)).
Proof.
  split_and!; [vm_compute; reflexivity..|].
  intros s Hs. repeat (apply elem_of_cons in Hs as [->|Hs]; [vm_compute; eauto|]).
  by apply elem_of_nil in Hs.
Qed.

(** ** Rounding to an integer *)

(** The integer nearest to [num / den], ties to even, for [0 < den] *)
Definition round_half_even (num den : Z) : Z :=
  let q := (num / den)%Z in
  let r := (num mod den)%Z in
  match (2 * r ?= den)%Z with
  | Lt => q
  | Gt => q + 1
  | Eq => if Z.even q then q else q + 1
  end%Z.

(** The binary64 number nearest to [num / den], for positive fractions that are
    not subnormal: the result stands for [m * 2 ^ e] with [2 ^ 52 <= m <= 2 ^ 53]. *)
Definition binary_exponent (num den : Z) : Z :=
  let l := (Z.log2 num - Z.log2 den)%Z in
  let reaches := if (0 <=? l)%Z then (den * 2 ^ l <=? num)%Z else (den <=? num * 2 ^ (- l))%Z in
  if reaches then (l - 52)%Z else (l - 53)%Z.
Definition round_binary64 (num den : Z) : Z * Z :=
  let e := binary_exponent num den in
  (if (0 <=? e)%Z then round_half_even num (den * 2 ^ e) else round_half_even (num * 2 ^ (- e)) den, e).

(** The same as the quotient of the reference semantics on examples. *)
Definition sf_value (m e : Z) : spec_float := binary_normalize 53 1024 m e false.
Example round_binary64_quotient :
  forallb (λ n, let '(m, e) := round_binary64 n 1000 in SFeqb (sf_value m e) (truediv n 1000))
    [1; 2; 999; 1000; 1767225600123; 253402300799999; 9007199254740993; 2 ^ 70 + 12345; 10 ^ 40 + 7]%Z = true.
Proof. vm_compute. reflexivity. Qed.

(** ** Rounding *)

Local Open Scope Z_scope.

Lemma round_half_even_spec num den :
  0 < den → Z.abs (2 * (den * round_half_even num den - num)) ≤ den.
Proof.
  intros Hd. unfold round_half_even.
  pose proof (Z.div_mod num den) as Hdm. pose proof (Z.mod_pos_bound num den Hd).
  destruct (Z.compare_spec (2 * (num mod den)) den); [destruct (Z.even _)|..]; lia.
Qed.

(** An integer that is nearer than one half is the result. *)
Lemma round_half_even_unique num den n :
  0 < den → Z.abs (2 * (den * n - num)) < den → round_half_even num den = n.
Proof.
  intros Hd Hn. pose proof (round_half_even_spec num den Hd) as Hs.
  set (r := round_half_even num den) in *.
  assert (Z.abs (den * (r - n)) < den) as Ha by lia.
  rewrite Z.abs_mul, (Z.abs_eq den) in Ha by lia.
  assert (Z.abs (r - n) < 1) by nia. lia.
Qed.
