(* ===== verification/FloatDiv.v ===== *)
(** * The quotient of two integers as a [float]

    [truediv] is the nearest binary64 number, ties to even, for positive integers
    below [2 ^ 53]: it is the pair of [round_binary64], is monotone in the
    fraction, and keeps fractions apart that differ by more than an ulp. *)

From Stdlib Require Import Floats.SpecFloat.
From stdpp Require Import numbers base list.
From S2P Require Import Prelude PyFloat.

Local Open Scope Z_scope.

(** ** Rounding to an integer *)

Lemma round_half_even_scale k n d : 0 < k → 0 < d → round_half_even (k * n) (k * d) = round_half_even n d.
Proof.
  intros Hk Hd. unfold round_half_even.
  rewrite Z.div_mul_cancel_l, Z.mul_mod_distr_l by lia.
  assert ((2 * (k * (n mod d)) ?= k * d) = (2 * (n mod d) ?= d)) as ->; [|done].
  destruct (Z.compare_spec (2 * (n mod d)) d);
    [apply Z.compare_eq_iff|apply Z.compare_lt_iff|apply Z.compare_gt_iff]; nia.
Qed.

(** A tie goes to the even neighbour. *)
Lemma round_half_even_tie n d :
  0 < d → Z.abs (2 * (d * round_half_even n d - n)) = d → Z.even (round_half_even n d) = true.
Proof.
  intros Hd. unfold round_half_even. pose proof (Z.div_mod n d) as Hdm. pose proof (Z.mod_pos_bound n d Hd).
  destruct (Z.compare_spec (2 * (n mod d)) d) as [He|Hl|Hg]; [|intros ?; lia..].
  destruct (Z.even (n / d)) eqn:Hev; [done|]. intros _. by rewrite Z.even_add, Hev.
Qed.

Lemma round_half_even_mono n d n' d' :
  0 < d → 0 < d' → n * d' ≤ n' * d → round_half_even n d ≤ round_half_even n' d'.
Proof.
  intros Hd Hd' Hle. pose proof (round_half_even_spec n d Hd) as H1.
  pose proof (round_half_even_spec n' d' Hd') as H2.
  pose proof (round_half_even_tie n d Hd) as T1. pose proof (round_half_even_tie n' d' Hd') as T2.
  set (r := round_half_even n d) in *. set (r' := round_half_even n' d') in *.
  destruct (Z.le_gt_cases r r') as [|Hgt]; [done|]. exfalso.
  (* both are ties between [r'] and [r], which are neighbours *)
  assert (d * (2 * r - 1) ≤ 2 * n) as A1 by lia.
  assert (2 * n' ≤ d' * (2 * r' + 1)) as A2 by lia.
  assert (d * d' * (2 * r - 1) ≤ 2 * n * d') as B1 by nia.
  assert (2 * n' * d ≤ d * d' * (2 * r' + 1)) as B2 by nia.
  assert (0 < d * d') as Hdd by nia.
  assert (2 * r - 1 ≤ 2 * r' + 1) as C1 by nia.
  assert (r = r' + 1) as Hr by lia. subst r.
  assert (2 * n = d * (2 * r' + 1)) as E1 by (rewrite Hr in *; nia).
  assert (2 * n' = d' * (2 * r' + 1)) as E2 by (rewrite Hr in *; nia).
  rewrite Hr in *. assert (Z.even (r' + 1) = true) as Ev by (apply T1; lia).
  assert (Z.even r' = true) as Ev' by (apply T2; lia).
  rewrite Z.even_add, Ev' in Ev. done.
Qed.

(** The last step of the reference division. *)
Lemma round_location n d :
  0 < d → round_nearest_even (n / d) (new_location d (n mod d)) = round_half_even n d.
Proof.
  intros Hd. pose proof (Z.mod_pos_bound n d Hd) as Hm. unfold round_half_even, new_location.
  destruct (Z.even d) eqn:Hev; unfold new_location_even, new_location_odd.
  - destruct (Z.eqb_spec (n mod d) 0) as [->|Hnz].
    + rewrite Z.mul_0_r. destruct (Z.compare_spec 0 d); [lia|done|lia].
    + cbn. by destruct (2 * (n mod d) ?= d).
  - assert (Z.odd d = true) as Hodd by (by rewrite <-Z.negb_even, Hev).
    apply Z.odd_spec in Hodd as [k ->].
    destruct (Z.eqb_spec (n mod (2 * k + 1)) 0) as [->|Hnz].
    + rewrite Z.mul_0_r. destruct (Z.compare_spec 0 (2 * k + 1)); [lia|done|lia].
    + destruct (Z.compare_spec (2 * (n mod (2 * k + 1)) + 1) (2 * k + 1)),
        (Z.compare_spec (2 * (n mod (2 * k + 1))) (2 * k + 1)); cbn; lia.
Qed.

(** The same when one more bit is dropped. *)
Lemma shr_1_pos q l :
  0 < q → shr_1 (shr_record_of_loc q l) =
          Build_shr_record (q / 2) (Z.odd q) (match l with loc_Exact => false | _ => true end).
Proof.
  intros Hq. assert (orb (shr_r (shr_record_of_loc q l)) (shr_s (shr_record_of_loc q l)) =
                     match l with loc_Exact => false | _ => true end) as Hs by (by destruct l as [|[]]).
  assert (shr_m (shr_record_of_loc q l) = q) as Hm by (by destruct l as [|[]]).
  destruct (shr_record_of_loc q l) as [m r s]. cbn in Hs, Hm. subst m. unfold shr_1. rewrite Hs.
  destruct q as [|[p|p|]|]; try lia; cbn [Z.odd]; f_equal; rewrite <-Z.div2_div; done.
Qed.

Lemma round_location_half n d :
  0 ≤ n → 0 < d → d ≤ n →
  let mrs := shr_1 (shr_record_of_loc (n / d) (new_location d (n mod d))) in
  round_nearest_even (shr_m mrs) (loc_of_shr_record mrs) = round_half_even n (2 * d).
Proof.
  intros Hn Hd Hdn mrs. subst mrs. pose proof (Z.mod_pos_bound n d Hd) as Hm.
  assert (0 < n / d) as Hq by (apply Z.div_str_pos; lia). rewrite shr_1_pos by done. cbn [shr_m].
  assert (match new_location d (n mod d) with loc_Exact => false | _ => true end = negb (n mod d =? 0)) as Hl.
  { unfold new_location, new_location_even, new_location_odd. by destruct (Z.even d), (n mod d =? 0). }
  rewrite Hl. unfold round_half_even.
  assert (n / (2 * d) = n / d / 2) as -> by (rewrite Z.div_div by lia; f_equal; lia).
  assert (n mod (2 * d) = d * (n / d mod 2) + n mod d) as ->.
  { rewrite (Z.mul_comm 2 d), Z.rem_mul_r by lia. lia. }
  rewrite Zmod_odd. destruct (Z.odd (n / d)), (Z.eqb_spec (n mod d) 0) as [H0|H0]; cbn [loc_of_shr_record negb round_nearest_even].
  - rewrite H0. by destruct (Z.compare_spec (2 * (d * 1 + 0)) (2 * d)); [|lia..].
  - by destruct (Z.compare_spec (2 * (d * 1 + n mod d)) (2 * d)); [lia..|].
  - rewrite H0. by destruct (Z.compare_spec (2 * (d * 0 + 0)) (2 * d)); [lia| |lia].
  - by destruct (Z.compare_spec (2 * (d * 0 + n mod d)) (2 * d)); [lia| |lia].
Qed.

(** ** The reference division *)

Lemma digits_log2 z : 0 < z → Zdigits2 z = Z.log2 z + 1.
Proof.
  intros Hz. destruct z as [|p|]; try lia. cbn [Zdigits2].
  induction p as [p IH|p IH|]; cbn [digits2_pos]; [| |done].
  all: rewrite Pos2Z.inj_succ, IH by lia.
  - rewrite (Pos2Z.inj_xI p), Z.log2_succ_double by lia. lia.
  - rewrite (Pos2Z.inj_xO p), Z.log2_double by lia. lia.
Qed.

(** A mantissa of 53 bits with its exponent; [2 ^ 53] is the next power of two. *)
Definition canonical (m e : Z) : spec_float :=
  if m =? 2 ^ 53 then S754_finite false (2 ^ 52) (e + 1) else S754_finite false (Z.to_pos m) e.

Lemma shr_fexp_digits m e l k :
  0 < m → Z.log2 m = 52 + k → 0 ≤ k → -1000 ≤ e →
  shr_fexp 53 1024 m e l = shr (shr_record_of_loc m l) e k.
Proof.
  intros Hm Hlog Hk He. unfold shr_fexp. f_equal. rewrite digits_log2, Hlog by done.
  unfold fexp, emin. lia.
Qed.

Lemma round_end m e :
  2 ^ 52 ≤ m ≤ 2 ^ 53 → -1000 ≤ e ≤ 100 →
  (let '(mrs, e) := shr_fexp 53 1024 m e loc_Exact in
   match shr_m mrs with
   | Z0 => S754_zero false
   | Zpos m => if e <=? 1024 - 53 then S754_finite false m e else S754_infinity false
   | _ => S754_nan
   end) = canonical m e.
Proof.
  intros Hm He. unfold canonical. destruct (Z.eqb_spec m (2 ^ 53)) as [->|Hne].
  - rewrite (shr_fexp_digits _ _ _ 1) by (done || lia). cbn [shr iter_pos]. rewrite shr_1_pos by lia. cbn [shr_m].
    change (2 ^ 53 / 2) with (Z.pos (2 ^ 52)). cbn iota. destruct (Z.leb_spec (e + 1) (1024 - 53)); [done|lia].
  - rewrite (shr_fexp_digits _ _ _ 0); [|lia| |lia|lia].
    + cbn [shr shr_record_of_loc shr_m]. destruct m as [|m|m]; try lia. cbn [Z.to_pos].
      destruct (Z.leb_spec e (1024 - 53)); [done|lia].
    + apply Z.log2_unique; lia.
Qed.

Lemma round_aux q e l m k :
  Z.log2 q = 52 + k → 0 < q → (k = 0 ∨ k = 1) → -900 ≤ e ≤ 90 →
  (let mrs := if k =? 0 then shr_record_of_loc q l else shr_1 (shr_record_of_loc q l) in
   round_nearest_even (shr_m mrs) (loc_of_shr_record mrs) = m) →
  2 ^ 52 ≤ m ≤ 2 ^ 53 →
  binary_round_aux 53 1024 false q e l = canonical m (e + k).
Proof.
  intros Hlog Hq Hk He Hm Hb. unfold binary_round_aux.
  rewrite (shr_fexp_digits q e l k) by lia. destruct Hk as [-> | ->].
  - change (shr _ e 0) with (shr_record_of_loc q l, e). cbn iota beta.
    change (if 0 =? 0 then shr_record_of_loc q l else shr_1 (shr_record_of_loc q l)) with (shr_record_of_loc q l) in Hm.
    cbn zeta in Hm. rewrite Hm, Z.add_0_r.
    apply round_end; lia.
  - change (shr _ e 1) with (shr_1 (shr_record_of_loc q l), e + 1). cbn iota beta.
    change (if 1 =? 0 then shr_record_of_loc q l else shr_1 (shr_record_of_loc q l))
      with (shr_1 (shr_record_of_loc q l)) in Hm.
    cbn zeta in Hm. rewrite Hm.
    apply round_end; lia.
Qed.

Section quotient.
Context (a b : Z) (Ha : 0 < a < 2 ^ 53) (Hb : 0 < b < 2 ^ 53).

(** The first quotient: 53 or 54 bits. *)
Let E : Z := Z.log2 a - Z.log2 b - 53.
Let n : Z := a * 2 ^ (- E).

Lemma logs_small : 0 ≤ Z.log2 a ≤ 52 ∧ 0 ≤ Z.log2 b ≤ 52.
Proof.
  assert (∀ z, 0 < z < 2 ^ 53 → 0 ≤ Z.log2 z ≤ 52) as Hl; [|auto].
  intros z Hz. pose proof (Z.log2_nonneg z). assert (Z.log2 z < 53) by (apply Z.log2_lt_pow2; lia). lia.
Qed.

Lemma division_core : SFdiv_core_binary 53 1024 a 0 b 0 = (n / b, E, new_location b (n mod b)).
Proof.
  pose proof logs_small. unfold SFdiv_core_binary. rewrite !digits_log2 by lia.
  replace (Z.min (fexp 53 1024 (Z.log2 a + 1 + 0 - (Z.log2 b + 1 + 0))) (0 - 0)) with E
    by (unfold fexp, emin, E; lia).
  replace (0 - 0 - E) with (- E) by lia.
  assert (0 < - E) as He by (unfold E; lia).
  assert (match - E with Z0 => a | Z.pos _ => Z.shiftl a (- E) | Z.neg _ => 0 end = a * 2 ^ (- E)) as Hs.
  { rewrite <-Z.shiftl_mul_pow2 by lia. clear -He. by destruct (- E). }
  cbv zeta. rewrite Hs. change (a * 2 ^ (- E)) with n.
  unfold Z.div, Z.modulo. by destruct (IntDef.Z.div_eucl n b).
Qed.

Lemma quotient_bounds : 2 ^ 52 * b ≤ n < 2 ^ 54 * b.
Proof.
  pose proof logs_small. pose proof (Z.log2_spec a) as [A1 A2]; [lia|]. pose proof (Z.log2_spec b) as [B1 B2]; [lia|].
  unfold n, E. replace (- (Z.log2 a - Z.log2 b - 53)) with (53 + Z.log2 b - Z.log2 a) by lia.
  set (la := Z.log2 a) in *. set (lb := Z.log2 b) in *. set (s := 53 + lb - la).
  assert (2 ^ la * 2 ^ s = 2 ^ 53 * 2 ^ lb) as Hp by (rewrite <-!Z.pow_add_r by lia; f_equal; lia).
  assert (0 < 2 ^ s) by (apply Z.pow_pos_nonneg; lia). assert (0 < 2 ^ lb) by (apply Z.pow_pos_nonneg; lia).
  rewrite Z.pow_succ_r in A2, B2 by lia. split; nia.
Qed.

(** Scaled by [2 ^ 200], so that no exponent is negative. *)
Lemma scaled_round k :
  0 ≤ k ≤ 1 →
  round_half_even n (2 ^ k * b) = round_half_even (a * 2 ^ 200) (b * 2 ^ (E + k + 200)).
Proof.
  intros Hk. pose proof logs_small. rewrite <-(round_half_even_scale (2 ^ (200 + E)) n (2 ^ k * b)).
  - f_equal.
    + unfold n. rewrite (Z.mul_comm _ (a * _)), <-Z.mul_assoc, <-Z.pow_add_r by (unfold E; lia). do 2 f_equal. lia.
    + rewrite Z.mul_assoc, <-Z.pow_add_r, Z.mul_comm by (unfold E; lia). do 2 f_equal. lia.
  - apply Z.pow_pos_nonneg; unfold E; lia.
  - apply Z.mul_pos_pos; [apply Z.pow_pos_nonneg|]; lia.
Qed.
End quotient.

(** The exponent at which a fraction has a mantissa of 53 bits. *)
Definition at_exponent (a b e : Z) : Prop :=
  -199 ≤ e ≤ 2 ∧ b * 2 ^ (52 + e + 200) ≤ a * 2 ^ 200 < b * 2 ^ (53 + e + 200).
Definition mantissa (a b e : Z) : Z := round_half_even (a * 2 ^ 200) (b * 2 ^ (e + 200)).

Lemma scaled_pos b e : 0 < b → -199 ≤ e → 0 < b * 2 ^ (e + 200).
Proof. intros. apply Z.mul_pos_pos; [done|]. apply Z.pow_pos_nonneg; lia. Qed.

Lemma mantissa_bounds a b e : 0 < b → at_exponent a b e → 2 ^ 52 ≤ mantissa a b e ≤ 2 ^ 53.
Proof.
  intros Hb [He [Hlo Hhi]]. pose proof (scaled_pos b e Hb ltac:(lia)) as Hd. unfold mantissa.
  set (d := b * 2 ^ (e + 200)) in *.
  assert (b * 2 ^ (52 + e + 200) = 2 ^ 52 * d) as E52.
  { subst d. replace (52 + e + 200) with (52 + (e + 200)) by lia. rewrite Z.pow_add_r by lia. ring. }
  assert (b * 2 ^ (53 + e + 200) = 2 ^ 53 * d) as E53.
  { subst d. replace (53 + e + 200) with (53 + (e + 200)) by lia. rewrite Z.pow_add_r by lia. ring. }
  rewrite E52 in Hlo. rewrite E53 in Hhi.
  assert (∀ k, round_half_even k 1 = k) as Hint.
  { intros k. apply round_half_even_unique; lia. }
  split.
  - rewrite <-(Hint (2 ^ 52)). apply round_half_even_mono; lia.
  - rewrite <-(Hint (2 ^ 53)). apply round_half_even_mono; lia.
Qed.

Lemma truediv_spec a b :
  0 < a < 2 ^ 53 → 0 < b < 2 ^ 53 →
  ∃ e, at_exponent a b e ∧ truediv a b = canonical (mantissa a b e) e.
Proof.
  intros Ha Hb. pose proof (logs_small a b Ha Hb) as Hl. pose proof (quotient_bounds a b Ha Hb) as Hq.
  pose proof (division_core a b Ha Hb) as Hc. pose proof (scaled_round a b Ha Hb) as Hs.
  set (E := Z.log2 a - Z.log2 b - 53) in *. set (n := a * 2 ^ (- E)) in *.
  assert (∀ j, 0 ≤ j → b * 2 ^ (j + E + 200) = 2 ^ j * b * 2 ^ (E + 200)) as Hpow.
  { intros j Hj. rewrite <-Z.add_assoc, Z.pow_add_r by (subst E; lia). ring. }
  assert (a * 2 ^ 200 = n * 2 ^ (E + 200)) as Hn.
  { subst n. rewrite <-Z.mul_assoc, <-Z.pow_add_r by (subst E; lia). do 2 f_equal. lia. }
  assert (0 < 2 ^ (E + 200)) as Hp by (apply Z.pow_pos_nonneg; subst E; lia).
  assert (∃ k, (k = 0 ∨ k = 1) ∧ Z.log2 (n / b) = 52 + k ∧ 2 ^ (52 + k) * b ≤ n < 2 ^ (53 + k) * b)
    as (k & Hk & Hlog & Hnk).
  { destruct (Z.lt_ge_cases n (2 ^ 53 * b)) as [Hlt|Hge]; [exists 0|exists 1]; (split; [auto|]);
      (split; [|lia]); apply Z.log2_unique; try lia; split;
      first [apply Z.div_le_lower_bound; lia|apply Z.div_lt_upper_bound; lia]. }
  assert (at_exponent a b (E + k)) as Hat.
  { split; [subst E; lia|]. replace (52 + (E + k) + 200) with (52 + k + E + 200) by lia.
    replace (53 + (E + k) + 200) with (53 + k + E + 200) by lia. rewrite Hn, !Hpow by lia.
    split; [apply Z.mul_le_mono_pos_r|apply Z.mul_lt_mono_pos_r]; lia. }
  exists (E + k). split; [done|]. unfold truediv.
  destruct a as [|pa|pa]; try lia. destruct b as [|pb|pb]; try lia. cbn [sf_int SFdiv]. rewrite Hc. cbn [xorb].
  apply round_aux; [done| |done|subst E; lia| |by apply mantissa_bounds].
  - apply Z.div_str_pos. destruct Hk as [-> | ->]; lia.
  - unfold mantissa. rewrite <-Hs by lia. destruct Hk as [-> | ->].
    + rewrite Z.mul_1_l. cbn zeta. change (0 =? 0) with true. cbn iota.
      rewrite <-(round_location n (Z.pos pb)) by lia. destruct (new_location _ _) as [|[]]; done.
    + cbn zeta. change (1 =? 0) with false. cbn iota. apply round_location_half; lia.
Qed.

(** ** Comparison *)

(** [m * 2 ^ e], scaled *)
Definition scaled (m e : Z) : Z := m * 2 ^ (e + 200).

Lemma canonical_form m e :
  2 ^ 52 ≤ m ≤ 2 ^ 53 → -199 ≤ e ≤ 2 →
  ∃ p e', canonical m e = S754_finite false p e' ∧ -199 ≤ e' ∧ 2 ^ 52 ≤ Z.pos p < 2 ^ 53 ∧
          scaled (Z.pos p) e' = scaled m e.
Proof.
  intros Hm He. unfold canonical, scaled. destruct (Z.eqb_spec m (2 ^ 53)) as [->|Hne].
  - exists (2 ^ 52)%positive, (e + 1). split_and!; [done|lia|done|done|].
    replace (e + 1 + 200) with (1 + (e + 200)) by lia. rewrite Z.pow_add_r by lia.
    change (Z.pos (2 ^ 52)) with (2 ^ 52). change (2 ^ 53) with (2 ^ 52 * 2). ring.
  - exists (Z.to_pos m), e. rewrite Z2Pos.id by lia. split_and!; [done|lia..|done].
Qed.

Lemma pow_step e e' : -199 ≤ e → e < e' → 2 * 2 ^ (e + 200) ≤ 2 ^ (e' + 200).
Proof. intros. rewrite <-Z.pow_succ_r by lia. apply Z.pow_le_mono_r; lia. Qed.

Lemma finite_ltb p e p' e' :
  -199 ≤ e → -199 ≤ e' → 2 ^ 52 ≤ Z.pos p < 2 ^ 53 → 2 ^ 52 ≤ Z.pos p' < 2 ^ 53 →
  SFltb (S754_finite false p e) (S754_finite false p' e') = (scaled (Z.pos p) e <? scaled (Z.pos p') e').
Proof.
  intros He He' Hp Hp'. unfold SFltb, SFcompare, scaled.
  assert (∀ e, -199 ≤ e → 0 < 2 ^ (e + 200)) as Hpos by (intros; apply Z.pow_pos_nonneg; lia).
  pose proof (Hpos e He). pose proof (Hpos e' He').
  destruct (Z.compare_spec e e') as [->|Hlt|Hgt].
  - change (Pos.compare_cont Eq p p') with (p ?= p')%positive. change (p ?= p')%positive with (Z.pos p ?= Z.pos p').
    destruct (Z.compare_spec (Z.pos p) (Z.pos p')), (Z.ltb_spec (Z.pos p * 2 ^ (e' + 200)) (Z.pos p' * 2 ^ (e' + 200)));
      try done; nia.
  - pose proof (pow_step e e' He Hlt). symmetry. apply Z.ltb_lt. nia.
  - pose proof (pow_step e' e He' Hgt). symmetry. apply Z.ltb_ge. nia.
Qed.

Lemma canonical_ltb m e m' e' :
  2 ^ 52 ≤ m ≤ 2 ^ 53 → 2 ^ 52 ≤ m' ≤ 2 ^ 53 → -199 ≤ e ≤ 2 → -199 ≤ e' ≤ 2 →
  SFltb (canonical m e) (canonical m' e') = (scaled m e <? scaled m' e').
Proof.
  intros Hm Hm' He He'. destruct (canonical_form m e Hm He) as (p & f & -> & Hf & Hp & <-).
  destruct (canonical_form m' e' Hm' He') as (p' & f' & -> & Hf' & Hp' & <-). by apply finite_ltb.
Qed.

(** The nearest number of a larger fraction is not smaller. *)
Lemma scaled_mono a b e a' b' e' :
  0 < b → 0 < b' → at_exponent a b e → at_exponent a' b' e' → a * b' ≤ a' * b →
  scaled (mantissa a b e) e ≤ scaled (mantissa a' b' e') e'.
Proof.
  intros Hb Hb' H H' Hle. pose proof (mantissa_bounds a b e Hb H) as Hm.
  pose proof (mantissa_bounds a' b' e' Hb' H') as Hm'. destruct H as [He [Hlo Hhi]], H' as [He' [Hlo' Hhi']].
  assert (∀ j, -199 ≤ j → 0 < 2 ^ (j + 200)) as Hpos by (intros; apply Z.pow_pos_nonneg; lia).
  assert (∀ i j, 0 ≤ i → -199 ≤ j → 2 ^ (i + j + 200) = 2 ^ i * 2 ^ (j + 200)) as Hsplit.
  { intros i j Hi Hj. rewrite <-Z.pow_add_r by lia. f_equal. lia. }
  rewrite !Hsplit in * by lia. unfold scaled. pose proof (Hpos e ltac:(lia)). pose proof (Hpos e' ltac:(lia)).
  destruct (Z.lt_trichotomy e e') as [Hlt|[->|Hgt]].
  - pose proof (pow_step e e' ltac:(lia) Hlt). nia.
  - apply Z.mul_le_mono_nonneg_r; [lia|]. apply round_half_even_mono; [apply scaled_pos; lia..|]. nia.
  - exfalso. pose proof (pow_step e' e ltac:(lia) Hgt) as Hs.
    assert (b * b' * (2 ^ 52 * 2 ^ (e + 200)) ≤ a' * b * 2 ^ 200) by nia.
    assert (a' * b * 2 ^ 200 < b * b' * (2 ^ 53 * 2 ^ (e' + 200))) by nia. nia.
Qed.

(** A fraction below a percentage of at most 100 keeps below it when both are rounded. *)
Lemma scaled_strict h f e n e' :
  0 < h → 0 < f < 2 ^ 45 → 0 < n ≤ 100 → at_exponent h f e → at_exponent n 100 e' → 100 * h < n * f →
  scaled (mantissa h f e) e < scaled (mantissa n 100 e') e'.
Proof.
  intros Hh Hf Hn [He [Hlo _]] [He' [Hlo' _]] Hlt.
  assert (e ≤ -53) as Hes.
  { apply Z.lt_succ_r, Z.nle_gt. intros Hge. assert (2 ^ 200 ≤ 2 ^ (52 + e + 200)) by (apply Z.pow_le_mono_r; lia). nia. }
  assert (e' ≤ -52) as Hes'.
  { apply Z.lt_succ_r, Z.nle_gt. intros Hge. assert (2 ^ 201 ≤ 2 ^ (52 + e' + 200)) by (apply Z.pow_le_mono_r; lia). nia. }
  assert (2 ^ (e + 200) ≤ 2 ^ 147) as A1 by (apply Z.pow_le_mono_r; lia).
  assert (2 ^ (e' + 200) ≤ 2 ^ 148) as A2 by (apply Z.pow_le_mono_r; lia).
  pose proof (round_half_even_spec (h * 2 ^ 200) (f * 2 ^ (e + 200)) ltac:(apply scaled_pos; lia)) as B1.
  pose proof (round_half_even_spec (n * 2 ^ 200) (100 * 2 ^ (e' + 200)) ltac:(apply scaled_pos; lia)) as B2.
  fold (mantissa h f e) in B1. fold (mantissa n 100 e') in B2. unfold scaled.
  set (A := 2 ^ (e + 200)) in *. set (B := 2 ^ (e' + 200)) in *.
  set (M := mantissa h f e) in *. set (N := mantissa n 100 e') in *.
  apply Z.nle_gt. intros Hle.
  assert (2 * (f * (M * A)) ≤ 2 * h * 2 ^ 200 + f * A) as C1 by lia.
  assert (2 * n * 2 ^ 200 - 100 * B ≤ 200 * (N * B)) as C2 by lia.
  assert (f * (N * B) ≤ f * (M * A)) as C3 by nia.
  assert (f * (2 * n * 2 ^ 200 - 100 * B) ≤ 200 * (f * (N * B))) as C4 by nia.
  assert (f * A ≤ 2 ^ 45 * 2 ^ 147) as C5 by nia. assert (f * B ≤ 2 ^ 45 * 2 ^ 148) as C6 by nia.
  assert (2 * 2 ^ 200 ≤ 2 * 2 ^ 200 * (n * f - 100 * h)) as C7 by nia.
  change (2 ^ 200) with (2 ^ 45 * 2 ^ 155) in *. change (2 ^ 148) with (2 * 2 ^ 147) in *.
  change (2 ^ 155) with (256 * 2 ^ 147) in *. lia.
Qed.

(** [h / f < n / 100] of floats is [h / f < n / 100] of fractions. *)
Lemma percent_ltb h f n :
  0 ≤ h < 2 ^ 53 → 0 < f < 2 ^ 45 → 0 ≤ n ≤ 100 →
  SFltb (truediv h f) (truediv n 100) = (100 * h <? n * f).
Proof.
  intros Hh Hf Hn. assert (2 ^ 45 < 2 ^ 53) by done.
  destruct (Z.eq_dec n 0) as [->|Hn0].
  { assert (truediv 0 100 = S754_zero false) as -> by done. symmetry. transitivity false; [apply Z.ltb_ge; lia|].
    destruct (Z.eq_dec h 0) as [->|Hh0]; [destruct f; [lia|done|lia]|].
    destruct (truediv_spec h f) as (e & Hat & ->); [lia..|].
    destruct (canonical_form (mantissa h f e) e) as (p & e' & -> & _); [by apply mantissa_bounds; [lia|]|apply Hat|done]. }
  destruct (truediv_spec n 100) as (e' & Hat' & Hd); [lia..|]. rewrite Hd.
  destruct (Z.eq_dec h 0) as [->|Hh0].
  { assert (truediv 0 f = S754_zero false) as -> by (destruct f; [lia|done|lia]).
    destruct (canonical_form (mantissa n 100 e') e') as (p & e'' & -> & _); [by apply mantissa_bounds; [lia|]|apply Hat'|].
    symmetry. apply Z.ltb_lt. lia. }
  destruct (truediv_spec h f) as (e & Hat & ->); [lia..|].
  rewrite canonical_ltb; [|by apply mantissa_bounds; [lia|]..|apply Hat|apply Hat'].
  destruct (Z.ltb_spec (100 * h) (n * f)) as [Hlt|Hge].
  - apply Z.ltb_lt, scaled_strict; [lia..|done|done|done].
  - apply Z.ltb_ge, scaled_mono; [lia..|done|done|lia].
Qed.
