(* ===== verification/Unicode.v ===== *)
(** * Text outside Latin-1: [bytes.decode] and the [str] methods on code points

    The bytes a container sends are arbitrary, so the text they decode to is a
    list of code points here.  [decode_utf8_replace] is the decoder with
    [errors="replace"]: each maximal prefix of a sequence that cannot be
    continued is one U+FFFD. *)

From Stdlib Require Import Ascii.
From stdpp Require Import numbers base strings list.
From S2P Require Import Prelude PyStr PyInt.

Definition ustr : Type := list Z.

(** A literal of the source. *)
Fixpoint u (s : string) : ustr :=
  match s with EmptyString => [] | String a s => code a :: u s end.

(** ** UTF-8 *)

(** The state inside a sequence: continuation bytes left, range of the next
    byte, value so far. *)
Record utf8_state := Utf8 {
  u8_left : nat;
  u8_lo : Z;
  u8_hi : Z;
  u8_acc : Z;
}.

(** The state after the first byte of a sequence of two to four bytes. *)
Definition utf8_lead (b : Z) : option utf8_state :=
  (if (194 <=? b) && (b <=? 223) then Some (Utf8 1 128 191 (b - 192))
   else if b =? 224 then Some (Utf8 2 160 191 0)
   else if b =? 237 then Some (Utf8 2 128 159 13)
   else if (225 <=? b) && (b <=? 239) then Some (Utf8 2 128 191 (b - 224))
   else if b =? 240 then Some (Utf8 3 144 191 0)
   else if (241 <=? b) && (b <=? 243) then Some (Utf8 3 128 191 (b - 240))
   else if b =? 244 then Some (Utf8 3 128 143 4)
   else None)%Z.

(** The code points, with [None] for each malformed piece. *)
Fixpoint decode_from (st : option utf8_state) (bs : list Z) : list (option Z) :=
  match bs with
  | [] => match st with None => [] | Some _ => [None] end
  | b :: bs =>
      let start :=
        if (b <? 128)%Z then Some b :: decode_from None bs
        else match utf8_lead b with
             | Some st => decode_from (Some st) bs
             | None => None :: decode_from None bs
             end in
      match st with
      | None => start
      | Some (Utf8 n lo hi acc) =>
          if ((lo <=? b) && (b <=? hi))%Z then
            let acc := (acc * 64 + (b - 128))%Z in
            match n with
            | S (S n) => decode_from (Some (Utf8 (S n) 128 191 acc)) bs
            | _ => Some acc :: decode_from None bs
            end
          else None :: start
      end
  end.

Definition REPLACEMENT : Z := 65533.

(** [data.decode(errors="replace")] *)
Definition decode_utf8_replace (data : list Z) : ustr := default REPLACEMENT <$> decode_from None data.

(** [data.decode()] *)
Fixpoint all_some {A} (l : list (option A)) : option (list A) :=
  match l with
  | [] => Some []
  | Some x :: l => (x ::.) <$> all_some l
  | None :: _ => None
  end.
Definition decode_utf8 (data : list Z) : res ustr :=
  match all_some (decode_from None data) with
  | Some s => Ret s
  | None => Raise UnicodeDecodeError
  end.

(** [s.encode()] of one code point *)
Definition encode_cp (c : Z) : list Z :=
  (if c <? 128 then [c]
   else if c <? 2048 then [192 + c / 64; 128 + c mod 64]
   else if c <? 65536 then [224 + c / 4096; 128 + c / 64 mod 64; 128 + c mod 64]
   else [240 + c / 262144; 128 + c / 4096 mod 64; 128 + c / 64 mod 64; 128 + c mod 64])%Z.
Definition encode_ustr (s : ustr) : list Z := s ≫= encode_cp.

(** A code point that can be encoded: not a surrogate. *)
Definition is_scalar (c : Z) : bool :=
  ((0 <=? c) && (c <? 55296) || (57344 <=? c) && (c <? 1114112))%Z.

(** ** Methods of [str] *)

(** [str.isspace] on one code point *)
Definition u_isspace (c : Z) : bool :=
  ((9 <=? c) && (c <=? 13) || (28 <=? c) && (c <=? 32) || (c =? 133) || (c =? 160) || (c =? 5760)
   || (8192 <=? c) && (c <=? 8202) || (c =? 8232) || (c =? 8233) || (c =? 8239) || (c =? 8287)
   || (c =? 12288))%Z.

Fixpoint u_lstrip (s : ustr) : ustr :=
  match s with
  | c :: s' => if u_isspace c then u_lstrip s' else s
  | [] => []
  end.

(** [s.strip()] *)
Definition u_strip (s : ustr) : ustr := reverse (u_lstrip (reverse (u_lstrip s))).

(** [s.split(sep, 1)] when the separator occurs: what precedes its first
    occurrence and what follows. *)
Fixpoint split_once (sep : Z) (s : ustr) : option (ustr * ustr) :=
  match s with
  | [] => None
  | c :: s =>
      if decide (c = sep) then Some ([], s)
      else (λ kv, (c :: kv.1, kv.2)) <$> split_once sep s
  end.

(** [s.splitlines()] *)
Definition u_is_linebreak (c : Z) : bool :=
  ((10 <=? c) && (c <=? 13) || (28 <=? c) && (c <=? 30) || (c =? 133) || (c =? 8232) || (c =? 8233))%Z.
Fixpoint u_splitlines_go (cur s : ustr) : list ustr :=
  match s with
  | [] => match cur with [] => [] | _ => [reverse cur] end
  | c :: s' =>
      if u_is_linebreak c then
        reverse cur ::
          match s' with
          | d :: s'' =>
              if ((c =? 13) && (d =? 10))%Z then u_splitlines_go [] s'' else u_splitlines_go [] s'
          | [] => []
          end
      else u_splitlines_go (c :: cur) s'
  end.
Definition u_splitlines (s : ustr) : list ustr := u_splitlines_go [] s.

(** Reading in text mode: all line ends become line feeds. *)
Fixpoint universal_newlines (s : ustr) : ustr :=
  match s with
  | [] => []
  | c :: s' =>
      if (c =? 13)%Z then
        10%Z :: match s' with
                | d :: s'' => if (d =? 10)%Z then universal_newlines s'' else universal_newlines s'
                | [] => []
                end
      else c :: universal_newlines s'
  end.

(** The zeros of the decimal digits (category Nd). *)
Definition decimal_zeros : list Z :=
  [48; 1632; 1776; 1984; 2406; 2534; 2662; 2790; 2918; 3046; 3174; 3302; 3430; 3558; 3664; 3792;
   3872; 4160; 4240; 6112; 6160; 6470; 6608; 6784; 6800; 6992; 7088; 7232; 7248; 42528; 43216;
   43264; 43472; 43504; 43600; 44016; 65296; 66720; 68912; 69734; 69872; 69942; 70096; 70384;
   70736; 70864; 71248; 71360; 71472; 71904; 72016; 72784; 73040; 73120; 92768; 92864; 93008;
   120782; 120792; 120802; 120812; 120822; 123200; 123632; 125264; 130032]%Z.
Definition u_decimal (c : Z) : option Z :=
  (λ z, (c - z)%Z) <$> head (filter (λ z, (z <= c < z + 10)%Z) decimal_zeros).

Definition ascii_of_Z (n : Z) : ascii := ascii_of_N (Z.to_N n).

(** The literal [int] reads: other blanks become spaces, other decimal digits
    the ASCII ones, and anything else ends the text with a question mark. *)
Fixpoint to_ascii_literal (s : ustr) : string :=
  match s with
  | [] => ""
  | c :: s =>
      if (c <? 127)%Z then String (ascii_of_Z c) (to_ascii_literal s)
      else if u_isspace c then String " " (to_ascii_literal s)
      else match u_decimal c with
           | Some d => String (ascii_of_Z (48 + d)) (to_ascii_literal s)
           | None => "?"
           end
  end.

(** [int(s)]; the message does not repeat the literal. *)
Definition u_int (s : ustr) : res Z :=
  match int_literal (to_ascii_literal s) with
  | Some z => Ret z
  | None => Raise (ValueError "invalid literal for int() with base 10")
  end.

(** ** Lemmas *)

Lemma decode_ascii b bs : (0 ≤ b < 128)%Z → decode_from None (b :: bs) = Some b :: decode_from None bs.
Proof. intros Hb. simpl. by rewrite (proj2 (Z.ltb_lt b 128)) by lia. Qed.

(** Decides the comparisons of the decoder. *)
Ltac decide_bytes :=
  repeat match goal with
    | |- context [(?a <? ?b)%Z] => first [rewrite (proj2 (Z.ltb_lt a b)) by lia | rewrite (proj2 (Z.ltb_ge a b)) by lia]
    | |- context [(?a <=? ?b)%Z] => first [rewrite (proj2 (Z.leb_le a b)) by lia | rewrite (proj2 (Z.leb_gt a b)) by lia]
    | |- context [(?a =? ?b)%Z] => first [rewrite (proj2 (Z.eqb_eq a b)) by lia | rewrite (proj2 (Z.eqb_neq a b)) by lia]
    end; cbn [andb orb].

(** A sequence the decoder accepts, byte after byte. *)
Lemma decode_step n lo hi acc b bs :
  (lo ≤ b ≤ hi)%Z →
  decode_from (Some (Utf8 n lo hi acc)) (b :: bs) =
    match n with
    | S (S n) => decode_from (Some (Utf8 (S n) 128 191 (acc * 64 + (b - 128)))) bs
    | _ => Some (acc * 64 + (b - 128))%Z :: decode_from None bs
    end.
Proof. intros Hb. cbn [decode_from]. decide_bytes. done. Qed.

Lemma decode_lead b bs st :
  (128 ≤ b)%Z → utf8_lead b = Some st → decode_from None (b :: bs) = decode_from (Some st) bs.
Proof. intros Hb Hst. cbn [decode_from]. decide_bytes. by rewrite Hst. Qed.

(** Decodes one encoded code point; the first byte may be given by a hypothesis. *)
Ltac decode_sequence :=
  cbn [app];
  erewrite decode_lead;
    [ | lia
    | first [ match goal with H : _ = _ |- _ => rewrite H; reflexivity end
            | unfold utf8_lead; decide_bytes; reflexivity ] ];
  rewrite !decode_step by lia; do 2 f_equal; lia.

Lemma decode_encode_cp c bs :
  is_scalar c = true → decode_from None (encode_cp c ++ bs) = Some c :: decode_from None bs.
Proof.
  unfold is_scalar. rewrite orb_true_iff, !andb_true_iff, !Z.leb_le, !Z.ltb_lt. intros Hc.
  unfold encode_cp.
  destruct (Z.ltb_spec c 128); [by apply decode_ascii; lia|].
  pose proof (Z.div_mod c 64). pose proof (Z.mod_pos_bound c 64).
  destruct (Z.ltb_spec c 2048); [assert (2 ≤ c / 64 < 32)%Z by lia; decode_sequence|].
  pose proof (Z.div_mod (c / 64) 64). pose proof (Z.mod_pos_bound (c / 64) 64).
  assert (c / 4096 = c / 64 / 64)%Z by (rewrite Z.div_div by lia; done).
  destruct (Z.ltb_spec c 65536).
  { assert (0 ≤ c / 4096 < 16)%Z by lia.
    destruct (decide (c / 4096 = 0)%Z); [decode_sequence|].
    destruct (decide (c / 4096 = 13)%Z); decode_sequence. }
  pose proof (Z.div_mod (c / 4096) 64). pose proof (Z.mod_pos_bound (c / 4096) 64).
  assert (c / 262144 = c / 4096 / 64)%Z by (rewrite Z.div_div by lia; done).
  assert (0 ≤ c / 262144 ≤ 4)%Z by lia.
  destruct (decide (c / 262144 = 0)%Z); [decode_sequence|].
  destruct (decide (c / 262144 = 4)%Z); decode_sequence.
Qed.

Lemma decode_from_encode s :
  forallb is_scalar s = true → decode_from None (encode_ustr s) = Some <$> s.
Proof.
  induction s as [|c s IH]; [done|]. cbn [forallb].
  intros [Hc Hs]%andb_true_iff. unfold encode_ustr. cbn. rewrite decode_encode_cp by done.
  f_equal. by apply IH.
Qed.

Lemma all_some_fmap {A} (l : list A) : all_some (Some <$> l) = Some l.
Proof. induction l as [|x l IH]; [done|]. cbn. by rewrite IH. Qed.

(** Decoding reads back what [encode] writes. *)
Lemma decode_encode s : forallb is_scalar s = true → decode_utf8 (encode_ustr s) = Ret s.
Proof. intros Hs. unfold decode_utf8. by rewrite decode_from_encode, all_some_fmap. Qed.

(** ASCII text *)
Definition plain_ascii (a : ascii) : bool := (code a <? 127)%Z && negb (u_isspace (code a)).

Lemma code_range a : (0 ≤ code a < 256)%Z.
Proof. unfold code. pose proof (N_ascii_bounded a). lia. Qed.

Lemma ascii_of_code a : ascii_of_Z (code a) = a.
Proof. unfold ascii_of_Z, code. by rewrite N2Z.id, ascii_N_embedding. Qed.

Lemma u_app s1 s2 : u (s1 +:+ s2) = u s1 ++ u s2.
Proof. induction s1 as [|a s1 IH]; [done|]. rewrite str_app_cons. simpl. by rewrite IH. Qed.

Lemma u_plain s : str_all plain_ascii s = true → Forall (λ c, (0 ≤ c < 127)%Z ∧ u_isspace c = false) (u s).
Proof.
  induction s as [|a s IH]; simpl; [constructor|].
  intros [[Ha Hs]%andb_true_iff Hr]%andb_true_iff. constructor; [|auto].
  apply Z.ltb_lt in Ha. apply negb_true_iff in Hs. pose proof (code_range a). split; [lia|done].
Qed.

Lemma decode_plain s : Forall (λ c, (0 ≤ c < 128)%Z) s → decode_utf8_replace s = s.
Proof.
  unfold decode_utf8_replace. induction 1 as [|c s Hc _ IH]; [done|].
  rewrite decode_ascii by done. cbn. by rewrite IH.
Qed.

Lemma u_lstrip_plain s : Forall (λ c, u_isspace c = false) s → u_lstrip s = s.
Proof. destruct 1 as [|c s Hc _]; [done|]. simpl. by rewrite Hc. Qed.

Lemma u_strip_plain s : Forall (λ c, u_isspace c = false) s → u_strip s = s.
Proof.
  intros Hs. unfold u_strip. rewrite (u_lstrip_plain s) by done.
  rewrite u_lstrip_plain by (by apply Forall_reverse). apply reverse_involutive.
Qed.

(** A final blank is stripped. *)
Lemma u_strip_trailing c s d :
  Forall (λ c, u_isspace c = false) (c :: s) → u_isspace d = true → u_strip ((c :: s) ++ [d]) = c :: s.
Proof.
  intros Hs Hd. unfold u_strip.
  assert (u_lstrip ((c :: s) ++ [d]) = (c :: s) ++ [d]) as -> by (inversion Hs as [|?? Hc ?]; simpl; by rewrite Hc).
  rewrite reverse_app. change (reverse [d]) with [d].
  cbn [app u_lstrip]. rewrite Hd, u_lstrip_plain by (by apply Forall_reverse). apply reverse_involutive.
Qed.

Lemma split_once_app sep s1 s2 :
  Forall (λ c, c ≠ sep) s1 → split_once sep (s1 ++ sep :: s2) = Some (s1, s2).
Proof.
  induction 1 as [|c s1 Hc _ IH]; simpl; [by case_decide|]. case_decide; [done|]. by rewrite IH.
Qed.

Lemma to_ascii_literal_u s : str_all plain_ascii s = true → to_ascii_literal (u s) = s.
Proof.
  induction s as [|a s IH]; [done|]. simpl. intros [[Ha _]%andb_true_iff Hs]%andb_true_iff.
  by rewrite Ha, ascii_of_code, IH.
Qed.

Lemma str_int_plain z : str_all plain_ascii (str_int z) = true.
Proof.
  eapply str_all_impl; [|apply str_int_chars]. intros a. unfold int_char, is_digit, plain_ascii.
  intros [[H1%Z.leb_le H2%Z.leb_le]%andb_true_iff|Hm%bool_decide_eq_true]%orb_true_iff; [|by subst a].
  unfold u_isspace. decide_bytes. done.
Qed.

Lemma u_int_str_int z : u_int (u (str_int z)) = Ret z.
Proof. unfold u_int. by rewrite to_ascii_literal_u, int_literal_str_int by apply str_int_plain. Qed.
