(* ===== verification/Coverage.v ===== *)
(** * Coverage reports: [coverage_report.py]

    The object [FileCoverage] is a record; the LCOV file is its list of lines,
    a parameter with the error of a missing file; the class [CovHost] is what [main]
    finds on the host.  Percentages are IEEE binary64
    numbers, computed by the executable reference semantics of the Standard
    Library, and their text is rounded from the exact binary value. *)

From Stdlib Require Import Ascii Floats.SpecFloat.
From stdpp Require Import numbers base strings sorting list.
From S2P Require Import Prelude PyStr PyInt PyFloat DockerImage Mounts ProjectRoot.

Record file_coverage := FileCoverage {
  file_path : string;
  lines_found : Z;
  lines_hit : Z;
  branches_found : Z;
  branches_hit : Z;
  uncovered_lines : list Z;
  uncovered_branches : list (Z * Z * Z);
}.

(** [FileCoverage(file_path)] *)
Definition new_file_coverage (path : string) : file_coverage := FileCoverage path 0 0 0 0 [] [].

(** ** Percentages *)

Definition line_coverage_percent (c : file_coverage) : spec_float :=
  if (lines_found c =? 0)%Z then float_of_Z 1 else truediv (lines_hit c) (lines_found c).

Definition branch_coverage_percent (c : file_coverage) : spec_float :=
  if (branches_found c =? 0)%Z then float_of_Z 1 else truediv (branches_hit c) (branches_found c).

(** [f"{x:.2%}"]: the product with 100, rounded to two decimals from its exact
    value, ties to even. *)
Definition hundredths (m : positive) (e : Z) : Z :=
  if (0 <=? e)%Z then (Z.pos m * 2 ^ e * 100)%Z
  else round_half_even (Z.pos m * 100) (2 ^ (- e)).

Definition two_digits (n : Z) : string := if (n <? 10)%Z then "0" +:+ str_int n else str_int n.

Definition percent (x : spec_float) : string :=
  match SFmul 53 1024 x (float_of_Z 100) with
  | S754_zero s => (if s then "-0.00%" else "0.00%")
  | S754_infinity s => (if s then "-inf%" else "inf%")
  | S754_nan => "nan%"
  | S754_finite s m e =>
      let n := hundredths m e in
      (if s then "-" else "") +:+ str_int (n / 100) +:+ "." +:+ two_digits (n mod 100) +:+ "%"
  end.

(** ** Text *)

(** [s[-k:]] for [0 < k] *)
Definition str_last (k : nat) (s : string) : string :=
  String.substring (String.length s - k) (String.length s) s.

Fixpoint spaces (n : nat) : string := match n with O => "" | S n => String " " (spaces n) end.

(** [s[-(max_width - 3):]]: an index of zero is the start of the string, and a
    negative width counts from the start. *)
Definition tail_slice (k : Z) (s : string) : string :=
  if (0 <? k)%Z then str_last (Z.to_nat k) s
  else String.substring (Z.to_nat (- k)) (String.length s) s.

Definition fit_to_column (filepath : string) (max_width : Z) : string :=
  let filepath_length := Z.of_nat (String.length filepath) in
  if (max_width <? filepath_length)%Z then "..." +:+ tail_slice (max_width - 3) filepath
  else filepath +:+ spaces (Z.to_nat (max_width - filepath_length)).

(** [f"{s:>width}"] and [f"{s:<width}"] *)
Definition pad_left (width : nat) (s : string) : string := spaces (width - String.length s) +:+ s.
Definition pad_right (width : nat) (s : string) : string := s +:+ spaces (width - String.length s).

Definition generate_summary_line (c : file_coverage) : string :=
  fit_to_column (file_path c) 50 +:+ " | " +:+ pad_left 7 (percent (line_coverage_percent c)) +:+ " | " +:+
  pad_left 10 (percent (branch_coverage_percent c)).

Definition show_range (r : Z * Z) : string :=
  if decide (r.1 = r.2) then str_int r.1 else str_int r.1 +:+ "-" +:+ str_int r.2.

(** The loop over [sorted_numbers] from its second element on: the start of the
    current range, the number before, and the rest. *)
Fixpoint group_loop (start_of_range previous : Z) (rest : list Z) : list (Z * Z) :=
  match rest with
  | [] => [(start_of_range, previous)]
  | n :: rest =>
      if decide (n = previous + 1)%Z then group_loop start_of_range n rest
      else (start_of_range, previous) :: group_loop n n rest
  end.

Definition group_ranges (numbers : list Z) : list (Z * Z) :=
  match merge_sort Z.le numbers with
  | [] => []
  | n :: rest => group_loop n n rest
  end.

Definition group_consecutive_numbers (numbers : list Z) : string :=
  str_join ", " (show_range <$> group_ranges numbers).

Definition show_branch (b : Z * Z * Z) : string :=
  let '(line, block, branch) := b in
  "Line " +:+ str_int line +:+ ": (block: " +:+ str_int block +:+ ", branch: " +:+ str_int branch +:+ ")".

Definition newline_str : string := String (ascii_of_N 10) "".

Definition get_missing_branches_str (c : file_coverage) : string :=
  str_join newline_str (show_branch <$> uncovered_branches c).

Definition generate_missing_coverage_report (c : file_coverage) : string :=
  match uncovered_lines c, uncovered_branches c with
  | [], [] => ""
  | _, _ =>
      let uncovered_lines_str := group_consecutive_numbers (uncovered_lines c) in
      let uncovered_branches_str := get_missing_branches_str c in
      (newline_str +:+ "File: " +:+ file_path c +:+ newline_str) +:+
      (if str_truthy uncovered_lines_str
       then "Lines to test: " +:+ uncovered_lines_str +:+ newline_str else "") +:+
      (if str_truthy uncovered_branches_str
       then "Branches to test:" +:+ newline_str +:+ uncovered_branches_str else "")
  end.

(** ** Reading LCOV data *)

(** [parts[i]] *)
Definition part (parts : list string) (i : nat) : res string :=
  match parts !! i with Some s => Ret s | None => Raise IndexError end.

Definition parse_lcov_data_line (line : string) (c : file_coverage) : res file_coverage :=
  let '(FileCoverage p lf lh bf bh ul ub) := c in
  if startswith line "LF:" then
    n ← py_int (str_remove "LF:" line); Ret (FileCoverage p n lh bf bh ul ub)
  else if startswith line "LH:" then
    n ← py_int (str_remove "LH:" line); Ret (FileCoverage p lf n bf bh ul ub)
  else if startswith line "BRF:" then
    n ← py_int (str_remove "BRF:" line); Ret (FileCoverage p lf lh n bh ul ub)
  else if startswith line "BRH:" then
    n ← py_int (str_remove "BRH:" line); Ret (FileCoverage p lf lh bf n ul ub)
  else if startswith line "DA:" then
    let parts := split_on "," line in
    p0 ← part parts 0; line_number ← py_int (str_remove "DA:" p0);
    p1 ← part parts 1; hit_count ← py_int p1;
    Ret (if (hit_count =? 0)%Z then FileCoverage p lf lh bf bh (ul ++ [line_number]) ub else c)
  else if startswith line "BRDA" then
    let parts := split_on "," line in
    p0 ← part parts 0; line_number ← py_int (str_remove "BRDA:" p0);
    p1 ← part parts 1; block_id ← py_int p1;
    p2 ← part parts 2; branch_id ← py_int p2;
    hit_marker ← part parts 3;
    Ret (if decide (hit_marker = "-")
         then FileCoverage p lf lh bf bh ul (ub ++ [(line_number, block_id, branch_id)]) else c)
  else Ret c.

(** The current file and the data read so far. *)
Definition lcov_state : Type := option string * dict file_coverage.

(** One turn of the loop over the lines of the file. *)
Definition lcov_line (line : string) (st : lcov_state) : res lcov_state :=
  let line := strip line in
  let '(current_file_path, coverage_data) := st in
  if startswith line "SF:" then
    let path := str_remove "SF:" line in
    Ret (Some path, dset coverage_data path (new_file_coverage path))
  else if decide (line = "end_of_record") then Ret (None, coverage_data)
  else
    match current_file_path with
    | Some path =>
        match str_truthy path, dget coverage_data path with
        | true, Some current_coverage =>
            c ← parse_lcov_data_line line current_coverage;
            Ret (current_file_path, dset coverage_data path c)
        | _, _ => Ret st
        end
    | None => Ret st
    end.

Definition parse_lcov (lines : list string) : res (dict file_coverage) :=
  st ← for_each lines lcov_line (None, []); Ret st.2.

(** ** The verdict *)

(** [lines_cov < lines_threshold or branch_cov < branch_threshold] *)
Definition below_threshold (lines_threshold branch_threshold : spec_float) (c : file_coverage) : bool :=
  SFltb (line_coverage_percent c) lines_threshold || SFltb (branch_coverage_percent c) branch_threshold.

(** The sum of the shares of the files. *)
Definition overall (coverage : file_coverage → spec_float) (files : list file_coverage) : spec_float :=
  fold_left (λ total c, SFadd 53 1024 total (SFdiv 53 1024 (coverage c) (float_of_Z (Z.of_nat (length files)))))
    files (S754_zero false).

Fixpoint dashes (n : nat) : string := match n with O => "" | S n => String "-" (dashes n) end.

(** The table of percentages. *)
Definition coverage_table (files : list file_coverage) : list string :=
  [pad_right 50 "file" +:+ " | Lines % | Branches %"; dashes 73]
  ++ (generate_summary_line <$> files)
  ++ [dashes 73;
      pad_right 50 "Total" +:+ " | " +:+ pad_left 7 (percent (overall line_coverage_percent files)) +:+ " | " +:+
      pad_left 10 (percent (overall branch_coverage_percent files))].

(** The lines printed after the header [Missing Coverage]. *)
Definition missing_section (files : list file_coverage) : list string :=
  match filter (λ r, r ≠ "") (generate_missing_coverage_report <$> files) with
  | [] => ["All covered!"]
  | reports => reports
  end.

(** The verdict and everything printed. *)
Definition print_and_validate_report (coverage_data : dict file_coverage)
    (lines_threshold branch_threshold : spec_float) : bool * list string :=
  let files := dvalues coverage_data in
  let is_coverage_valid :=
    fold_left (λ valid c, if below_threshold lines_threshold branch_threshold c then false else valid)
      files true in
  (is_coverage_valid,
   coverage_table files ++ [newline_str +:+ "--- Missing Coverage ---"] ++ missing_section files).

(** [lcov] is the result of opening the file and reading its lines; the result is
    the verdict and what is printed. *)
Definition generate_lcov_report (file_path : string) (lcov : res (list string))
    (lines_threshold branch_threshold : spec_float) : res (bool * list string) :=
  try_except (λ e, bool_decide (e = FileNotFoundError))
    (lines ← lcov;
     coverage_data ← parse_lcov lines;
     Ret (print_and_validate_report coverage_data lines_threshold branch_threshold))
    (λ _, Ret (false, ["File not found: " +:+ file_path])).

(** ** [main] *)

Inductive cov_effect :=
  | CovRan (cmd : list string)
  | CovPrinted (line : string).

Definition cov_note (e : cov_effect) : ST (list cov_effect) unit := modify (λ tr, tr ++ [e]).

Class CovHost := {
  cov_there : path → bool;                          (* [Path.exists] *)
  cov_PWD : option string;
  cov_cwd : path;
  cov_exec : list string → proc;                    (* [devkit/build] *)
  read_lines : path → res (list string);            (* the lines of a text file *)
}.

Section main.
Context `{CovHost}.

Definition coverage_cmd (project_root : path) (target : string) : list string :=
  [path_str (path_entry (path_entry project_root "devkit") "build"); "bazel"; "coverage";
   "--combined_report=lcov"; target].

Definition report_file (project_root : path) : path :=
  path_entry (path_entry (path_entry project_root "bazel-out") "_coverage") "_coverage_report.dat".

(** A failed command is exit code 1; a missing program is not caught. *)
Definition run_bazel_coverage (target : string) : ST (list cov_effect) path :=
  project_root ← lift (find_project_root cov_there cov_PWD cov_cwd);
  let command := coverage_cmd project_root target in
  try_catch (λ e, match e with CalledProcessError _ => true | _ => false end)
    (_ ← cov_note (CovRan command);
     match cov_exec command with
     | NoProgram => raise FileNotFoundError
     | Exited rc => if bool_decide (rc = 0%Z) then mret (report_file project_root)
                    else raise (CalledProcessError rc)
     end)
    (λ _, sys_exit 1).

(** [0.0 <= value <= 100.0] *)
Definition in_range (value : spec_float) : bool :=
  SFleb (S754_zero false) value && SFleb value (float_of_Z 100).

Definition check_threshold (name : string) (value : spec_float) : ST (list cov_effect) unit :=
  if in_range value then mret tt
  else _ ← cov_note (CovPrinted ("Error: " +:+ name +:+ " threshold value must be in range [0.0, 100.0]"));
       sys_exit 1.

Definition coverage_main (target : string) (lines branch : spec_float) : ST (list cov_effect) unit :=
  _ ← check_threshold "Branch" branch;
  _ ← check_threshold "Lines" lines;
  report_path ← run_bazel_coverage target;
  '(coverage_passed, printed) ←
    lift (generate_lcov_report (path_str report_path) (read_lines report_path)
            (SFdiv 53 1024 lines (float_of_Z 100)) (SFdiv 53 1024 branch (float_of_Z 100)));
  _ ← mapM_ (λ line, cov_note (CovPrinted line)) printed;
  if coverage_passed : bool then cov_note (CovPrinted "Coverage check passed.")
  else _ ← cov_note (CovPrinted "Coverage check failed."); sys_exit 1.
End main.
