(* ===== verification/CoverageTheorems.v ===== *)
(** * What [coverage_report.py] guarantees *)

From Stdlib Require Import Ascii Floats.SpecFloat.
From stdpp Require Import numbers base strings sorting list.
From S2P Require Import Prelude PyStr PyInt PyFloat FloatDiv DockerImage Mounts ProjectRoot Coverage.

(** ** Grouped line numbers *)

(** The numbers a range stands for. *)
Definition expand (r : Z * Z) : list Z := seqZ r.1 (r.2 - r.1 + 1).

(** No range could be joined with the next one. *)
Fixpoint separated (l : list (Z * Z)) : Prop :=
  match l with
  | r1 :: ((r2 :: _) as rest) => r2.1 ≠ (r1.2 + 1)%Z ∧ separated rest
  | _ => True
  end.

Lemma expand_snoc s p : (s ≤ p)%Z → expand (s, (p + 1)%Z) = expand (s, p) ++ [(p + 1)%Z].
Proof.
  intros Hs. unfold expand. simpl. replace (p + 1 - s + 1)%Z with ((p - s + 1) + 1)%Z by lia.
  rewrite seqZ_app by lia. f_equal. replace (s + (p - s + 1))%Z with (p + 1)%Z by lia.
  by rewrite seqZ_cons by lia.
Qed.

Lemma expand_one n : expand (n, n) = [n].
Proof. unfold expand. simpl. replace (n - n + 1)%Z with 1%Z by lia. by rewrite seqZ_cons by lia. Qed.

Lemma group_loop_correct s p rest :
  (s ≤ p)%Z →
  mjoin (expand <$> group_loop s p rest) = expand (s, p) ++ rest ∧
  Forall (λ r, r.1 ≤ r.2)%Z (group_loop s p rest) ∧ separated (group_loop s p rest) ∧
  ∃ e l, group_loop s p rest = (s, e) :: l.
Proof.
  revert s p. induction rest as [|n rest IH]; intros s p Hs; cbn [group_loop].
  - simpl. rewrite app_nil_r. split_and!; [done|by repeat constructor|done|eauto].
  - case_decide as Hn; [subst n|].
    + destruct (IH s (p + 1)%Z) as (He & Hf & Hsep & Hhead); [lia|].
      rewrite He, expand_snoc, <-(assoc_L (++)) by lia. done.
    + destruct (IH n n) as (He & Hf & Hsep & e & l & Hl); [lia|].
      change (mjoin (expand <$> ((s, p) :: ?l))) with (expand (s, p) ++ mjoin (expand <$> l)).
      rewrite He, expand_one. rewrite Hl in *.
      split; [done|]. split; [by constructor|]. split; [by split|eauto].
Qed.

Lemma group_ranges_correct numbers :
  mjoin (expand <$> group_ranges numbers) = merge_sort Z.le numbers ∧
  Forall (λ r, r.1 ≤ r.2)%Z (group_ranges numbers) ∧ separated (group_ranges numbers).
Proof.
  unfold group_ranges. destruct (merge_sort Z.le numbers) as [|n rest].
  - split_and!; [done|constructor|done].
  - destruct (group_loop_correct n n rest) as (-> & ? & ? & _); [lia|]. by rewrite expand_one.
Qed.

(** Reading a report of line numbers. *)
Definition read_range (w : string) : res (list Z) :=
  match split_on "-" w with
  | [a] => n ← py_int a; Ret [n]
  | [a; b] => n ← py_int a; m ← py_int b; Ret (expand (n, m))
  | _ => Raise (ValueError w)
  end.
Definition read_numbers (s : string) : res (list Z) :=
  match map_res read_range (split_on "," s) with Ret l => Ret (mjoin l) | Raise e => Raise e end.

Lemma str_int_digits z : (0 ≤ z)%Z → str_all is_digit (str_int z) = true.
Proof.
  intros Hz. unfold str_int. destruct (Z.to_int z) as [u|u] eqn:Hu; simpl.
  - apply string_of_uint_digits.
  - exfalso. destruct z; simpl in Hu; [done|done|lia].
Qed.

Lemma digits_free a s : is_digit a = false → str_all is_digit s = true → str_free a s = true.
Proof.
  intros Ha. induction s as [|b s IH]; [done|]. simpl. intros [Hb Hs]%andb_true_iff.
  rewrite IH by done. case_bool_decide; [congruence|done].
Qed.

(** A leading blank is stripped. *)
Lemma py_int_blank z : py_int (" " +:+ str_int z) = Ret z.
Proof.
  unfold py_int. change (int_literal (" " +:+ str_int z)) with (int_literal (str_int z)).
  by rewrite int_literal_str_int.
Qed.

Definition blank_or_none (pre : string) : Prop := pre = "" ∨ pre = " ".

Lemma read_show_range pre r :
  blank_or_none pre → (0 ≤ r.1 ≤ r.2)%Z → read_range (pre +:+ show_range r) = Ret (expand r).
Proof.
  intros Hpre [H1 H2]. destruct r as [a b]. simpl in *.
  assert (∀ z, (0 ≤ z)%Z → str_free "-" (pre +:+ str_int z) = true) as Hfree.
  { intros z Hz. pose proof (digits_free "-" (str_int z) eq_refl (str_int_digits z Hz)) as Hd.
    by destruct Hpre as [-> | ->]. }
  assert (∀ z, py_int (pre +:+ str_int z) = Ret z) as Hread.
  { intros z. destruct Hpre as [-> | ->]; [apply py_int_str_int|apply py_int_blank]. }
  unfold read_range, show_range. simpl. case_decide as Hab.
  - subst b. rewrite split_on_free by auto. rewrite Hread. simpl. by rewrite expand_one.
  - rewrite <-str_app_assoc. change ((pre +:+ str_int a) +:+ "-" +:+ str_int b)
      with ((pre +:+ str_int a) +:+ String "-" (str_int b)).
    rewrite split_on_app by auto.
    rewrite split_on_free by (apply digits_free, str_int_digits; [done|lia]).
    rewrite Hread. simpl. by rewrite py_int_str_int.
Qed.

Lemma show_range_comma r : (0 ≤ r.1 ≤ r.2)%Z → str_free "," (show_range r) = true.
Proof.
  intros [H1 H2]. unfold show_range.
  assert (∀ z, (0 ≤ z)%Z → str_free "," (str_int z) = true) as Hf.
  { intros z Hz. apply digits_free, str_int_digits; done. }
  case_decide; [auto|]. rewrite str_free_app.
  apply andb_true_iff. split; [auto|]. apply Hf. lia.
Qed.

(** Joining with a comma and a blank. *)
Lemma join_comma_blank x l :
  str_join ", " (x :: l) = str_join "," (x :: ((λ w, " " +:+ w) <$> l)).
Proof.
  revert x. induction l as [|y l IH]; intros x; [done|].
  change (x +:+ ", " +:+ str_join ", " (y :: l) =
          x +:+ "," +:+ str_join "," ((" " +:+ y) :: ((λ w, " " +:+ w) <$> l))).
  rewrite IH. by destruct l.
Qed.

(** C32: for at least one line number, none negative, the text of the uncovered lines says
    exactly which lines they are: read back, it gives the line numbers in ascending order,
    and no range of the text could be joined with the next. *)
Theorem grouped_numbers_readable numbers :
  numbers ≠ [] → Forall (λ n, 0 ≤ n)%Z numbers →
  read_numbers (group_consecutive_numbers numbers) = Ret (merge_sort Z.le numbers) ∧
  separated (group_ranges numbers).
Proof.
  intros Hne Hpos. destruct (group_ranges_correct numbers) as (He & Hle & Hsep). split; [|done].
  rewrite <-He. unfold group_consecutive_numbers.
  assert (Forall (λ r, 0 ≤ r.1 ≤ r.2)%Z (group_ranges numbers)) as Hr.
  { apply list.Forall_forall. intros r Hr. rewrite list.Forall_forall in Hle. specialize (Hle r Hr). split; [|done].
    rewrite list.Forall_forall in Hpos. apply Hpos. rewrite <-(merge_sort_Permutation Z.le numbers), <-He.
    apply list_elem_of_join. exists (expand r). split; [|by apply list_elem_of_fmap_2].
    unfold expand. rewrite elem_of_seqZ. lia. }
  destruct (group_ranges numbers) as [|r rs].
  { simpl in He. destruct numbers as [|n ns]; [done|].
    pose proof (merge_sort_Permutation Z.le (n :: ns)) as Hp. rewrite <-He in Hp.
    by apply Permutation_nil_cons in Hp. }
  rewrite fmap_cons, join_comma_blank, <-list_fmap_compose. unfold read_numbers.
  apply Forall_cons in Hr as [Hr Hrs].
  rewrite join_split_on; [|done|].
  2: { constructor; [by apply show_range_comma|]. apply Forall_fmap. eapply Forall_impl; [exact Hrs|].
       intros r' Hr'. by apply show_range_comma. }
  assert (map_res read_range (show_range r :: ((λ w, " " +:+ w) ∘ show_range <$> rs)) = Ret (expand <$> r :: rs)) as ->.
  2: { done. }
  cbn [map_res]. change (show_range r) with ("" +:+ show_range r).
  rewrite (read_show_range "" r) by (auto || by left). simpl.
  assert (map_res read_range ((λ w, " " +:+ w) ∘ show_range <$> rs) = Ret (expand <$> rs)) as ->; [|done].
  clear -Hrs. induction Hrs as [|r rs Hr _ IH]; [done|]. rewrite fmap_cons. cbn [map_res].
  change (((λ w, " " +:+ w) ∘ show_range) r) with (" " +:+ show_range r). rewrite (read_show_range " " r) by (auto || by right).
  unfold mbind, res_bind in *. by rewrite IH.
Qed.

Lemma grouped_numbers_readable_witness :
  group_consecutive_numbers [10; 1; 3; 2; 7; 6]%Z = "1-3, 6-7, 10" ∧
  read_numbers "1-3, 6-7, 10" = Ret (merge_sort Z.le [10; 1; 3; 2; 7; 6]%Z).
Proof.
  split; [vm_compute; reflexivity|].
  apply (grouped_numbers_readable [10; 1; 3; 2; 7; 6]%Z); [discriminate|].
  repeat constructor; lia.
Defined.

(** ** LCOV records *)

(** The lines of a record, in any order: those the script reads, with the optional
    checksum of [DA], and any other line ([FN], [FNDA], [FNF], [FNH], [VER], blank, ...). *)
Inductive entry :=
  | LF (n : Z) | LH (n : Z) | BRF (n : Z) | BRH (n : Z)
  | DA (line count : Z) (checksum : option string)
  | BRDA (line block branch : Z) (taken : option Z)
  | Other (line : string).

Definition show_entry (e : entry) : string :=
  match e with
  | LF n => "LF:" +:+ str_int n
  | LH n => "LH:" +:+ str_int n
  | BRF n => "BRF:" +:+ str_int n
  | BRH n => "BRH:" +:+ str_int n
  | DA line count checksum =>
      str_join "," (["DA:" +:+ str_int line; str_int count] ++ match checksum with Some w => [w] | None => [] end)
  | BRDA line block branch taken =>
      str_join "," ["BRDA:" +:+ str_int line; str_int block; str_int branch;
                    match taken with Some n => str_int n | None => "-" end]
  | Other line => line
  end.

(** A line with none of the markers the script looks for. *)
Definition other_line (line : string) : Prop :=
  strip line ≠ "end_of_record" ∧
  Forall (λ marker, startswith (strip line) marker = false)
    ["SF:"; "LF:"; "LH:"; "BRF:"; "BRH:"; "DA:"; "BRDA"].

(** A checksum is one word without a comma. *)
Definition good_entry (e : entry) : Prop :=
  match e with
  | DA _ _ (Some checksum) =>
      str_free "," checksum = true ∧ str_all (λ a, negb (py_isspace a)) checksum = true
  | Other line => other_line line
  | _ => True
  end.

(** What an entry says about a file. *)
Definition record_entry (e : entry) (c : file_coverage) : file_coverage :=
  let '(FileCoverage p lf lh bf bh ul ub) := c in
  match e with
  | LF n => FileCoverage p n lh bf bh ul ub
  | LH n => FileCoverage p lf n bf bh ul ub
  | BRF n => FileCoverage p lf lh n bh ul ub
  | BRH n => FileCoverage p lf lh bf n ul ub
  | DA line 0 _ => FileCoverage p lf lh bf bh (ul ++ [line]) ub
  | DA _ _ _ => c
  | BRDA line block branch None => FileCoverage p lf lh bf bh ul (ub ++ [(line, block, branch)])
  | BRDA _ _ _ (Some _) | Other _ => c
  end.

Lemma str_int_free a z : int_char a = false → str_free a (str_int z) = true.
Proof.
  intros Ha. pose proof (str_int_chars z) as Hc. induction (str_int z) as [|b s IH]; [done|].
  simpl in *. apply andb_true_iff in Hc as [Hb Hs]. rewrite IH by done.
  case_bool_decide; [congruence|done].
Qed.

Lemma str_int_not_dash z : str_int z ≠ "-".
Proof.
  intros Hz. pose proof (py_int_str_int z) as Hp. rewrite Hz in Hp. by vm_compute in Hp.
Qed.

(** A prefix is removed from a number. *)
Lemma remove_int a old z :
  int_char a = false → str_remove (String a old) (String a old +:+ str_int z) = str_int z.
Proof. intros Ha. apply str_remove_prefix; [done|]. by apply str_in_free, str_int_free. Qed.

(** Decides a [startswith] whose prefix is spelled out. *)
Ltac decide_prefix :=
  repeat match goal with
    | |- context [startswith ?x ?p] =>
        first [ replace (startswith x p) with false by reflexivity
              | replace (startswith x p) with true by (symmetry; apply startswith_iff; eexists; reflexivity) ]
    end.

Lemma parse_entry e c :
  good_entry e → (∀ line, e ≠ Other line) → parse_lcov_data_line (show_entry e) c = Ret (record_entry e c).
Proof.
  assert (∀ z, str_free "," (str_int z) = true) as Hf by (intros z; by apply str_int_free).
  intros Hg Hother. destruct c as [p lf lh bf bh ul ub].
  destruct e as [n|n|n|n|line count checksum|line block branch taken|line]; [..|by destruct (Hother line)].
  1-4: unfold parse_lcov_data_line, show_entry; decide_prefix; rewrite remove_int by done; by rewrite py_int_str_int.
  - assert (Forall (λ w, str_free "," w = true) match checksum with Some w => [w] | None => [] end) as Hc.
    { destruct checksum; [|apply Forall_nil_2]. apply Forall_cons_2; [apply Hg|apply Forall_nil_2]. }
    unfold parse_lcov_data_line, show_entry. decide_prefix.
    rewrite join_split_on; [|done|].
    2: { repeat apply Forall_cons_2; [by rewrite str_free_app, Hf|done|exact Hc]. }
    unfold part. simpl. rewrite (remove_int "D" "A:") by done. rewrite !py_int_str_int. simpl.
    by destruct count.
  - unfold parse_lcov_data_line, show_entry. decide_prefix.
    rewrite join_split_on; [|done|].
    2: { repeat apply Forall_cons_2; [by rewrite str_free_app, Hf|done|done| |apply Forall_nil_2].
         by destruct taken. }
    unfold part. simpl. rewrite (remove_int "B" "RDA:") by done. rewrite !py_int_str_int. simpl.
    destruct taken as [n|]; [|by rewrite decide_True].
    rewrite decide_False; [done|]. apply str_int_not_dash.
Qed.

Lemma entry_plain e : good_entry e → (∀ line, e ≠ Other line) → strip (show_entry e) = show_entry e.
Proof.
  assert (∀ z, str_all (λ a, negb (py_isspace a)) (str_int z) = true) as Hz.
  { intros z. eapply str_all_impl, str_int_chars. apply int_char_not_space. }
  intros Hg Hother. apply strip_all.
  destruct e as [n|n|n|n|line count checksum|line block branch taken|line]; [..|by destruct (Hother line)].
  5: destruct checksum as [cs|]; [destruct Hg as [_ Hcs]|].
  7: destruct taken as [n|].
  all: unfold show_entry; cbn [str_join app]; rewrite !str_all_app, ?Hz, ?Hcs; done.
Qed.

(** A line of no interest leaves everything as it is. *)
Lemma parse_other line c : other_line line → parse_lcov_data_line (strip line) c = Ret c.
Proof.
  intros [_ Hm]. destruct c. unfold parse_lcov_data_line.
  rewrite !Forall_cons in Hm. by destruct Hm as (_ & -> & -> & -> & -> & -> & -> & _).
Qed.

(** A record, with the lines before it ([TN], blank, ...). *)
Record lcov_record := LcovRecord {
  rec_before : list string;
  rec_path : string;
  rec_entries : list entry;
}.

Definition record_lines (r : lcov_record) : list string :=
  rec_before r ++ ("SF:" +:+ rec_path r) :: (show_entry <$> rec_entries r) ++ ["end_of_record"].

(** A line that starts no record. *)
Definition between (line : string) : Prop := startswith (strip line) "SF:" = false.

(** A path that can be told from its line, and lines of the kinds above. *)
Definition good_record (r : lcov_record) : Prop :=
  Forall between (rec_before r) ∧ Forall good_entry (rec_entries r) ∧
  rec_path r ≠ "" ∧ str_in "SF:" (rec_path r) = false ∧
  strip ("SF:" +:+ rec_path r) = "SF:" +:+ rec_path r.

Definition record_coverage (r : lcov_record) : file_coverage :=
  fold_left (λ c e, record_entry e c) (rec_entries r) (FileCoverage (rec_path r) 0 0 0 0 [] []).

(** The lines of a file with these records, up to the blanks and line ends around them. *)
Definition lcov_file (recs : list lcov_record) (file : list string) : Prop :=
  Forall good_record recs ∧
  ∃ after, Forall between after ∧ strip <$> file = strip <$> mjoin (record_lines <$> recs) ++ after.

Lemma lcov_line_entry e path data c :
  path ≠ "" → good_entry e → dget data path = Some c →
  lcov_line (show_entry e) (Some path, data) = Ret (Some path, dset data path (record_entry e c)).
Proof.
  intros Hp Hg Hd. unfold lcov_line.
  assert (parse_lcov_data_line (strip (show_entry e)) c = Ret (record_entry e c) ∧
          startswith (strip (show_entry e)) "SF:" = false ∧ strip (show_entry e) ≠ "end_of_record")
    as (Hparse & -> & Hend').
  { destruct e; [rewrite entry_plain by done; split; [by apply parse_entry|]; split; [done|];
      intros He; apply (f_equal (λ s, startswith s "end")) in He; done..|].
    rewrite parse_other by done. destruct Hg as [Hend Hm]. apply Forall_cons in Hm as [Hsf _]. by destruct c. }
  rewrite decide_False, Hd by done. destruct path; [done|]. simpl. by rewrite Hparse.
Qed.

Lemma lcov_entries es path data c :
  path ≠ "" → Forall good_entry es → dget data path = Some c →
  for_each (show_entry <$> es) lcov_line (Some path, data) =
    Ret (Some path, match es with [] => data | _ => dset data path (fold_left (λ c e, record_entry e c) es c) end).
Proof.
  intros Hp Hg. revert data c. induction Hg as [|e es He _ IH]; intros data c Hd; [done|].
  rewrite fmap_cons. cbn [for_each]. rewrite (lcov_line_entry e path data c Hp He Hd).
  change (mbind ?f (Ret ?x)) with (f x). cbv beta.
  rewrite (IH _ (record_entry e c)) by (by rewrite dget_dset_eq). simpl.
  destruct es; [done|]. by rewrite dset_dset.
Qed.

Lemma lcov_between lines data :
  Forall between lines → for_each lines lcov_line (None, data) = Ret (None, data).
Proof.
  induction 1 as [|l lines Hl _ IH]; [done|]. cbn [for_each].
  assert (lcov_line l (None, data) = Ret (None, data)) as ->; [|exact IH].
  unfold lcov_line. rewrite Hl. by case_decide.
Qed.

Lemma lcov_record_lines r data :
  good_record r →
  for_each (record_lines r) lcov_line (None, data) =
    Ret (None, dset data (rec_path r) (record_coverage r)).
Proof.
  intros (Hbefore & Hes & Hne & Hin & Hstrip). unfold record_lines. rewrite for_each_app, lcov_between by done.
  change (mbind ?f (Ret ?x)) with (f x). cbv beta. cbn [for_each].
  assert (lcov_line ("SF:" +:+ rec_path r) (None, data) =
          Ret (Some (rec_path r), dset data (rec_path r) (new_file_coverage (rec_path r)))) as ->.
  { unfold lcov_line. rewrite Hstrip, startswith_app, str_remove_prefix by done. done. }
  change (mbind ?f (Ret ?x)) with (f x). cbv beta. rewrite for_each_app.
  rewrite (lcov_entries _ _ _ (new_file_coverage (rec_path r))) by (done || by rewrite dget_dset_eq).
  unfold record_coverage. destruct (rec_entries r); [done|].
  rewrite dset_dset. done.
Qed.

Lemma lcov_records recs data :
  Forall good_record recs →
  for_each (mjoin (record_lines <$> recs)) lcov_line (None, data) =
    Ret (None, fold_left (λ d r, dset d (rec_path r) (record_coverage r)) recs data).
Proof.
  intros Hg. revert data. induction Hg as [|r recs Hr _ IH]; intros data; [done|].
  change (mjoin (record_lines <$> (r :: recs))) with (record_lines r ++ mjoin (record_lines <$> recs)).
  rewrite for_each_app, (lcov_record_lines r data Hr).
  change (mbind ?f (Ret ?x)) with (f x). cbv beta. by rewrite IH.
Qed.

(** Only the stripped lines matter. *)
Lemma lcov_stripped file file' st :
  strip <$> file = strip <$> file' → for_each file lcov_line st = for_each file' lcov_line st.
Proof.
  revert file' st. induction file as [|l file IH]; intros [|l' file'] st; try done.
  rewrite !fmap_cons. intros [= Hl Hrest]. cbn [for_each].
  assert (lcov_line l st = lcov_line l' st) as -> by (unfold lcov_line; by rewrite Hl).
  destruct (lcov_line l' st); [|done]. by apply IH.
Qed.

(** The data of a list of records: for each path, its last record. *)
Definition report_of (recs : list lcov_record) : dict file_coverage :=
  fold_left (λ d r, dset d (rec_path r) (record_coverage r)) recs [].

Lemma parse_lcov_file recs file : lcov_file recs file → parse_lcov file = Ret (report_of recs).
Proof.
  intros (Hg & after & Hafter & Hfile). unfold parse_lcov. rewrite (lcov_stripped _ _ _ Hfile).
  rewrite for_each_app, lcov_records by done.
  change (mbind ?f (Ret (?a, ?x))) with (f (a, x)). cbv beta. by rewrite lcov_between.
Qed.

(** C30: LCOV data is read faithfully: for a file made of records with their
    lines in any order, blanks and line ends around the lines, and any other lines within
    the records, before, between and after them, the data read is, for each path, what the
    entries of its last record say; the other lines change nothing. *)
Theorem lcov_roundtrip recs file :
  lcov_file recs file →
  parse_lcov file = Ret (fold_left (λ d r, dset d (rec_path r) (record_coverage r)) recs []).
Proof. apply parse_lcov_file. Qed.

Definition sample_records : list lcov_record :=
  [LcovRecord ["TN:"] "src/a.cc"
     [Other "FN:3,main"; Other "FNDA:4,main"; Other "FNF:1"; BRDA 3 0 0 (Some 1); BRDA 3 0 1 None; BRF 2; BRH 1;
      DA 3 4 None; DA 4 0 (Some "Kx0q=="); LH 1; LF 2];
   LcovRecord [""; "TN:b"] "src/b.cc" [Other ""; DA 1 1 None; LH 1; LF 1]]%Z.

(** The file, with its line ends. *)
Definition sample_lcov : list string :=
  (λ l, l +:+ newline_str) <$>
  ["TN:"; "SF:src/a.cc"; "FN:3,main"; "FNDA:4,main"; "FNF:1"; "BRDA:3,0,0,1"; "BRDA:3,0,1,-"; "BRF:2"; "BRH:1";
   "DA:3,4"; "DA:4,0,Kx0q=="; "LH:1"; "LF:2"; "end_of_record"; ""; "TN:b"; "SF:src/b.cc"; ""; "DA:1,1"; "LH:1"; "LF:1";
   "end_of_record"; ""].

Lemma sample_lcov_file : lcov_file sample_records sample_lcov.
Proof.
  split; [|exists [""]; split; [repeat constructor|vm_compute; reflexivity]].
  repeat apply Forall_cons_2; [..|apply Forall_nil_2]; repeat split; repeat constructor; done.
Qed.

Lemma lcov_roundtrip_witness :
  parse_lcov sample_lcov =
    Ret [("src/a.cc", FileCoverage "src/a.cc" 2 1 2 1 [4] [(3, 0, 1)]);
         ("src/b.cc", FileCoverage "src/b.cc" 1 1 0 0 [] [])]%Z.
Proof. exact (lcov_roundtrip sample_records sample_lcov sample_lcov_file). Defined.

(** ** The verdict *)

Lemma validate_fold lt bt (cs : list file_coverage) v :
  fold_left (λ valid c, if below_threshold lt bt c then false else valid) cs v =
  v && forallb (λ c, negb (below_threshold lt bt c)) cs.
Proof.
  revert v. induction cs as [|c cs IH]; intros v; simpl; [by rewrite andb_true_r|].
  rewrite IH. destruct (below_threshold lt bt c), v; done.
Qed.

(** The verdict on a report. *)
Definition passes (lt bt : spec_float) (recs : list lcov_record) : bool :=
  forallb (λ c, negb (below_threshold lt bt c)) (dvalues (report_of recs)).

Lemma lcov_report_verdict name recs file lt bt :
  lcov_file recs file →
  generate_lcov_report name (Ret file) lt bt =
    Ret (passes lt bt recs, (print_and_validate_report (report_of recs) lt bt).2).
Proof.
  intros Hf. unfold generate_lcov_report.
  change (mbind ?f (Ret file)) with (f file). cbv beta. rewrite (parse_lcov_file _ _ Hf).
  simpl. unfold passes, print_and_validate_report. by rewrite validate_fold.
Qed.

Lemma print_all lines tr :
  mapM_ (λ line, cov_note (CovPrinted line)) lines tr = (Ret tt, tr ++ (CovPrinted <$> lines)).
Proof.
  revert tr. induction lines as [|l lines IH]; intros tr; [by rewrite app_nil_r|].
  cbn [mapM_]. unfold mbind, ST_bind. cbn. by rewrite IH, <-(assoc_L (++)).
Qed.

Lemma check_threshold_ok name value tr : in_range value = true → check_threshold name value tr = (Ret tt, tr).
Proof. unfold check_threshold. by intros ->. Qed.

(** A run with its report. *)
Lemma coverage_main_verdict `{CovHost} target lines branch root recs file :
  find_project_root cov_there cov_PWD cov_cwd = Ret root →
  cov_exec (coverage_cmd root target) = Exited 0 →
  read_lines (report_file root) = Ret file → lcov_file recs file → in_range lines = true → in_range branch = true →
  let lt := SFdiv 53 1024 lines (float_of_Z 100) in
  let bt := SFdiv 53 1024 branch (float_of_Z 100) in
  coverage_main target lines branch [] =
    (if passes lt bt recs then Ret tt else Raise (SystemExit 1),
     CovRan (coverage_cmd root target) ::
     (CovPrinted <$> (print_and_validate_report (report_of recs) lt bt).2) ++
     [CovPrinted (if passes lt bt recs then "Coverage check passed." else "Coverage check failed.")]).
Proof.
  intros Hroot Hex Hread Hg Hl Hb lt bt. unfold coverage_main.
  unfold mbind, ST_bind. rewrite !check_threshold_ok by done.
  unfold run_bazel_coverage, mbind, ST_bind, lift, try_catch. rewrite Hroot. cbn [cov_note modify].
  rewrite Hex, bool_decide_true by done. cbn [mret ST_ret].
  rewrite Hread, (lcov_report_verdict _ recs file) by done. fold lt bt. rewrite print_all.
  destruct (passes lt bt recs); cbn; by rewrite <-?(assoc_L (++)).
Qed.

(** *** Percentages as thresholds *)

Definition small_counts (c : file_coverage) : Prop :=
  (0 ≤ lines_hit c < 2 ^ 53 ∧ 0 ≤ lines_found c < 2 ^ 45 ∧
   0 ≤ branches_hit c < 2 ^ 53 ∧ 0 ≤ branches_found c < 2 ^ 45)%Z.

(** The float of a whole percentage, and its hundredth. *)
Lemma percentage_floats n :
  (0 ≤ n ≤ 100)%Z →
  py_float (str_int n) = Ret (float_of_Z n) ∧ in_range (float_of_Z n) = true ∧
  SFdiv 53 1024 (float_of_Z n) (float_of_Z 100) = truediv n 100.
Proof.
  intros Hn. rewrite <-(Z2Nat.id n) by lia. assert (Z.to_nat n < 101)%nat as Hi by lia.
  generalize dependent (Z.to_nat n). clear Hn n. intros i Hi.
  do 101 (destruct i as [|i]; [vm_compute; split_and!; reflexivity|]). lia.
Qed.

Lemma share_below hit found n :
  (0 ≤ hit < 2 ^ 53 → 0 ≤ found < 2 ^ 45 → 0 ≤ n ≤ 100 →
   SFltb (if found =? 0 then float_of_Z 1 else truediv hit found) (truediv n 100) = (100 * hit <? n * found))%Z.
Proof.
  intros Hh Hf Hn. destruct (Z.eqb_spec found 0) as [->|Hne]; [|apply percent_ltb; lia].
  replace (100 * hit <? n * 0)%Z with false by (symmetry; apply Z.ltb_ge; lia).
  change (float_of_Z 1) with (truediv 1 1). rewrite percent_ltb by lia. apply Z.ltb_ge. lia.
Qed.

(** Whole percentages are compared exactly. *)
Lemma below_percentage c n k :
  small_counts c → (0 ≤ n ≤ 100 → 0 ≤ k ≤ 100 →
  below_threshold (SFdiv 53 1024 (float_of_Z n) (float_of_Z 100)) (SFdiv 53 1024 (float_of_Z k) (float_of_Z 100)) c =
  (100 * lines_hit c <? n * lines_found c) || (100 * branches_hit c <? k * branches_found c))%Z.
Proof.
  intros (H1 & H2 & H3 & H4) Hn Hk. unfold below_threshold, line_coverage_percent, branch_coverage_percent.
  destruct (percentage_floats n Hn) as (_ & _ & ->). destruct (percentage_floats k Hk) as (_ & _ & ->).
  by rewrite !share_below.
Qed.

(** A threshold out of range, or not a number, ends the script before bazel runs. *)
Lemma bad_threshold `{CovHost} target lines branch :
  in_range lines && in_range branch = false →
  ∃ line, coverage_main target lines branch [] = (Raise (SystemExit 1), [CovPrinted line]).
Proof.
  unfold coverage_main, check_threshold, mbind, ST_bind.
  destruct (in_range branch), (in_range lines); try done; intros _; by eexists.
Qed.

Module SampleCoverage.
#[export] Instance host : CovHost := {|
  cov_there p := bool_decide (p = Path "/" ["src"; "devkit"]);
  cov_PWD := Some "/src";
  cov_cwd := Path "/" ["src"];
  cov_exec _ := Exited 0;
  read_lines p := Ret sample_lcov;
|}.
End SampleCoverage.

(** ** Reports of missing coverage *)

Lemma missing_report_empty c :
  generate_missing_coverage_report c = "" ↔ uncovered_lines c = [] ∧ uncovered_branches c = [].
Proof.
  unfold generate_missing_coverage_report.
  destruct (uncovered_lines c), (uncovered_branches c); split; try done; intros [? ?]; done.
Qed.

Lemma missing_report_not_all_covered c : generate_missing_coverage_report c ≠ "All covered!".
Proof.
  unfold generate_missing_coverage_report. by destruct (uncovered_lines c), (uncovered_branches c).
Qed.

Lemma missing_section_form files :
  missing_section files = ["All covered!"] ∨
  ∃ rs r c, missing_section files = rs ++ [r] ∧ r = generate_missing_coverage_report c.
Proof.
  unfold missing_section. destruct (filter _ _) as [|r0 rs] eqn:Hf; [by left|right].
  destruct (exists_last (l := r0 :: rs)) as (rs' & r & Hr); [done|]. rewrite Hr.
  assert (r ∈ r0 :: rs) as Hin by (rewrite Hr; apply elem_of_app; right; left).
  rewrite <-Hf in Hin. apply list_elem_of_filter in Hin as [_ (c & -> & _)%list_elem_of_fmap]. eauto.
Qed.

Lemma missing_section_covered files :
  missing_section files = ["All covered!"] ↔
  ∀ c, c ∈ files → uncovered_lines c = [] ∧ uncovered_branches c = [].
Proof.
  unfold missing_section. split.
  - intros Hr c Hc. apply missing_report_empty. apply dec_stable. intros Hne.
    assert (generate_missing_coverage_report c ∈
              filter (λ r, r ≠ "") (generate_missing_coverage_report <$> files)) as Hin.
    { apply list_elem_of_filter. split; [done|]. by apply list_elem_of_fmap_2. }
    destruct (filter _ _) as [|r rs]; [by apply elem_of_nil in Hin|]. injection Hr as -> ->.
    apply list_elem_of_singleton in Hin. by apply missing_report_not_all_covered in Hin.
  - intros Hall. destruct (filter _ _) as [|r rs] eqn:Hf; [done|exfalso].
    assert (r ∈ r :: rs) as Hr by left. rewrite <-Hf in Hr.
    apply list_elem_of_filter in Hr as [Hne (c & -> & Hc)%list_elem_of_fmap].
    by apply Hne, missing_report_empty, Hall.
Qed.

(** The report says that all is covered exactly when no file has an uncovered
    line or branch. *)
Theorem all_covered_iff data lt bt :
  (∃ before, (print_and_validate_report data lt bt).2 =
             before ++ [newline_str +:+ "--- Missing Coverage ---"; "All covered!"]) ↔
  ∀ c, c ∈ dvalues data → uncovered_lines c = [] ∧ uncovered_branches c = [].
Proof.
  rewrite <-missing_section_covered. unfold print_and_validate_report. cbn [snd].
  set (table := coverage_table (dvalues data)). set (header := newline_str +:+ "--- Missing Coverage ---").
  split.
  - intros [before Hb]. destruct (missing_section_form (dvalues data)) as [->|(rs & r & c & Hm & ->)]; [done|].
    exfalso. rewrite Hm, !(assoc_L (++)) in Hb.
    change (before ++ [header; "All covered!"]) with (before ++ [header] ++ ["All covered!"]) in Hb.
    rewrite !(assoc_L (++)) in Hb.
    apply app_inj_tail in Hb as [_ Hb]. by apply missing_report_not_all_covered in Hb.
  - intros ->. by exists table.
Qed.

(** ** Columns *)

Lemma length_substring n m s : String.length (String.substring n m s) = Nat.min m (String.length s - n).
Proof.
  revert n m. induction s as [|a s IH]; intros [|n] [|m]; simpl; try done.
  - f_equal. rewrite IH. f_equal. lia.
Qed.

Lemma length_spaces n : String.length (spaces n) = n.
Proof. induction n; simpl; congruence. Qed.

(** A fitted path has exactly the width of its column, for every column wide
    enough for the three dots and a character. *)
Theorem fit_to_column_width filepath max_width :
  (3 < max_width)%Z → Z.of_nat (String.length (fit_to_column filepath max_width)) = max_width.
Proof.
  intros Hw. unfold fit_to_column, tail_slice, str_last. destruct (Z.ltb_spec max_width (Z.of_nat (String.length filepath))).
  - destruct (Z.ltb_spec 0 (max_width - 3)); [|lia].
    rewrite length_app_string, length_substring. simpl. lia.
  - rewrite length_app_string, length_spaces. lia.
Qed.

Lemma fit_to_column_width_witness :
  fit_to_column "src/very/long/path.cc" 10 = "...path.cc"%string ∧
  Z.of_nat (String.length (fit_to_column "src/very/long/path.cc" 10)) = 10%Z.
Proof. split; [reflexivity|]. apply fit_to_column_width. lia. Defined.

(** A column of width three shows the dots and the whole path: the slice that is
    meant to be empty starts at [-0]. *)
Lemma fit_to_column_three : fit_to_column "abcd" 3 = "...abcd".
Proof. reflexivity. Qed.

Example summary_line_example :
  generate_summary_line (FileCoverage "src/a.cc" 3 2 0 0 [] []) =
  "src/a.cc                                           |  66.67% |    100.00%".
Proof. vm_compute. reflexivity. Qed.
