(* ===== verification/EzSdk.v ===== *)
(** * The protoc plugin: [tools/plugin/ez_sdk.py]

    The template filters, the environment they are registered in and
    [generate_code].  Jinja2 and the protobuf messages are parameters: the filters
    Jinja2 has of its own and the outcome of loading and of rendering a template
    are arguments, the class [Protos] gives the fields the plugin reads of the
    descriptors it passes on. *)

From Stdlib Require Import Ascii.
From stdpp Require Import base strings sorting list.
From S2P Require Import Prelude PyStr PyInt Unicode Regex.

(** ** [re.sub] *)

(** The replacements from left to right; an expression that matches the empty
    string is not covered. *)
Fixpoint re_sub_from (fuel : nat) (r : regex) (repl : groups → string) (n : nat) (s : string) : string :=
  match fuel, s with
  | S fuel, String a rest =>
      match matches r [] (n, s) with
      | (g, (n', s')) :: _ => repl g +:+ re_sub_from fuel r repl n' s'
      | [] => String a (re_sub_from fuel r repl (S n) rest)
      end
  | _, _ => s
  end.
Definition re_sub (r : regex) (repl : groups → string) (s : string) : string :=
  re_sub_from (String.length s) r repl 0 s.

(** [\1_\2] *)
Definition group_underscore_group (g : groups) : string :=
  default "" (group g 1) +:+ "_" +:+ default "" (group g 2).

Definition is_upper_ascii (a : ascii) : bool := let n := code a in ((65 <=? n) && (n <=? 90))%Z.
Definition is_lower_digit (a : ascii) : bool :=
  let n := code a in ((97 <=? n) && (n <=? 122) || (48 <=? n) && (n <=? 57))%Z.

Definition _LOWER_UPPER_RE : regex :=
  RSeq (RGroup 1 (RClass is_lower_digit)) (RGroup 2 (RClass is_upper_ascii)).
Definition _UPPER_UPPER_RE : regex :=
  RSeq (RGroup 1 (RClass is_upper_ascii))
       (RGroup 2 (RSeq (RClass is_upper_ascii) (RClass is_lower_digit))).

(** [str.lower] on one character of the range *)
Definition lower_char (a : ascii) : ascii :=
  let n := code a in
  if ((65 <=? n) && (n <=? 90) || (192 <=? n) && (n <=? 222) && negb (n =? 215))%Z
  then ascii_of_N (Z.to_N (n + 32)) else a.

Definition str_lower (s : string) : string := str_map lower_char s.

(** [str.upper] on one character: two of them leave the range, one becomes two letters *)
Definition upper_char (a : ascii) : ustr :=
  let n := code a in
  (if n =? 181 then [924]
   else if n =? 223 then [83; 83]
   else if n =? 255 then [376]
   else if (97 <=? n) && (n <=? 122) || (224 <=? n) && (n <=? 254) && negb (n =? 247) then [n - 32]
   else [n])%Z.

Fixpoint _upper (s : string) : ustr :=
  match s with EmptyString => [] | String a s => upper_char a ++ _upper s end.

Definition _snakecase (s : string) : string :=
  let s1 := re_sub _LOWER_UPPER_RE group_underscore_group s in
  let s2 := re_sub _UPPER_UPPER_RE group_underscore_group s1 in
  str_lower s2.

(** [value[: -len(suffix)]] and [value[len(prefix) :]] *)
Definition _trim_suffix (value suffix : string) : string :=
  if str_truthy suffix && endswith value suffix
  then String.substring 0 (String.length value - String.length suffix) value else value.

Definition _lstrip (value prefix : string) : string :=
  if str_truthy prefix && startswith value prefix
  then String.substring (String.length prefix) (String.length value) value else value.

(** [os.path.splitext(value)[1]]: from the last dot of the file name on, leading
    dots not counted. *)
Fixpoint drop_dots (s : string) : string :=
  match s with String a r => if decide (a = "."%char) then drop_dots r else s | EmptyString => "" end.
Definition _ext (value : string) : string :=
  let name := drop_dots (default "" (last (split_on "/" value))) in
  match split_on "." name with
  | [] | [_] => ""
  | parts => "." +:+ default "" (last parts)
  end.

(** [value.split(separator)]: [skip] counts the characters of a separator that are
    still to be dropped. *)
Fixpoint split_from (sep : string) (skip : nat) (cur s : string) : list string :=
  match s with
  | EmptyString => [String.rev cur]
  | String a r =>
      match skip with
      | S skip => split_from sep skip cur r
      | O =>
          if startswith s sep then String.rev cur :: split_from sep (pred (String.length sep)) "" r
          else split_from sep 0 (String a cur) r
      end
  end.
Definition _split (value separator : string) : res (list string) :=
  if str_truthy separator then Ret (split_from separator 0 "" value)
  else Raise (ValueError "empty separator").

(** ** [generate_code] *)

(** Outcome of a call into Jinja2: a value, a [TemplateError] with its formatted
    text, or another exception. *)
Inductive jinja (A : Type) :=
  | JOk (a : A)
  | JTemplateError (msg : string)
  | JOther (e : exn).
Arguments JOk {A} a.
Arguments JTemplateError {A} msg.
Arguments JOther {A} e.

(** *** The environment *)

Inductive filter_result :=
  | FStr (s : string)
  | FText (s : ustr)
  | FList (l : list string).

(** A filter, called with the value and its arguments. *)
Definition jinja_filter : Type := list string → res filter_result.

Definition filter1 (f : string → filter_result) : jinja_filter := λ args,
  match args with [value] => Ret (f value) | _ => Raise TypeError end.
Definition filter2 (f : string → string → res filter_result) : jinja_filter := λ args,
  match args with [value; arg] => f value arg | _ => Raise TypeError end.

Record environment := Environment {
  env_loader : string;                       (* directory of the [FileSystemLoader] *)
  env_extensions : list string;
  env_filters : dict jinja_filter;
}.

(** [builtin_filters] are those of Jinja2; filters of the same name are replaced. *)
Definition create_jinja_environment (builtin_filters : dict jinja_filter) (template_dir : string) : environment :=
  Environment template_dir ["jinja2.ext.do"]
    (dupdate builtin_filters
      [("snakecase", filter1 (λ s, FStr (_snakecase s)));
       ("upper", filter1 (λ s, FText (_upper s)));
       ("ext", filter1 (λ value, FStr (_ext value)));
       ("trim_suffix", filter2 (λ value suffix, Ret (FStr (_trim_suffix value suffix))));
       ("lstrip", filter2 (λ value prefix, Ret (FStr (_lstrip value prefix))));
       ("split", filter2 (λ value separator, l ← _split value separator; Ret (FList l)))]).

Class Protos := {
  proto_file : Type;
  service : Type;
  pf_name : proto_file → string;
  pf_package : proto_file → string;
  pf_service : proto_file → list service;
  svc_name : service → string;
  FEATURE_PROTO3_OPTIONAL : Z;
  FEATURE_SUPPORTS_EDITIONS : Z;
  EDITION_2023 : Z;
  EDITION_2024 : Z;
}.

Section plugin.
Context `{Protos}.

Record code_request := CodeRequest {
  req_parameter : string;
  req_file_to_generate : list string;
  req_proto_file : list proto_file;
}.

(** What the template sees. *)
Record context := Context_ {
  ctx_Files : list proto_file;
  ctx_Request : code_request;
  ctx_EzServices : dict (list service);
}.

Record code_response := CodeResponse {
  resp_supported_features : Z;
  resp_minimum_edition : Z;
  resp_maximum_edition : Z;
  resp_error : option string;
  resp_file : list (string * string);      (* name and content *)
}.

(** The response before the template is known. *)
Definition new_response : code_response :=
  CodeResponse (Z.lor FEATURE_PROTO3_OPTIONAL FEATURE_SUPPORTS_EDITIONS) EDITION_2023 EDITION_2024 None [].
(** [response.error = ...] and [response.file.add(name=..., content=...)] *)
Definition set_error (response : code_response) (error : string) : code_response :=
  let '(CodeResponse features lo hi _ files) := response in CodeResponse features lo hi (Some error) files.
Definition add_file (response : code_response) (name content : string) : code_response :=
  let '(CodeResponse features lo hi error files) := response in
  CodeResponse features lo hi error (files ++ [(name, content)]).

(** [dict(p.split('=', 1) for p in parameter.split(',') if '=' in p)] *)
Definition parse_params (parameter : string) : dict string :=
  fold_left (λ d kv, dset d kv.1 kv.2) (omap split_eq (split_on "," parameter)) [].

Definition fully_qualified_name (f : proto_file) (svc : service) : string :=
  if str_truthy (pf_package f) then pf_package f +:+ "." +:+ svc_name svc else svc_name svc.

(** [set(services_param.split(';')) if services_param else set()] *)
Definition registry_services (params : dict string) : list string :=
  match dget params "services" with
  | Some s => if str_truthy s then split_on ";" s else []
  | None => []
  end.

Definition ez_services (registered : list string) (f : proto_file) : list service :=
  filter (λ svc, fully_qualified_name f svc ∈ registered) (pf_service f).

Definition template_context (request : code_request) (params : dict string) : context :=
  let registered := registry_services params in
  Context_
    (filter (λ f, pf_name f ∈ req_file_to_generate request) (req_proto_file request))
    request
    (fold_left (λ d f, dset d (pf_name f) (ez_services registered f)) (req_proto_file request) []).

(** A template engine: its filters, loading in an environment, rendering. *)
Context {template : Type}.
Context (builtin_filters : dict jinja_filter).
Context (get_template : environment → string → jinja template).
Context (render : template → context → jinja string).

(** [template_path] is the environment variable [TEMPLATE_PATH]; without [env], an
    environment is created. *)
Definition generate_code (template_path : option string) (request : code_request) (env : option environment)
    : res code_response :=
  let response := new_response in
  let params := parse_params (req_parameter request) in
  let template_dir := default (default "." template_path) (dget params "template_dir") in
  let template_name := default "" (dget params "template_name") in
  if str_truthy template_name then
    let env := match env with Some env => env | None => create_jinja_environment builtin_filters template_dir end in
    match get_template env template_name with
    | JOther e => Raise e
    | JTemplateError msg =>
        Ret (set_error response ("Failed to load template " +:+ template_name +:+ ": " +:+ msg))
    | JOk template =>
        match render template (template_context request params) with
        | JOther e => Raise e
        | JTemplateError msg =>
            Ret (set_error response ("Failed to render template " +:+ template_name +:+ ": " +:+ msg))
        | JOk output_content =>
            let output_filename := default "output.rs" (dget params "output_name") in
            Ret (add_file response output_filename output_content)
        end
    end
  else Ret (set_error response "Missing parameter: template_name").

(** From the bytes on standard input to those on standard output; [FromString] and
    [SerializeToString] are generated from the protocol. *)
Definition ez_main (FromString : list Z → res code_request) (SerializeToString : code_response → list Z)
    (template_path : option string) (data : list Z) : res (list Z) :=
  request ← FromString data;
  response ← generate_code template_path request None;
  Ret (SerializeToString response).
End plugin.

Example ext_examples :
  _ext <$> ["a/b.proto"; "a.b/c"; ".bashrc"; "..x.tar.gz"; "x."; "dir/..a"] = [".proto"; ""; ""; ".gz"; "."; ""].
Proof. reflexivity. Qed.
