(* ===== verification/EzSdkTheorems.v ===== *)
(** * What [tools/plugin/ez_sdk.py] guarantees *)

From Stdlib Require Import Ascii.
From stdpp Require Import base strings sorting list.
From S2P Require Import Prelude PyStr Regex PyInt Unicode EzSdk.

(** ** Snake case *)

(** A string without its underscores. *)
Fixpoint drop_us (s : string) : string :=
  match s with
  | EmptyString => ""
  | String a s => if decide (a = "_"%char) then drop_us s else String a (drop_us s)
  end.

Lemma drop_us_app s1 s2 : drop_us (s1 +:+ s2) = drop_us s1 +:+ drop_us s2.
Proof.
  induction s1 as [|a s1 IH]; [done|]. rewrite str_app_cons. simpl. rewrite IH.
  by case_decide; rewrite ?str_app_cons.
Qed.

(** What the two expressions match: two, or three, characters. *)
Lemma lower_upper_matches n s g p :
  (g, p) ∈ matches _LOWER_UPPER_RE [] (n, s) →
  ∃ a b s', s = String a (String b s') ∧ is_upper_ascii b = true ∧ p = (S (S n), s') ∧
            group_underscore_group g = String a (String "_" (String b "")).
Proof.
  destruct s as [|a [|b s]]; simpl.
  - by intros ?%elem_of_nil.
  - destruct (is_lower_digit a); by intros ?%elem_of_nil.
  - destruct (is_lower_digit a); simpl; [|by intros ?%elem_of_nil].
    destruct (is_upper_ascii b) eqn:Hb; simpl; [|by intros ?%elem_of_nil].
    intros [= -> ->]%list_elem_of_singleton. exists a, b, s.
    split_and!; [done|done|done|]. replace (S n - n) with 1 by lia.
    replace (S (S n) - S n) with 1 by lia. done.
Qed.

Lemma upper_upper_matches n s g p :
  (g, p) ∈ matches _UPPER_UPPER_RE [] (n, s) →
  ∃ a b c s', s = String a (String b (String c s')) ∧ is_upper_ascii a = true ∧ p = (S (S (S n)), s') ∧
              group_underscore_group g = String a (String "_" (String b (String c ""))).
Proof.
  destruct s as [|a s]; [by intros ?%elem_of_nil|]. simpl.
  destruct (is_upper_ascii a) eqn:Ha; simpl; [|by intros ?%elem_of_nil].
  destruct s as [|b s]; simpl; [by intros ?%elem_of_nil|].
  destruct (is_upper_ascii b); simpl; [|by intros ?%elem_of_nil].
  destruct s as [|c s]; simpl; [by intros ?%elem_of_nil|].
  destruct (is_lower_digit c); simpl; [|by intros ?%elem_of_nil].
  intros [= -> ->]%list_elem_of_singleton. exists a, b, c, s.
  split_and!; [done|done|done|]. replace (S n - n) with 1 by lia.
  replace (S (S n) - n) with 2 by lia. done.
Qed.

(** A substitution that only inserts underscores. *)
Lemma re_sub_drop_us r repl fuel n s :
  (∀ n s g n' s', (g, (n', s')) ∈ matches r [] (n, s) →
     ∃ x, s = x +:+ s' ∧ drop_us (repl g) = drop_us x) →
  drop_us (re_sub_from fuel r repl n s) = drop_us s.
Proof.
  intros Hr. revert n s. induction fuel as [|fuel IH]; intros n [|a s]; try done. cbn [re_sub_from].
  destruct (matches r [] (n, String a s)) as [|[g [n' s']] l] eqn:Hm.
  - simpl. by rewrite IH.
  - destruct (Hr n (String a s) g n' s') as (x & Hs & Hx); [rewrite Hm; left|].
    by rewrite Hs, !drop_us_app, IH, Hx.
Qed.

(** A substitution without a match changes nothing. *)
Lemma re_sub_no_match r repl (P : string → Prop) fuel n s :
  (∀ n s, P s → matches r [] (n, s) = []) → (∀ a s, P (String a s) → P s) → P s →
  re_sub_from fuel r repl n s = s.
Proof.
  intros Hr HP. revert n s. induction fuel as [|fuel IH]; intros n [|a s] Hs; try done.
  cbn [re_sub_from]. rewrite (Hr n (String a s) Hs). f_equal. eauto.
Qed.

Lemma lower_char_upper a : is_upper_ascii (lower_char a) = false.
Proof. destruct a as [[] [] [] [] [] [] [] []]; reflexivity. Qed.

Lemma lower_char_lower a : lower_char (lower_char a) = lower_char a.
Proof. destruct a as [[] [] [] [] [] [] [] []]; reflexivity. Qed.

Lemma lower_char_underscore a : bool_decide (lower_char a = "_"%char) = bool_decide (a = "_"%char).
Proof. destruct a as [[] [] [] [] [] [] [] []]; reflexivity. Qed.

Lemma drop_us_lower s : drop_us (str_lower s) = str_lower (drop_us s).
Proof.
  unfold str_lower. induction s as [|a s IH]; [done|]. simpl.
  pose proof (lower_char_underscore a) as Hu.
  destruct (decide (a = "_"%char)) as [Ha|Ha].
  - rewrite (bool_decide_true _ Ha) in Hu. apply bool_decide_eq_true in Hu.
    by rewrite decide_True.
  - rewrite (bool_decide_false _ Ha) in Hu. apply bool_decide_eq_false in Hu.
    rewrite decide_False by done. simpl. by rewrite IH.
Qed.

Definition no_upper (s : string) : Prop := str_all (λ a, negb (is_upper_ascii a)) s = true.

Lemma no_upper_tail a s : no_upper (String a s) → no_upper s.
Proof. unfold no_upper. simpl. by intros [_ ?]%andb_true_iff. Qed.

Lemma str_lower_no_upper s : no_upper (str_lower s).
Proof.
  unfold no_upper, str_lower. induction s as [|a s IH]; [done|]. simpl.
  by rewrite lower_char_upper, IH.
Qed.

Lemma str_lower_idemp s : str_lower (str_lower s) = str_lower s.
Proof. unfold str_lower. induction s as [|a s IH]; [done|]. simpl. by rewrite lower_char_lower, IH. Qed.

Lemma no_upper_sub s :
  no_upper s → re_sub _LOWER_UPPER_RE group_underscore_group s = s ∧
               re_sub _UPPER_UPPER_RE group_underscore_group s = s.
Proof.
  intros Hs. split; (apply (re_sub_no_match _ _ no_upper); [clear s Hs|apply no_upper_tail|done]).
  - intros n s Hs. destruct (matches _ [] (n, s)) as [|[g p] l] eqn:Hm; [done|exfalso].
    destruct (lower_upper_matches n s g p) as (a & b & s' & -> & Hb & _); [rewrite Hm; left|].
    unfold no_upper in Hs. simpl in Hs. rewrite Hb in Hs. by rewrite andb_false_r in Hs.
  - intros n s Hs. destruct (matches _ [] (n, s)) as [|[g p] l] eqn:Hm; [done|exfalso].
    destruct (upper_upper_matches n s g p) as (a & b & c & s' & -> & Ha & _); [rewrite Hm; left|].
    unfold no_upper in Hs. simpl in Hs. by rewrite Ha in Hs.
Qed.

(** Where the underscores go: between [a] and [b], which [rest] follows, when an upper-case
    letter starts a word: after a lower-case letter or a digit, or as the last of
    several upper-case letters before a lower-case letter or a digit. *)
Definition one_of (letters : string) (a : ascii) : bool := negb (str_free a letters).
Definition capital : ascii → bool := one_of "ABCDEFGHIJKLMNOPQRSTUVWXYZ".
Definition small : ascii → bool := one_of "abcdefghijklmnopqrstuvwxyz0123456789".

Definition word_starts (a b : ascii) (rest : string) : bool :=
  capital b && (small a || capital a && match rest with String c _ => small c | EmptyString => false end).

Lemma capital_upper a : capital a = is_upper_ascii a.
Proof. by destruct a as [[] [] [] [] [] [] [] []]. Qed.

Lemma small_lower a : small a = is_lower_digit a.
Proof. by destruct a as [[] [] [] [] [] [] [] []]. Qed.

Lemma word_starts_classes a b rest :
  word_starts a b rest =
  is_upper_ascii b &&
  (is_lower_digit a || is_upper_ascii a && match rest with String c _ => is_lower_digit c | EmptyString => false end).
Proof.
  unfold word_starts. rewrite !capital_upper, !small_lower. destruct rest; [done|]. by rewrite small_lower.
Qed.

Fixpoint separate (starts : ascii → ascii → string → bool) (s : string) : string :=
  match s with
  | String a ((String b rest) as s') =>
      String a (if starts a b rest then String "_" (separate starts s') else separate starts s')
  | _ => s
  end.

Definition lower_then_upper (a b : ascii) (_ : string) : bool := is_lower_digit a && is_upper_ascii b.
Definition upper_word (a b : ascii) (rest : string) : bool :=
  is_upper_ascii a && is_upper_ascii b && match rest with String c _ => is_lower_digit c | EmptyString => false end.

Lemma upper_not_lower a : is_upper_ascii a = true → is_lower_digit a = false.
Proof. by destruct a as [[] [] [] [] [] [] [] []]. Qed.

(** The matches of the two expressions do not overlap, so each substitution puts an
    underscore in every place its expression describes. *)
Lemma sub_lower_upper fuel n s :
  String.length s ≤ fuel →
  re_sub_from fuel _LOWER_UPPER_RE group_underscore_group n s = separate lower_then_upper s.
Proof.
  revert n s. induction fuel as [|fuel IH]; intros n s Hs; [by destruct s; simpl in Hs; [|lia]|].
  destruct s as [|a s]; [done|]. simpl in Hs. cbn [re_sub_from].
  destruct (matches _ [] (n, String a s)) as [|[g p] l] eqn:Hm.
  - rewrite IH by lia. destruct s as [|b s]; [done|]. cbn [separate].
    replace (lower_then_upper a b s) with false; [done|]. unfold lower_then_upper. simpl in Hm.
    destruct (is_lower_digit a); [simpl in Hm|done]. by destruct (is_upper_ascii b).
  - assert (Hin : (g, p) ∈ matches _LOWER_UPPER_RE [] (n, String a s)) by (rewrite Hm; left).
    destruct (lower_upper_matches _ _ _ _ Hin) as (a' & b & s' & [= <- ->] & Hb & -> & ->).
    simpl in Hs. rewrite IH by lia. simpl in Hin.
    destruct (is_lower_digit a) eqn:Ha; [|by apply elem_of_nil in Hin]. cbn [separate].
    replace (lower_then_upper a b s') with true by (unfold lower_then_upper; by rewrite Ha, Hb).
    destruct s' as [|c s']; [done|].
    by replace (lower_then_upper b c s') with false by (unfold lower_then_upper; by rewrite upper_not_lower).
Qed.

Lemma sub_upper_upper fuel n s :
  String.length s ≤ fuel →
  re_sub_from fuel _UPPER_UPPER_RE group_underscore_group n s = separate upper_word s.
Proof.
  revert n s. induction fuel as [|fuel IH]; intros n s Hs; [by destruct s; simpl in Hs; [|lia]|].
  destruct s as [|a s]; [done|]. simpl in Hs. cbn [re_sub_from].
  destruct (matches _ [] (n, String a s)) as [|[g p] l] eqn:Hm.
  - rewrite IH by lia. destruct s as [|b s]; [done|]. cbn [separate].
    replace (upper_word a b s) with false; [done|]. unfold upper_word. simpl in Hm.
    destruct (is_upper_ascii a); [|done]. simpl in Hm. destruct (is_upper_ascii b); [|done].
    simpl in Hm. destruct s as [|c s]; [done|]. simpl in Hm. by destruct (is_lower_digit c).
  - assert (Hin : (g, p) ∈ matches _UPPER_UPPER_RE [] (n, String a s)) by (rewrite Hm; left).
    destruct (upper_upper_matches _ _ _ _ Hin) as (a' & b & c & s' & [= <- ->] & Ha & -> & ->).
    simpl in Hs. rewrite IH by lia. simpl in Hin. rewrite Ha in Hin. simpl in Hin.
    destruct (is_upper_ascii b) eqn:Hb; [|by apply elem_of_nil in Hin]. simpl in Hin.
    destruct (is_lower_digit c) eqn:Hc; [|by apply elem_of_nil in Hin]. clear Hin Hm.
    assert (is_upper_ascii c = false) as Huc.
    { destruct (is_upper_ascii c) eqn:Hu; [|done]. by rewrite upper_not_lower in Hc. }
    cbn [separate].
    replace (upper_word a b (String c s')) with true by (unfold upper_word; by rewrite Ha, Hb, Hc).
    replace (upper_word b c s') with false by (unfold upper_word; by rewrite Huc, andb_false_r).
    destruct s' as [|d s']; [done|].
    by replace (upper_word c d s') with false by (unfold upper_word; by rewrite Huc).
Qed.

(** What follows the first character. *)
Lemma separate_head starts b s :
  ∃ t, separate starts (String b s) = String b t ∧
       match s with
       | EmptyString => t = ""
       | String c s' => starts b c s' = false → ∃ t', t = String c t'
       end.
Proof.
  destruct s as [|c s]; [by exists ""|]. eexists. split; [reflexivity|]. intros ->. destruct s; by eexists.
Qed.

(** The underscores of the first substitution do not hide a place of the second. *)
Lemma separate_twice s : separate upper_word (separate lower_then_upper s) = separate word_starts s.
Proof.
  induction s as [|a [|b s] IH]; [done|done|].
  change (separate lower_then_upper (String a (String b s)))
    with (String a (if lower_then_upper a b s then String "_" (separate lower_then_upper (String b s))
                    else separate lower_then_upper (String b s))).
  change (separate word_starts (String a (String b s)))
    with (String a (if word_starts a b s then String "_" (separate word_starts (String b s))
                    else separate word_starts (String b s))).
  destruct (separate_head lower_then_upper b s) as (t & Ht & Hhead). rewrite <-IH, Ht.
  destruct (lower_then_upper a b s) eqn:Hl.
  - replace (word_starts a b s) with true; [|rewrite word_starts_classes; by apply andb_true_iff in Hl as [-> ->]].
    cbn [separate]. by replace (upper_word a "_" (String b t)) with false by (unfold upper_word; by rewrite andb_false_r).
  - replace (word_starts a b s) with (upper_word a b t); [done|]. rewrite word_starts_classes. unfold upper_word.
    destruct (is_upper_ascii b) eqn:Hb; [|by rewrite andb_false_r].
    unfold lower_then_upper in Hl. rewrite Hb, andb_true_r in Hl. rewrite Hl, andb_true_r. simpl.
    destruct s as [|c s]; [by subst t|]. destruct Hhead as (t' & ->); [|done].
    unfold lower_then_upper. by rewrite upper_not_lower.
Qed.

(** C34: the snake case of a name is the name in lower case with an underscore exactly in front of
    every upper-case letter that starts a word: one after a lower-case letter or a digit, or the last of
    several before a lower-case letter or a digit.  It has no upper-case ASCII letter, keeps all its
    characters but for case and underscores, and is a fixed point of the
    filter. *)
Theorem snakecase_correct s :
  _snakecase s = str_lower (separate word_starts s) ∧
  no_upper (_snakecase s) ∧ drop_us (_snakecase s) = str_lower (drop_us s) ∧
  _snakecase (_snakecase s) = _snakecase s.
Proof.
  assert (no_upper (_snakecase s)) as Hn by apply str_lower_no_upper. split_and!; [|done| |].
  - unfold _snakecase, re_sub. by rewrite sub_lower_upper, sub_upper_upper, separate_twice.
  - unfold _snakecase, re_sub. rewrite drop_us_lower, !re_sub_drop_us; [done| |].
    + intros n s0 g n' s' (a & b & s1 & -> & _ & [= -> ->] & ->)%lower_upper_matches.
      exists (String a (String b "")). split; [done|]. by simpl; repeat case_decide.
    + intros n s0 g n' s' (a & b & c & s1 & -> & _ & [= -> ->] & ->)%upper_upper_matches.
      exists (String a (String b (String c ""))). split; [done|]. by simpl; repeat case_decide.
  - unfold _snakecase at 1. destruct (no_upper_sub (_snakecase s) Hn) as [H1 H2]. cbv zeta.
    rewrite H1, H2. unfold _snakecase. apply str_lower_idemp.
Qed.

Example snakecase_examples :
  _snakecase <$> ["HTTPServerV2"; "getURLFor"; "ABC"; "x2Y"; "a_B"; "already_snake"; "IO2Go"] =
  ["http_server_v2"; "get_url_for"; "abc"; "x2_y"; "a_b"; "already_snake"; "i_o2_go"].
Proof. vm_compute; reflexivity. Qed.

(** ** Suffixes and prefixes *)

Lemma str_rev_app s1 s2 : String.rev (s1 +:+ s2) = String.rev s2 +:+ String.rev s1.
Proof.
  induction s1 as [|a s1 IH]; [by rewrite str_app_nil_r|].
  by rewrite str_app_cons, !str_rev_cons, IH, str_app_assoc.
Qed.

Lemma endswith_iff s p : endswith s p = true ↔ ∃ v, s = v +:+ p.
Proof.
  unfold endswith. rewrite startswith_iff. split.
  - intros [r Hr]. exists (String.rev r). apply (f_equal String.rev) in Hr.
    by rewrite str_rev_app, !str_rev_involutive in Hr.
  - intros [v ->]. exists (String.rev v). apply str_rev_app.
Qed.

Lemma substring_prefix s1 s2 : String.substring 0 (String.length s1) (s1 +:+ s2) = s1.
Proof. induction s1 as [|a s1 IH]; [by destruct s2|]. rewrite str_app_cons. simpl. by rewrite IH. Qed.

Lemma substring_all s n : String.length s ≤ n → String.substring 0 n s = s.
Proof.
  revert n. induction s as [|a s IH]; intros [|n] Hn; simpl in *; try done; [lia|].
  rewrite IH by lia. done.
Qed.

Lemma substring_suffix s1 s2 n :
  String.length s2 ≤ n → String.substring (String.length s1) n (s1 +:+ s2) = s2.
Proof. induction s1 as [|a s1 IH]; intros Hn; [by apply substring_all|]. rewrite str_app_cons. simpl. auto. Qed.

(** The filters [trim_suffix] and [lstrip] take a non-empty suffix or prefix
    off once, and leave every other string as it is. *)
Theorem trim_filters_correct value affix :
  (∀ v, affix ≠ "" → value = v +:+ affix → _trim_suffix value affix = v) ∧
  ((affix = "" ∨ ¬ ∃ v, value = v +:+ affix) → _trim_suffix value affix = value) ∧
  (∀ v, affix ≠ "" → value = affix +:+ v → _lstrip value affix = v) ∧
  ((affix = "" ∨ ¬ ∃ v, value = affix +:+ v) → _lstrip value affix = value).
Proof.
  unfold _trim_suffix, _lstrip. split_and!.
  - intros v Hne ->. replace (str_truthy affix) with true by (by destruct affix).
    rewrite (proj2 (endswith_iff (v +:+ affix) affix)) by eauto. simpl.
    rewrite length_app_string. replace (_ + _ - _) with (String.length v) by lia. apply substring_prefix.
  - intros [->|Hno]; [done|]. destruct (endswith value affix) eqn:He; [|by rewrite andb_false_r].
    by apply endswith_iff in He.
  - intros v Hne ->. replace (str_truthy affix) with true by (by destruct affix).
    rewrite startswith_app. simpl. apply substring_suffix. rewrite length_app_string. lia.
  - intros [->|Hno]; [done|]. destruct (startswith value affix) eqn:He; [|by rewrite andb_false_r].
    by apply startswith_iff in He.
Qed.

(** ** Parameters *)

Lemma split_eq_app k v : str_free "=" k = true → split_eq (k +:+ "=" +:+ v) = Some (k, v).
Proof.
  induction k as [|a k IH]; [done|]. rewrite str_app_cons. cbn [str_free split_eq].
  case_bool_decide; [done|]. simpl. intros Hk. rewrite decide_False by done. by rewrite IH.
Qed.

(** A parameter that can be written on the command line. *)
Definition plain_param (kv : string * string) : Prop :=
  str_free "=" kv.1 = true ∧ str_free "," kv.1 = true ∧ str_free "," kv.2 = true.

Definition show_params (kvs : list (string * string)) : string :=
  str_join "," ((λ kv, kv.1 +:+ "=" +:+ kv.2) <$> kvs).

(** The options given to the plugin are read back as they were written, the
    last value of a repeated key counting; a value may contain equal signs. *)
Theorem params_roundtrip kvs :
  kvs ≠ [] → Forall plain_param kvs →
  parse_params (show_params kvs) = fold_left (λ d kv, dset d kv.1 kv.2) kvs [].
Proof.
  intros Hne Hp. unfold parse_params, show_params. rewrite join_split_on.
  - assert (omap split_eq ((λ kv, kv.1 +:+ "=" +:+ kv.2) <$> kvs) = kvs) as ->; [|done].
    clear Hne. induction Hp as [|[k v] kvs (Hk & _ & _) _ IH]; [done|].
    rewrite fmap_cons. cbn [fst snd] in *.
    change (omap split_eq (?x :: ?l)) with
      (match split_eq x with Some y => y :: omap split_eq l | None => omap split_eq l end).
    by rewrite split_eq_app, IH.
  - by destruct kvs.
  - apply Forall_fmap. eapply Forall_impl; [exact Hp|]. intros [k v] (_ & Hk & Hv). simpl in *.
    by rewrite !str_free_app, Hk, Hv.
Qed.

Lemma params_roundtrip_witness :
  parse_params "template_name=a.j2,services=x.Y;z.W,output_name=o=1.rs" =
    [("template_name", "a.j2"); ("services", "x.Y;z.W"); ("output_name", "o=1.rs")].
Proof.
  apply (params_roundtrip [("template_name", "a.j2"); ("services", "x.Y;z.W"); ("output_name", "o=1.rs")]);
    [discriminate|]. repeat apply Forall_cons_2; done || apply Forall_nil_2.
Defined.

(** ** The response *)

Lemma fold_dset_other {A} (key : A → string) {V} (val : A → V) l d k :
  k ∉ (key <$> l) → dget (fold_left (λ d x, dset d (key x) (val x)) l d) k = dget d k.
Proof.
  revert d. induction l as [|x l IH]; intros d Hk; [done|]. rewrite fmap_cons in Hk.
  apply not_elem_of_cons in Hk as [Hx Hl]. simpl. rewrite IH by done. by apply dget_dset_ne.
Qed.

Lemma fold_dset_lookup {A} (key : A → string) {V} (val : A → V) l d x :
  NoDup (key <$> l) → x ∈ l → dget (fold_left (λ d x, dset d (key x) (val x)) l d) (key x) = Some (val x).
Proof.
  revert d. induction l as [|y l IH]; intros d Hnd Hx; [by apply elem_of_nil in Hx|].
  rewrite fmap_cons in Hnd. apply NoDup_cons in Hnd as [Hy Hnd]. simpl.
  apply elem_of_cons in Hx as [->|Hx]; [|by apply IH].
  rewrite fold_dset_other by done. apply dget_dset_eq.
Qed.

(** C33: a response carries either an error and no file, or no error and exactly
    one file; it always states the two features and the editions 2023 to 2024.  The error is
    there only when no template is named, or loading or rendering it fails.  The file is what
    the template, loaded in the given environment or the one the plugin creates, renders
    from the requested files in their order and, for each file, exactly its services whose
    qualified name is registered. *)
Theorem generate_code_response `{Protos} {template} builtin get_template render template_path request env resp :
  NoDup (pf_name <$> req_proto_file request) →
  generate_code (template := template) builtin get_template render template_path request env = Ret resp →
  let params := parse_params (req_parameter request) in
  let loaded := get_template (default (create_jinja_environment builtin
         (default (default "." template_path) (dget params "template_dir"))) env)
       (default "" (dget params "template_name")) in
  (resp_supported_features resp = Z.lor FEATURE_PROTO3_OPTIONAL FEATURE_SUPPORTS_EDITIONS ∧
   resp_minimum_edition resp = EDITION_2023 ∧ resp_maximum_edition resp = EDITION_2024) ∧
  ((is_Some (resp_error resp) ∧ resp_file resp = [] ∧
    (dget params "template_name" ∈ [None; Some ""] ∨ (∃ msg, loaded = JTemplateError msg) ∨
     ∃ t ctx msg, loaded = JOk t ∧ render t ctx = JTemplateError msg)) ∨
  (∃ t name content ctx,
     resp_error resp = None ∧ resp_file resp = [(name, content)] ∧ render t ctx = JOk content ∧
     loaded = JOk t ∧
     name = default "output.rs" (dget params "output_name") ∧ ctx_Request ctx = request ∧
     ctx_Files ctx = filter (λ f, pf_name f ∈ req_file_to_generate request) (req_proto_file request) ∧
     ∀ f, f ∈ req_proto_file request →
       ∃ svcs, dget (ctx_EzServices ctx) (pf_name f) = Some svcs ∧
         ∀ svc, svc ∈ svcs ↔ svc ∈ pf_service f ∧ fully_qualified_name f svc ∈ registry_services params)).
Proof.
  intros Hnd Hg params loaded. unfold generate_code in Hg. fold params in Hg.
  destruct (str_truthy _) eqn:Htn.
  2: { injection Hg as <-. split; [done|]. left. split_and!; [by eexists|done|]. left.
       destruct (dget params "template_name") as [[|]|]; [right; left|done|left]. }
  replace (get_template _ _) with loaded in Hg by (unfold loaded; by destruct env).
  destruct loaded as [t|msg|e]; [|injection Hg as <-; split; [done|left; split_and!; [by eexists|done|eauto]]|done].
  destruct (render t (template_context request params)) as [content|msg|e] eqn:Hr;
    [|injection Hg as <-; split; [done|left; split_and!; [by eexists|done|eauto 10]]|done].
  injection Hg as <-. split; [done|]. right. exists t. do 2 eexists. exists (template_context request params).
  split_and!; [reflexivity|reflexivity|done|done|done|done|done|].
  intros f Hf. exists (ez_services (registry_services params) f). split.
  - simpl. by apply (fold_dset_lookup pf_name).
  - intros svc. unfold ez_services. rewrite list_elem_of_filter. naive_solver.
Qed.

(** Files with names, packages and services by name; a template that lists the
    names of the files it gets. *)
Definition sample_protos : Protos :=
  {| proto_file := string * string * list string; service := string;
     pf_name f := f.1.1; pf_package f := f.1.2; pf_service f := f.2; svc_name s := s;
     FEATURE_PROTO3_OPTIONAL := 1; FEATURE_SUPPORTS_EDITIONS := 2; EDITION_2023 := 1000; EDITION_2024 := 1001 |}.

Definition sample_request : @code_request sample_protos :=
  @CodeRequest sample_protos "template_name=t.j2,services=pkg.A;pkg.C" ["a.proto"]
    [("a.proto", "pkg", ["A"; "B"]); ("b.proto", "pkg", ["C"])].

Definition sample_render (t : string) (ctx : @context sample_protos) : jinja string :=
  JOk (t +:+ ":" +:+ str_join "," ((λ f : @proto_file sample_protos, pf_name f) <$> ctx_Files ctx)).

Lemma generate_code_response_witness :
  let resp := CodeResponse 3 1000 1001 None [("output.rs", "t.j2:a.proto")] in
  @generate_code sample_protos string [] (λ _ name, JOk name) sample_render None sample_request None = Ret resp ∧
  ∃ ctx : @context sample_protos, ∃ svcs : list string,
    dget (ctx_EzServices ctx) "a.proto" = Some svcs ∧
    ∀ svc, svc ∈ svcs ↔ svc ∈ ["A"; "B"] ∧ "pkg." +:+ svc ∈ ["pkg.A"; "pkg.C"].
Proof.
  destruct (@generate_code_response sample_protos string [] (λ _ name, JOk name) sample_render None
              sample_request None (CodeResponse 3 1000 1001 None [("output.rs", "t.j2:a.proto")])) as [_ [[[e He] _]|Hok]].
  - apply (bool_decide_unpack _). vm_compute. exact I.
  - vm_compute. reflexivity.
  - discriminate.
  - split; [vm_compute; reflexivity|].
    destruct Hok as (t & name & content & ctx & _ & _ & _ & _ & _ & _ & _ & Hsvc). exists ctx.
    destruct (Hsvc ("a.proto", "pkg", ["A"; "B"])) as (svcs & Hd & Hs); [left|].
    exists svcs. split; [exact Hd|exact Hs].
Defined.

(** ** Splitting *)

Lemma split_from_skip sep x cur s :
  split_from sep (String.length x) cur (x +:+ s) = split_from sep 0 cur s.
Proof. induction x as [|a x IH]; [by destruct s|]. rewrite str_app_cons. simpl. done. Qed.

(** The pieces joined by the separator give the text back. *)
Lemma split_from_join sep cur s n :
  sep ≠ "" → String.length s ≤ n →
  str_join sep (split_from sep 0 cur s) = String.rev cur +:+ s.
Proof.
  intros Hsep. revert cur s. induction n as [|n IH]; intros cur s Hn.
  { destruct s; [by rewrite str_app_nil_r|simpl in Hn; lia]. }
  destruct s as [|a s]; [by rewrite str_app_nil_r|]. cbn [split_from].
  destruct (startswith (String a s) sep) eqn:Hs.
  - apply startswith_iff in Hs as [r Hr]. destruct sep as [|b sep]; [done|].
    rewrite str_app_cons in Hr. injection Hr as <- Hr. cbn [String.length pred]. rewrite Hr, split_from_skip.
    assert (String.length r ≤ n) as Hlen.
    { subst s. simpl in Hn. rewrite length_app_string in Hn. lia. }
    pose proof (IH "" r Hlen) as Hj. destruct (split_from (String a sep) 0 "" r) as [|w ws] eqn:Hw.
    { exfalso. clear -Hw. revert Hw. generalize "" as c. generalize 0 as k.
      induction r as [|b r IHr]; intros k c; [done|]. cbn [split_from].
      destruct k; [case_match|]; [done|apply IHr|apply IHr]. }
    change (str_join ?x (?y :: w :: ws)) with (y +:+ x +:+ str_join x (w :: ws)). rewrite Hj. done.
  - rewrite IH by (simpl in Hn; lia). rewrite str_rev_cons, str_app_assoc. done.
Qed.

Lemma split_join value sep parts : _split value sep = Ret parts → str_join sep parts = value.
Proof.
  unfold _split. destruct (str_truthy sep) eqn:Hs; [|done]. intros [= <-].
  rewrite (split_from_join _ _ _ (String.length value)); [done|by intros ->|done].
Qed.

(** ** Upper case and the environment *)

(** The lower-case letters among the first 256 code points that have an upper case. *)
Definition lower_case (c : Z) : bool :=
  ((97 <=? c) && (c <=? 122) || (223 <=? c) && (c <=? 255) && negb (c =? 247) || (c =? 181))%Z.

Lemma upper_no_lower s : Forall (λ c, lower_case c = false) (_upper s).
Proof.
  induction s as [|a s IH]; [constructor|]. cbn [_upper]. apply Forall_app. split; [|done].
  destruct a as [[] [] [] [] [] [] [] []]; repeat constructor.
Qed.

(** A string without lower-case letters is left as it is. *)
Lemma upper_fixed s : str_all (λ a, negb (lower_case (code a))) s = true → _upper s = u s.
Proof.
  induction s as [|a s IH]; [done|]. cbn [str_all _upper u]. intros [Ha Hs]%andb_true_iff. rewrite IH by done.
  destruct a as [[] [] [] [] [] [] [] []]; try discriminate Ha; reflexivity.
Qed.

(** Templates see the filters of the plugin under their names, those of Jinja2 under all
    others; its filter [upper] is replaced. *)
Lemma environment_filters builtin dir name :
  dget (env_filters (create_jinja_environment builtin dir)) name =
  (if decide (name = "snakecase") then Some (filter1 (λ s, FStr (_snakecase s)))
   else if decide (name = "upper") then Some (filter1 (λ s, FText (_upper s)))
   else if decide (name = "ext") then Some (filter1 (λ value, FStr (_ext value)))
   else if decide (name = "trim_suffix") then
     Some (filter2 (λ value suffix, Ret (FStr (_trim_suffix value suffix))))
   else if decide (name = "lstrip") then Some (filter2 (λ value prefix, Ret (FStr (_lstrip value prefix))))
   else if decide (name = "split") then
     Some (filter2 (λ value separator, l ← _split value separator; Ret (FList l)))
   else dget builtin name).
Proof.
  unfold create_jinja_environment. cbn [env_filters dupdate fold_left fst snd]. rewrite !dget_dset.
  repeat (case_decide; [simplify_eq; try done|]); try done; exfalso; eauto.
Qed.
