(* ===== verification/Events.v ===== *)
(** * Events from the container: [container_event_handler.py]

    First the handling of one event, whose whole effect is the log: a log record
    is the level, the format and the arguments, as the [logging] module keeps it.
    Then the listener thread and the thread that cancels it, as a transition
    system over the event flag, the socket and both program counters.  What the
    operating system and the clients do is the [input] of a step.  The socket
    follows TCP sockets on Linux: [shutdown] of a socket that is not connected
    and not listening fails, a listening one makes every [accept] fail from then
    on. *)

From Stdlib Require Import Ascii.
From stdpp Require Import numbers relations base strings list.
From S2P Require Import Prelude PyStr PyInt PyFloat Unicode.

(** ** Log records *)

Inductive level := INFO | WARNING | ERROR.

Inductive log_arg :=
  | AStr (s : ustr)
  | AInt (z : Z)
  | AExn (e : exn).

Record log_record := Log {
  lg_level : level;
  lg_msg : string;
  lg_args : list log_arg;
}.

Definition log_state : Type := list log_record.
Definition logging (lv : level) (msg : string) (args : list log_arg) : ST log_state unit :=
  modify (λ logs, logs ++ [Log lv msg args]).

(** ** [datetime] *)

Record datetime := Datetime {
  dt_seconds : Z;          (* since the epoch, UTC *)
  dt_microseconds : Z;
}.

(** The proleptic Gregorian date of a day counted from the epoch. *)
Definition civil_from_days (days : Z) : Z * Z * Z :=
  (let z := days + 719468 in
   let era := z / 146097 in
   let doe := z mod 146097 in
   let yoe := (doe - doe / 1460 + doe / 36524 - doe / 146096) / 365 in
   let doy := doe - (365 * yoe + yoe / 4 - yoe / 100) in
   let mp := (5 * doy + 2) / 153 in
   let month := if mp <? 10 then mp + 3 else mp - 9 in
   (yoe + era * 400 + (if month <=? 2 then 1 else 0), month, doy - (153 * mp + 2) / 5 + 1))%Z.

(** The digits of a natural number, filled up with zeros. *)
Fixpoint zeros (n : nat) : string := match n with O => "" | S n => String "0" (zeros n) end.
Definition zpad (width : nat) (n : Z) : string :=
  zeros (width - String.length (str_int n)) +:+ str_int n.

(** [dt.isoformat()] *)
Definition isoformat (dt : datetime) : string :=
  let s := dt_seconds dt in
  let '(year, month, day) := civil_from_days (s / 86400)%Z in
  let t := (s mod 86400)%Z in
  zpad 4 year +:+ "-" +:+ zpad 2 month +:+ "-" +:+ zpad 2 day +:+ "T" +:+
  zpad 2 (t / 3600)%Z +:+ ":" +:+ zpad 2 (t / 60 mod 60)%Z +:+ ":" +:+ zpad 2 (t mod 60)%Z +:+
  (if (dt_microseconds dt =? 0)%Z then "" else "." +:+ zpad 6 (dt_microseconds dt)) +:+ "+00:00".

(** The whole seconds and the microseconds of the [float] [m * 2 ^ e]: the
    fraction times a million is a [float] again and rounded half to even. *)
Definition split_seconds (m e : Z) : Z * Z :=
  (if 0 <=? e then (m * 2 ^ e, 0)
   else
     let intpart := m / 2 ^ (- e) in
     let fraction := m mod 2 ^ (- e) in
     let us :=
       if fraction =? 0 then 0
       else let '(m', e') := round_binary64 (fraction * 1000000) (2 ^ (- e)) in
            if 0 <=? e' then m' * 2 ^ e' else round_half_even m' (2 ^ (- e')) in
     if 1000000 <=? us then (intpart + 1, us - 1000000) else (intpart, us))%Z.

(** The last second whose year fits the C library, the first after year 9999. *)
Definition LAST_GMTIME : Z := 67768036191676799.
Definition YEAR_10000 : Z := 253402300800.

(** [datetime.fromtimestamp(ms / 1000, timezone.utc)] for [0 <= ms]: the division
    and the conversion to [time_t] may overflow, [gmtime] fails with an [OSError],
    and a year after 9999 is a [ValueError]. *)
Definition fromtimestamp_ms (ms : Z) : res datetime :=
  (let '(m, e) := if ms =? 0 then (0, 0) else round_binary64 ms 1000 in
   if (0 <=? e) && (2 ^ 1024 <=? m * 2 ^ e) then Raise OverflowError
   else
     let '(seconds, us) := split_seconds m e in
     if 2 ^ 63 <? seconds then Raise OverflowError
     else if LAST_GMTIME <? seconds then Raise OSError
     else if YEAR_10000 <=? seconds then
       let '(year, _, _) := civil_from_days (seconds / 86400) in
       Raise (ValueError ("year " +:+ str_int year +:+ " is out of range"))
     else Ret (Datetime seconds us))%Z.

(** ** The handling of an event *)

Section events.
(** [os.environ.get("DEVKIT_START_TIME_MS")] *)
Variable start_time_env : option ustr.

(** The part after the conversion: the latency, when the start is known. *)
Definition log_latency (ts_end : Z) : ST log_state unit :=
  match start_time_env with
  | Some ((_ :: _) as env) =>
      try_catch is_ValueError
        (ts_start ← lift (u_int env);
         let latency_ms := (ts_end - ts_start)%Z in
         logging INFO "Calculated latency until entrypoint end: %d ms" [AInt latency_ms])
        (λ _, logging WARNING "DEVKIT_START_TIME_MS is not a valid integer: %s" [AStr env])
  | _ => logging WARNING "DEVKIT_START_TIME_MS environment variable not found." []
  end.

Definition handle_entrypoint_end_time_ms (value : ustr) : ST log_state unit :=
  try_catch is_ValueError
    (ts_end ← lift (u_int (u_strip value));
     _ ← (if (ts_end <? 0)%Z then raise (ValueError "Timestamp cannot be negative.") else mret tt);
     dt_end ← lift (fromtimestamp_ms ts_end);
     _ ← logging INFO "Successfully parsed entrypoint end time: %s" [AStr (u (isoformat dt_end))];
     log_latency ts_end)
    (λ e, logging ERROR "Failed to parse entrypoint_end_time_ms: %s" [AExn e]).

Definition process_container_event (data : list Z) : ST log_state unit :=
  let decoded_data := u_strip (decode_utf8_replace data) in
  _ ← logging INFO "Container event data: %s" [AStr decoded_data];
  match split_once (code ":") decoded_data with
  | Some (event_name, event_value) =>
      if decide (event_name = u "entrypoint_end_time_ms") then handle_entrypoint_end_time_ms event_value
      else logging WARNING "Unknown container event: %s" [AStr event_name]
  | None => logging WARNING "Malformed container event: %s" [AStr decoded_data]
  end.

(** ** The listener and its cancellation *)

Inductive sock_state := Bound | Listening | ShutDown | Closed.

(** Where the listener thread is. *)
Inductive listener_pc :=
  | AtListen
  | AtCheck
  | AtAccept
  | AtRecv
  | AtProcess (data : list Z)
  | InLoopHandler (e : exn)
  | InOuterHandler (e : exn)
  | AtClose
  | Stopped.

(** Where the thread that calls [SocketCancelEvent.set] is. *)
Inductive cancel_pc := BeforeSet | BeforeShutdown | SetReturned.

Record sys := Sys {
  event_set : bool;
  socket : sock_state;
  lpc : listener_pc;
  cpc : cancel_pc;
  logs : log_state;
}.

Definition goto (pc : listener_pc) (s : sys) : sys := Sys (event_set s) (socket s) pc (cpc s) (logs s).
Definition set_socket (k : sock_state) (s : sys) : sys := Sys (event_set s) k (lpc s) (cpc s) (logs s).
Definition set_logs (l : log_state) (s : sys) : sys := Sys (event_set s) (socket s) (lpc s) (cpc s) l.
Definition log_to (s : sys) (r : log_record) : sys := set_logs (logs s ++ [r]) s.

(** [socket.shutdown(SHUT_RDWR)]; its [OSError] is ignored by the caller. *)
Definition shutdown (k : sock_state) : sock_state :=
  match k with Listening => ShutDown | _ => k end.

(** [SocketCancelEvent.set], one atomic operation at a time. *)
Definition cancel_step (s : sys) : option sys :=
  match cpc s with
  | BeforeSet => Some (Sys true (socket s) (lpc s) BeforeShutdown (logs s))
  | BeforeShutdown => Some (Sys (event_set s) (shutdown (socket s)) (lpc s) SetReturned (logs s))
  | SetReturned => None
  end.

(** The outcome of the operation the listener is at. *)
Inductive input :=
  | Completes
  | Connects
  | Receives (data : list Z)
  | Fails (e : exn).

Variable port : Z.

Definition listening_record : log_record :=
  Log INFO "Container event handler listening on TCP %s:%d" [AStr (u "127.0.0.1"); AInt port].
Definition received_record : log_record := Log INFO "Received event from container" [].

(** The two [except] clauses of the loop; both end it. *)
Definition loop_handler (e : exn) (s : sys) : sys :=
  if is_OSError e then
    goto AtClose
      (if event_set s then s
       else log_to s (Log ERROR "Error in container event listener: %s" [AExn e]))
  else if is_Exception e then
    goto AtClose
      (if event_set s then s
       else log_to s (Log ERROR "Unexpected error in container event listener: %s" [AExn e]))
  else goto AtClose s.

Definition listener_step (i : input) (s : sys) : option sys :=
  match lpc s, i with
  | AtListen, Completes => Some (goto AtCheck (log_to (set_socket Listening s) listening_record))
  | AtListen, Fails e => if is_OSError e then Some (goto (InOuterHandler e) s) else None
  | AtCheck, Completes => Some (goto (if event_set s then AtClose else AtAccept) s)
  | AtAccept, Connects =>
      match socket s with Listening => Some (goto AtRecv s) | _ => None end
  | AtAccept, Fails e => if is_OSError e then Some (goto (InLoopHandler e) s) else None
  | AtRecv, Receives data =>
      if length data <=? 1024 then
        match data with
        | [] => Some (goto AtCheck s)
        | _ => Some (goto (AtProcess data) (log_to s received_record))
        end
      else None
  | AtRecv, Fails e => if is_OSError e then Some (goto (InLoopHandler e) s) else None
  | AtProcess data, Completes =>
      match process_container_event data (logs s) with
      | (Ret _, l) => Some (goto AtCheck (set_logs l s))
      | (Raise e, l) => Some (goto (InLoopHandler e) (set_logs l s))
      end
  | InLoopHandler e, Completes => Some (loop_handler e s)
  | InOuterHandler e, Completes =>
      Some (goto AtClose (log_to s (Log ERROR "Failed in container event listener: %s" [AExn e])))
  | AtClose, Completes => Some (goto Stopped (set_socket Closed s))
  | _, _ => None
  end.

(** The state in which the listener thread starts. *)
Definition initial : sys := Sys false Bound AtListen BeforeSet [].

(** Runs of the two threads. *)
Inductive action :=
  | Listener (i : input)
  | Cancel.

Definition act (a : action) (s : sys) : option sys :=
  match a with
  | Listener i => listener_step i s
  | Cancel => cancel_step s
  end.

Fixpoint run (tr : list action) (s : sys) : option sys :=
  match tr with
  | [] => Some s
  | a :: tr => s' ← act a s; run tr s'
  end.
End events.

(** [bound] is the port of the socket, or the error of creating or binding it; the result
    is the name of the thread, its state with that of the event, and the port. *)
Definition start_container_event_handler (bound : res Z) : res (string * sys * Z) :=
  port ← bound;
  Ret ("ContainerEventHandler-" +:+ str_int port, initial, port).

(** A run: the entrypoint reports its end, then the container is stopped. *)
Example run_once :
  (λ s, (lpc s, socket s, lg_msg <$> logs s)) <$>
    run (Some (u "1767225600000")) 40123
      [Listener Completes; Listener Completes; Listener Connects;
       Listener (Receives (u "entrypoint_end_time_ms:1767225601500")); Listener Completes;
       Listener Completes; Cancel; Cancel; Listener (Fails OSError); Listener Completes; Listener Completes]
      initial =
  Some (Stopped, Closed,
        ["Container event handler listening on TCP %s:%d"; "Received event from container";
         "Container event data: %s"; "Successfully parsed entrypoint end time: %s";
         "Calculated latency until entrypoint end: %d ms"]).
Proof. vm_compute. reflexivity. Qed.

Example isoformat_examples :
  (λ ms, match fromtimestamp_ms ms with Ret dt => isoformat dt | Raise _ => "" end) <$>
    [0; 951782399999; 1767225601500; 253402300799999]%Z =
  ["1970-01-01T00:00:00+00:00"; "2000-02-28T23:59:59.999000+00:00"; "2026-01-01T00:00:01.500000+00:00";
   "9999-12-31T23:59:59.998993+00:00"].
Proof. vm_compute. reflexivity. Qed.
