(* ===== verification/Timestamps.v ===== *)
(** * Timestamps through [float]

    [handle_entrypoint_end_time_ms] divides milliseconds by 1000 and converts the
    [float] to a date.  The quotient has 53 bits and the fraction is rounded
    twice; the date is exact as long as the seconds fit in 33 bits.  Beyond the
    range of [gmtime] the conversion raises an exception that is no [ValueError]. *)

From Stdlib Require Import Ascii.
From stdpp Require Import numbers relations base strings list.
From S2P Require Import Prelude PyStr PyInt PyFloat Events.

Local Open Scope Z_scope.

(** The exponent of a quotient, from bounds on its logarithm. *)
Lemma binary_exponent_le num den l :
  Z.log2 num - Z.log2 den ≤ l → binary_exponent num den ≤ l - 52.
Proof. unfold binary_exponent. intros Hl. destruct (if 0 <=? _ then _ else _); lia. Qed.

Lemma log2_lt_pow a n : 0 < a → a < 2 ^ n → 0 ≤ n → Z.log2 a ≤ n - 1.
Proof. intros Ha Hn H0. pose proof (proj1 (Z.log2_lt_pow2 a n Ha) Hn). lia. Qed.

Lemma millis_exponent ts : 0 < ts < 2 ^ 33 * 1000 → binary_exponent ts 1000 ≤ -20.
Proof.
  intros Hts.
  assert (Z.log2 ts ≤ 42) as Hlog by (pose proof (log2_lt_pow ts 43); lia).
  destruct (decide (Z.log2 ts = 42)) as [H42|Hne].
  - unfold binary_exponent. rewrite H42. change (Z.log2 1000) with 9.
    destruct (Z.leb_spec 0 (42 - 9)) as [_|?]; [|lia].
    destruct (Z.leb_spec (1000 * 2 ^ (42 - 9)) ts); lia.
  - etrans; [apply (binary_exponent_le _ _ 32)|lia]. change (Z.log2 1000) with 9. lia.
Qed.

(** The fraction of a second, as a multiple of [1 / P]. *)
Lemma fraction_of_quotient m s r P :
  2 ^ 20 ≤ P → 0 ≤ s → 0 ≤ r < 1000 → Z.abs (2 * (1000 * m - (1000 * s + r) * P)) ≤ 1000 →
  m / P = s ∧ Z.abs (1000 * (m mod P) - r * P) ≤ 500 ∧ (m mod P = 0 ↔ r = 0).
Proof.
  intros HP Hs Hr Hm. set (f := m - P * s).
  assert (Z.abs (1000 * f - r * P) ≤ 500) as Hf by (subst f; nia).
  assert (r = 0 → f = 0) as H0 by (intros ->; lia).
  assert (0 ≤ f < P ∧ (f = 0 → r = 0)) as [Hfb Hf0].
  { destruct (decide (r = 0)) as [->|Hne]; [rewrite H0 by done; lia|].
    assert (P ≤ r * P ≤ 999 * P) by nia. lia. }
  assert (m = P * s + f) as Hmf by (subst f; lia).
  rewrite <-(Z.mod_unique m P s f (or_introl Hfb) Hmf), <-(Z.div_unique m P s f (or_introl Hfb) Hmf).
  split_and!; [done|done|]. split; auto.
Qed.

(** The second rounding gives the thousands of microseconds. *)
Lemma microseconds_of_fraction f r k :
  20 ≤ k → 0 < f < 2 ^ k → 0 ≤ r < 1000 → Z.abs (1000 * f - r * 2 ^ k) ≤ 500 →
  (let '(m, e) := round_binary64 (f * 1000000) (2 ^ k) in
   if 0 <=? e then m * 2 ^ e else round_half_even m (2 ^ (- e))) = 1000 * r.
Proof.
  intros Hk Hf Hr Hd. unfold round_binary64.
  assert (2 ^ 20 ≤ 2 ^ k) as HP by (apply Z.pow_le_mono_r; lia).
  assert (binary_exponent (f * 1000000) (2 ^ k) ≤ -33) as He.
  { change (-33) with (19 - 52). apply binary_exponent_le. rewrite Z.log2_pow2 by lia.
    pose proof (log2_lt_pow (f * 1000000) (k + 20)) as Hl. rewrite Z.pow_add_r in Hl by lia. lia. }
  set (e := binary_exponent _ _) in *. destruct (Z.leb_spec 0 e); [lia|].
  assert (2 ^ 33 ≤ 2 ^ (- e)) as HQ by (apply Z.pow_le_mono_r; lia).
  set (P := 2 ^ k) in *. set (Q := 2 ^ (- e)) in *.
  pose proof (round_half_even_spec (f * 1000000 * Q) P) as Hm.
  set (m := round_half_even (f * 1000000 * Q) P) in *. specialize (Hm ltac:(lia)).
  apply round_half_even_unique; [lia|].
  assert (0 < (P - 1000000) * (Q - 1) - 1000000) as Hroom by nia.
  assert (Z.abs (Q * (1000000 * f - 1000 * r * P)) ≤ Q * 500000) as Hb.
  { rewrite Z.abs_mul, (Z.abs_eq Q) by lia. apply Z.mul_le_mono_nonneg_l; lia. }
  assert (Z.abs (2 * (P * (Q * (1000 * r) - m))) < P * Q) as Hlt by lia.
  assert (2 * (P * (Q * (1000 * r) - m)) = P * (2 * (Q * (1000 * r) - m))) as Hr2 by ring.
  rewrite Hr2, Z.abs_mul, (Z.abs_eq P) in Hlt by lia. nia.
Qed.

(** Milliseconds below [2 ^ 33] seconds are converted exactly. *)
Lemma fromtimestamp_exact ts :
  0 ≤ ts < 2 ^ 33 * 1000 → fromtimestamp_ms ts = Ret (Datetime (ts / 1000) (ts mod 1000 * 1000)).
Proof.
  intros Hts. unfold fromtimestamp_ms. destruct (Z.eqb_spec ts 0) as [->|Hne]; [done|].
  pose proof (millis_exponent ts ltac:(lia)) as He. unfold round_binary64.
  set (e := binary_exponent ts 1000) in *. destruct (Z.leb_spec 0 e) as [?|_]; [lia|].
  pose proof (round_half_even_spec (ts * 2 ^ (- e)) 1000 ltac:(lia)) as Hm.
  set (m := round_half_even _ _) in *.
  pose proof (Z.div_mod ts 1000 ltac:(lia)) as Hdm. pose proof (Z.mod_pos_bound ts 1000 ltac:(lia)) as Hr.
  set (s := ts / 1000) in *. set (r := ts mod 1000) in *.
  assert (2 ^ 20 ≤ 2 ^ (- e)) as HP by (apply Z.pow_le_mono_r; lia).
  destruct (fraction_of_quotient m s r (2 ^ (- e))) as (Hs & Hf & H0); [lia|lia|lia|by rewrite <-Hdm|].
  pose proof (Z.mod_pos_bound m (2 ^ (- e)) ltac:(lia)) as Hfb.
  assert (split_seconds m e = (s, r * 1000)) as ->.
  { unfold split_seconds. destruct (Z.leb_spec 0 e) as [?|_]; [lia|].
    destruct (Z.eqb_spec (m mod 2 ^ (- e)) 0) as [Hz|Hz].
    - apply H0 in Hz. rewrite Hs, Hz. done.
    - rewrite (microseconds_of_fraction _ r) by lia. rewrite Hs.
      destruct (Z.leb_spec 1000000 (1000 * r)); [lia|]. f_equal. lia. }
  cbn [andb]. unfold LAST_GMTIME, YEAR_10000.
  repeat (match goal with |- context [?a <? ?b] => destruct (Z.ltb_spec a b); [lia|] end).
  destruct (Z.leb_spec 253402300800 s); [lia|done].
Qed.

(** ** Timestamps out of range *)

(** The first number of milliseconds that [gmtime] refuses: its quotient by 1000
    is rounded up to a multiple of eight. *)
Definition FIRST_BAD_MS : Z := 67768036191676796000.

Lemma millis_exponent_pow ts : 0 < ts → 0 ≤ binary_exponent ts 1000 →
  2 ^ 61 * 2 ^ binary_exponent ts 1000 ≤ ts.
Proof.
  intros Hts He. pose proof (binary_exponent_le ts 1000 (Z.log2 ts - 9)) as Hl.
  change (Z.log2 1000) with 9 in Hl. specialize (Hl ltac:(lia)).
  rewrite <-Z.pow_add_r by lia. transitivity (2 ^ Z.log2 ts); [apply Z.pow_le_mono_r; lia|].
  by apply Z.log2_spec.
Qed.

Lemma log2_at ts n : 2 ^ n ≤ ts < 2 ^ (n + 1) → 0 ≤ n → Z.log2 ts = n.
Proof. intros Hts Hn. apply Z.log2_unique; [done|]. by rewrite <-Z.add_1_r. Qed.

(** From [2 ^ 55] to [2 ^ 56] seconds the quotient is a multiple of eight. *)
Lemma millis_exponent_3 ts : 2 ^ 55 * 1000 ≤ ts < 2 ^ 56 * 1000 → binary_exponent ts 1000 = 3.
Proof.
  intros Hts. unfold binary_exponent. change (Z.log2 1000) with 9.
  destruct (decide (ts < 2 ^ 65)).
  - rewrite (log2_at ts 64) by lia. change (0 <=? 64 - 9) with true. cbv iota.
    by rewrite (proj2 (Z.leb_le _ _)) by lia.
  - rewrite (log2_at ts 65) by lia. change (0 <=? 65 - 9) with true. cbv iota.
    by rewrite (proj2 (Z.leb_gt _ _)) by lia.
Qed.

Lemma millis_exponent_4 ts : 2 ^ 56 * 1000 ≤ ts → 4 ≤ binary_exponent ts 1000.
Proof.
  intros Hts. unfold binary_exponent. change (Z.log2 1000) with 9.
  assert (65 ≤ Z.log2 ts) as Hl by (apply Z.log2_le_pow2; lia).
  destruct (decide (Z.log2 ts = 65)) as [->|Hne].
  - change (0 <=? 65 - 9) with true. cbv iota. rewrite (proj2 (Z.leb_le _ _)) by lia. lia.
  - destruct (if 0 <=? _ then _ else _); lia.
Qed.

(** A conversion to more seconds than [gmtime] takes fails, one to fewer gives a
    date or a [ValueError]. *)
Lemma convert_cases (ts m e seconds us : Z) :
  ts ≠ 0 → round_binary64 ts 1000 = (m, e) → split_seconds m e = (seconds, us) →
  (LAST_GMTIME < seconds → fromtimestamp_ms ts = Raise OSError ∨ fromtimestamp_ms ts = Raise OverflowError) ∧
  (seconds ≤ LAST_GMTIME → (0 ≤ e → m * 2 ^ e < 2 ^ 1024) →
   ∀ x, fromtimestamp_ms ts = Raise x → is_ValueError x = true).
Proof.
  intros Hts Hr Hs. unfold fromtimestamp_ms. rewrite (proj2 (Z.eqb_neq ts 0)), Hr by done.
  rewrite Hs. split.
  - intros Hl. destruct ((0 <=? e) && _); [by right|]. destruct (2 ^ 63 <? seconds); [by right|].
    rewrite (proj2 (Z.ltb_lt _ _)) by done. by left.
  - intros Hl Hm x.
    destruct ((0 <=? e) && (2 ^ 1024 <=? m * 2 ^ e)) eqn:Ho.
    { apply andb_true_iff in Ho as [H1%Z.leb_le H2%Z.leb_le]. specialize (Hm H1). lia. }
    rewrite (proj2 (Z.ltb_ge (2 ^ 63) seconds)) by (unfold LAST_GMTIME in Hl; lia).
    rewrite (proj2 (Z.ltb_ge _ _)) by done.
    destruct (YEAR_10000 <=? seconds); [|done].
    destruct (civil_from_days _) as [[y ?] ?]. by intros [= <-].
Qed.

(** The seconds of a quotient with a negative exponent. *)
Lemma seconds_negative_exponent m e : e < 0 → 0 ≤ m → (split_seconds m e).1 ≤ m / 2 ^ (- e) + 1.
Proof.
  intros He Hm. unfold split_seconds. destruct (Z.leb_spec 0 e); [lia|].
  destruct (1000000 <=? _); simpl; lia.
Qed.

Lemma seconds_small ts :
  0 < ts < 2 ^ 55 * 1000 →
  let '(m, e) := round_binary64 ts 1000 in
  (split_seconds m e).1 ≤ LAST_GMTIME ∧ (0 ≤ e → m * 2 ^ e < 2 ^ 1024).
Proof.
  intros Hts. unfold round_binary64, LAST_GMTIME. set (e := binary_exponent ts 1000).
  assert (e ≤ 3) as He.
  { subst e. change 3 with (55 - 52). apply binary_exponent_le. change (Z.log2 1000) with 9.
    pose proof (log2_lt_pow ts 65). lia. }
  destruct (Z.leb_spec 0 e) as [He0|He0].
  - assert (1 ≤ 2 ^ e ≤ 8) as HX.
    { change 8 with (2 ^ 3). change 1 with (2 ^ 0) at 1. split; apply Z.pow_le_mono_r; lia. }
    pose proof (round_half_even_spec ts (1000 * 2 ^ e) ltac:(lia)) as Hm.
    set (m := round_half_even _ _) in *. unfold split_seconds.
    rewrite (proj2 (Z.leb_le 0 e)) by done. cbn [fst].
    assert (m * 2 ^ e ≤ 2 ^ 55 + 4) by nia.
    split; [lia|]. intros _. assert (2 ^ 55 + 4 < 2 ^ 1024) by (vm_compute; done). lia.
  - assert (1 ≤ 2 ^ (- e)) as HX by (change 1 with (2 ^ 0) at 1; apply Z.pow_le_mono_r; lia).
    pose proof (round_half_even_spec (ts * 2 ^ (- e)) 1000 ltac:(lia)) as Hm.
    set (m := round_half_even _ _) in *.
    assert (0 ≤ m) by nia. split; [|lia].
    etrans; [by apply seconds_negative_exponent|].
    assert (m / 2 ^ (- e) < 2 ^ 55 + 2); [|lia]. apply Z.div_lt_upper_bound; [lia|]. nia.
Qed.

(** The conversion ends in an exception other than [ValueError] exactly from
    [FIRST_BAD_MS] on. *)
Lemma fromtimestamp_fails ts :
  0 ≤ ts →
  (FIRST_BAD_MS ≤ ts → fromtimestamp_ms ts = Raise OSError ∨ fromtimestamp_ms ts = Raise OverflowError) ∧
  (ts < FIRST_BAD_MS → ∀ x, fromtimestamp_ms ts = Raise x → is_ValueError x = true).
Proof.
  intros H0. destruct (decide (ts = 0)) as [->|Hne].
  { split; [unfold FIRST_BAD_MS; lia|done]. }
  destruct (round_binary64 ts 1000) as [m e] eqn:Hr. destruct (split_seconds m e) as [seconds us] eqn:Hs.
  destruct (convert_cases ts m e seconds us Hne Hr Hs) as [Hbad Hgood].
  destruct (decide (ts < 2 ^ 55 * 1000)) as [Hlt|Hge].
  { pose proof (seconds_small ts ltac:(lia)) as Hsm. rewrite Hr, Hs in Hsm. destruct Hsm as [Hsm He].
    split; [unfold FIRST_BAD_MS; lia|]. intros _. by apply Hgood. }
  unfold round_binary64 in Hr. destruct (decide (ts < 2 ^ 56 * 1000)) as [Hlt|Hge'].
  - rewrite millis_exponent_3 in Hr by lia. change (0 <=? 3) with true in Hr. cbv iota in Hr.
    injection Hr as <- <-. change (1000 * 2 ^ 3) with 8000 in *.
    pose proof (round_half_even_spec ts 8000 ltac:(lia)) as Hm.
    unfold split_seconds in Hs. change (0 <=? 3) with true in Hs. cbv iota in Hs.
    change (2 ^ 3) with 8 in *. injection Hs as <- <-.
    unfold FIRST_BAD_MS, LAST_GMTIME in *. split.
    + intros Hf. apply Hbad.
      destruct (decide (ts = 67768036191676796000)) as [->|?]; [vm_compute; done|lia].
    + intros Hf. apply Hgood; [lia|]. intros _.
      assert (2 ^ 57 < 2 ^ 1024) by (vm_compute; done). lia.
  - pose proof (millis_exponent_4 ts ltac:(lia)) as He4.
    pose proof (millis_exponent_pow ts ltac:(lia) ltac:(lia)) as Hpow.
    set (e0 := binary_exponent ts 1000) in *. rewrite (proj2 (Z.leb_le 0 e0)) in Hr by lia.
    injection Hr as <- <-.
    assert (1 ≤ 2 ^ e0) as HX by (change 1 with (2 ^ 0) at 1; apply Z.pow_le_mono_r; lia).
    pose proof (round_half_even_spec ts (1000 * 2 ^ e0) ltac:(lia)) as Hm.
    unfold split_seconds in Hs. rewrite (proj2 (Z.leb_le 0 e0)) in Hs by lia. injection Hs as <- <-.
    unfold FIRST_BAD_MS, LAST_GMTIME in *. split; [|lia]. intros _. apply Hbad. nia.
Qed.
