(* ===== verification/EventTheorems.v ===== *)
(** * What the container event handler guarantees

    The cancellation protocol of the listener over all interleavings of the two
    threads, the log of a run, and the handling of the one event there is. *)

From Stdlib Require Import Ascii.
From stdpp Require Import numbers relations base strings list.
From S2P Require Import Prelude PyStr PyInt PyFloat Unicode Events Timestamps.

(** Splits a step of the listener into its cases. *)
Ltac listener_cases :=
  match goal with
  | H : listener_step _ _ ?i ?s = Some _ |- _ =>
      unfold listener_step in H; destruct (lpc s) eqn:?, i; try discriminate H;
      repeat match type of H with context [match ?x with _ => _ end] => destruct x eqn:?; try discriminate H end;
      injection H as <-
  end.

Section machine.
Context (start_time_env : option ustr) (port : Z).

Local Notation lstep := (listener_step start_time_env port).
Local Notation init := initial.

(** The interleavings of the two threads. *)
Inductive step (s s' : sys) : Prop :=
  | step_listener i : lstep i s = Some s' → step s s'
  | step_cancel : cancel_step s = Some s' → step s s'.

Definition reachable (s : sys) : Prop := rtc step init s.

(** ** The invariant *)

(** What the position of the listener says about the socket. *)
Definition socket_ok (s : sys) : Prop :=
  match lpc s with
  | AtListen | InOuterHandler _ => socket s = Bound
  | AtClose => socket s ≠ Closed
  | Stopped => socket s = Closed
  | _ => socket s = Listening ∨ socket s = ShutDown
  end.

(** A flag that is set is seen by the listener, or [accept] is woken up. *)
Definition wakeup_ok (s : sys) : Prop :=
  (event_set s = true ↔ cpc s ≠ BeforeSet) ∧
  (lpc s = AtAccept → cpc s = SetReturned → socket s = ShutDown).

Definition inv (s : sys) : Prop := socket_ok s ∧ wakeup_ok s.

Lemma inv_initial : inv init.
Proof. repeat split; simpl; done. Qed.

Lemma loop_handler_closes e s :
  lpc (loop_handler e s) = AtClose ∧ socket (loop_handler e s) = socket s ∧
  event_set (loop_handler e s) = event_set s ∧ cpc (loop_handler e s) = cpc s.
Proof.
  unfold loop_handler. destruct (is_OSError e), (is_Exception e), (event_set s) eqn:Hev;
    split_and!; first [reflexivity|exact Hev].
Qed.

Lemma inv_listener i s s' : inv s → lstep i s = Some s' → inv s'.
Proof.
  intros (Hk & He & Ha) Hs. unfold socket_ok in Hk. listener_cases;
    try destruct (loop_handler_closes e s) as (Hl' & Hk' & He' & Hc');
    unfold inv, socket_ok, wakeup_ok; simpl; rewrite ?Hl', ?Hk', ?He', ?Hc'; intuition congruence.
Qed.

Lemma inv_cancel s s' : inv s → cancel_step s = Some s' → inv s'.
Proof.
  unfold inv, socket_ok, wakeup_ok, cancel_step. intros (Hk & He & Ha) Hs.
  destruct (cpc s) eqn:Hc; [..|done]; injection Hs as <-; simpl;
    destruct (lpc s), (socket s); simpl in *; intuition congruence.
Qed.

Lemma inv_reachable s : reachable s → inv s.
Proof.
  unfold reachable. generalize inv_initial. generalize init. intros s0 Hs0 Hs.
  induction Hs as [|s1 s2 s3 [i Hstep|Hstep] _ IH]; [done|..]; apply IH;
    eauto using inv_listener, inv_cancel.
Qed.

(** ** Cancellation *)

(** Operations that return only when a client connects or sends. *)
Definition waits_for_client (s : sys) : bool :=
  match lpc s, socket s with
  | AtAccept, Listening | AtRecv, _ => true
  | _, _ => false
  end.

(** Steps to the end once the flag is set and the socket is shut down. *)
Definition rank (pc : listener_pc) : nat :=
  match pc with
  | Stopped => 0
  | AtClose => 1
  | AtCheck | InLoopHandler _ | InOuterHandler _ => 2
  | AtListen | AtAccept | AtProcess _ => 3
  | AtRecv => 4
  end.

Lemma cancelled_rank i s s' :
  inv s → cpc s = SetReturned → lstep i s = Some s' → rank (lpc s') < rank (lpc s) ∧ cpc s' = SetReturned.
Proof.
  intros (Hk & He & Ha) Hc Hs.
  assert (event_set s = true) as Hev by (apply He; congruence).
  listener_cases; simpl; try (split; [lia|done]); try congruence.
  - naive_solver.
  - destruct (loop_handler_closes e s) as (-> & _ & _ & ->). split; [simpl; lia|done].
Qed.

Lemma cancelled_steps n s s' :
  inv s → cpc s = SetReturned → nsteps (λ s s', ∃ i, lstep i s = Some s') n s s' → n ≤ rank (lpc s).
Proof.
  intros Hi Hc Hn. induction Hn as [|n s1 s2 s3 [i Hs] _ IH]; [lia|].
  destruct (cancelled_rank i s1 s2 Hi Hc Hs) as [Hr Hc2].
  specialize (IH (inv_listener i s1 s2 Hi Hs) Hc2). lia.
Qed.

(** Unless it waits for a client or has stopped, the listener can go on. *)
Lemma listener_progress s :
  inv s → waits_for_client s = false → lpc s ≠ Stopped → ∃ i s', lstep i s = Some s'.
Proof.
  unfold inv, socket_ok, waits_for_client. intros (Hk & _) Hw Hns.
  destruct (lpc s) eqn:Hl; try done;
    try (exists Completes; unfold listener_step; rewrite Hl; eauto; done).
  - exists (Fails OSError). unfold listener_step. rewrite Hl. simpl. eauto.
  - exists Completes. unfold listener_step. rewrite Hl.
    destruct (process_container_event _ _ _) as [[]]; eauto.
Qed.
End machine.

(** C7: a cancellation is never lost.  In whatever order the listener and the
    thread that calls [set] are interleaved, once [set] has returned the listener
    does not wait for a connection any more, takes at most four further steps,
    can always take the next one unless an accepted client keeps it waiting for
    data, and has closed the socket when it stops. *)
Theorem cancellation_not_lost start_time_env port s :
  reachable start_time_env port s → cpc s = SetReturned →
  (waits_for_client s = true → lpc s = AtRecv) ∧
  (waits_for_client s = false → lpc s ≠ Stopped → ∃ i s', listener_step start_time_env port i s = Some s') ∧
  (∀ n s', nsteps (λ s s', ∃ i, listener_step start_time_env port i s = Some s') n s s' → n ≤ 4) ∧
  (lpc s = Stopped → socket s = Closed).
Proof.
  intros Hr%inv_reachable Hc. pose proof Hr as (Hk & He & Ha). split_and!.
  - unfold waits_for_client. destruct (lpc s) eqn:Hl; try done. rewrite (Ha eq_refl Hc). done.
  - by apply listener_progress.
  - intros n s' Hn. etrans; [by eapply cancelled_steps|]. unfold rank. destruct (lpc s); lia.
  - intros Hl. unfold socket_ok in Hk. by rewrite Hl in Hk.
Qed.

Lemma cancellation_not_lost_witness :
  ∃ s, reachable None 40123 s ∧ cpc s = SetReturned ∧ lpc s = AtAccept ∧
       (∀ n s', nsteps (λ s s', ∃ i, listener_step None 40123 i s = Some s') n s s' → n ≤ 4).
Proof.
  set (s := Sys true ShutDown AtAccept SetReturned [listening_record 40123]).
  assert (reachable None 40123 s) as Hr.
  { do 2 (eapply rtc_l; [apply (step_listener _ _ _ _ Completes); reflexivity|]).
    do 2 (eapply rtc_l; [apply step_cancel; reflexivity|]). apply rtc_refl. }
  exists s. split_and!; [exact Hr|reflexivity|reflexivity|].
  apply (cancellation_not_lost None 40123 s Hr eq_refl).
Defined.

(** ** The log *)

(** A computation that only adds to the log. *)
Definition appends {A} (m : ST log_state A) : Prop :=
  ∀ l, m l = ((m []).1, l ++ (m []).2).

Lemma appends_ret {A} (a : A) : appends (mret a).
Proof. intros l. unfold mret, ST_ret. simpl. by rewrite app_nil_r. Qed.
Lemma appends_raise {A} e : appends (raise (A := A) e).
Proof. intros l. unfold raise. simpl. by rewrite app_nil_r. Qed.
Lemma appends_lift {A} (r : res A) : appends (lift r).
Proof. intros l. unfold lift. simpl. by rewrite app_nil_r. Qed.
Lemma appends_logging lv msg args : appends (logging lv msg args).
Proof. done. Qed.
Lemma appends_bind {A B} (m : ST log_state A) (f : A → ST log_state B) :
  appends m → (∀ a, appends (f a)) → appends (m ≫= f).
Proof.
  intros Hm Hf l. unfold mbind, ST_bind. rewrite (Hm l). destruct (m []) as [[a|e] l']; [|done]. simpl.
  rewrite (Hf a (l ++ l')), (Hf a l'). simpl. by rewrite (assoc_L (++)).
Qed.
Lemma appends_catch {A} h (m : ST log_state A) (f : exn → ST log_state A) :
  appends m → (∀ e, appends (f e)) → appends (try_catch h m f).
Proof.
  intros Hm Hf l. unfold try_catch. rewrite (Hm l). destruct (m []) as [[a|e] l']; [done|]. simpl.
  destruct (h e); [|done]. rewrite (Hf e (l ++ l')), (Hf e l'). simpl. by rewrite (assoc_L (++)).
Qed.

Create HintDb log_appends.
#[local] Hint Resolve appends_ret appends_raise appends_lift appends_logging : log_appends.

(** Follows the structure of a computation down to its log records. *)
Ltac solve_appends :=
  repeat first
    [ solve [auto with log_appends nocore]
    | apply appends_bind; [|intros ?]
    | apply appends_catch; [|intros ?]
    | match goal with |- appends (match ?x with _ => _ end) => destruct x end ].

Lemma process_appends env data : appends (process_container_event env data).
Proof. unfold process_container_event, handle_entrypoint_end_time_ms, log_latency. solve_appends. Qed.

Section log.
Context (start_time_env : option ustr) (port : Z).

(** The records of one event. *)
Definition event_records (data : list Z) : log_state :=
  received_record :: (process_container_event start_time_env data []).2.

(** An event whose handling returns. *)
Definition event_ok (data : list Z) : bool :=
  match (process_container_event start_time_env data []).1 with Ret _ => true | Raise _ => false end.

(** The data received in a run. *)
Definition received (tr : list action) : list (list Z) :=
  omap (λ a, match a with Listener (Receives ((_ :: _) as data)) => Some data | _ => None end) tr.

(** A run in which system calls fail only after the cancellation has begun, and
    [listen] does not fail. *)
Fixpoint quiet (cancelled started : bool) (tr : list action) : bool :=
  match tr with
  | [] => true
  | Cancel :: tr => quiet true started tr
  | Listener (Fails _) :: tr => cancelled && started && quiet cancelled true tr
  | Listener _ :: tr => quiet cancelled true tr
  end.

(** The records the listener is about to write. *)
Definition owed (s : sys) : log_state :=
  match lpc s with
  | AtListen => [listening_record port]
  | AtProcess data => (process_container_event start_time_env data []).2
  | _ => []
  end.

Definition started (s : sys) : bool := match lpc s with AtListen => false | _ => true end.

(** The states of quiet runs. *)
Definition quiet_state (s : sys) : Prop :=
  match lpc s with
  | InOuterHandler _ => False
  | InLoopHandler _ => event_set s = true
  | AtProcess data => event_ok data = true
  | _ => True
  end.

(** The handler is quiet once the flag is set. *)
Lemma loop_handler_quiet e s : event_set s = true → loop_handler e s = goto AtClose s.
Proof. unfold loop_handler. intros ->. by destruct (is_OSError e), (is_Exception e). Qed.

Lemma process_logs data s r l :
  process_container_event start_time_env data (logs s) = (r, l) →
  r = (process_container_event start_time_env data []).1 ∧
  l = logs s ++ (process_container_event start_time_env data []).2.
Proof. rewrite process_appends. by intros [= <- <-]. Qed.

Lemma quiet_step a s s' tr :
  inv s → act start_time_env port a s = Some s' → quiet_state s → quiet (event_set s) (started s) (a :: tr) = true →
  Forall (λ d, event_ok d = true) (received [a]) →
  quiet_state s' ∧ quiet (event_set s') (started s') tr = true ∧
  logs s' ++ owed s' = logs s ++ owed s ++ mjoin (event_records <$> received [a]).
Proof.
  intros (_ & He & _) Hs Hq Htr Hok. destruct a as [i|]; simpl act in Hs.
  2: { unfold cancel_step in Hs. unfold quiet_state, started, owed in *.
       destruct (cpc s); try discriminate Hs; injection Hs as <-; simpl in *; rewrite app_nil_r;
         (split; [by destruct (lpc s)|]); [done|]. by rewrite (proj2 He). }
  unfold quiet_state, started, owed in *. listener_cases; rewrite ?Heql in *; simpl in *;
    try (apply andb_true_iff in Htr as [[Hev ?]%andb_true_iff Htr]; rewrite ?Hev in *);
    try match goal with H : process_container_event _ _ _ = _ |- _ => apply process_logs in H as [Hr ->] end;
    rewrite ?loop_handler_quiet, ?app_nil_r by done; simpl; rewrite ?app_nil_r; try done.
  - by rewrite Heqb.
  - by rewrite Heqb.
  - split_and!; [by inversion Hok|done|by rewrite <-(assoc_L (++))].
  - unfold event_ok in Hq. by rewrite <-Hr in Hq.
Qed.

Lemma quiet_run tr s s' :
  inv s → run start_time_env port tr s = Some s' → quiet_state s →
  quiet (event_set s) (started s) tr = true → Forall (λ d, event_ok d = true) (received tr) →
  logs s' ++ owed s' = logs s ++ owed s ++ mjoin (event_records <$> received tr).
Proof.
  revert s. induction tr as [|a tr IH]; intros s Hi Hrun Hq Htr Hok.
  { injection Hrun as <-. simpl. by rewrite app_nil_r. }
  cbn [run] in Hrun. apply bind_Some in Hrun as (s1 & Hs & Hrun).
  change (a :: tr) with ([a] ++ tr) in Hok |- *. unfold received in *. rewrite omap_app in *.
  apply Forall_app in Hok as [Hok1 Hok2].
  destruct (quiet_step a s s1 tr Hi Hs Hq Htr Hok1) as (Hq1 & Htr1 & Hlog).
  assert (inv s1) as Hi1.
  { destruct a; [by eapply inv_listener|by eapply inv_cancel]. }
  rewrite (IH s1 Hi1 Hrun Hq1 Htr1 Hok2). unfold received in Hlog.
  rewrite fmap_app, (join_app (A := log_record)), !(assoc_L (++)), Hlog. by rewrite !(assoc_L (++)).
Qed.
(** ** The log of any run *)

(** A failed system call, or the last event received, whose handling failed. *)
Definition failure (tr : list action) (e : exn) : Prop :=
  Listener (Fails e) ∈ tr ∨
  ∃ data, last (received tr) = Some data ∧ (process_container_event start_time_env data []).1 = Raise e.

(** At most one complaint, about a failure. *)
Definition complaint (tr : list action) (l : log_state) : Prop :=
  l = [] ∨ ∃ msg e, l = [Log ERROR msg [AExn e]] ∧ failure tr e.

Definition all_records (tr : list action) : log_state := mjoin (event_records <$> received tr).

(** What the log holds when the listener is where it is. *)
Definition log_inv (tr : list action) (s : sys) : Prop :=
  match lpc s with
  | AtListen => logs s = [] ∧ received tr = []
  | InOuterHandler e => logs s = [] ∧ received tr = [] ∧ failure tr e
  | InLoopHandler e => logs s = listening_record port :: all_records tr ∧ failure tr e
  | AtProcess data => logs s ++ owed s = listening_record port :: all_records tr ∧ last (received tr) = Some data
  | AtClose | Stopped =>
      ∃ start l, logs s = start ++ all_records tr ++ l ∧ complaint tr l ∧
                 (start = [listening_record port] ∨ start = [] ∧ received tr = [])
  | _ => logs s = listening_record port :: all_records tr
  end.

Lemma all_records_snoc tr a : all_records (tr ++ [a]) = all_records tr ++ all_records [a].
Proof. unfold all_records, received. by rewrite omap_app, fmap_app, (join_app (A := log_record)). Qed.

Lemma received_snoc tr a : received (tr ++ [a]) = received tr ++ received [a].
Proof. unfold received. by rewrite omap_app. Qed.

Lemma failure_snoc tr a e : received [a] = [] → failure tr e → failure (tr ++ [a]) e.
Proof.
  intros Ha [Hf|Hd]; [left; apply elem_of_app; by left|right]. by rewrite received_snoc, Ha, app_nil_r.
Qed.

Lemma complaint_snoc tr a l : received [a] = [] → complaint tr l → complaint (tr ++ [a]) l.
Proof.
  intros Ha [->|(msg & e & -> & Hf)]; [by left|right]. exists msg, e. split; [done|by apply failure_snoc].
Qed.

(** An action without data leaves the invariant of the place alone. *)
Lemma log_inv_snoc tr a s : received [a] = [] → log_inv tr s → log_inv (tr ++ [a]) s.
Proof.
  intros Ha. unfold log_inv. rewrite received_snoc, all_records_snoc, Ha, app_nil_r.
  replace (all_records [a]) with (@nil log_record) by (unfold all_records; by rewrite Ha).
  rewrite app_nil_r. destruct (lpc s); try done; try naive_solver eauto using failure_snoc.
  all: intros (start & l & ? & ? & ?); exists start, l; eauto using complaint_snoc.
Qed.

Lemma loop_handler_log tr e s :
  logs s = listening_record port :: all_records tr → failure tr e → log_inv tr (loop_handler e s).
Proof.
  intros Hl Hf. unfold log_inv. destruct (loop_handler_closes e s) as (-> & _).
  assert (∃ l, logs (loop_handler e s) = logs s ++ l ∧ complaint tr l) as (l & -> & Hc).
  { unfold loop_handler, complaint. destruct (is_OSError e), (is_Exception e), (event_set s); simpl;
      first [exists []; split; [by rewrite app_nil_r|by left]|eexists; split; [reflexivity|right; eauto]]. }
  exists [listening_record port], l. rewrite Hl. auto.
Qed.

Lemma log_inv_step tr a s s' :
  act start_time_env port a s = Some s' → log_inv tr s → log_inv (tr ++ [a]) s'.
Proof.
  intros Hs Hinv. destruct a as [i|]; simpl act in Hs.
  2: { apply (log_inv_snoc tr Cancel) in Hinv; [|done]. unfold cancel_step in Hs.
       destruct (cpc s); try discriminate Hs; injection Hs as <-; exact Hinv. }
  listener_cases; try (match goal with |- log_inv (_ ++ [?a]) _ => apply (log_inv_snoc tr a) in Hinv; [|done] end).
  all: try match goal with H : process_container_event _ _ _ = _ |- _ => apply process_logs in H as [Hr ->] end.
  all: unfold log_inv in Hinv; rewrite Heql in Hinv; try by apply loop_handler_log; naive_solver.
  all: unfold log_inv, owed in *; rewrite ?Heql in *; simpl; simpl in Hinv.
  - destruct Hinv as [-> Hrec]. unfold all_records. by rewrite Hrec.
  - destruct Hinv as [-> Hrec]. split_and!; [done..|]. left. apply elem_of_app. right. left.
  - exists [listening_record port], []. rewrite app_nil_r. split; [done|]. split; [by left|by left].
  - done.
  - done.
  - split; [done|]. left. apply elem_of_app. right. left.
  - done.
  - rewrite Hinv, all_records_snoc, received_snoc. split; [|apply last_snoc].
    unfold all_records at 3. simpl. by rewrite app_nil_r, <-(assoc_L (++)).
  - split; [done|]. left. apply elem_of_app. right. left.
  - by destruct Hinv as [? _].
  - destruct Hinv as [? ?]. split; [done|]. right. eauto.
  - destruct Hinv as (-> & Hrec & Hf). exists [], [Log ERROR "Failed in container event listener: %s" [AExn e]].
    unfold all_records. rewrite Hrec. split; [done|]. split; [right; eauto|by right].
  - done.
Qed.

Lemma log_inv_run tr0 tr s s' :
  run start_time_env port tr s = Some s' → log_inv tr0 s → log_inv (tr0 ++ tr) s'.
Proof.
  revert tr0 s. induction tr as [|a tr IH]; intros tr0 s Hrun Hinv.
  { injection Hrun as <-. by rewrite app_nil_r. }
  cbn [run] in Hrun. apply bind_Some in Hrun as (s1 & Hs & Hrun).
  change (a :: tr) with ([a] ++ tr). rewrite (assoc_L (++)). eapply IH; [done|]. by eapply log_inv_step.
Qed.

Lemma log_inv_shape tr s :
  log_inv tr s →
  ∃ start l, logs s ++ owed s = start ++ all_records tr ++ l ∧
    (start = [listening_record port] ∨ start = [] ∧ received tr = []) ∧
    (l = [] ∨ (lpc s = AtClose ∨ lpc s = Stopped) ∧ ∃ msg e, l = [Log ERROR msg [AExn e]] ∧ failure tr e).
Proof.
  unfold log_inv, owed. intros Hinv. destruct (lpc s) eqn:Hl; rewrite ?app_nil_r.
  1: { exists [listening_record port], []. destruct Hinv as [-> Hr]. unfold all_records. rewrite Hr. auto. }
  1-4: exists [listening_record port], []; rewrite app_nil_r; split; [apply Hinv|auto].
  1: { exists [listening_record port], []. rewrite app_nil_r. split; [apply Hinv|auto]. }
  1: { exists [], []. destruct Hinv as (-> & Hr & _). unfold all_records. rewrite Hr. auto. }
  all: destruct Hinv as (start & l & Hlog & Hc & Hs); exists start, l; (split; [done|]); (split; [done|]);
    destruct Hc as [?|?]; auto.
Qed.
End log.

(** C16: the log of the listener.  In any run, whatever the system calls and the clients do, the
    log is the line about the address (missing when [listen] failed, and then there are no events),
    the records of every event received, in order, and at most one error, written when
    the listener ends, about a failed system call or about the last event, whose handling
    failed: no event is lost, handled twice or mixed with another.  When system calls
    fail only once the cancellation has begun and the events can be handled, there is no error:
    the failing [accept] of a cancelled listener leaves no trace.  [owed] is the rest of the event
    being handled, and is empty when the listener has stopped. *)
Theorem listener_log_complete start_time_env port tr s :
  run start_time_env port tr initial = Some s →
  (∃ start l, logs s ++ owed start_time_env port s =
                start ++ mjoin (event_records start_time_env <$> received tr) ++ l ∧
    (start = [listening_record port] ∨ start = [] ∧ received tr = []) ∧
    (l = [] ∨ (lpc s = AtClose ∨ lpc s = Stopped) ∧
              ∃ msg e, l = [Log ERROR msg [AExn e]] ∧ failure start_time_env tr e)) ∧
  (quiet false false tr = true → Forall (λ d, event_ok start_time_env d = true) (received tr) →
   logs s ++ owed start_time_env port s =
     listening_record port :: mjoin (event_records start_time_env <$> received tr)).
Proof.
  intros Hrun. split.
  - apply (log_inv_run _ _ [] tr) in Hrun; [by apply log_inv_shape in Hrun|done].
  - intros Htr Hok. exact (quiet_run _ _ tr _ s inv_initial Hrun I Htr Hok).
Qed.

(** A run with an event and a client that sends nothing. *)
Definition sample_run : list action :=
  [Listener Completes; Listener Completes; Listener Connects;
   Listener (Receives (u "entrypoint_end_time_ms:1767225601500")); Listener Completes;
   Listener Completes; Listener Connects; Cancel; Listener (Receives []); Cancel;
   Listener Completes; Listener Completes].

Lemma listener_log_complete_witness :
  ∃ s, run None 40123 sample_run initial = Some s ∧ lpc s = Stopped ∧
       logs s ++ owed None 40123 s =
         listening_record 40123 :: mjoin (event_records None <$> [u "entrypoint_end_time_ms:1767225601500"]).
Proof.
  eexists. split; [vm_compute; reflexivity|]. split; [reflexivity|].
  apply (listener_log_complete None 40123 sample_run);
    [vm_compute; reflexivity|reflexivity|repeat constructor; vm_compute; reflexivity].
Defined.

(** ** The entrypoint event *)

(** What the entrypoint of the container sends:
    [echo "entrypoint_end_time_ms:$(date +%s%3N)"]. *)
Definition entrypoint_text (t : Z) : string := "entrypoint_end_time_ms" +:+ ":" +:+ str_int t.
Definition entrypoint_event (t : Z) : list Z := u (entrypoint_text t) ++ [10%Z].

Lemma entrypoint_text_plain t : str_all plain_ascii (entrypoint_text t) = true.
Proof. unfold entrypoint_text. rewrite !str_all_app, str_int_plain. reflexivity. Qed.

Lemma entrypoint_decoded t :
  u_strip (decode_utf8_replace (entrypoint_event t)) = u (entrypoint_text t).
Proof.
  pose proof (u_plain _ (entrypoint_text_plain t)) as Hp. unfold entrypoint_event.
  rewrite decode_plain.
  - change (u (entrypoint_text t)) with (code "e" :: u ("ntrypoint_end_time_ms" +:+ ":" +:+ str_int t)) in *.
    apply u_strip_trailing; [|done]. eapply Forall_impl; [exact Hp|]. by intros c [_ ?].
  - apply Forall_app. split; [|repeat constructor; lia]. eapply Forall_impl; [exact Hp|]. simpl. lia.
Qed.

Lemma entrypoint_split t :
  split_once (code ":") (u (entrypoint_text t)) = Some (u "entrypoint_end_time_ms", u (str_int t)).
Proof.
  unfold entrypoint_text. rewrite !u_app. apply split_once_app.
  change (Forall (λ c, c ≠ code ":") (u "entrypoint_end_time_ms")). vm_compute. repeat constructor; done.
Qed.

Lemma u_strip_str_int z : u_strip (u (str_int z)) = u (str_int z).
Proof.
  apply u_strip_plain. eapply Forall_impl; [apply (u_plain _ (str_int_plain z))|]. by intros c [_ ?].
Qed.

Lemma log_latency_known t t0 l :
  log_latency (Some (u (str_int t0))) t l =
    (Ret tt, l ++ [Log INFO "Calculated latency until entrypoint end: %d ms" [AInt (t - t0)]]).
Proof.
  unfold log_latency. pose proof (u_int_str_int t0) as Hi.
  destruct (u (str_int t0)) as [|c s] eqn:Hu; [by vm_compute in Hi|].
  unfold try_catch, mbind, ST_bind, lift. by rewrite Hi.
Qed.

(** C23: the event the entrypoint sends, a time in milliseconds followed by a line
    feed, is logged as the exact date, to the millisecond, and with the exact
    latency, for every time before the year 2242: neither the [float] division nor
    the two roundings lose anything. *)
Theorem entrypoint_event_logged t t0 :
  (0 ≤ t < 2 ^ 33 * 1000)%Z →
  process_container_event (Some (u (str_int t0))) (entrypoint_event t) [] =
    (Ret tt,
     [Log INFO "Container event data: %s" [AStr (u (entrypoint_text t))];
      Log INFO "Successfully parsed entrypoint end time: %s"
        [AStr (u (isoformat (Datetime (t / 1000) (t mod 1000 * 1000))))];
      Log INFO "Calculated latency until entrypoint end: %d ms" [AInt (t - t0)]]).
Proof.
  intros Ht. unfold process_container_event. rewrite entrypoint_decoded, entrypoint_split.
  unfold mbind at 1, ST_bind at 1. cbn [logging modify app]. rewrite decide_True by done.
  unfold handle_entrypoint_end_time_ms, try_catch. rewrite u_strip_str_int, u_int_str_int.
  unfold mbind, ST_bind, lift. rewrite (proj2 (Z.ltb_ge t 0)) by lia. cbn [mret ST_ret].
  rewrite fromtimestamp_exact by done. cbn [logging modify]. by rewrite log_latency_known.
Qed.

Lemma entrypoint_event_logged_witness :
  ∃ l, process_container_event (Some (u (str_int 1767225600000))) (entrypoint_event 1767225601500) [] = (Ret tt, l) ∧
       isoformat (Datetime (1767225601500 / 1000) (1767225601500 mod 1000 * 1000)) =
         "2026-01-01T00:00:01.500000+00:00".
Proof.
  eexists. split; [apply (entrypoint_event_logged 1767225601500 1767225600000); lia|vm_compute; reflexivity].
Defined.

(** ** Events that end the listener *)

Lemma log_latency_ok env t l : ∃ l', log_latency env t l = (Ret tt, l').
Proof.
  unfold log_latency, try_catch, mbind, ST_bind, lift, u_int, logging, modify.
  destruct env as [[|c s]|]; [eauto| |eauto].
  destruct (int_literal _); simpl; eauto.
Qed.

Lemma handle_ok env v l :
  (∃ l', handle_entrypoint_end_time_ms env v l = (Ret tt, l')) ∨
  ∃ t e l', u_int (u_strip v) = Ret t ∧ (0 ≤ t)%Z ∧ fromtimestamp_ms t = Raise e ∧ is_ValueError e = false ∧
         handle_entrypoint_end_time_ms env v l = (Raise e, l').
Proof.
  unfold handle_entrypoint_end_time_ms, try_catch, mbind, ST_bind, lift.
  destruct (u_int (u_strip v)) as [t|e] eqn:Hi.
  2: { left. unfold u_int in Hi. destruct (int_literal _); [done|]. injection Hi as <-.
       unfold logging, modify. simpl. eauto. }
  destruct (Z.ltb_spec t 0) as [Ht|Ht]; cbn [raise mret ST_ret is_ValueError]; [left; by eexists|].
  destruct (fromtimestamp_ms t) as [dt|e] eqn:Hf.
  - left. cbn [logging modify]. edestruct (log_latency_ok env t) as [l' ->]. eauto.
  - destruct (is_ValueError e) eqn:He; [left; by eexists|]. right. exists t, e, l. by split_and!.
Qed.

(** C24: the events that end the listener.  The handling of an event raises exactly
    for an entrypoint event whose value is an integer of at least 67768036191676796000
    milliseconds, with the [OSError] or [OverflowError] of the date conversion; every
    other message, well formed or not, is handled to its end. *)
Theorem event_raises_iff env data :
  event_ok env data = false ↔
  ∃ v t, split_once (code ":") (u_strip (decode_utf8_replace data)) = Some (u "entrypoint_end_time_ms", v) ∧
         u_int (u_strip v) = Ret t ∧ (FIRST_BAD_MS ≤ t)%Z.
Proof.
  unfold event_ok, process_container_event. unfold mbind at 1, ST_bind at 1. cbn [logging modify app].
  destruct (split_once _ _) as [[name v]|]; [|split; [done|naive_solver]].
  case_decide as Hn; [subst name|split; [done|]; intros (? & ? & [= ? ?] & _); done].
  set (l := [_]). destruct (handle_ok env v l) as [[l' Hl]|(t & e & l' & Ht & H0 & Hf & He & Hl)]; rewrite Hl.
  - split; [done|]. intros (v' & t & [= <-] & Ht & Hb). exfalso. revert Hl.
    assert (0 ≤ t)%Z as H0 by (unfold FIRST_BAD_MS in Hb; lia).
    unfold handle_entrypoint_end_time_ms, try_catch, mbind, ST_bind, lift. rewrite Ht.
    rewrite (proj2 (Z.ltb_ge t 0)) by done. cbn [mret ST_ret].
    destruct (fromtimestamp_fails t H0) as [Hbad _]. by destruct (Hbad Hb) as [-> | ->].
  - split; [|done]. intros _. exists v, t. split_and!; [done|done|].
    destruct (fromtimestamp_fails t H0) as [_ Hgood]. destruct (decide (FIRST_BAD_MS ≤ t)%Z); [done|].
    rewrite (Hgood ltac:(lia) e Hf) in He. done.
Qed.

(** Such an event stops the listener although nobody has cancelled it. *)
Lemma huge_timestamp_stops_listener :
  ∃ s, run None 40123
         [Listener Completes; Listener Completes; Listener Connects;
          Listener (Receives (u "entrypoint_end_time_ms:67768036191676796000"));
          Listener Completes; Listener Completes; Listener Completes] initial = Some s ∧
       lpc s = Stopped ∧ event_set s = false.
Proof. eexists. split; [vm_compute; reflexivity|done]. Qed.
