(* ===== verification/Shell.v ===== *)
(** * Command lines: [shlex] and [os.path.expandvars]

    [docker_run.py] splits the arguments of an environment variable with
    [shlex.split], expands variables in them, and logs the command with
    [shlex.join]. *)

From Stdlib Require Import Ascii.
From stdpp Require Import numbers base strings list.
From S2P Require Import Prelude PyStr.

(** ** [shlex.split] *)

(** The states of the lexer: between tokens, in a word, inside quotes, after a
    backslash (with the quotes it is in, if any). *)
Inductive lex_state :=
  | LSpace
  | LWord
  | LQuote (q : ascii)
  | LEscape (q : option ascii).

Definition is_blank (c : ascii) : bool :=
  let n := code c in ((n =? 32) || (n =? 9) || (n =? 13) || (n =? 10))%Z.
Definition squote : ascii := "'".
Definition is_quote (c : ascii) : bool := bool_decide (c = squote) || bool_decide (c = dquote).
Definition backslash : ascii := "\".
Definition is_backslash (c : ascii) : bool := bool_decide (c = backslash).

Definition snoc (s : string) (c : ascii) : string := s +:+ String c "".

(** A token is given out when it has characters or quotes. *)
Definition emit (token : string) (quoted : bool) (rest : res (list string)) : res (list string) :=
  if str_truthy token || quoted then l ← rest; Ret (token :: l) else rest.

Fixpoint lex (st : lex_state) (token : string) (quoted : bool) (s : string) : res (list string) :=
  match s with
  | EmptyString =>
      match st with
      | LSpace => Ret []
      | LWord => emit token quoted (Ret [])
      | LQuote _ => Raise (ValueError "No closing quotation")
      | LEscape _ => Raise (ValueError "No escaped character")
      end
  | String c s =>
      match st with
      | LSpace =>
          if is_blank c then lex LSpace "" false s
          else if is_backslash c then lex (LEscape None) token quoted s
          else if is_quote c then lex (LQuote c) token quoted s
          else lex LWord (String c "") quoted s
      | LQuote q =>
          if decide (c = q) then lex LWord token true s
          else if is_backslash c && bool_decide (q = dquote) then lex (LEscape (Some q)) token true s
          else lex (LQuote q) (snoc token c) true s
      | LEscape None => lex LWord (snoc token c) quoted s
      | LEscape (Some q) =>
          let token :=
            if negb (is_backslash c) && bool_decide (c ≠ q) then snoc token backslash else token in
          lex (LQuote q) (snoc token c) quoted s
      | LWord =>
          if is_blank c then emit token quoted (lex LSpace "" false s)
          else if is_quote c then lex (LQuote c) token quoted s
          else if is_backslash c then lex (LEscape None) token quoted s
          else lex LWord (snoc token c) quoted s
      end
  end.

(** [shlex.split(s)] *)
Definition shlex_split (s : string) : res (list string) := lex LSpace "" false s.

(** ** [shlex.join] *)

(** [[\w@%+=:,./-]] of ASCII characters *)
Definition is_word_char (c : ascii) : bool :=
  let n := code c in
  ((48 <=? n) && (n <=? 57) || (65 <=? n) && (n <=? 90) || (97 <=? n) && (n <=? 122) || (n =? 95))%Z.
Definition is_safe (c : ascii) : bool :=
  is_word_char c ||
  bool_decide (c ∈ ["@"; "%"; "+"; "="; ":"; ","; "."; "/"; "-"]%char).

(** [s.replace("'", "'\"'\"'")] *)
Definition quoted_quote : string :=
  String squote (String dquote (String squote (String dquote (String squote "")))).
Definition quote_char (c : ascii) : string := if decide (c = squote) then quoted_quote else String c "".

Definition shlex_quote (s : string) : string :=
  if negb (str_truthy s) then "''"
  else if str_all is_safe s then s
  else String squote (str_concat_map quote_char s +:+ String squote "").

Definition shlex_join (l : list string) : string := str_join " " (shlex_quote <$> l).

(** ** [os.path.expandvars] *)

(** The longest prefix of word characters, and the rest. *)
Fixpoint word_prefix (s : string) : string * string :=
  match s with
  | String c r =>
      if is_word_char c then let '(w, rest) := word_prefix r in (String c w, rest) else ("", s)
  | EmptyString => ("", "")
  end.

(** What precedes the first closing brace, and what follows it. *)
Fixpoint brace_prefix (s : string) : option (string * string) :=
  match s with
  | EmptyString => None
  | String c r =>
      if decide (c = "}"%char) then Some ("", r)
      else (λ p, (String c p.1, p.2)) <$> brace_prefix r
  end.

(** The name after a dollar sign, the text of the reference and the rest. *)
Definition var_ref (s : string) : option (string * string * string) :=
  match word_prefix s with
  | (String c w, rest) => Some (String c w, String "$" (String c w), rest)
  | (EmptyString, _) =>
      match s with
      | String "{" r =>
          (λ p, (p.1, String "$" (String "{" (p.1 +:+ "}")), p.2)) <$> brace_prefix r
      | _ => None
      end
  end.

(** An unknown variable stays as it is written; a value is not expanded again. *)
Fixpoint expand_from (fuel : nat) (environ : dict string) (s : string) : string :=
  match fuel, s with
  | S fuel, String c r =>
      if decide (c = "$"%char) then
        match var_ref r with
        | Some (name, text, rest) =>
            default text (dget environ name) +:+ expand_from fuel environ rest
        | None => String c (expand_from fuel environ r)
        end
      else String c (expand_from fuel environ r)
  | _, _ => s
  end.
Definition expandvars (environ : dict string) (s : string) : string :=
  expand_from (String.length s) environ s.

Example shlex_split_example :
  shlex_split ("--env='a b'  -p  " +:+ String dquote ("x\$" +:+ String dquote "y\ z ''")) =
  Ret ["--env=a b"; "-p"; "x\$y z"; ""].
Proof. vm_compute. reflexivity. Qed.

Example expandvars_example :
  expandvars [("HOME", "/h$X"); ("X", "1")] "-v=$HOME/${X}:$NO ${X $ ${NO}" = "-v=/h$X/1:$NO ${X $ ${NO}" ∧
  expandvars [("X $ ${NO", "2")] "${X $ ${NO}" = "2".
Proof. vm_compute. auto. Qed.

(** ** [shlex.split(shlex.join(l)) == l] *)

Lemma safe_plain c : is_safe c = true → is_blank c = false ∧ is_backslash c = false ∧ is_quote c = false.
Proof.
  assert (implb (is_safe c) (negb (is_blank c || is_backslash c || is_quote c)) = true) as Hc.
  { destruct c as [[] [] [] [] [] [] [] []]; vm_compute; reflexivity. }
  intros Hs. rewrite Hs in Hc. simpl in Hc.
  by destruct (is_blank c), (is_backslash c), (is_quote c).
Qed.

Lemma snoc_app tok c s : snoc tok c +:+ s = tok +:+ String c s.
Proof. unfold snoc. by rewrite str_app_assoc. Qed.

Lemma snoc_truthy tok c : str_truthy (snoc tok c) = true.
Proof. by destruct tok. Qed.

(** The end of a token: the input ends or a blank follows. *)
Definition ends_token (rest : string) : Prop := rest = "" ∨ ∃ r, rest = String " " r.

Lemma lex_word_end tok quoted rest :
  ends_token rest → str_truthy tok || quoted = true →
  lex LWord tok quoted rest = (l ← lex LSpace "" false rest; Ret (tok :: l)).
Proof. intros [-> | [r ->]] Ht; cbn [lex is_blank]; unfold emit; by rewrite Ht. Qed.

Lemma lex_safe tok quoted s rest :
  str_all is_safe s = true → lex LWord tok quoted (s +:+ rest) = lex LWord (tok +:+ s) quoted rest.
Proof.
  revert tok. induction s as [|c s IH]; intros tok; [by rewrite str_app_nil_r|].
  cbn [str_all]. intros [(Hb & He & Hq)%safe_plain Hs]%andb_true_iff.
  rewrite str_app_cons. cbn [lex]. rewrite Hb, He, Hq, IH by done. by rewrite snoc_app.
Qed.

Lemma lex_quoted tok quoted s rest :
  lex (LQuote squote) tok quoted (str_concat_map quote_char s +:+ String squote rest) =
  lex LWord (tok +:+ s) true rest.
Proof.
  revert tok quoted. induction s as [|c s IH]; intros tok quoted; [by rewrite str_app_nil_r|].
  cbn [str_concat_map]. rewrite str_app_assoc, <-(snoc_app tok c s). unfold quote_char. case_decide as Hc.
  - subst c. unfold quoted_quote. rewrite !str_app_cons. rewrite <-(IH (snoc tok squote) true).
    cbn [lex]. reflexivity.
  - rewrite str_app_cons. cbn [lex]. rewrite decide_False by done.
    replace (is_backslash c && bool_decide (squote = dquote)) with false
      by (by rewrite (bool_decide_false (squote = dquote)), andb_false_r).
    by rewrite <-(IH (snoc tok c) true).
Qed.

(** One quoted word. *)
Lemma lex_quote s rest :
  ends_token rest →
  lex LSpace "" false (shlex_quote s +:+ rest) = (l ← lex LSpace "" false rest; Ret (s :: l)).
Proof.
  intros Hr. unfold shlex_quote. destruct s as [|c s]; cbn [str_truthy negb].
  { change ("''" +:+ rest) with (String squote (String squote rest)).
    change (lex LSpace "" false (String squote (String squote rest))) with (lex LWord "" true rest).
    by apply lex_word_end. }
  destruct (str_all is_safe (String c s)) eqn:Hs.
  - cbn [str_all] in Hs. apply andb_true_iff in Hs as [(Hb & He & Hq)%safe_plain Hs].
    rewrite str_app_cons. cbn [lex]. rewrite Hb, He, Hq, lex_safe by done.
    by apply (lex_word_end (String c s)).
  - rewrite str_app_cons, str_app_assoc. change (String squote "" +:+ rest) with (String squote rest).
    change (lex LSpace "" false (String squote ?x)) with (lex (LQuote squote) "" false x).
    rewrite lex_quoted. by apply lex_word_end.
Qed.

Lemma shlex_split_join l : shlex_split (shlex_join l) = Ret l.
Proof.
  unfold shlex_split, shlex_join. induction l as [|s l IH]; [done|].
  destruct l as [|s' l].
  - cbn. rewrite <-(str_app_nil_r (shlex_quote s)), lex_quote by (by left). done.
  - change (str_join " " (shlex_quote <$> s :: s' :: l)) with
      (shlex_quote s +:+ " " +:+ str_join " " (shlex_quote <$> s' :: l)).
    change (" " +:+ ?x) with (String " " x). rewrite lex_quote by (right; eauto).
    change (lex LSpace "" false (String " " ?x)) with (lex LSpace "" false x). by rewrite IH.
Qed.

(** Text without references is not changed. *)
Lemma expandvars_plain environ s : str_free "$" s = true → expandvars environ s = s.
Proof.
  unfold expandvars. generalize (String.length s) as n. intros n. revert s.
  induction n as [|n IH]; [done|]. intros [|c s]; [done|]. cbn [str_free expand_from].
  intros [Hc%negb_true_iff%bool_decide_eq_false Hs]%andb_true_iff.
  rewrite decide_False by done. by rewrite IH.
Qed.
