(* ===== verification/DockerRun.v ===== *)
(** * The container wrapper: [docker_run.py]

    [main] from the parsed arguments on.  The class [RunHost] is what the script
    finds on the host: environment variables, users and groups, terminals,
    limits, the programs it starts.  The state is the trace of its effects, in
    order: directories and files made, threads started, cancelled and joined,
    commands run and the command line it logs.  The mounts come from [Mounts],
    the configuration from [Registry]'s [FileSystem], the port from [Events]. *)

From Stdlib Require Import Ascii.
From stdpp Require Import numbers base strings gmap list.
From S2P Require Import Prelude PyStr PyInt PyJson Schema Registry DockerImage Mounts ProjectRoot Unicode Events Shell.

(** How a program started in the foreground ends. *)
Inductive outcome :=
  | Finished (p : proc)
  | Interrupted.              (* Ctrl-C: [KeyboardInterrupt] *)

Class RunHost := {
  environ : dict string;                       (* [os.environ] *)
  there : path → bool;                         (* [Path.exists] *)
  cwd : path;                                  (* [Path.cwd()] *)
  home : path;                                 (* [Path.home()] *)
  scripts_dir : path;                          (* [Path(__file__).resolve().parent] *)
  uid : Z;
  gid : Z;
  pw_name : res string;                        (* [pwd.getpwuid(os.getuid()).pw_name] *)
  gr_name : res string;                        (* [grp.getgrgid(os.getgid()).gr_name] *)
  getgrnam : string → option Z;                (* [None] is [KeyError] *)
  mkdir : path → res unit;
  touch : path → res unit;
  git_exec : list string → proc * string;      (* result and output *)
  run_program : list string → outcome;         (* [docker] and [xhost] *)
  stdin_isatty : bool;
  stdout_isatty : bool;
  nofile : Z * Z;                              (* [resource.getrlimit(RLIMIT_NOFILE)] *)
  gethostname : string;
  bound_port : res Z;                          (* the port [bind] chooses, or the error of the socket *)
  path_iter : gset path → list path;           (* order of enumeration of a set *)
  path_iter_perm : ∀ s, path_iter s ≡ₚ elements s;
}.

Inductive effect :=
  | Mkdir (p : path)
  | Touch (p : path)
  | Ran (cmd : list string)
  | Logged (line : string)
  | StartEvents (name : string) (port : Z)
  | StartCleanup (config_path : path) (search_paths : list path)
  | CancelCleanup
  | CancelEvents
  | JoinCleanup
  | JoinEvents.

Definition trace : Type := list effect.
Definition effect_ (e : effect) : ST trace unit := modify (λ tr, tr ++ [e]).

(** [p.relative_to(q)] of a path below [q] *)
Definition relative_to (p q : path) : path := Path "" (drop (length (p_tail q)) (p_tail p)).

(** [list.extend] with a JSON value: its elements, characters or keys. *)
Fixpoint str_chars (s : string) : list string :=
  match s with EmptyString => [] | String c s => String c "" :: str_chars s end.
Definition py_iter (j : json) : res (list json) :=
  match j with
  | JList l => Ret l
  | JStr s => Ret (JStr <$> str_chars s)
  | JObj kvs => Ret (JStr <$> dkeys kvs)
  | _ => Raise TypeError
  end.

Definition home_files : list path := path_of_str <$> [".gitconfig"].
Definition home_dirs : list path := path_of_str <$>
  [".cache/bazel"; ".cache/bazelisk"; ".cache/buf"; ".cache/go-build"; ".cache/nvim"; ".cache/pip";
   ".cache/pip-tools"; ".cache/pre-commit"; ".cache/pylint"; ".config/gcloud"; ".config/google-chrome";
   ".config/matplotlib"; ".devkit/logs"; ".docker"; ".gemini"; ".local/pre-commit"; ".local/share/nvim";
   ".local/state"; ".npm"; ".vim"].

Definition docker_sock : path := path_of_str "/var/run/docker.sock".
Definition system_bus_socket : path := path_of_str "/run/dbus/system_bus_socket".
Definition etc_gitconfig : path := path_of_str "/etc/gitconfig".

Section docker_run.
Context `{RunHost} `{FileSystem} `{MountFS}.

(** [os.environ.get(env_var)], when it is a non-empty string *)
Definition env_value (env_var : string) : option string :=
  match dget environ env_var with
  | Some val => if str_truthy val then Some val else None
  | None => None
  end.

Definition path_from_env (env_var : string) (dflt : path) : path :=
  match env_value env_var with Some val => path_of_str val | None => dflt end.

(** ** Paths *)

Record run_paths := RunPaths {
  host_project_root : path;
  container_project_root : path;
  command_project_root : path;
  host_home : path;
  command_home : path;
  container_home : path;
  host_tmp_dir : path;
  container_tmp_dir : path;
}.

(** The search for the root comes first, even when a variable names it. *)
Definition find_paths : ST trace run_paths :=
  root ← try_catch (λ e, bool_decide (e = FileNotFoundError))
           (lift (find_project_root there (dget environ "PWD") cwd)) (λ _, sys_exit 1);
  let host_root := path_from_env "DEVKIT_HOST_PROJECT_ROOT" root in
  let hhome := path_from_env "DEVKIT_HOST_HOME" home in
  let tmpdir := path_of_str (default "/tmp" (dget environ "TMPDIR")) in
  let host_tmp := path_from_env "DEVKIT_HOST_TMP_DIR" tmpdir in
  mret (RunPaths host_root
          (path_from_env "DEVKIT_CONTAINER_PROJECT_ROOT" host_root)
          (path_from_env "DEVKIT_COMMAND_PROJECT_ROOT" host_root)
          hhome
          (path_from_env "DEVKIT_COMMAND_HOME" hhome)
          (path_from_env "DEVKIT_CONTAINER_HOME" hhome)
          host_tmp
          (path_from_env "DEVKIT_CONTAINER_TMP_DIR" host_tmp)).

(** ** User and groups *)

Record run_user := RunUser {
  user_name : string;
  user_id : Z;
  group_name : string;
  group_id : Z;
}.

Definition find_user : ST trace run_user :=
  name ← (match env_value "USER" with Some s => mret s | None => lift pw_name end);
  u ← (match env_value "USER_ID" with Some s => lift (py_int s) | None => mret uid end);
  group ← (match env_value "GROUP" with Some s => mret s | None => lift gr_name end);
  g ← (match env_value "GROUP_ID" with Some s => lift (py_int s) | None => mret gid end);
  mret (RunUser name u group g).

Definition session_bus_socket (u : run_user) : path :=
  path_entry (path_entry (path_of_str "/run/user") (str_int (user_id u))) "bus".

(** [grp.getgrnam(group).gr_gid], or 0 *)
Definition group_gid (group : string) : Z := default 0%Z (getgrnam group).

(** ** Mounts *)

Definition make_home_dir (chome rel_path : path) : ST trace path :=
  let dir_path := path_join chome rel_path in
  _ ← effect_ (Mkdir dir_path); _ ← lift (mkdir dir_path); mret dir_path.

Definition make_home_file (chome rel_path : path) : ST trace path :=
  let file_path := path_join chome rel_path in
  _ ← effect_ (Mkdir (parent file_path)); _ ← lift (mkdir (parent file_path));
  _ ← effect_ (Touch file_path); _ ← lift (touch file_path); mret file_path.

(** The git directory and its flag, when it lies outside the current directory. *)
Definition git_handled (e : exn) : bool :=
  match e with CalledProcessError _ | FileNotFoundError => true | _ => false end.

Definition run_git (cmd : list string) (check : bool) : ST trace (Z * string) :=
  _ ← effect_ (Ran cmd);
  match git_exec cmd with
  | (NoProgram, _) => raise FileNotFoundError
  | (Exited rc, out) =>
      if check && negb (bool_decide (rc = 0%Z)) then raise (CalledProcessError rc) else mret (rc, out)
  end.

Definition git_mounts : ST trace (list path * list string) :=
  try_catch git_handled
    ('(rc, out) ← run_git ["git"; "rev-parse"; "--is-inside-work-tree"] false;
     if bool_decide (rc = 0%Z) && bool_decide (strip out = "true") then
       '(_, dir) ← run_git ["git"; "rev-parse"; "--absolute-git-dir"] true;
       let git_dir := path_of_str (strip dir) in
       if is_relative_to git_dir cwd then mret ([], [])
       else mret ([git_dir], ["--env=GIT_DISCOVERY_ACROSS_FILESYSTEM=1"])
     else mret ([], []))
    (λ _, mret ([], [])).

(** [path] with [command_home] replaced by [new_home] *)
Definition relocate (chome new_home p : path) : path :=
  if is_relative_to p chome then path_join new_home (relative_to p chome) else p.

Definition volume (host container : path) : string :=
  "--volume=" +:+ path_str host +:+ ":" +:+ path_str container.

Definition docker_mounts (ps : run_paths) (minimal_mounts : list path) : list string :=
  (λ p, volume (relocate (command_home ps) (host_home ps) p)
               (relocate (command_home ps) (container_home ps) p)) <$> minimal_mounts.

(** ** Arguments of [docker run] *)

Definition tty_args : list string :=
  if stdin_isatty && stdout_isatty then ["--interactive"; "--tty"]
  else if negb stdin_isatty then ["--interactive"] else [].

(** The arguments of [devkit.json]; any [Exception] means none. *)
Definition config_run_args (devkit_json_path : path) : res (list json) :=
  try_except is_Exception
    (if path_exists (path_str devkit_json_path) then
       data ← json_load (path_str devkit_json_path);
       docker ← py_get data "docker" (JObj []);
       run_args ← py_get docker "run" (JList []);
       if truthy run_args then py_iter run_args else Ret []
     else Ret [])
    (λ _, Ret []).

Definition env_run_args : res (list string) :=
  match env_value "DEVKIT_DOCKER_RUN_ARGS" with Some s => shlex_split s | None => Ret [] end.

(** [os.path.expandvars(arg)] *)
Definition evaluate_arg (arg : json) : res string :=
  match arg with JStr s => Ret (expandvars environ s) | _ => Raise TypeError end.

Definition evaluated_args (devkit_json_path : path) : res (list string) :=
  config_args ← config_run_args devkit_json_path;
  env_args ← env_run_args;
  map_res evaluate_arg ((JStr <$> tty_args) ++ config_args ++ (JStr <$> env_args)).

(** ** The command *)

Definition docker_cmd (ps : run_paths) (us : run_user) (port : Z)
    (additional_env mount_flags evaluated unknown_args : list string) : list string :=
  let '(host_soft, host_hard) := nofile in
  ["docker"; "run"; "--rm"; "--ulimit"; "nofile=" +:+ str_int host_soft +:+ ":" +:+ str_int host_hard;
   volume (host_project_root ps) (container_project_root ps);
   "--workdir=" +:+ path_str cwd;
   "--env=HOME=" +:+ path_str (container_home ps);
   "--env=DEVKIT_SOCKET_PORT=" +:+ str_int port;
   "--env=GOOGLE_CLOUD_PROJECT"; "--env=GEMINI_API_KEY"; "--env=AWS_SECRET_ACCESS_KEY";
   "--env=AWS_ACCESS_KEY_ID"; "--env=AWS_SESSION_TOKEN"; "--env=GH_TOKEN";
   "--env=USER=" +:+ user_name us;
   "--env=USER_ID=" +:+ str_int (user_id us);
   "--env=GROUP=" +:+ group_name us;
   "--env=GROUP_ID=" +:+ str_int (group_id us);
   "--env=TMPDIR=" +:+ path_str (container_tmp_dir ps);
   "--env=TERM=xterm-256color"; "--env=COLORTERM";
   "--env=DOCKER_GROUP=docker";
   "--env=DOCKER_GROUP_ID=" +:+ str_int (group_gid "docker");
   "--env=NOBODY_GROUP=nobody";
   "--env=DBUS_SYSTEM_BUS_ADDRESS=unix:path=" +:+ path_str system_bus_socket;
   "--env=DBUS_SESSION_BUS_ADDRESS=unix:path=" +:+ path_str (session_bus_socket us);
   "--env=DEVKIT_NOFILE_SOFT=" +:+ str_int host_soft;
   "--env=DEVKIT_NOFILE_HARD=" +:+ str_int host_hard;
   "--env=ADDITIONAL_PATH="]
  ++ additional_env ++ mount_flags
  ++ ["--net=host"; "--ipc=host"; "--hostname=" +:+ gethostname;
      volume (host_tmp_dir ps) (container_tmp_dir ps);
      "--entrypoint=" +:+ path_str (path_entry scripts_dir "entrypoint_docker")]
  ++ evaluated ++ unknown_args.

(** Everything up to the logged command line: the command, the user name and
    the path of [devkit.json].  [get_minimal_mounts] always has a result
    ([minimal_mounts_total]). *)
Definition prepare (unknown_args : list string) : ST trace (list string * run_user * path) :=
  ps ← find_paths;
  us ← find_user;
  dirs ← mapM (make_home_dir (command_home ps)) home_dirs;
  files ← mapM (make_home_file (command_home ps)) home_files;
  '(git_paths, git_env) ← git_mounts;
  let mounts := [docker_sock; system_bus_socket]
    ++ (if path_exists (path_str etc_gitconfig) then [etc_gitconfig] else [])
    ++ [session_bus_socket us] ++ dirs ++ files ++ git_paths in
  let nobody_group_id := group_gid "nobody" in
  let additional_env := git_env ++
    (if (0 <? nobody_group_id)%Z then ["--env=NOBODY_GROUP_ID=" +:+ str_int nobody_group_id] else []) in
  minimal_mounts ← lift (default (Raise RecursionError) (get_minimal_mounts (command_project_root ps) mounts));
  let devkit_json_path := path_entry (command_project_root ps) "devkit.json" in
  evaluated ← lift (evaluated_args devkit_json_path);
  '(name, _, port) ← lift (start_container_event_handler bound_port);
  _ ← effect_ (StartEvents name port);
  let cmd := docker_cmd ps us port additional_env (docker_mounts ps (path_iter minimal_mounts))
               evaluated unknown_args in
  _ ← effect_ (Logged (shlex_join cmd));
  mret (cmd, us, devkit_json_path).

(** [subprocess.run(cmd, check=check)] *)
Definition run_foreground (cmd : list string) (check : bool) : ST trace Z :=
  _ ← effect_ (Ran cmd);
  match run_program cmd with
  | Interrupted => raise KeyboardInterrupt
  | Finished NoProgram => raise FileNotFoundError
  | Finished (Exited rc) =>
      if check && negb (bool_decide (rc = 0%Z)) then raise (CalledProcessError rc) else mret rc
  end.

Definition xhost_cmd (us : run_user) : list string := ["xhost"; "+local:" +:+ user_name us].

(** The container in the foreground; both threads are cancelled and joined however
    it ends. *)
Definition run_container (cmd : list string) : ST trace unit :=
  return_code ← try_finally
    (try_catch (λ e, bool_decide (e = KeyboardInterrupt)) (run_foreground cmd false)
       (λ _, mret (128 + 2)%Z))
    (_ ← effect_ CancelCleanup; _ ← effect_ CancelEvents; _ ← effect_ JoinCleanup; effect_ JoinEvents);
  sys_exit return_code.

Definition main (unknown_args : list string) : ST trace unit :=
  '(cmd, us, devkit_json_path) ← prepare unknown_args;
  _ ← effect_ (StartCleanup devkit_json_path [path_entry (parent scripts_dir) "images"]);
  _ ← (if existsb (str_in "DISPLAY") cmd then _ ← run_foreground (xhost_cmd us) true; mret tt else mret tt);
  run_container cmd.
End docker_run.
