(* ===== verification/DockerRunTheorems.v ===== *)
(** * What the container wrapper guarantees

    The life of the threads around the container, the volumes of the command,
    and the command line in the log. *)

From Stdlib Require Import Ascii.
From stdpp Require Import numbers base strings gmap list.
From S2P Require Import Prelude PyStr PyInt PyJson Schema Registry DockerImage Mounts MountTheorems ProjectRoot.
From S2P Require Import Unicode Events Shell DockerRun Builder Samples.

(** Effects that come before the container: no docker command, no cancellation. *)
Definition before_container (e : effect) : Prop :=
  match e with
  | Ran (prog :: _) => prog ≠ "docker"
  | CancelCleanup | CancelEvents | JoinCleanup | JoinEvents => False
  | _ => True
  end.

(** The exit of the wrapper, from the end of the container. *)
Definition container_exit (o : outcome) : exn :=
  match o with
  | Finished (Exited rc) => SystemExit rc
  | Finished NoProgram => FileNotFoundError
  | Interrupted => SystemExit 130
  end.

Section theorems.
Context `{RunHost} `{FileSystem} `{MountFS}.

Lemma prepare_adds unknown_args : adds before_container (prepare unknown_args).
Proof.
  unfold prepare, find_paths, find_user, make_home_dir, make_home_file, git_mounts, run_git, effect_.
  solve_adds; done.
Qed.

Lemma run_container_spec cmd tr :
  run_container cmd tr =
    (Raise (container_exit (run_program cmd)),
     tr ++ [Ran cmd; CancelCleanup; CancelEvents; JoinCleanup; JoinEvents]).
Proof.
  unfold run_container, run_foreground, effect_, try_finally, try_catch, mbind, ST_bind, modify.
  destruct (run_program cmd) as [[rc|]|]; cbn;
    rewrite ?(bool_decide_false (FileNotFoundError = KeyboardInterrupt)) by done;
    rewrite ?(bool_decide_true (KeyboardInterrupt = KeyboardInterrupt)) by done;
    cbn; unfold sys_exit, raise; by rewrite <-!(app_assoc tr).
Qed.

(** A prepared command. *)
Record prepared (unknown_args cmd : list string) (us : run_user) (dj : path) (tr : trace) := {
  prep_paths : run_paths;
  prep_mounts : list path;
  prep_minimal : gset path;
  prep_env : list string;
  prep_port : Z;
  prep_args : list string;
  prep_dirs : (path_join (command_home prep_paths) <$> home_dirs) ⊆ prep_mounts;
  prep_files : (path_join (command_home prep_paths) <$> home_files) ⊆ prep_mounts;
  prep_sockets : [docker_sock; system_bus_socket; session_bus_socket us] ⊆ prep_mounts;
  prep_min : get_minimal_mounts (command_project_root prep_paths) prep_mounts = Some (Ret prep_minimal);
  prep_cmd : cmd = docker_cmd prep_paths us prep_port prep_env
                     (docker_mounts prep_paths (path_iter prep_minimal)) prep_args unknown_args;
  prep_options : Forall (λ s, startswith s "--" = true) prep_env;
  prep_bound : bound_port = Ret prep_port;
  prep_eval : evaluated_args dj = Ret prep_args;
  prep_json : dj = path_entry (command_project_root prep_paths) "devkit.json";
  prep_found : ∀ tr, find_paths tr = (Ret prep_paths, tr);
  prep_trace : ∃ tr0, tr = tr0 ++ [StartEvents ("ContainerEventHandler-" +:+ str_int prep_port) prep_port;
                                    Logged (shlex_join cmd)];
}.

Lemma mapM_results {S A B} (f : A → ST S B) (g : A → B) l s l' s' :
  (∀ x s y s', f x s = (Ret y, s') → y = g x) → mapM f l s = (Ret l', s') → l' = g <$> l.
Proof.
  intros Hf. revert s l' s'. induction l as [|x l IH]; intros s l' s'; cbn [mapM].
  - by intros [= <- _].
  - intros (y & s1 & Hy & Hr)%ST_bind_Ret. apply ST_bind_Ret in Hr as (ys & s2 & Hys & [= <- _]).
    by rewrite (Hf _ _ _ _ Hy), (IH _ _ _ Hys).
Qed.

Lemma make_home_dir_result chome rel s y s' :
  make_home_dir chome rel s = (Ret y, s') → y = path_join chome rel.
Proof.
  unfold make_home_dir. intros (? & ? & _ & Hy)%ST_bind_Ret.
  by apply ST_bind_Ret in Hy as (? & ? & _ & [= <- _]).
Qed.

Lemma make_home_file_result chome rel s y s' :
  make_home_file chome rel s = (Ret y, s') → y = path_join chome rel.
Proof.
  unfold make_home_file. intros (? & ? & _ & Hy)%ST_bind_Ret.
  do 3 apply ST_bind_Ret in Hy as (? & ? & _ & Hy). by injection Hy as <- _.
Qed.

Lemma git_mounts_options tr ps env tr' :
  git_mounts tr = (Ret (ps, env), tr') → Forall (λ s, startswith s "--" = true) env.
Proof.
  unfold git_mounts, run_git, effect_, try_catch, mbind, ST_bind, modify, mret, ST_ret, raise. intros Hg.
  repeat (case_match; simplify_eq/=); try apply Forall_nil_2; by constructor.
Qed.

(** The paths do not depend on the trace. *)
Lemma find_paths_any tr tr' ps : find_paths tr = (Ret ps, tr') → ∀ tr0, find_paths tr0 = (Ret ps, tr0).
Proof.
  unfold find_paths, mbind, ST_bind, try_catch, lift.
  destruct (find_project_root _ _ _) as [root|e]; [|by destruct (bool_decide _)].
  by intros [= <- <-].
Qed.

Lemma prepare_spec unknown_args tr cmd us dj tr' :
  prepare unknown_args tr = (Ret (cmd, us, dj), tr') → inhabited (prepared unknown_args cmd us dj tr').
Proof.
  unfold prepare. intros (ps & ? & Hps & Hr)%ST_bind_Ret.
  apply ST_bind_Ret in Hr as (us' & ? & Hus & Hr).
  apply ST_bind_Ret in Hr as (dirs & ? & Hdirs & Hr).
  apply ST_bind_Ret in Hr as (files & ? & Hfiles & Hr).
  apply ST_bind_Ret in Hr as ([git_paths git_env] & ? & Hgit & Hr).
  apply ST_bind_Ret in Hr as (minimal & ? & Hmin & Hr).
  apply ST_bind_Ret in Hr as (args & ? & Hargs & Hr).
  apply ST_bind_Ret in Hr as ([[name st] port] & ? & Hbound & Hr).
  apply ST_bind_Ret in Hr as (? & ? & Hstart & Hr).
  apply ST_bind_Ret in Hr as (? & ? & Hlog & Hr).
  injection Hr as <- <- <- <-. injection Hstart as _ <-. injection Hlog as _ <-.
  injection Hmin as Hmin <-. injection Hargs as Hargs <-. injection Hbound as Hbound <-.
  apply bind_Ret in Hbound as (port' & Hport & Hname). injection Hname as <- _ <-.
  apply (mapM_results _ _ _ _ _ _ (make_home_dir_result _)) in Hdirs as ->.
  apply (mapM_results _ _ _ _ _ _ (make_home_file_result _)) in Hfiles as ->.
  match type of Hmin with context [get_minimal_mounts _ ?m] => set (mounts := m) in * end.
  destruct (minimal_mounts_total (command_project_root ps) mounts) as [r Hr]. rewrite Hr in Hmin.
  simpl in Hmin. subst r. constructor. eapply Build_prepared with (prep_mounts := mounts); try done.
  1-3: subst mounts; clear; intros p; repeat rewrite ?elem_of_app, ?elem_of_cons;
    try tauto.
  { rewrite elem_of_nil. tauto. }
  - apply Forall_app. split; [by eapply git_mounts_options|]. destruct (0 <? _)%Z; by repeat constructor.
  - by eapply find_paths_any.
  - eexists. rewrite <-(assoc_L (++)). reflexivity.
Qed.

(** ** Volumes *)

Lemma path_join_below (p d : path) : p_root d = "" → is_relative_to (path_join p d) p = true.
Proof. intros Hd. apply is_relative_to_iff. unfold path_join. rewrite Hd. simpl. split; [done|by apply prefix_app_r]. Qed.

Lemma relocate_join chome new_home d :
  p_root d = "" → relocate chome new_home (path_join chome d) = path_join new_home d.
Proof.
  intros Hd. unfold relocate. rewrite path_join_below by done.
  unfold relative_to, path_join. rewrite Hd. simpl. by rewrite drop_app_length.
Qed.

(** A path inside the home moves with it, any other stays. *)
Lemma relocate_inside chome new_home rest :
  relocate chome new_home (Path (p_root chome) (p_tail chome ++ rest)) = Path (p_root new_home) (p_tail new_home ++ rest).
Proof.
  change (Path (p_root chome) (p_tail chome ++ rest)) with (path_join chome (Path "" rest)).
  by rewrite relocate_join.
Qed.

Lemma relocate_outside chome new_home q : is_relative_to q chome = false → relocate chome new_home q = q.
Proof. unfold relocate. by intros ->. Qed.

Lemma inside_home chome q :
  is_relative_to q chome = true → ∃ rest, q = Path (p_root chome) (p_tail chome ++ rest).
Proof. intros (Hr & rest & Ht)%is_relative_to_iff. exists rest. destruct q; simpl in *. by subst. Qed.

(** What the container needs: sockets, directories and files of the home, and all
    that the links of the project lead to. *)
Definition wanted (ps : run_paths) (us : run_user) (p : path) : Prop :=
  p ∈ [docker_sock; system_bus_socket; session_bus_socket us] ∨
  p ∈ (path_join (command_home ps) <$> home_dirs ++ home_files) ∨
  mount (resolve (command_project_root ps)) p.

(** The option that mounts [host] at [container]. *)
Definition volume_option (host container : path) : string :=
  "--volume=" +:+ path_str host +:+ ":" +:+ path_str container.

(** How the mount [q] is passed to docker: a path inside the home of the command is the same path
    inside the homes of host and container, any other is mounted at its own place. *)
Definition mounted (ps : run_paths) (q : path) (cmd : list string) : Prop :=
  (is_relative_to q (command_home ps) = false ∧ volume_option q q ∈ cmd) ∨
  ∃ rest, q = Path (p_root (command_home ps)) (p_tail (command_home ps) ++ rest) ∧
          volume_option (Path (p_root (host_home ps)) (p_tail (host_home ps) ++ rest))
                        (Path (p_root (container_home ps)) (p_tail (container_home ps) ++ rest)) ∈ cmd.

Lemma docker_cmd_has ps us port env mounts args unknown x :
  x ∈ mounts ∨ x ∈ args ∨ x ∈ unknown ∨
  x ∈ [volume (host_project_root ps) (container_project_root ps); volume (host_tmp_dir ps) (container_tmp_dir ps);
       "--env=DEVKIT_SOCKET_PORT=" +:+ str_int port] →
  x ∈ docker_cmd ps us port env mounts args unknown.
Proof.
  unfold docker_cmd. destruct nofile as [soft hard]. rewrite !elem_of_app, !elem_of_cons, elem_of_nil. tauto.
Qed.

Lemma prepared_volumes unknown_args cmd us dj tr :
  inhabited (prepared unknown_args cmd us dj tr) →
  ∃ ps, (∀ tr, find_paths tr = (Ret ps, tr)) ∧
    volume_option (host_project_root ps) (container_project_root ps) ∈ cmd ∧
    volume_option (host_tmp_dir ps) (container_tmp_dir ps) ∈ cmd ∧
    ∀ p, wanted ps us p → ∃ q, is_relative_to p q = true ∧ mounted ps q cmd.
Proof.
  intros [[ps mounts minimal env port args Hd Hf Hs Hmin -> _ _ _ _ Hps _]]. exists ps.
  destruct (minimal_mounts_spec _ _ _ Hmin) as [_ Hcover].
  split_and!; [done|apply docker_cmd_has; set_solver|apply docker_cmd_has; set_solver|].
  intros p Hp. destruct (Hcover p) as (q & Hq & Hpq).
  { destruct Hp as [Hp|[Hp|Hp]]; [left; by apply Hs| |auto].
    rewrite fmap_app in Hp. apply elem_of_app in Hp as [Hp|Hp]; left; [by apply Hd|by apply Hf]. }
  exists q. split; [done|].
  assert (volume (relocate (command_home ps) (host_home ps) q) (relocate (command_home ps) (container_home ps) q) ∈
          docker_cmd ps us port env (docker_mounts ps (path_iter minimal)) args unknown_args) as Hv.
  { apply docker_cmd_has. left. unfold docker_mounts. apply list_elem_of_fmap. exists q. split; [done|].
    rewrite path_iter_perm. by apply elem_of_elements. }
  destruct (is_relative_to q (command_home ps)) eqn:Hin.
  - right. destruct (inside_home _ _ Hin) as [rest Hrest]. exists rest. split; [done|].
    by rewrite Hrest, !relocate_inside in Hv.
  - left. by rewrite !relocate_outside in Hv.
Qed.

(** ** The whole run *)

Lemma run_foreground_trace cmd check tr r tr' :
  run_foreground cmd check tr = (r, tr') → tr' = tr ++ [Ran cmd].
Proof.
  unfold run_foreground, mbind, ST_bind. cbn.
  destruct (run_program cmd) as [[rc|]|]; [destruct (check && _)|..]; by intros [= _ <-].
Qed.

(** A run that does not reach the container, or one that prepares the command,
    runs it and ends with it. *)
Lemma main_cases unknown_args r tr :
  main unknown_args [] = (r, tr) →
  (∃ cmd us dj tr0 before,
     prepare unknown_args [] = (Ret (cmd, us, dj), tr0) ∧ tr0 `prefix_of` before ∧
     StartCleanup dj [path_entry (parent scripts_dir) "images"] ∈ before ∧
     Forall before_container before ∧
     tr = before ++ [Ran cmd; CancelCleanup; CancelEvents; JoinCleanup; JoinEvents] ∧
     r = Raise (container_exit (run_program cmd))) ∨
  (Forall before_container tr ∧ ∃ e, r = Raise e).
Proof.
  unfold main, mbind, ST_bind. destruct (prepare unknown_args []) as [[[[cmd us] dj]|e] tr0] eqn:Hp.
  2: { intros [= <- <-]. right. destruct (prepare_adds _ _ _ _ Hp) as (l & -> & Hl). eauto. }
  destruct (prepare_adds _ _ _ _ Hp) as (l & Htr0 & Hl). simpl in Htr0. subst tr0.
  set (start := StartCleanup dj _). cbn [effect_ modify].
  assert (Forall before_container (l ++ [start])) as Hb
    by (apply Forall_app; split; [done|by constructor]).
  destruct (existsb (str_in "DISPLAY") cmd) eqn:Hx.
  - destruct (run_foreground (xhost_cmd us) true (l ++ [start])) as [rc tr1] eqn:Hr.
    apply run_foreground_trace in Hr as ->.
    assert (Forall before_container ((l ++ [start]) ++ [Ran (xhost_cmd us)])) as Hb'
      by (apply Forall_app; split; [done|by constructor]).
    destruct rc as [rc|e]; [|intros [= <- <-]; right; eauto].
    cbn [mret ST_ret]. rewrite run_container_spec. intros [= <- <-]. left.
    exists cmd, us, dj, l, ((l ++ [start]) ++ [Ran (xhost_cmd us)]). split_and!; try done; [|set_solver].
    rewrite <-(assoc_L (++)). by apply prefix_app_r.
  - cbn [mret ST_ret]. rewrite run_container_spec. intros [= <- <-]. left.
    exists cmd, us, dj, l, (l ++ [start]). split_and!; try done; [by apply prefix_app_r|set_solver].
Qed.

(** The docker command of a run is the prepared one. *)
Lemma docker_command_prepared unknown_args r tr cmd :
  main unknown_args [] = (r, tr) → Ran cmd ∈ tr → head cmd = Some "docker" →
  ∃ us dj tr0, prepare unknown_args [] = (Ret (cmd, us, dj), tr0) ∧ tr0 `prefix_of` tr.
Proof.
  intros Hm Hin Hd.
  assert (∀ l, Forall before_container l → Ran cmd ∉ l) as Hno.
  { intros l Hl Hc. rewrite Forall_forall in Hl. specialize (Hl _ Hc). destruct cmd; [done|].
    simpl in Hl, Hd. congruence. }
  destruct (main_cases _ _ _ Hm) as [(cmd' & us & dj & tr0 & before & Hp & Hpre & _ & Hb & -> & _)|[Hb _]].
  2: { by destruct (Hno _ Hb). }
  assert (cmd' = cmd) as ->.
  { apply elem_of_app in Hin as [Hin|Hin]; [by destruct (Hno _ Hb)|]. set_solver. }
  exists us, dj, tr0. split; [done|]. by apply prefix_app_r.
Qed.
End theorems.

(** ** A host *)

Module SampleHost.
Definition at_home (l : list string) : path := Path "/" (["home"; "u"] ++ l).

#[export] Instance host : RunHost := {|
  environ := [("PWD", "/src/pkg"); ("USER", "u"); ("DEVKIT_CONTAINER_HOME", "/root"); ("VAR", "a b");
              ("DEVKIT_DOCKER_RUN_ARGS", "--label='x y' $VAR --env=DISPLAY")];
  there p := bool_decide (p = Path "/" ["src"; "devkit"]);
  cwd := Path "/" ["src"; "pkg"];
  home := at_home [];
  scripts_dir := Path "/" ["src"; ".devkit"; "scripts"];
  uid := 1000%Z;
  gid := 100%Z;
  pw_name := Ret "u";
  gr_name := Ret "users";
  getgrnam g := if decide (g = "docker") then Some 998%Z else None;
  mkdir _ := Ret tt;
  touch _ := Ret tt;
  git_exec cmd := if decide (cmd = ["git"; "rev-parse"; "--is-inside-work-tree"])
                  then (Exited 0, "true") else (Exited 0, "/repos/src.git");
  run_program cmd := if decide (head cmd = Some "docker") then Finished (Exited 3) else Finished (Exited 0);
  stdin_isatty := true;
  stdout_isatty := true;
  nofile := (1024, 4096)%Z;
  gethostname := "box";
  bound_port := Ret 40123%Z;
  path_iter := elements;
  path_iter_perm _ := reflexivity _;
|}.

Lemma config_wf : json_files_wf
  [("/src/devkit.json", JObj [("docker", JObj [("run", JList [JStr "--privileged"])])])].
Proof. intros p j. simpl. case_decide; [|done]. intros [= <-]. repeat constructor; set_solver. Qed.

#[export] Instance files : FileSystem := files_fs _ [] config_wf.

Definition sample_run : res unit * trace := @main host files SampleMounts.fs ["img"; "bash"] [].
Definition sample_prepare : res (list string * run_user * path) * trace :=
  @prepare host files SampleMounts.fs ["img"; "bash"] [].
End SampleHost.

(** C8: the container and its threads.  [main] never returns normally.  If it
    starts the container, it has started the event handler and the cleanup before
    and told the container the port the handler listens on; whatever happens to
    the container, it is followed by the cancellation and the join of both threads,
    and the exit code is the one of docker, or 130 after Ctrl-C.  In all other runs
    no docker command was issued and the exception that ended it is passed on. *)
Theorem docker_run_lifecycle `{RunHost} `{FileSystem} `{MountFS} unknown_args :
  let '(r, tr) := main unknown_args [] in
  (∃ cmd before config_path port, bound_port = Ret port ∧
     tr = before ++ [Ran cmd; CancelCleanup; CancelEvents; JoinCleanup; JoinEvents] ∧
     Forall before_container before ∧
     StartEvents ("ContainerEventHandler-" +:+ str_int port) port ∈ before ∧
     StartCleanup config_path [path_entry (parent scripts_dir) "images"] ∈ before ∧
     ["docker"; "run"; "--rm"] `prefix_of` cmd ∧ unknown_args `suffix_of` cmd ∧
     "--env=DEVKIT_SOCKET_PORT=" +:+ str_int port ∈ cmd ∧
     r = Raise (container_exit (run_program cmd))) ∨
  (Forall before_container tr ∧ ∃ e, r = Raise e).
Proof.
  destruct (main unknown_args []) as [r tr] eqn:Hm.
  destruct (main_cases _ _ _ Hm) as [(cmd & us & dj & tr0 & before & Hp & [l Hpre] & Hc & Hb & -> & ->)|?]; [left|by right].
  destruct (prepare_spec _ _ _ _ _ _ Hp) as [[ps ? ? env port args ? ? ? ? Hcmd ? Hport ? ? ? [tr1 Htr]]].
  exists cmd, before, dj, port. split_and!; try done.
  - subst before tr0. set_solver.
  - subst cmd. unfold docker_cmd. destruct nofile. eexists. reflexivity.
  - subst cmd. unfold docker_cmd. destruct nofile. rewrite !(assoc_L (++)). by apply suffix_app_r.
  - subst cmd. apply docker_cmd_has. set_solver.
Qed.

(** The command line of a run with a container that exits with code 3. *)
Example docker_run_sample :
  match SampleHost.sample_run with
  | (Raise (SystemExit rc), tr) =>
      (rc =? 3)%Z && (length tr =? 33) &&
      existsb (λ e, match e with
                    | Ran cmd => bool_decide (["--volume=/data/lib:/data/lib"; "--interactive"; "--tty"; "--privileged";
                                               "--label=x y"; "a b"; "--env=DISPLAY"; "img"; "bash";
                                               "--volume=/home/u/.npm:/root/.npm"; "--volume=/repos/src.git:/repos/src.git";
                                               "--volume=/home/u/.gitconfig:/root/.gitconfig"] ⊆ cmd)
                    | _ => false
                    end) tr
  | _ => false
  end = true.
Proof. vm_compute. reflexivity. Qed.

Lemma docker_run_lifecycle_witness :
  SampleHost.sample_run.1 = Raise (SystemExit 3) ∧
  ∃ cmd before, SampleHost.sample_run.2 = before ++ [Ran cmd; CancelCleanup; CancelEvents; JoinCleanup; JoinEvents] ∧
                "--env=DEVKIT_SOCKET_PORT=40123" ∈ cmd.
Proof.
  assert (match SampleHost.sample_run.1 with Raise (SystemExit z) => (z =? 3)%Z | _ => false end = true) as Hr
    by (vm_compute; reflexivity).
  assert (existsb (λ e, match e with CancelEvents => true | _ => false end) SampleHost.sample_run.2 = true) as Hc
    by (vm_compute; reflexivity).
  pose proof (@docker_run_lifecycle SampleHost.host SampleHost.files SampleMounts.fs ["img"; "bash"]) as Hl.
  change (main ["img"; "bash"] []) with SampleHost.sample_run in Hl.
  destruct SampleHost.sample_run as [r tr]. simpl in Hr, Hc |- *. split.
  { destruct r as [u|e]; [discriminate Hr|]. destruct e; try discriminate Hr. by apply Z.eqb_eq in Hr as ->. }
  destruct Hl as [(cmd & before & c & port & Hport & -> & _ & _ & _ & _ & _ & Hp & _)|[Hb _]].
  { injection Hport as <-. exists cmd, before. split; [reflexivity|exact Hp]. }
  exfalso. apply existsb_exists in Hc as (e & He & Hd). rewrite Forall_forall in Hb.
  specialize (Hb e (proj2 (list_elem_of_In _ _) He)). by destruct e.
Defined.

(** C17: the volumes of the container.  A prepared command mounts the project and the
    temporary directory, and covers everything that is wanted: each socket, each
    directory and file of the home, and each target of a link of the project lies
    below a mount [q].  A mount [command_home/rest] inside the home of the command is passed
    as [--volume=host_home/rest:container_home/rest], and one outside it as [--volume=q:q]. *)
Theorem docker_run_volumes `{RunHost} `{FileSystem} `{MountFS} unknown_args tr cmd us dj tr' :
  prepare unknown_args tr = (Ret (cmd, us, dj), tr') →
  ∃ ps, (∀ tr, find_paths tr = (Ret ps, tr)) ∧
    volume_option (host_project_root ps) (container_project_root ps) ∈ cmd ∧
    volume_option (host_tmp_dir ps) (container_tmp_dir ps) ∈ cmd ∧
    ∀ p, wanted ps us p → ∃ q, is_relative_to p q = true ∧ mounted ps q cmd.
Proof. intros Hp%prepare_spec. by eapply prepared_volumes. Qed.

(** The home is [/home/u] on the host and [/root] in the container. *)
Lemma docker_run_volumes_witness :
  ∃ cmd us dj tr', SampleHost.sample_prepare = (Ret (cmd, us, dj), tr') ∧
    "--volume=/src:/src" ∈ cmd ∧
    ∃ q, is_relative_to (SampleHost.at_home [".npm"]) q = true ∧
      ((is_relative_to q (SampleHost.at_home []) = false ∧ volume_option q q ∈ cmd) ∨
       ∃ rest, q = SampleHost.at_home rest ∧
               volume_option (Path "/" (["home"; "u"] ++ rest)) (Path "/" (["root"] ++ rest)) ∈ cmd).
Proof.
  destruct SampleHost.sample_prepare as [r tr'] eqn:Hp.
  assert (match r with Ret _ => true | Raise _ => false end = true) as Hr.
  { transitivity (match SampleHost.sample_prepare.1 with Ret _ => true | Raise _ => false end);
      [by rewrite Hp|vm_compute; reflexivity]. }
  destruct r as [[[cmd us] dj]|e]; [|discriminate Hr].
  exists cmd, us, dj, tr'. split; [reflexivity|].
  destruct (@docker_run_volumes SampleHost.host SampleHost.files SampleMounts.fs ["img"; "bash"] [] cmd us dj tr' Hp)
    as (ps & Hps & Hv & _ & Hall).
  specialize (Hps []). vm_compute in Hps. injection Hps as <-. split; [exact Hv|].
  destruct (Hall (SampleHost.at_home [".npm"])) as (q & Hq & Hm).
  { right. left. apply (bool_decide_unpack _). vm_compute. exact I. }
  exists q. split; [exact Hq|exact Hm].
Defined.

(** C25: the log holds the command.  When the container was started, the line logged
    before is the command in shell syntax: split by the rules of the shell it gives
    exactly the arguments docker was called with. *)
Theorem logged_command_is_run `{RunHost} `{FileSystem} `{MountFS} unknown_args r tr cmd :
  main unknown_args [] = (r, tr) → Ran cmd ∈ tr → head cmd = Some "docker" →
  ∃ line, Logged line ∈ tr ∧ shlex_split line = Ret cmd.
Proof.
  intros Hm Hin Hd. destruct (docker_command_prepared _ _ _ _ Hm Hin Hd) as (us & dj & tr0 & Hp & [l ->]).
  destruct (prepare_spec _ _ _ _ _ _ Hp) as [[? ? ? ? ? ? ? ? ? ? ? ? ? ? ? ? [tr1 ->]]].
  exists (shlex_join cmd). split; [|apply shlex_split_join]. set_solver.
Qed.

Definition runs_docker (e : effect) : bool :=
  match e with Ran (prog :: _) => bool_decide (prog = "docker") | _ => false end.

Lemma logged_command_is_run_witness :
  ∃ r tr cmd line, SampleHost.sample_run = (r, tr) ∧ Ran cmd ∈ tr ∧ head cmd = Some "docker" ∧
                   Logged line ∈ tr ∧ shlex_split line = Ret cmd.
Proof.
  destruct SampleHost.sample_run as [r tr] eqn:Hm.
  destruct (list_find (λ e, runs_docker e = true) tr) as [[i e]|] eqn:Hf.
  - apply list_find_Some in Hf as (Hi & He & _). destruct e as [| |[|prog rest]| | | | | | |]; try discriminate He.
    apply bool_decide_eq_true in He. subst prog. apply list_elem_of_lookup_2 in Hi.
    destruct (@logged_command_is_run SampleHost.host SampleHost.files SampleMounts.fs ["img"; "bash"] r tr
                ("docker" :: rest) Hm Hi eq_refl) as (line & Hl & Hs).
    exists r, tr, ("docker" :: rest), line. split_and!; [reflexivity|exact Hi|reflexivity|exact Hl|exact Hs].
  - exfalso.
    assert (existsb runs_docker SampleHost.sample_run.2 = true) as Hn by (vm_compute; reflexivity).
    rewrite Hm in Hn. apply existsb_exists in Hn as (e & He & Hd). apply list_find_None in Hf.
    rewrite Forall_forall in Hf. by apply (Hf e); [apply list_elem_of_In|].
Defined.
