(* ===== verification/Bep.v ===== *)
(** * Build event files: [bep.py]

    For each Bazel target the script runs [devkit/build bazel] with temporary
    caches and an output file of its own.  The state is the trace of directories
    made, temporary directories made and removed, commands and printed lines;
    the class [BepHost] gives what the host answers.  Error text on standard
    error is left out. *)

From Stdlib Require Import Ascii.
From stdpp Require Import numbers base strings sets list.
From S2P Require Import Prelude PyStr DockerImage Mounts ProjectRoot.

Inductive bep_effect :=
  | MkdirP (p : path)
  | MkTemp (dir : string)
  | RmTemp (dir : string)
  | Executed (cmd : list string) (p : proc)
  | Printed (line : string).

Definition bep_trace : Type := list bep_effect.
Definition note (e : bep_effect) : ST bep_trace unit := modify (λ tr, tr ++ [e]).

Class BepHost := {
  bep_there : path → bool;                       (* [Path.exists] *)
  bep_PWD : option string;
  bep_cwd : path;
  bep_mkdir : path → res unit;
  mkdtemp : bep_trace → res string;              (* a name, given all that happened before *)
  bep_exec : bep_trace → list string → proc * string;
  bep_mkdir_exn : ∀ p e, bep_mkdir p = Raise e → is_Exception e = true;
  mkdtemp_exn : ∀ tr e, mkdtemp tr = Raise e → is_Exception e = true;
}.

Section bep.
Context `{BepHost}.

(** [except subprocess.CalledProcessError] and [except FileNotFoundError] *)
Definition run_handled (e : exn) : bool :=
  match e with CalledProcessError _ | FileNotFoundError => true | _ => false end.

Definition run_command (cmd_args : list string) (capture_output : bool) : ST bep_trace string :=
  try_catch run_handled
    (tr ← get;
     let '(p, stdout) := bep_exec tr cmd_args in
     _ ← note (Executed cmd_args p);
     match p with
     | NoProgram => raise FileNotFoundError
     | Exited rc =>
         if bool_decide (rc = 0%Z) then mret (if capture_output then strip stdout else "")
         else raise (CalledProcessError rc)
     end)
    (λ _, sys_exit 1).

(** [with tempfile.TemporaryDirectory() as dir: body(dir)] *)
Definition with_temp {A} (body : string → ST bep_trace A) : ST bep_trace A :=
  tr ← get;
  dir ← lift (mkdtemp tr);
  _ ← note (MkTemp dir);
  try_finally (body dir) (note (RmTemp dir)).

Definition bazel_cmd (devkit_build cache_dir registry_cache_dir bazel_target : string) (output_path : path)
    (bazel_command : string) : list string :=
  [devkit_build; "bazel"; "--output_base=" +:+ cache_dir; bazel_command;
   "--build_event_json_file=" +:+ path_str output_path; "--repository_cache=" +:+ registry_cache_dir;
   bazel_target]
  ++ (if decide (bazel_command = "build") then ["--noremote_accept_cached"] else []).

Definition generate_build_event_json (bazel_target : string) (output_path : path) (bazel_command : string)
    : ST bep_trace unit :=
  project_root ← lift (find_project_root bep_there bep_PWD bep_cwd);
  let devkit_build := path_str (path_entry (path_entry project_root "devkit") "build") in
  with_temp (λ bazel_cache_dir, with_temp (λ bazel_registry_cache_dir,
    _ ← run_command (bazel_cmd devkit_build bazel_cache_dir bazel_registry_cache_dir bazel_target
                       output_path bazel_command) false;
    mret tt)).

Definition _process_target_and_save (bazel_target : string) (output_file : path) (command : string)
    : ST bep_trace unit :=
  generate_build_event_json bazel_target output_file command.

(** [bazel_target.replace(":", "_").split("/")[-1]] *)
Definition sanitized_target_name (bazel_target : string) : string :=
  default "" (last (split_on "/" (replace_char ":" "_" bazel_target))).

Definition output_file (output_dir : path) (bazel_target : string) : path :=
  path_entry (path_join output_dir (path_of_str (sanitized_target_name bazel_target))) "bep.json".

(** [p.mkdir(parents=True, exist_ok=True)] *)
Definition mkdir_parents (p : path) : ST bep_trace unit :=
  _ ← note (MkdirP p); lift (bep_mkdir p).

Definition process_one (output_dir : path) (command bazel_target : string) : ST bep_trace unit :=
  let out := output_file output_dir bazel_target in
  _ ← mkdir_parents (parent out);
  _process_target_and_save bazel_target out command.

Definition generate_bazel_events_folder (targets : list string) (command : string) (output_dir : path)
    : ST bep_trace unit :=
  _ ← mkdir_parents output_dir;
  match targets with
  | [] => _process_target_and_save "//..." (path_entry output_dir "bep.json") command
  | _ => mapM_ (process_one output_dir command) targets
  end.

(** [main] from the parsed arguments on *)
Definition bep_main (targets : list string) (command : string) (output_dir : path) : ST bep_trace unit :=
  _ ← generate_bazel_events_folder targets command output_dir;
  note (Printed "All targets processed successfully.").
End bep.

(** ** Specification *)

(** What a computation adds to the trace, given its result. *)
Definition emits {A} (m : ST bep_trace A) (Q : res A → bep_trace → Prop) : Prop :=
  ∀ tr r tr', m tr = (r, tr') → ∃ l, tr' = tr ++ l ∧ Q r l.

Definition executed (tr : bep_trace) : list (list string * proc) :=
  omap (λ e, match e with Executed cmd p => Some (cmd, p) | _ => None end) tr.
Definition temps_made (tr : bep_trace) : list string :=
  omap (λ e, match e with MkTemp dir => Some dir | _ => None end) tr.
Definition temps_removed (tr : bep_trace) : list string :=
  omap (λ e, match e with RmTemp dir => Some dir | _ => None end) tr.

(** The targets with their output files. *)
Definition jobs (targets : list string) (output_dir : path) : list (string * path) :=
  match targets with
  | [] => [("//...", path_entry output_dir "bep.json")]
  | _ => (λ t, (t, output_file output_dir t)) <$> targets
  end.

Section spec.
Context `{BepHost}.

(** The command line of a job: [devkit/build] of the project with the given Bazel command, with some
    temporary directories [a] and [b]; a build does not use the remote cache. *)
Definition is_job_cmd (command : string) (job : string * path) (cmd : list string) : Prop :=
  ∃ root a b, find_project_root bep_there bep_PWD bep_cwd = Ret root ∧
    cmd = [path_str (Path (p_root root) (p_tail root ++ ["devkit"; "build"])); "bazel"; "--output_base=" +:+ a; command;
           "--build_event_json_file=" +:+ path_str job.2; "--repository_cache=" +:+ b; job.1] ++
          (if decide (command = "build") then ["--noremote_accept_cached"] else []).

(** The exceptions of the host: no project root, a directory that cannot be made. *)
Definition host_error (e : exn) : Prop :=
  find_project_root bep_there bep_PWD bep_cwd = Raise e ∨ (∃ p, bep_mkdir p = Raise e) ∨ (∃ tr, mkdtemp tr = Raise e).

(** One job: its command, successful or not, or none at all; temporary
    directories are removed in any case. *)
Definition job_done (command : string) (job : string * path) (r : res unit) (l : bep_trace) : Prop :=
  temps_made l ≡ₚ temps_removed l ∧
  ((∃ cmd p, executed l = [(cmd, p)] ∧ is_job_cmd command job cmd ∧
     r = (if decide (p = Exited 0) then Ret tt else Raise (SystemExit 1))) ∨
   (executed l = [] ∧ ∃ e, r = Raise e ∧ host_error e)).

Lemma find_root_exn e : find_project_root bep_there bep_PWD bep_cwd = Raise e → is_Exception e = true.
Proof. unfold find_project_root. case_match; [by case_match|]. by intros [= <-]. Qed.

Lemma host_error_exn e : host_error e → is_Exception e = true.
Proof. intros [?|[[p ?]|[tr ?]]]; eauto using find_root_exn, bep_mkdir_exn, mkdtemp_exn. Qed.

Lemma emits_with_temp {A} (body : string → ST bep_trace A) Q :
  (∀ dir, emits (body dir) (Q dir)) →
  emits (with_temp body) (λ r l,
    (∃ e, r = Raise e ∧ host_error e ∧ l = []) ∨
    ∃ dir l0, l = MkTemp dir :: l0 ++ [RmTemp dir] ∧ Q dir r l0).
Proof.
  intros Hb tr r tr'. unfold with_temp, mbind, ST_bind, get, lift.
  destruct (mkdtemp tr) as [dir|e] eqn:Ht.
  2: { intros [= <- <-]. exists []. rewrite app_nil_r. split; [done|]. left. exists e. split_and!; [done| |done]. right. right. eauto. }
  cbn [note modify]. unfold try_finally. destruct (body dir (tr ++ [MkTemp dir])) as [r1 tr1] eqn:Hr.
  cbn [note modify]. intros [= <- <-]. destruct (Hb dir _ _ _ Hr) as (l0 & -> & HQ).
  exists (MkTemp dir :: l0 ++ [RmTemp dir]). rewrite <-!(assoc_L (++)). split; [done|]. right. eauto.
Qed.

Lemma emits_run_command cmd capture :
  emits (run_command cmd capture) (λ r l, ∃ p, l = [Executed cmd p] ∧
    match p with
    | Exited 0%Z => ∃ out, r = Ret out
    | _ => r = Raise (SystemExit 1)
    end).
Proof.
  intros tr r tr'. unfold run_command, try_catch, mbind, ST_bind, get.
  destruct (bep_exec tr cmd) as [p out]. cbn [note modify].
  destruct p as [rc|]; [case_bool_decide as Hrc|]; cbn; intros [= <- <-]; eexists; (split; [done|]); eexists;
    (split; [done|]); [subst rc; eauto|by destruct rc|done].
Qed.

(** Balanced temporary directories around balanced effects. *)
Lemma temps_around dir l :
  temps_made l ≡ₚ temps_removed l →
  temps_made (MkTemp dir :: l ++ [RmTemp dir]) ≡ₚ temps_removed (MkTemp dir :: l ++ [RmTemp dir]).
Proof.
  intros Hl. unfold temps_made, temps_removed in *. cbn. rewrite !omap_app. cbn. rewrite app_nil_r, Hl.
  by rewrite Permutation_cons_append.
Qed.

Lemma executed_around dir l : executed (MkTemp dir :: l ++ [RmTemp dir]) = executed l.
Proof. unfold executed. cbn. rewrite omap_app. cbn. by rewrite app_nil_r. Qed.

Lemma emits_process target out command :
  emits (_process_target_and_save target out command) (job_done command (target, out)).
Proof.
  intros tr r tr'. unfold _process_target_and_save, generate_build_event_json.
  unfold mbind at 1, ST_bind at 1, lift. destruct (find_project_root _ _ _) as [root|e] eqn:Hroot.
  2: { intros [= <- <-]. exists []. rewrite app_nil_r. split; [done|]. split; [done|]. right. split; [done|].
       exists e. split; [done|by left]. }
  set (build := path_str _). intros Hrun.
  eapply (emits_with_temp _ (λ a r l,
    (∃ e, r = Raise e ∧ host_error e ∧ l = []) ∨
    ∃ b l0, l = MkTemp b :: l0 ++ [RmTemp b] ∧ ∃ p, l0 = [Executed (bazel_cmd build a b target out command) p] ∧
            r = (if decide (p = Exited 0) then Ret tt else Raise (SystemExit 1)))) in Hrun as (l & -> & Hl).
  - exists l. split; [done|]. destruct Hl as [(e & -> & He & ->)|(a & l1 & -> & Hl)].
    { split; [done|]. right. eauto. }
    destruct Hl as [(e & -> & He & ->)|(b & l0 & -> & p & -> & ->)].
    { split; [by apply temps_around|]. right. eauto. }
    split; [by do 2 apply temps_around|]. left. rewrite !executed_around.
    exists (bazel_cmd build a b target out command), p. split_and!; [done| |done].
    exists root, a, b. split; [done|]. unfold build, path_entry. cbn [p_root p_tail]. by rewrite <-(assoc_L (++)).
  - intros a. apply emits_with_temp. intros b tr1 r1 tr1'. unfold mbind, ST_bind.
    destruct (run_command _ _ tr1) as [rr tr2] eqn:Hrc. apply emits_run_command in Hrc as (l0 & -> & p & -> & Hp).
    destruct p as [[|z|z]|]; [destruct Hp as [out' ->]|subst rr..]; intros [= <- <-]; eauto.
Qed.

(** Adding directories does not change the picture. *)
Lemma emits_mkdir p m command job :
  emits m (job_done command job) → emits (_ ← mkdir_parents p; m) (job_done command job).
Proof.
  intros Hm tr r tr'. unfold mkdir_parents, mbind, ST_bind, lift. cbn [note modify].
  destruct (bep_mkdir p) as [[]|e] eqn:Hp.
  - intros (l & -> & Hl)%Hm. exists (MkdirP p :: l). by rewrite <-(assoc_L (++)).
  - intros [= <- <-]. exists [MkdirP p]. split; [done|]. split; [done|]. right. split; [done|].
    exists e. split; [done|]. right. left. eauto.
Qed.

(** A list of jobs: a prefix of the commands in order; all of them when the run
    returns, and otherwise up to the first that fails. *)
Definition jobs_done (command : string) (js : list (string * path)) (r : res unit) (l : bep_trace) : Prop :=
  temps_made l ≡ₚ temps_removed l ∧
  (∃ n, Forall2 (λ job cp, is_job_cmd command job cp.1) (take n js) (executed l)) ∧
  match r with
  | Ret _ => length (executed l) = length js ∧ Forall (λ cp, cp.2 = Exited 0) (executed l)
  | Raise e =>
      ∃ good rest, executed l = good ++ rest ∧ Forall (λ cp, cp.2 = Exited 0) good ∧ length good < length js ∧
        ((rest = [] ∧ host_error e) ∨ (∃ cp, rest = [cp] ∧ cp.2 ≠ Exited 0 ∧ e = SystemExit 1))
  end.

(** One more job in front. *)
Lemma jobs_done_cons command job js l1 r l2 :
  job_done command job (Ret tt) l1 → jobs_done command js r l2 → jobs_done command (job :: js) r (l1 ++ l2).
Proof.
  intros (Ht1 & Hj) (Ht2 & [n Hn] & Hr).
  destruct Hj as [(cmd & p & Hex & Hcmd & Hp)|(_ & e & He & _)]; [|done].
  case_decide as Hok; [subst p|done].
  assert (executed (l1 ++ l2) = (cmd, Exited 0) :: executed l2) as Hex2.
  { unfold executed in *. by rewrite omap_app, Hex. }
  split_and!.
  - unfold temps_made, temps_removed in *. by rewrite !omap_app, Ht1, Ht2.
  - exists (S n). rewrite Hex2. by constructor.
  - rewrite Hex2. destruct r as [u|e].
    + destruct Hr as [Hlen Hall]. split; [simpl; by rewrite Hlen|by constructor].
    + destruct Hr as (good & rest & -> & Hg & Hlen & Hrest). exists ((cmd, Exited 0) :: good), rest.
      split_and!; [done|by constructor|simpl; lia|done].
Qed.

Lemma jobs_done_one command job r l : job_done command job r l → jobs_done command [job] r l.
Proof.
  destruct r as [[]|e].
  - intros Hj. rewrite <-(app_nil_r l). apply jobs_done_cons; [done|]. split; [done|].
    split; [exists 0; constructor|]. split; [done|constructor].
  - intros (Ht & [(cmd & p & Hex & Hcmd & Hp)|(Hex & e' & [= <-] & He)]); (split; [done|]); rewrite Hex.
    + split; [exists 1; by repeat constructor|]. case_decide; [done|]. injection Hp as ->.
      exists [], [(cmd, p)]. split_and!; [done|constructor|simpl; lia|]. right. eauto.
    + split; [exists 0; constructor|]. exists [], []. split_and!; [done|constructor|simpl; lia|]. by left.
Qed.

Lemma emits_jobs {X} (f : X → ST bep_trace unit) (g : X → string * path) command xs :
  (∀ x, emits (f x) (job_done command (g x))) → emits (mapM_ f xs) (jobs_done command (g <$> xs)).
Proof.
  intros Hf. induction xs as [|x xs IH]; intros tr r tr'; cbn [mapM_].
  - intros [= <- <-]. exists []. rewrite app_nil_r. split; [done|].
    split_and!; [done|exists 0; constructor|done|constructor].
  - unfold mbind, ST_bind. destruct (f x tr) as [r1 tr1] eqn:Hx.
    apply Hf in Hx as (l1 & -> & Hj). destruct r1 as [[]|e].
    + intros (l2 & -> & Hl2)%IH. exists (l1 ++ l2). rewrite (assoc_L (++)). split; [done|].
      by apply jobs_done_cons.
    + intros [= <- <-]. exists l1. split; [done|].
      destruct (jobs_done_one _ _ _ _ Hj) as (? & [n Hn] & good & rest & ? & ? & Hlen & ?). split_and!; [done| |].
      * destruct n as [|n]; [by exists 0|]. exists 1. cbn. by destruct n.
      * exists good, rest. simpl in *. split_and!; [done|done|lia|done].
Qed.

Lemma emits_folder targets command output_dir :
  emits (generate_bazel_events_folder targets command output_dir)
    (jobs_done command (jobs targets output_dir)).
Proof.
  intros tr r tr'. unfold generate_bazel_events_folder. unfold mbind at 1, ST_bind at 1.
  unfold mkdir_parents, mbind at 1, ST_bind at 1, lift. cbn [note modify].
  destruct (bep_mkdir output_dir) as [[]|e] eqn:Hd.
  - intros Hrun. enough (∃ l, tr' = (tr ++ [MkdirP output_dir]) ++ l ∧ jobs_done command (jobs targets output_dir) r l)
      as (l & -> & Hl) by (exists (MkdirP output_dir :: l); by rewrite <-(assoc_L (++))).
    destruct targets as [|t ts].
    + apply emits_process in Hrun as (l & -> & Hl). exists l. split; [done|by apply jobs_done_one].
    + apply (emits_jobs (process_one output_dir command) (λ t, (t, output_file output_dir t)) command) in Hrun
        as (l & -> & Hl); [by exists l|].
      intros x. apply emits_mkdir. apply emits_process.
  - intros [= <- <-]. exists [MkdirP output_dir]. split; [done|]. split; [done|].
    split; [exists 0; constructor|]. exists [], []. split_and!; [done|constructor|by destruct targets; simpl; lia|].
    left. split; [done|]. right. left. eauto.
Qed.

(** Nothing but the last line is printed. *)
Lemma folder_silent targets command output_dir :
  adds (λ e, ∀ s, e ≠ Printed s) (generate_bazel_events_folder targets command output_dir).
Proof.
  unfold generate_bazel_events_folder, process_one, _process_target_and_save, generate_build_event_json,
    mkdir_parents, with_temp, run_command, note.
  solve_adds; done.
Qed.

Lemma jobs_done_printed command js l s :
  jobs_done command js (Ret tt) l → jobs_done command js (Ret tt) (l ++ [Printed s]).
Proof.
  unfold jobs_done, temps_made, temps_removed, executed. rewrite !omap_app. cbn. by rewrite !app_nil_r.
Qed.
End spec.

(** C19: the Bazel commands.  The commands run are those of the targets (of [//...]
    without targets), one each, in order: [devkit/build bazel] with the given Bazel command, the
    target and its output file.  The run returns, and prints the line that reports success, exactly
    when every target was run and every command ended with exit code 0; otherwise it stops at the
    first command that fails, with exit code 1, or with an error of the host (no project root, a
    directory that cannot be made) before all commands were run.  Every temporary directory
    is removed, however the run ends. *)
Theorem bep_main_commands `{BepHost} targets command output_dir :
  let '(r, tr) := bep_main targets command output_dir [] in
  jobs_done command (jobs targets output_dir) r tr ∧
  (Printed "All targets processed successfully." ∈ tr ↔ r = Ret tt) ∧
  (r = Ret tt ↔ length (executed tr) = length (jobs targets output_dir) ∧
                Forall (λ cp, cp.2 = Exited 0) (executed tr)).
Proof.
  unfold bep_main, mbind, ST_bind.
  destruct (generate_bazel_events_folder targets command output_dir []) as [r tr] eqn:Hr.
  pose proof Hr as (l & -> & Hl)%emits_folder.
  apply folder_silent in Hr as (l' & Heq & Hno). simpl in *. subst l'.
  destruct r as [[]|e]; cbn [note modify].
  - apply (jobs_done_printed _ _ _ "All targets processed successfully.") in Hl.
    split; [done|]. split; [split; [done|set_solver]|]. split; [|done]. intros _. apply Hl.
  - split; [done|]. split; [split; [|done]|split; [done|]].
    + intros Hin. rewrite Forall_forall in Hno. by destruct (Hno _ Hin _ eq_refl).
    + destruct Hl as (_ & _ & good & rest & -> & _ & Hlen & [[-> _]|(cp & -> & Hbad & _)]); intros [Heq Hall].
      * rewrite app_nil_r in Heq. lia.
      * apply Forall_app in Hall as [_ Hall]. apply Forall_cons in Hall as [? _]. done.
Qed.

(** ** Output files *)

Lemma split_on_pieces c s : Forall (λ w, str_free c w = true) (split_on c s).
Proof.
  induction s as [|a s IH]; [by repeat constructor|]. cbn [split_on].
  case_decide as Hc; [by constructor|]. destruct (split_on c s) as [|w ws]; [repeat constructor|].
  - cbn. by rewrite bool_decide_false.
  - inversion IH as [|?? Hw Hws]; subst. constructor; [|done]. cbn. by rewrite bool_decide_false, Hw.
Qed.

Lemma sanitized_no_slash t : str_free "/" (sanitized_target_name t) = true.
Proof.
  unfold sanitized_target_name. pose proof (split_on_pieces "/" (replace_char ":" "_" t)) as Hp.
  destruct (last _) as [w|] eqn:Hl; [|done]. rewrite Forall_forall in Hp. apply Hp.
  apply last_Some in Hl as [l ->]. set_solver.
Qed.

(** A name without slashes is one component. *)
Lemma path_of_name s :
  str_free "/" s = true → s ≠ "" → s ≠ "." → path_of_str s = Path "" [s].
Proof.
  intros Hf H1 H2. unfold path_of_str. rewrite split_on_free by done.
  rewrite filter_cons_True by done. destruct s as [|a s]; [done|].
  cbn [startswith str_free] in *. apply andb_true_iff in Hf as [Ha _].
  destruct (bool_decide ("/"%char = a)) eqn:Hb.
  - apply bool_decide_eq_true in Hb. subst a. by rewrite bool_decide_true in Ha.
  - done.
Qed.

(** Two targets with proper names share their output file exactly when the parts
    after the last slash agree, colons read as underscores. *)
Lemma output_file_shared output_dir t1 t2 :
  sanitized_target_name t1 ∉ [""; "."] → sanitized_target_name t2 ∉ [""; "."] →
  output_file output_dir t1 = output_file output_dir t2 ↔ sanitized_target_name t1 = sanitized_target_name t2.
Proof.
  rewrite !elem_of_cons, elem_of_nil. intros H1 H2. unfold output_file.
  rewrite !path_of_name by (try apply sanitized_no_slash; tauto).
  split; [|by intros ->]. unfold path_entry, path_join. cbn. intros [= Heq].
  apply app_inj_tail in Heq as [Heq _]. by simplify_list_eq.
Qed.

(** Targets of different packages that do: the second run overwrites the first. *)
Lemma same_output_file output_dir :
  output_file output_dir "//foo/lib:test" = output_file output_dir "//bar/lib:test".
Proof. reflexivity. Qed.

(** ** A host on which the second target fails *)

Module SampleBep.
#[export] Instance host : BepHost := {|
  bep_there p := bool_decide (p = Path "/" ["src"; "devkit"]);
  bep_PWD := Some "/src";
  bep_cwd := Path "/" ["src"];
  bep_mkdir _ := Ret tt;
  mkdtemp tr := Ret ("/tmp/tmp" +:+ str_int (Z.of_nat (length tr)));
  bep_exec _ cmd := (Exited (if bool_decide ("//c:bad" ∈ cmd) then 7 else 0), "");
  bep_mkdir_exn p e := ltac:(discriminate);
  mkdtemp_exn tr e := ltac:(discriminate);
|}.

Definition sample_bep : res unit * bep_trace := bep_main ["//a:b"; "//c:bad"; "//e"] "build" (Path "" ["out"]) [].
End SampleBep.

Lemma bep_main_commands_witness :
  SampleBep.sample_bep.1 = Raise (SystemExit 1) ∧
  @jobs_done SampleBep.host "build" (jobs ["//a:b"; "//c:bad"; "//e"] (Path "" ["out"]))
    SampleBep.sample_bep.1 SampleBep.sample_bep.2 ∧
  executed SampleBep.sample_bep.2 =
    [(["/src/devkit/build"; "bazel"; "--output_base=/tmp/tmp2"; "build"; "--build_event_json_file=out/a_b/bep.json";
       "--repository_cache=/tmp/tmp3"; "//a:b"; "--noremote_accept_cached"], Exited 0);
     (["/src/devkit/build"; "bazel"; "--output_base=/tmp/tmp8"; "build"; "--build_event_json_file=out/c_bad/bep.json";
       "--repository_cache=/tmp/tmp9"; "//c:bad"; "--noremote_accept_cached"], Exited 7)].
Proof.
  split; [vm_compute; reflexivity|]. split; [|vm_compute; reflexivity].
  unfold SampleBep.sample_bep.
  pose proof (@bep_main_commands SampleBep.host ["//a:b"; "//c:bad"; "//e"] "build" (Path "" ["out"])) as Hb.
  destruct (bep_main _ _ _ _) as [r tr]. exact (proj1 Hb).
Defined.
