(* ===== verification/Bootstrap.v ===== *)
(** * Project templates: [bootstrap.py]

    The state holds the files of the disk with their bytes and modes, and what is
    printed.  Jinja2 is the class [TemplateEngine]: parsing and rendering each
    give a value, one of the two template errors the script reports, or another
    exception; rendering may read the files below the template directory, which
    is where its loader looks.  The class [BootHost] gives the directory walk and
    the answers of the operating system; the walk is the one before anything is
    written, and lists each file once. *)

From Stdlib Require Import Ascii.
From stdpp Require Import numbers base strings gmap list.
From S2P Require Import Prelude PyStr PyInt Unicode Mounts MountTheorems.

Record file := File {
  f_bytes : list Z;
  f_mode : Z;
}.

Record disk := Disk {
  d_files : gmap path file;
  d_stderr : list ustr;
  d_stdout : list ustr;
}.

Definition set_files (fs : gmap path file) (d : disk) : disk := Disk fs (d_stderr d) (d_stdout d).
Definition print_err (line : ustr) : ST disk unit :=
  modify (λ d, Disk (d_files d) (d_stderr d ++ [line]) (d_stdout d)).
Definition print_out (line : ustr) : ST disk unit :=
  modify (λ d, Disk (d_files d) (d_stderr d) (d_stdout d ++ [line])).

(** Outcome of a call into Jinja2. *)
Inductive tres (A : Type) :=
  | TRet (a : A)
  | TSyntaxError (lineno : Z) (message : ustr)
  | TUndefinedError (message : ustr)
  | TRaise (e : exn).
Arguments TRet {A} a.
Arguments TSyntaxError {A} lineno message.
Arguments TUndefinedError {A} message.
Arguments TRaise {A} e.

Class TemplateEngine := {
  template : Type;
  from_string : ustr → tres template;
  render : gmap path file → path → template → dict string → tres ustr;
  render_local : ∀ fs fs' src_dir t ctx,
    (∀ p, is_relative_to p src_dir = true → fs !! p = fs' !! p) → render fs src_dir t ctx = render fs' src_dir t ctx;
}.

Class BootHost := {
  walk_files : path → list (path * list string);      (* [os.walk(src_dir, followlinks=True)] *)
  make_dirs : path → res unit;                        (* [mkdir(parents=True, exist_ok=True)] *)
  open_write : path → res unit;
  new_file_mode : Z;
  script_dir : path;
  resolve_path : path → path;
  resolve_strict : path → res path;
  walk_below : ∀ src_dir dirpath names, (dirpath, names) ∈ walk_files src_dir → is_relative_to dirpath src_dir = true;
  walk_once : ∀ src_dir, NoDup (walk_files src_dir ≫= λ '(dirpath, names), path_entry dirpath <$> names);
}.

(** A numbered line of the template around an error. *)
Definition blanks (n : nat) : ustr := replicate n 32%Z.
Definition context_line (lineno : Z) (lines : list ustr) (i : nat) : ustr :=
  let n := Z.of_nat (S i) in
  u "    " ++ blanks (4 - String.length (str_int n)) ++ u (str_int n) ++
  (if (n =? lineno)%Z then u " >" else u "  ") ++ u " " ++ default [] (lines !! i).
(** [range(max(0, lineno - 4), min(len(lines), lineno + 3))] *)
Definition context_lines (lineno : Z) (lines : list ustr) : list ustr :=
  let first := Z.to_nat (lineno - 4) in
  let stop := Z.to_nat (Z.min (Z.of_nat (length lines)) (lineno + 3)) in
  context_line lineno lines <$> seq first (stop - first).

Section bootstrap.
Context `{TemplateEngine} `{BootHost}.

(** [open("r", encoding="utf-8")] and [read] *)
Definition read_text (p : path) : ST disk ustr :=
  d ← get;
  match d_files d !! p with
  | None => raise FileNotFoundError
  | Some f => s ← lift (decode_utf8 (f_bytes f)); mret (universal_newlines s)
  end.

(** [open("w")]: the file is there and empty, with its mode or the one of new files. *)
Definition mode_of (fs : gmap path file) (p : path) : Z := from_option f_mode new_file_mode (fs !! p).
Definition truncate (p : path) : ST disk unit :=
  _ ← lift (open_write p);
  modify (λ d, set_files (<[p := File [] (mode_of (d_files d) p)]> (d_files d)) d).

Definition write_text (p : path) (s : ustr) : ST disk unit :=
  if forallb is_scalar s then
    modify (λ d, set_files (<[p := File (encode_ustr s) (mode_of (d_files d) p)]> (d_files d)) d)
  else raise (ValueError "surrogates not allowed").

(** [shutil.copymode] *)
Definition copymode (src dst : path) : ST disk unit :=
  d ← get;
  match d_files d !! src, d_files d !! dst with
  | Some f, Some g => put (set_files (<[dst := File (f_bytes g) (f_mode f)]> (d_files d)) d)
  | _, _ => raise FileNotFoundError
  end.

(** The two [except] clauses. *)
Definition report_syntax_error (src_file_path : path) (content : ustr) (lineno : Z) (message : ustr)
    : ST disk bool :=
  _ ← print_err (u ("Error in template: " +:+ path_str src_file_path));
  _ ← print_err (u ("  Line " +:+ str_int lineno +:+ ": ") ++ message);
  let lines := u_splitlines content in
  _ ← mapM_ print_err (context_lines lineno lines);
  mret true.
Definition report_undefined (src_file_path : path) (message : ustr) : ST disk bool :=
  _ ← print_err (u ("Error in template: " +:+ path_str src_file_path));
  _ ← print_err (u "  " ++ message);
  mret true.

Definition relative_path (src_dir p : path) : path := Path "" (drop (length (p_tail src_dir)) (p_tail p)).
Definition dest_path (src_dir dest_dir src_file_path : path) : path :=
  path_join dest_dir (relative_path src_dir src_file_path).

(** The body of the inner loop; the result tells whether an error was reported. *)
Definition template_file (src_dir dest_dir : path) (context : dict string) (src_file_path : path)
    : ST disk bool :=
  let dest_file_path := dest_path src_dir dest_dir src_file_path in
  _ ← lift (make_dirs (parent dest_file_path));
  content ← read_text src_file_path;
  match from_string content with
  | TRaise e => raise e
  | TSyntaxError lineno message => report_syntax_error src_file_path content lineno message
  | TUndefinedError message => report_undefined src_file_path message
  | TRet template =>
      _ ← truncate dest_file_path;
      d ← get;
      match render (d_files d) src_dir template context with
      | TRaise e => raise e
      | TSyntaxError lineno message => report_syntax_error src_file_path content lineno message
      | TUndefinedError message => report_undefined src_file_path message
      | TRet text =>
          _ ← write_text dest_file_path (text ++ u (String (ascii_of_N 10) ""));
          _ ← copymode src_file_path dest_file_path;
          mret false
      end
  end.

(** The files the loops visit: all but the [.include] files. *)
Definition template_files (src_dir : path) : list path :=
  walk_files src_dir ≫= λ '(dirpath, filenames),
    path_entry dirpath <$> filter (λ name, endswith name ".include" = false) filenames.

Fixpoint template_loop (src_dir dest_dir : path) (context : dict string) (files : list path)
    (error_occurred : bool) : ST disk bool :=
  match files with
  | [] => mret error_occurred
  | f :: files =>
      error ← template_file src_dir dest_dir context f;
      template_loop src_dir dest_dir context files (error_occurred || error)
  end.

Definition copy_and_template (src_dir dest_dir : path) (context : dict string) : ST disk bool :=
  template_loop src_dir dest_dir context (template_files src_dir) false.

(** ** [main] *)

Record boot_args := BootArgs {
  a_template : string;
  a_templates_root : option path;
  a_output_dir : path;
  a_args : list string;
}.

Fixpoint parse_context (args : list string) (context : dict string) : ST disk (dict string) :=
  match args with
  | [] => mret context
  | arg :: args =>
      match split_eq arg with
      | None =>
          _ ← print_err (u ("Invalid argument: " +:+ arg +:+ ". Expected key=value."));
          sys_exit 1
      | Some (key, value) => parse_context args (dset context key value)
      end
  end.

(** The text of an unexpected exception is left out of its message. *)
Definition boot_main (args : boot_args) : ST disk unit :=
  context ← parse_context (a_args args) [];
  let templates_root_dir := match a_templates_root args with
                            | Some root => root
                            | None => path_entry (parent script_dir) "templates"
                            end in
  let template_dir := resolve_path (path_join templates_root_dir (path_of_str (a_template args))) in
  template_dir ← try_catch (λ e, bool_decide (e = FileNotFoundError)) (lift (resolve_strict template_dir))
    (λ _, _ ← print_err (u ("Template '" +:+ a_template args +:+ "' not found at '" +:+ path_str template_dir +:+ "'"));
          sys_exit 1);
  _ ← try_catch is_Exception
        (failed ← copy_and_template template_dir (a_output_dir args) context;
         if failed : bool then _ ← print_err (u "Errors occurred during templating."); sys_exit 1 else mret tt)
        (λ _, _ ← print_err (u "An error occurred"); sys_exit 1);
  print_out (u ("Project bootstrapped with '" +:+ a_template args +:+ "' template.")).
End bootstrap.
