(* ===== verification/BootstrapTheorems.v ===== *)
(** * What the bootstrap script guarantees

    [copy_and_template] against a description of what becomes of each file, and
    the exits of [main]. *)

From Stdlib Require Import Ascii.
From stdpp Require Import numbers base strings gmap list.
From S2P Require Import Prelude PyStr PyInt Unicode Mounts MountTheorems Bootstrap.

(** What becomes of the output of a template: written, not touched (the template
    cannot be parsed) or left empty (it cannot be rendered). *)
Inductive output :=
  | Written (bytes : list Z) (mode : Z)
  | Untouched
  | Emptied.

Definition is_error (o : output) : bool := match o with Written _ _ => false | _ => true end.

Section theorems.
Context `{TemplateEngine} `{BootHost}.

(** The output of one template, from the files of the disk alone. *)
Definition template_output (fs : gmap path file) (src_dir : path) (context : dict string) (src : path) : res output :=
  match fs !! src with
  | None => Raise FileNotFoundError
  | Some f =>
      s ← decode_utf8 (f_bytes f);
      match from_string (universal_newlines s) with
      | TRaise e => Raise e
      | TSyntaxError _ _ | TUndefinedError _ => Ret Untouched
      | TRet t =>
          match render fs src_dir t context with
          | TRaise e => Raise e
          | TSyntaxError _ _ | TUndefinedError _ => Ret Emptied
          | TRet text =>
              if forallb is_scalar (text ++ [10%Z])
              then Ret (Written (encode_ustr (text ++ [10%Z])) (f_mode f))
              else Raise (ValueError "surrogates not allowed")
          end
      end
  end.

Definition put_output (fs : gmap path file) (dest : path) (o : output) : gmap path file :=
  match o with
  | Written bytes mode => <[dest := File bytes mode]> fs
  | Untouched => fs
  | Emptied => <[dest := File [] (mode_of fs dest)]> fs
  end.

Lemma put_output_ne fs dest o p : p ≠ dest → put_output fs dest o !! p = fs !! p.
Proof. intros Hp. destruct o; simpl; [by rewrite lookup_insert_ne|done|by rewrite lookup_insert_ne]. Qed.

(** Only the files below the template directory matter. *)
Definition same_templates (src_dir : path) (fs fs' : gmap path file) : Prop :=
  ∀ p, is_relative_to p src_dir = true → fs !! p = fs' !! p.

#[export] Instance same_templates_equiv src_dir : Equivalence (same_templates src_dir).
Proof.
  split; [done|intros fs fs' Hf p Hp; symmetry; auto|].
  intros fs1 fs2 fs3 H12 H23 p Hp. by rewrite H12, H23.
Qed.

Lemma template_output_local fs fs' src_dir context src :
  is_relative_to src src_dir = true → same_templates src_dir fs fs' →
  template_output fs src_dir context src = template_output fs' src_dir context src.
Proof.
  intros Hsrc Hs. unfold template_output. rewrite (Hs src Hsrc). destruct (fs' !! src) as [f|]; [|done].
  destruct (decode_utf8 _) as [s|]; [|done]. simpl. destruct (from_string _) as [t| | |]; try done.
  by rewrite (render_local fs fs').
Qed.

Lemma same_templates_insert src_dir fs dest f :
  is_relative_to dest src_dir = false → same_templates src_dir fs (<[dest := f]> fs).
Proof. intros Hd p Hp. rewrite lookup_insert_ne; [done|]. by intros ->; rewrite Hp in Hd. Qed.

Lemma same_templates_put src_dir fs dest o :
  is_relative_to dest src_dir = false → same_templates src_dir fs (put_output fs dest o).
Proof. intros Hd. destruct o; simpl; auto using same_templates_insert. done. Qed.

(** Reports leave the files alone. *)
Lemma print_errs_files lines d : ∃ d', mapM_ print_err lines d = (Ret tt, d') ∧ d_files d' = d_files d.
Proof.
  revert d. induction lines as [|l lines IH]; intros d; [by exists d|].
  cbn [mapM_]. unfold mbind, ST_bind. cbn.
  destruct (IH (Disk (d_files d) (d_stderr d ++ [l]) (d_stdout d))) as (d' & -> & Hd'). by exists d'.
Qed.

Lemma report_syntax_files p content lineno msg d :
  ∃ d', report_syntax_error p content lineno msg d = (Ret true, d') ∧ d_files d' = d_files d.
Proof.
  unfold report_syntax_error, mbind, ST_bind. cbn.
  match goal with |- context [mapM_ print_err ?l ?d0] => destruct (print_errs_files l d0) as (d' & -> & Hd') end.
  by exists d'.
Qed.

Lemma report_undefined_files p msg d :
  ∃ d', report_undefined p msg d = (Ret true, d') ∧ d_files d' = d_files d.
Proof. by eexists. Qed.

Lemma template_file_spec src_dir dest_dir context src d :
  let dest := dest_path src_dir dest_dir src in
  make_dirs (parent dest) = Ret tt → open_write dest = Ret tt →
  is_relative_to src src_dir = true → is_relative_to dest src_dir = false →
  match template_output (d_files d) src_dir context src with
  | Ret o => ∃ d', template_file src_dir dest_dir context src d = (Ret (is_error o), d') ∧
                   d_files d' = put_output (d_files d) dest o
  | Raise e => ∃ d', template_file src_dir dest_dir context src d = (Raise e, d') ∧
                     ∀ p, p ≠ dest → d_files d' !! p = d_files d !! p
  end.
Proof.
  intros dest Hmk Hop Hsrc Hdest. unfold template_output, template_file. fold dest.
  unfold read_text, truncate. cbv [mbind ST_bind res_bind lift get]. rewrite Hmk.
  destruct (d_files d !! src) as [f|] eqn:Hf; [|by eexists].
  destruct (decode_utf8 (f_bytes f)) as [s|]; [|by eexists].
  cbn [mret ST_ret]. set (content := universal_newlines s).
  destruct (from_string content) as [t|lineno msg|msg|e]; [|apply report_syntax_files|apply report_undefined_files|by eexists].
  rewrite Hop. cbn [modify].
  set (fs1 := <[dest := File [] (mode_of (d_files d) dest)]> (d_files d)).
  assert (same_templates src_dir (d_files d) fs1) as Hs by (by apply same_templates_insert).
  assert (∀ p, p ≠ dest → fs1 !! p = d_files d !! p) as Hne by (intros p Hp; by apply lookup_insert_ne).
  change (d_files (set_files fs1 d)) with fs1. rewrite (render_local _ fs1 _ _ _ Hs).
  destruct (render fs1 src_dir t context) as [text|lineno msg|msg|e];
    [|apply report_syntax_files|apply report_undefined_files|by eexists].
  unfold write_text. change (u (String (ascii_of_N 10) "")) with [10%Z].
  destruct (forallb is_scalar (text ++ [10%Z])); [|by eexists].
  unfold copymode, mbind, ST_bind. cbn [modify get d_files set_files].
  rewrite lookup_insert_ne by (by intros Heq; rewrite Heq, Hsrc in Hdest).
  unfold fs1. rewrite lookup_insert_ne, Hf by (by intros Heq; rewrite Heq, Hsrc in Hdest).
  rewrite lookup_insert_eq. eexists. split; [done|]. cbn. by rewrite !insert_insert_eq.
Qed.

(** ** The loop *)

(** The host lets the script write its outputs, and they lie outside the templates. *)
Definition outputs_ok (src_dir dest_dir : path) (files : list path) : Prop :=
  ∀ f, f ∈ files →
    is_relative_to f src_dir = true ∧ is_relative_to (dest_path src_dir dest_dir f) src_dir = false ∧
    make_dirs (parent (dest_path src_dir dest_dir f)) = Ret tt ∧ open_write (dest_path src_dir dest_dir f) = Ret tt.

Definition fails (fs : gmap path file) (src_dir : path) (context : dict string) (f : path) : bool :=
  match template_output fs src_dir context f with Ret o => is_error o | Raise _ => false end.

Lemma template_loop_spec src_dir dest_dir context files err d0 d :
  outputs_ok src_dir dest_dir files → NoDup (dest_path src_dir dest_dir <$> files) →
  (∀ f, f ∈ files → ∃ o, template_output d0 src_dir context f = Ret o) →
  same_templates src_dir d0 (d_files d) →
  ∃ d', template_loop src_dir dest_dir context files err d =
          (Ret (err || existsb (fails d0 src_dir context) files), d') ∧
    (∀ f o, f ∈ files → template_output d0 src_dir context f = Ret o →
       d_files d' !! dest_path src_dir dest_dir f =
         put_output (d_files d) (dest_path src_dir dest_dir f) o !! dest_path src_dir dest_dir f) ∧
    (∀ p, p ∉ (dest_path src_dir dest_dir <$> files) → d_files d' !! p = d_files d !! p).
Proof.
  revert err d. induction files as [|f files IH]; intros err d Hok Hnd Hout Hs.
  { exists d. cbn. rewrite orb_false_r. split_and!; [done|by intros f o ?%elem_of_nil|done]. }
  apply NoDup_cons in Hnd as [Hni Hnd].
  destruct (Hok f ltac:(left)) as (Hsrc & Hdest & Hmk & Hop).
  destruct (Hout f ltac:(left)) as [o Ho].
  pose proof (template_file_spec src_dir dest_dir context f d Hmk Hop Hsrc Hdest) as Hf.
  rewrite <-(template_output_local d0 (d_files d)), Ho in Hf by done. destruct Hf as (d1 & Hf & Hd1).
  destruct (IH (err || is_error o) d1) as (d' & Hl & Hfiles & Hrest); [|done|..].
  { intros g Hg. apply Hok. by right. }
  { intros g Hg. apply Hout. by right. }
  { rewrite Hd1. etrans; [exact Hs|]. by apply same_templates_put. }
  exists d'. cbn [template_loop existsb]. unfold mbind, ST_bind. rewrite Hf, Hl.
  split_and!.
  - unfold fails at 2. by rewrite Ho, orb_assoc.
  - intros g og [->|Hg]%elem_of_cons Hog.
    + rewrite Hrest, Hd1 by done. by rewrite Ho in Hog; simplify_eq.
    + rewrite (Hfiles g og Hg Hog). assert (dest_path src_dir dest_dir g ≠ dest_path src_dir dest_dir f) as Hne.
      { intros Heq. apply Hni. rewrite <-Heq. by apply list_elem_of_fmap_2. }
      rewrite Hd1. destruct og; simpl; [by rewrite !lookup_insert_eq|by apply put_output_ne|].
      rewrite !lookup_insert_eq. unfold mode_of. by rewrite put_output_ne.
  - intros p Hp. cbn in Hp. rewrite Hrest, Hd1, put_output_ne by set_solver. done.
Qed.

Lemma template_loop_app src_dir dest_dir context l1 l2 err d :
  template_loop src_dir dest_dir context (l1 ++ l2) err d =
  (err' ← template_loop src_dir dest_dir context l1 err; template_loop src_dir dest_dir context l2 err') d.
Proof.
  revert err d. induction l1 as [|f l1 IH]; intros err d; [done|]. cbn [template_loop app].
  unfold mbind, ST_bind. destruct (template_file _ _ _ f d) as [[e|e] d1]; [|done]. apply IH.
Qed.

Lemma outputs_ok_sub src_dir dest_dir l k : l ⊆ k → outputs_ok src_dir dest_dir k → outputs_ok src_dir dest_dir l.
Proof. intros Hs Hok f Hf. apply Hok. auto. Qed.

(** The templates up to the first that ends in another exception than the two reported ones. *)
Lemma outputs_split fs src_dir context files :
  (∀ f, f ∈ files → ∃ o, template_output fs src_dir context f = Ret o) ∨
  ∃ done f rest e, files = done ++ f :: rest ∧ template_output fs src_dir context f = Raise e ∧
                   ∀ g, g ∈ done → ∃ o, template_output fs src_dir context g = Ret o.
Proof.
  induction files as [|f files IH]; [left; by intros f ?%elem_of_nil|].
  destruct (template_output fs src_dir context f) as [o|e] eqn:Hf.
  2: { right. exists [], f, files, e. split_and!; [done..|]. by intros g ?%elem_of_nil. }
  destruct IH as [IH|(done & g & rest & e & -> & Hg & Hall)].
  - left. intros g [->|?]%elem_of_cons; eauto.
  - right. exists (f :: done), g, rest, e. split_and!; [done..|]. intros h [->|?]%elem_of_cons; eauto.
Qed.

(** The loop up to that template. *)
Lemma template_loop_raise src_dir dest_dir context done f rest e err d :
  outputs_ok src_dir dest_dir (done ++ f :: rest) →
  NoDup (dest_path src_dir dest_dir <$> done ++ f :: rest) →
  (∀ g, g ∈ done → ∃ o, template_output (d_files d) src_dir context g = Ret o) →
  template_output (d_files d) src_dir context f = Raise e →
  ∃ d', template_loop src_dir dest_dir context (done ++ f :: rest) err d = (Raise e, d') ∧
    (∀ g o, g ∈ done → template_output (d_files d) src_dir context g = Ret o →
       d_files d' !! dest_path src_dir dest_dir g =
         put_output (d_files d) (dest_path src_dir dest_dir g) o !! dest_path src_dir dest_dir g) ∧
    (∀ p, p ∉ (dest_path src_dir dest_dir <$> done ++ [f]) → d_files d' !! p = d_files d !! p).
Proof.
  intros Hok Hnd Hall Hf. rewrite template_loop_app. rewrite fmap_app in Hnd. apply NoDup_app in Hnd as (Hnd & Hdis & _).
  destruct (template_loop_spec src_dir dest_dir context done err (d_files d) d) as (d1 & Hl & Hdone & Hrest);
    [by eapply outputs_ok_sub, Hok; set_solver|done|done|done|].
  destruct (Hok f ltac:(set_solver)) as (Hsrc & Hdest & Hmk & Hop).
  pose proof (template_file_spec src_dir dest_dir context f d1 Hmk Hop Hsrc Hdest) as Hs.
  rewrite <-(template_output_local (d_files d) (d_files d1)), Hf in Hs; [|done|].
  2: { intros p Hp. symmetry. apply Hrest. intros (g & -> & Hg)%list_elem_of_fmap.
       destruct (Hok g ltac:(set_solver)) as (_ & Hout & _). by rewrite Hout in Hp. }
  destruct Hs as (d' & Hs & Hne). exists d'. unfold mbind, ST_bind. rewrite Hl. cbn [template_loop].
  unfold mbind, ST_bind. rewrite Hs. split; [done|]. split.
  - intros g o Hg Ho. rewrite Hne; [by apply Hdone|]. intros Heq.
    apply (Hdis (dest_path src_dir dest_dir g)); [by apply list_elem_of_fmap_2|]. rewrite Heq. left.
  - intros p. rewrite fmap_app, elem_of_app. intros Hp. rewrite Hne, Hrest; [done|naive_solver|].
    intros ->. apply Hp. right. left.
Qed.

(** ** The files of the walk *)

Lemma template_files_below src_dir f : f ∈ template_files src_dir → is_relative_to f src_dir = true.
Proof.
  unfold template_files. intros ([dirpath names] & Hf & Hw)%list_elem_of_bind.
  apply list_elem_of_fmap in Hf as (name & -> & _).
  pose proof (walk_below _ _ _ Hw) as Hb. apply is_relative_to_iff in Hb as [Hr Hp].
  apply is_relative_to_iff. split; [done|]. simpl. by apply prefix_app_r.
Qed.

Lemma template_files_NoDup src_dir : NoDup (template_files src_dir).
Proof.
  unfold template_files. pose proof (walk_once src_dir) as Hnd. revert Hnd.
  induction (walk_files src_dir) as [|[dirpath names] w IH]; [done|]. cbn. intros (H1 & H2 & H3)%NoDup_app.
  assert (∀ f, f ∈ (path_entry dirpath <$> filter (λ name, endswith name ".include" = false) names) →
               f ∈ (path_entry dirpath <$> names)) as Hsub.
  { intros f (n & -> & [_ Hn]%list_elem_of_filter)%list_elem_of_fmap. by apply list_elem_of_fmap_2. }
  apply NoDup_app. split_and!; [| |by apply IH].
  - apply (NoDup_fmap_2_strong (path_entry dirpath)).
    + unfold path_entry. intros x y _ _ [= Heq]. by apply app_inj_tail in Heq as [_ ?].
    + apply NoDup_filter. by apply NoDup_fmap_1 in H1.
  - intros f Hf Hin. apply (H2 f (Hsub f Hf)). apply list_elem_of_bind in Hin as ([dp ns] & Hin & Hw).
    apply list_elem_of_bind. exists (dp, ns). split; [|done].
    apply list_elem_of_fmap in Hin as (n & -> & [_ Hn]%list_elem_of_filter). by apply list_elem_of_fmap_2.
Qed.

Lemma dest_path_inj src_dir dest_dir f g :
  is_relative_to f src_dir = true → is_relative_to g src_dir = true →
  dest_path src_dir dest_dir f = dest_path src_dir dest_dir g → f = g.
Proof.
  intros (Hr1 & k1 & H1)%is_relative_to_iff (Hr2 & k2 & H2)%is_relative_to_iff.
  unfold dest_path, relative_path, path_join. cbn. rewrite H1, H2, !drop_app_length.
  intros [= Heq%app_inv_head]. subst k2. destruct f, g; simpl in *. congruence.
Qed.
End theorems.

(** C15: when the host lets the outputs be written and they lie outside the templates, the
    templates are instantiated one after the other: each output holds the rendered text, a
    line feed and the mode of its template; a template that Jinja2 cannot parse leaves its
    output untouched and one it cannot render leaves it empty, and neither stops the others.
    The function returns whether there was such an error.  Only another exception (text that
    is no UTF-8, a missing include) ends it, at the template that raises it, with those
    before it done.  Files that are no outputs stay as they were. *)
Theorem copy_and_template_correct `{TemplateEngine} `{BootHost} src_dir dest_dir context d :
  outputs_ok src_dir dest_dir (template_files src_dir) →
  ∃ done r d', copy_and_template src_dir dest_dir context d = (r, d') ∧
    (∀ f, f ∈ done → ∃ o, template_output (d_files d) src_dir context f = Ret o ∧
       d_files d' !! dest_path src_dir dest_dir f =
         put_output (d_files d) (dest_path src_dir dest_dir f) o !! dest_path src_dir dest_dir f) ∧
    match r with
    | Ret error_occurred =>
        done = template_files src_dir ∧
        error_occurred = existsb (fails (d_files d) src_dir context) done ∧
        ∀ p, p ∉ (dest_path src_dir dest_dir <$> done) → d_files d' !! p = d_files d !! p
    | Raise e =>
        ∃ f rest, template_files src_dir = done ++ f :: rest ∧
          template_output (d_files d) src_dir context f = Raise e ∧
          ∀ p, p ∉ (dest_path src_dir dest_dir <$> done ++ [f]) → d_files d' !! p = d_files d !! p
    end.
Proof.
  intros Hok. unfold copy_and_template.
  assert (NoDup (dest_path src_dir dest_dir <$> template_files src_dir)) as Hnd.
  { apply (NoDup_fmap_2_strong (dest_path src_dir dest_dir)); [|apply template_files_NoDup].
    intros f g Hf Hg. apply dest_path_inj; by apply template_files_below. }
  destruct (outputs_split (d_files d) src_dir context (template_files src_dir))
    as [Hall|(done & f & rest & e & Heq & Hf & Hall)].
  - destruct (template_loop_spec src_dir dest_dir context _ false (d_files d) d Hok Hnd Hall)
      as (d' & Hl & Hout & Hrest); [done|].
    exists (template_files src_dir), (Ret (existsb (fails (d_files d) src_dir context) (template_files src_dir))), d'.
    split; [done|]. split; [|done]. intros f Hf. destruct (Hall f Hf) as [o Ho]. exists o. auto.
  - rewrite Heq in *. destruct (template_loop_raise src_dir dest_dir context done f rest e false d Hok Hnd Hall Hf)
      as (d' & Hl & Hout & Hrest).
    exists done, (Raise e), d'. split; [done|]. split; [|by exists f, rest].
    intros g Hg. destruct (Hall g Hg) as [o Ho]. exists o. auto.
Qed.

(** ** A template directory *)

Module SampleBoot.
Definition at_ (l : list string) : path := Path "/" l.

(** Templates are texts; one that starts with an exclamation mark cannot be parsed, one
    that starts with a question mark cannot be rendered. *)
#[export] Instance engine : TemplateEngine := {|
  template := ustr;
  from_string s := match s with 33%Z :: _ => TSyntaxError 1 (u "unexpected") | _ => TRet s end;
  render fs src t ctx := match t with 63%Z :: _ => TUndefinedError (u "undefined") | _ => TRet t end;
  render_local fs fs' src t ctx _ := eq_refl;
|}.

Definition walked (src_dir : path) : list (path * list string) :=
  [(src_dir, ["a"; "b"; "base.include"]); (path_entry src_dir "sub", ["c"])].

#[export, program] Instance host : BootHost := {|
  walk_files := walked;
  make_dirs _ := Ret tt;
  open_write _ := Ret tt;
  new_file_mode := 420%Z;
  script_dir := at_ ["s"];
  resolve_path p := p;
  resolve_strict p := Ret p;
|}.
Next Obligation.
  intros src dp names. unfold walked. rewrite !elem_of_cons, elem_of_nil. intros [[= -> ->]|[[= -> ->]|[]]];
    apply is_relative_to_iff; simpl; (split; [done|]); [done|by apply prefix_app_r].
Qed.
Next Obligation.
  intros [r t]. unfold walked, path_entry. cbn. rewrite <-(assoc_L (++)). cbn.
  change (NoDup ((λ k, Path r (t ++ k)) <$> [["a"]; ["b"]; ["base.include"]; ["sub"; "c"]])).
  apply (NoDup_fmap_2_strong (λ k, Path r (t ++ k))).
  - by intros x y _ _ [= ?%app_inv_head].
  - apply (bool_decide_unpack _). vm_compute. exact I.
Qed.

Definition disk0 : disk :=
  Disk {[at_ ["t"; "a"] := File (u "hello") 493; at_ ["t"; "b"] := File (u "?x") 420;
         at_ ["t"; "sub"; "c"] := File (u "!x") 420; at_ ["other"] := File [] 384]} [] [].
End SampleBoot.

Lemma copy_and_template_correct_witness :
  ∃ d', @copy_and_template SampleBoot.engine SampleBoot.host (Path "/" ["t"]) (Path "/" ["o"]) [] SampleBoot.disk0 =
          (Ret true, d') ∧
        d_files d' !! Path "/" ["o"; "a"] = Some (File (u "hello" ++ [10%Z]) 493) ∧
        d_files d' !! Path "/" ["other"] = Some (File [] 384).
Proof.
  assert (@template_files SampleBoot.host (Path "/" ["t"]) =
          [Path "/" ["t"; "a"]; Path "/" ["t"; "b"]; Path "/" ["t"; "sub"; "c"]]) as Hfiles by reflexivity.
  destruct (@copy_and_template_correct SampleBoot.engine SampleBoot.host (Path "/" ["t"]) (Path "/" ["o"]) [] SampleBoot.disk0)
    as (done & r & d' & Hc & Hf & Ho).
  - intros f Hf. rewrite Hfiles, !elem_of_cons, elem_of_nil in Hf.
    destruct Hf as [->|[->|[->|[]]]]; (split; [reflexivity|split; [reflexivity|split; reflexivity]]).
  - assert (r = Ret true) as ->.
    { change r with (r, d').1. rewrite <-Hc. vm_compute. reflexivity. }
    destruct Ho as (-> & _ & Ho). rewrite Hfiles in Hf, Ho. exists d'. split; [exact Hc|]. split.
    + destruct (Hf (Path "/" ["t"; "a"])) as (o & Hout & Hd'); [left|].
      assert (o = Written (u "hello" ++ [10%Z]) 493) as ->.
      { vm_compute in Hout. injection Hout as <-. reflexivity. }
      etransitivity; [exact Hd'|vm_compute; reflexivity].
    + rewrite Ho; [vm_compute; reflexivity|].
      change (Path "/" ["other"] ∉ [Path "/" ["o"; "a"]; Path "/" ["o"; "b"]; Path "/" ["o"; "sub"; "c"]]).
      rewrite !elem_of_cons, elem_of_nil. intros [[=]|[[=]|[[=]|[]]]].
Defined.

(** ** The exits of [main] *)

Lemma parse_context_bad `{TemplateEngine} `{BootHost} args context d :
  (∃ arg, arg ∈ args ∧ split_eq arg = None) →
  ∃ d', parse_context args context d = (Raise (SystemExit 1), d') ∧ d_files d' = d_files d.
Proof.
  revert context. induction args as [|a args IH]; intros context (arg & Hin & Harg); [by apply elem_of_nil in Hin|].
  cbn [parse_context]. destruct (split_eq a) as [[k v]|] eqn:Ha; [|by eexists].
  apply elem_of_cons in Hin as [->|Hin]; [congruence|]. apply IH. eauto.
Qed.

(** An argument that is no [key=value] pair ends the script before it touches a file. *)
Theorem boot_main_bad_argument `{TemplateEngine} `{BootHost} args d :
  (∃ arg, arg ∈ a_args args ∧ split_eq arg = None) →
  ∃ d', boot_main args d = (Raise (SystemExit 1), d') ∧ d_files d' = d_files d.
Proof.
  intros Hbad. destruct (parse_context_bad (a_args args) [] d Hbad) as (d' & Hp & Hd').
  exists d'. unfold boot_main, mbind at 1, ST_bind at 1. by rewrite Hp.
Qed.

(** After a template error the exit code is 1 and nothing claims success. *)
Theorem boot_main_template_error `{TemplateEngine} `{BootHost} args context d d1 d2 template_dir :
  parse_context (a_args args) [] d = (Ret context, d) →
  resolve_strict (resolve_path (path_join (default (path_entry (parent script_dir) "templates") (a_templates_root args))
                                  (path_of_str (a_template args)))) = Ret template_dir →
  copy_and_template template_dir (a_output_dir args) context d = (Ret true, d1) →
  boot_main args d = (Raise (SystemExit 1), d2) ↔
    d2 = Disk (d_files d1) (d_stderr d1 ++ [u "Errors occurred during templating."]) (d_stdout d1).
Proof.
  intros Hp Hr Hc. unfold boot_main, mbind, ST_bind, try_catch, lift. rewrite Hp.
  replace (match a_templates_root args with Some root => root | None => path_entry (parent script_dir) "templates" end)
    with (default (path_entry (parent script_dir) "templates") (a_templates_root args)) by (by destruct (a_templates_root args)).
  rewrite Hr, Hc. cbn. split; [by intros [= <-]|by intros ->].
Qed.
