(* ===== verification/Argparse.v ===== *)
(** * Command lines: Python's [argparse]

    What the scripts use of [argparse], as of the 3.12 series that
    [scripts/uv] pins: options with the actions [store], [store_true], [append]
    and [help], the values of [nargs] they give, types, choices, defaults and
    required options, and at most one positional argument, with [nargs="*"].  Options
    may be abbreviated ([allow_abbrev]) and written [--option=value].  Every error
    of the user is [SystemExit 2]; the help option is [SystemExit 0].  The texts
    written on those occasions are left out. *)

From Stdlib Require Import Ascii Floats.SpecFloat.
From stdpp Require Import numbers base strings gmap list.
From S2P Require Import Prelude PyStr PyInt PyFloat Mounts.

(** ** Values *)

(** What [type] makes of a string. *)
Inductive scalar :=
  | SStr (s : string)
  | SPath (p : path)
  | SInt (z : Z)
  | SFloat (x : spec_float).

Inductive arg_type := AStr | APath | AInt | AFloat.

(** An attribute of the namespace. *)
Inductive value :=
  | VNone
  | VBool (b : bool)
  | VOne (x : scalar)
  | VMany (l : list scalar).

Notation namespace := (gmap string value).

(** [type(arg_string)] *)
Definition convert (t : arg_type) (s : string) : res scalar :=
  match t with
  | AStr => Ret (SStr s)
  | APath => Ret (SPath (path_of_str s))
  | AInt => z ← py_int s; Ret (SInt z)
  | AFloat => x ← py_float s; Ret (SFloat x)
  end.

(** ** Parsers *)

Inductive nargs := One | ZeroOrMore | OneOrMore.     (* [None], ["*"], ["+"] *)
Inductive kind := Store (n : nargs) | StoreTrue | Append | Help.

Record action := Action {
  option_strings : list string;
  dest : string;
  act : kind;
  type_ : arg_type;
  choices : option (list string);
  default_value : value;
  required : bool;
}.

Record parser := Parser {
  optionals : list action;
  positional : option action;
}.

(** The attribute an option sets: the first long option string without its
    dashes, the others replaced by underscores. *)
Definition is_dash (a : ascii) : bool := bool_decide (a = "-"%char).
Definition dest_of (option_strings : list string) : string :=
  let name := default (default "" (head option_strings)) (head (filter (λ o, startswith o "--" = true) option_strings)) in
  replace_char "-" "_" (lstrip_by is_dash name).

(** [parser.add_argument(flags, action, type, default, required)] *)
Definition option_ (flags : list string) (act : kind) (type : arg_type) (dflt : value) (req : bool) : action :=
  Action flags (dest_of flags) act type None dflt req.
(** The option of [add_help=True] *)
Definition help_option : action := option_ ["-h"; "--help"] Help AStr VNone false.

(** [_option_string_actions], in the order of registration *)
Definition option_table (p : parser) : list (string * action) :=
  mjoin ((λ a, (λ o, (o, a)) <$> option_strings a) <$> optionals p).

(** ** Which strings are options *)

(** A reading of a string as an option: the action, unless it is unknown, the
    option string, and the text attached to it with the information whether an equals sign
    separates it. *)
Record hit := Hit {
  h_action : option action;
  h_option : string;
  h_explicit : option (bool * string);
}.

(** [^-\d+$|^-\d*\.\d+$], where [$] also matches before a final line feed *)
Definition negative_number (s : string) : bool :=
  match s with
  | String "-" r =>
      let '(_, n, r) := read_digits 0 0 r in
      let ends r := bool_decide (r = "") || bool_decide (r = String (ascii_of_N 10) "") in
      match n with O => false | _ => ends r end
      || match r with
         | String "." r => let '(_, k, r) := read_digits 0 0 r in
                           match k with O => false | _ => ends r end
         | _ => false
         end
  | _ => false
  end.

(** The part before the first equals sign and what follows it. *)
Definition partition_eq (s : string) : string * option (bool * string) :=
  match split_eq s with Some (o, e) => (o, Some (true, e)) | None => (s, None) end.

(** [_get_option_tuples]: the options a string abbreviates, and for a single
    dash the one-letter option its first letter names. *)
Definition option_tuples (p : parser) (s : string) : list hit :=
  let '(prefix, explicit) := partition_eq s in
  let abbreviates '(o, a) := if startswith o prefix then [Hit (Some a) o explicit] else [] in
  match s with
  | String _ (String c rest) =>
      if is_dash c then mjoin (abbreviates <$> option_table p)
      else mjoin ((λ '(o, a), if decide (o = String "-" (String c "")) then [Hit (Some a) o (Some (false, rest))]
                              else abbreviates (o, a)) <$> option_table p)
  | _ => []
  end.

(** [_parse_optional]: [None] is a positional argument. *)
Definition guess_optional (p : parser) (s : string) : option (list hit) :=
  match option_tuples p s with
  | [] => if negative_number s && negb (existsb (λ '(o, _), negative_number o) (option_table p)) then None
          else if str_in " " s then None else Some [Hit None s None]
  | l => Some l
  end.
Definition parse_optional (p : parser) (s : string) : option (list hit) :=
  match s with
  | EmptyString => None
  | String c r =>
      if negb (is_dash c) then None
      else match dget (option_table p) s with
           | Some a => Some [Hit (Some a) s None]
           | None =>
               if decide (r = "") then None
               else match partition_eq s with
                    | (o, Some e) => match dget (option_table p) o with
                                     | Some a => Some [Hit (Some a) o (Some e)]
                                     | None => guess_optional p s
                                     end
                    | (_, None) => guess_optional p s
                    end
           end
  end.

(** The pattern: ['A'], ['-'] or ['O'] with its readings. *)
Inductive tok := TArg | TDash | TOpt (hits : list hit).

Fixpoint classify (p : parser) (argv : list string) : list (string * tok) :=
  match argv with
  | [] => []
  | s :: argv =>
      if decide (s = "--") then (s, TDash) :: ((λ s, (s, TArg)) <$> argv)
      else (s, match parse_optional p s with None => TArg | Some hits => TOpt hits end) :: classify p argv
  end.

(** ** Taking actions *)

Definition error {A} : res A := Raise (SystemExit 2).

(** [namespace], [seen_actions] (by attribute), the positional still to be
    parsed, and [extras] *)
Record pstate := PState {
  ns : namespace;
  seen : gset string;
  pending : option action;
  extras : list string;
}.

(** [_get_value] and [_check_value] *)
Definition check_choice (a : action) (x : scalar) : res scalar :=
  match choices a, x with
  | Some l, SStr s => if bool_decide (s ∈ l) then Ret x else error
  | _, _ => Ret x
  end.
Definition get_value (a : action) (s : string) : res scalar :=
  match convert (type_ a) s with Ret x => Ret x | Raise _ => error end.
Definition checked_value (a : action) (s : string) : res scalar :=
  x ← get_value a s; check_choice a x.

(** The conversion of the strings and the call of the action. *)
Definition act_on (a : action) (args : list string) (m : namespace) : res namespace :=
  match act a with
  | Help => Raise (SystemExit 0)
  | StoreTrue => Ret (<[dest a := VBool true]> m)
  | Store One =>
      match args with
      | [s] => x ← checked_value a s; Ret (<[dest a := VOne x]> m)
      | _ => error
      end
  | Store _ =>
      match option_strings a, args with
      | [], [] => Ret (<[dest a := default_value a]> m)
      | _, _ => l ← map_res (get_value a) args; l ← map_res (check_choice a) l;
                Ret (<[dest a := VMany l]> m)
      end
  | Append =>
      match args with
      | [s] => x ← checked_value a s;
               let items := match m !! dest a with Some (VMany l) => l | _ => [] end in
               Ret (<[dest a := VMany (items ++ [x])]> m)
      | _ => error
      end
  end.
Definition take_action (a : action) (args : list string) (st : pstate) : res pstate :=
  m ← act_on a args (ns st); Ret (PState m ({[dest a]} ∪ seen st) (pending st) (extras st)).

(** The strings an option may take: those up to the next option or [--]. *)
Fixpoint leading_args (toks : list (string * tok)) : list string :=
  match toks with
  | (s, TArg) :: toks => s :: leading_args toks
  | _ => []
  end.

(** [_match_argument]: the strings an option takes of those that follow it. *)
Definition following (a : action) (toks : list (string * tok)) : res (list string) :=
  let args := leading_args toks in
  match act a with
  | StoreTrue | Help => Ret []
  | Store ZeroOrMore => Ret args
  | Store OneOrMore => match args with [] => error | _ => Ret args end
  | Store One | Append => match args with [] => error | s :: _ => Ret [s] end
  end.

Definition takes_none (a : action) : bool :=
  match act a with StoreTrue | Help => true | _ => false end.

(** The actions of an option with text attached to it: the text is its argument,
    or, after one dash, names more options.  The result is the list of actions with
    their arguments, unknown options, and the number of following strings used. *)
Definition single_dash (o : string) : bool :=
  match o with String _ (String c _) => negb (is_dash c) | _ => false end.

Fixpoint explicit_actions (p : parser) (toks : list (string * tok)) (a : action) (o : string)
    (separated : bool) (e : string) : res (list (action * list string) * list string * nat) :=
  if takes_none a then
    if single_dash o then
      match e with
      | EmptyString => error
      | String c e' =>
          if separated || is_dash c then error
          else
            let o' := String "-" (String c "") in
            match dget (option_table p) o' with
            | None => Ret ([(a, [])], [String "-" e], 0)
            | Some a' =>
                '(l, unknown, n) ←
                  match e' with
                  | EmptyString => args ← following a' toks; Ret ([(a', args)], [], length args)
                  | String c' e'' =>
                      if decide (c' = "="%char) then explicit_actions p toks a' o' true e''
                      else explicit_actions p toks a' o' false e'
                  end;
                Ret ((a, []) :: l, unknown, n)
            end
      end
    else error
  else Ret ([(a, [e])], [], 0).

(** [consume_optional]: the new state and the number of following strings used *)
Definition consume_optional (p : parser) (s : string) (hits : list hit) (toks : list (string * tok))
    (st : pstate) : res (pstate * nat) :=
  match hits with
  | [Hit None _ _] => Ret (PState (ns st) (seen st) (pending st) (extras st ++ [s]), 0)
  | [Hit (Some a) o explicit] =>
      '(l, unknown, n) ←
        match explicit with
        | Some (separated, e) => explicit_actions p toks a o separated e
        | None => args ← following a toks; Ret ([(a, args)], [], length args)
        end;
      st ← for_each l (λ '(a, args), take_action a args)
             (PState (ns st) (seen st) (pending st) (extras st ++ unknown));
      Ret (st, n)
  | _ => error
  end.

Definition is_option (t : string * tok) : bool := match t.2 with TOpt _ => true | _ => false end.

(** The strings up to the next option. *)
Fixpoint block (toks : list (string * tok)) : list (string * tok) :=
  match toks with
  | t :: toks => if is_option t then [] else t :: block toks
  | [] => []
  end.

(** [consume_positionals] at a block; without a positional to parse, its strings
    are unknown.  The first [--] is not an argument. *)
Definition block_args (b : list (string * tok)) : list string :=
  omap (λ '(s, t), match t with TDash => None | _ => Some s end) b.
Definition consume_block (b : list (string * tok)) (st : pstate) : res pstate :=
  match pending st with
  | Some a => take_action a (block_args b) (PState (ns st) (seen st) None (extras st))
  | None => Ret (PState (ns st) (seen st) None (extras st ++ b.*1))
  end.

(** The loop of [_parse_known_args]; [skip] counts the strings already consumed. *)
Fixpoint parse_loop (p : parser) (skip : nat) (toks : list (string * tok)) (st : pstate) : res pstate :=
  match toks with
  | [] => consume_block [] st
  | t :: rest =>
      match skip with
      | S skip => parse_loop p skip rest st
      | O =>
          match t with
          | (s, TOpt hits) =>
              '(st, n) ← consume_optional p s hits rest st;
              parse_loop p n rest st
          | _ =>
              st ← consume_block (block toks) st;
              parse_loop p (length (block rest)) rest st
          end
      end
  end.

(** Attributes of options that were not given: required ones are an error, a
    default that is a string is converted. *)
Definition finish_one (given : gset string) (a : action) (m : namespace) : res namespace :=
  match act a with
  | Help => Ret m
  | _ =>
      if bool_decide (dest a ∈ given) then Ret m
      else if required a then error
      else match default_value a with
           | VOne (SStr s) => x ← get_value a s; Ret (<[dest a := VOne x]> m)
           | _ => Ret m
           end
  end.

Definition actions (p : parser) : list action := optionals p ++ option_list (positional p).

Definition initial_ns (p : parser) : namespace :=
  foldr (λ a m, match act a with Help => m | _ => <[dest a := default_value a]> m end) ∅ (actions p).

Definition parse_known_args (p : parser) (argv : list string) : res (namespace * list string) :=
  st ← parse_loop p 0 (classify p argv) (PState (initial_ns p) ∅ (positional p) []);
  m ← for_each (actions p) (finish_one (seen st)) (ns st);
  Ret (m, extras st).

Definition parse_args (p : parser) (argv : list string) : res namespace :=
  '(m, unknown) ← parse_known_args p argv;
  match unknown with [] => Ret m | _ => error end.

(** ** Reading attributes *)

(** [args.name] where a value of the type is expected *)
Definition attribute {A} (f : value → option A) (m : namespace) (name : string) : res A :=
  match m !! name with
  | None => Raise AttributeError
  | Some v => match f v with Some x => Ret x | None => Raise TypeError end
  end.

Definition as_bool (v : value) : option bool := match v with VBool b => Some b | _ => None end.
Definition as_str (v : value) : option string := match v with VOne (SStr s) => Some s | _ => None end.
Definition as_path (v : value) : option path := match v with VOne (SPath p) => Some p | _ => None end.
Definition as_int (v : value) : option Z := match v with VOne (SInt z) => Some z | _ => None end.
Definition as_float (v : value) : option spec_float := match v with VOne (SFloat x) => Some x | _ => None end.
Definition as_optional {A} (f : value → option A) (v : value) : option (option A) :=
  match v with VNone => Some None | _ => Some <$> f v end.
Fixpoint all_some {A B} (f : A → option B) (l : list A) : option (list B) :=
  match l with
  | [] => Some []
  | x :: l => y ← f x; ys ← all_some f l; Some (y :: ys)
  end.
Definition as_list {A} (f : value → option A) (v : value) : option (list A) :=
  match v with VMany l => all_some (λ x, f (VOne x)) l | _ => None end.
