(* ===== verification/ArgparseTheorems.v ===== *)
(** * Properties of [argparse]

    For every parser of the kind [Argparse] models: errors are exit codes, and
    the attributes of a namespace that is returned have the types, choices and
    lengths their options declare.  The lemmas of the last part follow the loop over
    a command line whose strings are known to be options or arguments. *)

From Stdlib Require Import Ascii Floats.SpecFloat.
From stdpp Require Import numbers base strings gmap list.
From S2P Require Import Prelude PyStr PyInt PyFloat Mounts Argparse.

(** ** Exit codes *)

(** Exceptions of a computation without state. *)
Definition only_raises {A} (P : exn → Prop) (r : res A) : Prop := ∀ e, r = Raise e → P e.

Lemma only_raises_ret {A} P (a : A) : only_raises P (Ret a).
Proof. by intros e. Qed.
Lemma only_raises_raise {A} (P : exn → Prop) e : P e → only_raises (A := A) P (Raise e).
Proof. by intros ? ? [= <-]. Qed.
Lemma only_raises_bind {A B} P (r : res A) (f : A → res B) :
  only_raises P r → (∀ a, only_raises P (f a)) → only_raises P (r ≫= f).
Proof. intros Hr Hf e [?|(a & _ & ?)]%bind_Raise; [by apply Hr|by eapply Hf]. Qed.
Lemma only_raises_for_each {A S} P (l : list A) (body : A → S → res S) s :
  (∀ x s, only_raises P (body x s)) → only_raises P (for_each l body s).
Proof.
  intros Hb. revert s. induction l as [|x l IH]; intros s; [apply only_raises_ret|].
  by apply only_raises_bind.
Qed.
Lemma only_raises_map_res {A B} P (f : A → res B) l :
  (∀ x, only_raises P (f x)) → only_raises P (map_res f l).
Proof. intros Hf e (x & _ & ?)%map_res_Raise. by eapply Hf. Qed.

Ltac solve_only_raises :=
  repeat first
    [ eassumption
    | apply only_raises_ret
    | apply only_raises_bind; [|intros ?]
    | apply only_raises_for_each; intros ? ?
    | apply only_raises_map_res; intros ?
    | lazymatch goal with |- only_raises _ (match ?x with _ => _ end) => destruct x end ].

(** A parser ends in exit code 2, or in 0 if it has a help option. *)
Definition usage_exit (e : exn) : Prop := e = SystemExit 0 ∨ e = SystemExit 2.

Lemma error_exit {A} : only_raises usage_exit (@error A).
Proof. apply only_raises_raise. by right. Qed.
Lemma get_value_exit a s : only_raises usage_exit (get_value a s).
Proof. unfold get_value. solve_only_raises. apply error_exit. Qed.
Lemma check_choice_exit a x : only_raises usage_exit (check_choice a x).
Proof. unfold check_choice. solve_only_raises. apply error_exit. Qed.
Lemma take_action_exit a args st : only_raises usage_exit (take_action a args st).
Proof.
  unfold take_action, act_on, checked_value. solve_only_raises.
  all: try apply error_exit; try apply get_value_exit; try apply check_choice_exit.
  apply only_raises_raise. by left.
Qed.
Lemma following_exit a toks : only_raises usage_exit (following a toks).
Proof. unfold following. solve_only_raises; apply error_exit. Qed.

Lemma explicit_actions_exit p toks a o sep e : only_raises usage_exit (explicit_actions p toks a o sep e).
Proof.
  (* the attached text shrinks by one or two characters at a time *)
  remember (String.length e) as n eqn:Hn. revert a o sep e Hn.
  induction n as [n IH] using lt_wf_ind. intros a o sep e ->.
  destruct e as [|c e]; cbn [explicit_actions]; destruct (takes_none a); try apply only_raises_ret;
    destruct (single_dash o); try apply error_exit.
  destruct (_ || _); [apply error_exit|]. destruct (dget _ _) as [a'|]; [|apply only_raises_ret].
  apply only_raises_bind; [|by intros [[]]; apply only_raises_ret].
  destruct e as [|c' e].
  - apply only_raises_bind; [apply following_exit|intros ?; apply only_raises_ret].
  - case_decide; (eapply IH; [|reflexivity]); simpl; lia.
Qed.

Lemma consume_optional_exit p s hits toks st : only_raises usage_exit (consume_optional p s hits toks st).
Proof.
  unfold consume_optional. destruct hits as [|[[a|] o ex] [|]]; try apply error_exit; [|apply only_raises_ret].
  apply only_raises_bind.
  - destruct ex as [[]|]; [apply explicit_actions_exit|].
    apply only_raises_bind; [apply following_exit|intros ?; apply only_raises_ret].
  - intros [[l unknown] n]. apply only_raises_bind; [|intros ?; apply only_raises_ret].
    apply only_raises_for_each. intros [] ?. apply take_action_exit.
Qed.

Lemma parse_loop_exit p skip toks st : only_raises usage_exit (parse_loop p skip toks st).
Proof.
  assert (∀ b st, only_raises usage_exit (consume_block b st)) as Hb.
  { intros b st'. unfold consume_block. destruct (pending st'); [apply take_action_exit|apply only_raises_ret]. }
  revert skip st. induction toks as [|[s t] toks IH]; intros skip st; [apply Hb|].
  cbn [parse_loop]. destruct skip; [|apply IH]. destruct t.
  1,2: by apply only_raises_bind.
  apply only_raises_bind; [apply consume_optional_exit|by intros []].
Qed.

Lemma finish_one_exit given a m : only_raises usage_exit (finish_one given a m).
Proof. unfold finish_one. solve_only_raises; first [apply error_exit|apply get_value_exit]. Qed.

Lemma parse_known_args_exit p argv : only_raises usage_exit (parse_known_args p argv).
Proof.
  unfold parse_known_args. solve_only_raises; [apply parse_loop_exit|apply finish_one_exit].
Qed.

Lemma parse_args_exit p argv : only_raises usage_exit (parse_args p argv).
Proof.
  unfold parse_args. apply only_raises_bind; [apply parse_known_args_exit|].
  intros [m [|]]; [apply only_raises_ret|apply error_exit].
Qed.

(** ** Types of the attributes *)

Definition has_type (t : arg_type) (x : scalar) : bool :=
  match t, x with
  | AStr, SStr _ | APath, SPath _ | AInt, SInt _ | AFloat, SFloat _ => true
  | _, _ => false
  end.
Definition scalar_ok (a : action) (x : scalar) : bool :=
  has_type (type_ a) x &&
  match choices a, x with Some l, SStr s => bool_decide (s ∈ l) | _, _ => true end.

(** The attribute of an option that was given. *)
Definition given_ok (a : action) (v : value) : bool :=
  match act a, v with
  | Store One, VOne x => scalar_ok a x
  | Store ZeroOrMore, VMany l => forallb (scalar_ok a) l
  | (Store OneOrMore | Append), VMany (x :: l) => forallb (scalar_ok a) (x :: l)
  | StoreTrue, VBool true => true
  | _, _ => false
  end.

(** The attribute of an option that was not given: its default, converted if it
    is a string. *)
Definition default_ok (a : action) (v : value) : Prop :=
  match default_value a with
  | VOne (SStr s) => ∃ x, convert (type_ a) s = Ret x ∧ v = VOne x
  | d => v = d
  end.
Definition attribute_ok (a : action) (v : value) : Prop :=
  given_ok a v = true ∨ (required a = false ∧ default_ok a v).

Definition is_help (a : action) : bool := match act a with Help => true | _ => false end.

(** Attributes are set by one option each, appended values extend a list or
    nothing, and options have names that start with a dash. *)
Definition wf_action (a : action) : bool :=
  match act a with
  | Append => match default_value a with VNone => true | VMany l => forallb (scalar_ok a) l | _ => false end
  | _ => true
  end.
Definition wf_positional (a : action) : bool :=
  match option_strings a, act a with
  | [], Store ZeroOrMore => given_ok a (default_value a)
  | _, _ => false
  end.
Definition wf_parser (p : parser) : bool :=
  bool_decide (NoDup (dest <$> actions p)) && forallb wf_action (actions p) &&
  forallb (λ a, negb (bool_decide (option_strings a = []))) (optionals p) &&
  match positional p with Some a => wf_positional a | None => true end.

Lemma convert_type t s x : convert t s = Ret x → has_type t x = true.
Proof. destruct t; simpl; intros H; try (apply bind_Ret in H as (? & _ & H)); by simplify_eq. Qed.
Lemma get_value_type a s x : get_value a s = Ret x → has_type (type_ a) x = true.
Proof. unfold get_value. destruct (convert _ s) eqn:Hc; intros [= <-]. by eapply convert_type. Qed.
Lemma check_choice_ok a x y :
  has_type (type_ a) x = true → check_choice a x = Ret y → y = x ∧ scalar_ok a x = true.
Proof.
  unfold check_choice, scalar_ok. intros ->. destruct (choices a), x; try (intros [= <-]; done).
  case_bool_decide; intros [= <-]. done.
Qed.
Lemma checked_value_ok a s x : checked_value a s = Ret x → scalar_ok a x = true.
Proof.
  intros (y & Hy%get_value_type & Hc)%bind_Ret. by apply check_choice_ok in Hc as [-> ?].
Qed.
Lemma map_checked_ok a args l l' :
  map_res (get_value a) args = Ret l → map_res (check_choice a) l = Ret l' →
  l' = l ∧ forallb (scalar_ok a) l = true.
Proof.
  revert l l'. induction args as [|s args IH]; intros l l'; simpl; [by intros [= <-] [= <-]|].
  intros (x & Hx%get_value_type & (xs & Hxs & [= <-])%bind_Ret)%bind_Ret. simpl.
  intros (y & [-> Hok]%check_choice_ok & (ys & Hys & [= <-])%bind_Ret)%bind_Ret; [|done].
  destruct (IH _ _ Hxs Hys) as [-> ->]. by rewrite Hok.
Qed.
Lemma map_res_nonempty {A B} (f : A → res B) l k : l ≠ [] → map_res f l = Ret k → k ≠ [].
Proof. destruct l; [done|]. intros _ (y & _ & (ys & _ & [= <-])%bind_Ret)%bind_Ret. done. Qed.

Section typing.
Context (p : parser) (Hwf : wf_parser p = true).

Lemma wf_dests : NoDup (dest <$> actions p).
Proof. unfold wf_parser in Hwf. rewrite !andb_true_iff, bool_decide_eq_true in Hwf. tauto. Qed.
Lemma wf_actions a : a ∈ actions p → wf_action a = true.
Proof.
  unfold wf_parser in Hwf. rewrite !andb_true_iff, forallb_forall in Hwf.
  intros ?%list_elem_of_In. naive_solver.
Qed.
Lemma wf_pos a : positional p = Some a → wf_positional a = true.
Proof. unfold wf_parser in Hwf. rewrite !andb_true_iff in Hwf. intros Ha. rewrite Ha in Hwf. tauto. Qed.
Lemma wf_optional a : a ∈ optionals p → option_strings a ≠ [].
Proof.
  unfold wf_parser in Hwf. rewrite !andb_true_iff, !forallb_forall in Hwf. intros Ha%list_elem_of_In.
  destruct Hwf as [[_ Ho] _]. specialize (Ho _ Ha). by rewrite negb_true_iff, bool_decide_eq_false in Ho.
Qed.
Lemma dest_inj a b : a ∈ actions p → b ∈ actions p → dest a = dest b → a = b.
Proof.
  intros Ha Hb Hab. apply list_elem_of_lookup in Ha as [i Hi]. apply list_elem_of_lookup in Hb as [j Hj].
  assert (i = j); [|naive_solver]. eapply (NoDup_lookup _ _ _ (dest a) wf_dests).
  - by rewrite list_lookup_fmap, Hi.
  - by rewrite list_lookup_fmap, Hj, Hab.
Qed.

(** The namespace while the loop runs. *)
Definition typed_state (m : namespace) (given : gset string) : Prop :=
  ∀ a, a ∈ actions p → is_help a = false →
    ∃ v, m !! dest a = Some v ∧
         if bool_decide (dest a ∈ given) then given_ok a v = true else v = default_value a.

Lemma act_on_typed a args m m' given :
  a ∈ actions p → (option_strings a = [] → positional p = Some a) → typed_state m given →
  (act a = Store OneOrMore → args ≠ []) →
  act_on a args m = Ret m' → typed_state m' ({[dest a]} ∪ given).
Proof.
  intros Ha Hpos Hm Hargs Hact.
  assert (∃ v, m' = <[dest a := v]> m ∧ given_ok a v = true) as (v & -> & Hv).
  { unfold act_on in Hact. unfold given_ok. destruct (act a) as [[]| | |] eqn:Hk; try done.
    - destruct args as [|s [|]]; try done. apply bind_Ret in Hact as (x & Hx%checked_value_ok & [= <-]). eauto.
    - destruct (option_strings a) as [|o os] eqn:Ho; [destruct args as [|s args]|].
      + injection Hact as <-. eexists. split; [done|]. pose proof (wf_pos a (Hpos eq_refl)) as Hw.
        unfold wf_positional, given_ok in Hw. by rewrite Ho, Hk in Hw.
      + apply bind_Ret in Hact as (l & Hl & (l' & Hl' & [= <-])%bind_Ret).
        destruct (map_checked_ok _ _ _ _ Hl Hl') as [-> ?]. eauto.
      + apply bind_Ret in Hact as (l & Hl & (l' & Hl' & [= <-])%bind_Ret).
        destruct (map_checked_ok _ _ _ _ Hl Hl') as [-> ?]. eauto.
    - specialize (Hargs eq_refl).
      assert (∃ l l', map_res (get_value a) args = Ret l ∧ map_res (check_choice a) l = Ret l' ∧
                      <[dest a := VMany l']> m = m') as (l & l' & Hl & Hl' & <-).
      { destruct (option_strings a) as [|o os]; [destruct args as [|s args]; [done|]|];
          apply bind_Ret in Hact as (l & Hl & (l' & Hl' & [= <-])%bind_Ret); eauto. }
      destruct (map_checked_ok _ _ _ _ Hl Hl') as [-> ?]. exists (VMany l). split; [done|].
      apply map_res_nonempty in Hl; [|done]. by destruct l.
    - injection Hact as <-. eauto.
    - destruct args as [|s [|]]; try done. apply bind_Ret in Hact as (x & Hx%checked_value_ok & [= <-]).
      eexists. split; [done|]. destruct (Hm a Ha) as (v & -> & Hv); [unfold is_help; by rewrite Hk|].
      assert (∀ l, forallb (scalar_ok a) l = true →
                match l ++ [x] with [] => false | y :: l => forallb (scalar_ok a) (y :: l) end = true) as Hl.
      { intros l Hl. assert (forallb (scalar_ok a) (l ++ [x]) = true) as Hlx.
        { rewrite forallb_app. simpl. by rewrite Hl, Hx. }
        by destruct (l ++ [x]) eqn:Heq; [destruct l|]. }
      pose proof (wf_actions a Ha) as Hwa. unfold wf_action in Hwa. rewrite Hk in Hwa.
      destruct (bool_decide _).
      + unfold given_ok in Hv. rewrite Hk in Hv. destruct v as [| | |[|y l]]; try done. by apply Hl.
      + subst v. destruct (default_value a); try done; [by apply (Hl [])|by apply Hl]. }
  intros b Hb Hnh. destruct (decide (dest b = dest a)) as [Hab|Hne].
  - apply dest_inj in Hab as ->; [|done..]. exists v. rewrite lookup_insert_eq, bool_decide_true by set_solver. done.
  - rewrite lookup_insert_ne by done. destruct (Hm b Hb Hnh) as (w & Hw & Hok). exists w. split; [done|].
    by erewrite bool_decide_ext; [exact Hok|set_solver].
Qed.

(** The actions of an option line are options of the parser, with arguments of
    the number they take. *)
Definition known_call (c : action * list string) : Prop :=
  c.1 ∈ optionals p ∧ (act c.1 = Store OneOrMore → c.2 ≠ []).
Definition known_hit (h : hit) : Prop :=
  match h_action h with Some a => a ∈ optionals p | None => True end.
Definition known_tok (t : string * tok) : Prop :=
  match t.2 with TOpt hits => Forall known_hit hits | _ => True end.

Lemma table_optionals o a : (o, a) ∈ option_table p → a ∈ optionals p.
Proof.
  unfold option_table. intros (l & Hl & (b & -> & Hb)%list_elem_of_fmap)%list_elem_of_join.
  by apply list_elem_of_fmap in Hl as (? & [= -> ->] & _).
Qed.
Lemma dget_optionals o a : dget (option_table p) o = Some a → a ∈ optionals p.
Proof. intros ?%dget_elem_of. by eapply table_optionals. Qed.

Lemma option_tuples_known s : Forall known_hit (option_tuples p s).
Proof.
  apply Forall_forall. intros h. unfold option_tuples. destruct (partition_eq s) as [prefix ex].
  destruct s as [|c1 [|c2 rest]]; [by intros ?%elem_of_nil..|]. destruct (is_dash c2).
  all: intros (l & Hh & ([o a] & -> & Hoa)%list_elem_of_fmap)%list_elem_of_join.
  all: apply table_optionals in Hoa.
  all: repeat (case_match || case_decide); try (by apply elem_of_nil in Hh).
  all: apply list_elem_of_singleton in Hh as ->; done.
Qed.

Lemma parse_optional_known s hits : parse_optional p s = Some hits → Forall known_hit hits.
Proof.
  assert (guess_optional p s = Some hits → Forall known_hit hits) as Hg.
  { unfold guess_optional. pose proof (option_tuples_known s) as Ht.
    destruct (option_tuples p s); [|by intros [= <-]].
    destruct (_ && _); [done|]. destruct (str_in _ _); [done|]. intros [= <-]. by repeat constructor. }
  assert (∀ o a e, dget (option_table p) o = Some a → Forall known_hit [Hit (Some a) o e]) as Hd.
  { intros o a e ?%dget_optionals. by repeat constructor. }
  unfold parse_optional. destruct s as [|c r]; [done|]. destruct (negb _); [done|].
  destruct (dget _ (String c r)) eqn:?; [intros [= <-]; by apply Hd|].
  case_decide; [done|]. destruct (partition_eq _) as [o [e|]]; [|done].
  destruct (dget _ o) eqn:?; [intros [= <-]; by apply Hd|done].
Qed.

Lemma classify_known argv : Forall known_tok (classify p argv).
Proof.
  induction argv as [|s argv IH]; simpl; [done|]. case_decide.
  - constructor; [done|]. apply Forall_fmap, Forall_true. done.
  - constructor; [|done]. unfold known_tok; simpl. destruct (parse_optional p s) eqn:?; [|done].
    by eapply parse_optional_known.
Qed.

Lemma following_known a toks args : a ∈ optionals p → following a toks = Ret args → known_call (a, args).
Proof.
  intros Ha Hf. split; [done|]. simpl. intros Hk. unfold following in Hf. rewrite Hk in Hf.
  by destruct (leading_args toks); simplify_eq.
Qed.

Lemma explicit_known toks a o sep e l unknown n :
  a ∈ optionals p → explicit_actions p toks a o sep e = Ret (l, unknown, n) → Forall known_call l.
Proof.
  remember (String.length e) as len eqn:Hlen. revert a o sep e l unknown n Hlen.
  induction len as [len IH] using lt_wf_ind. intros a o sep e l unknown n -> Ha.
  assert (∀ args, (takes_none a = true ∨ args ≠ []) → known_call (a, args)) as Hcall.
  { intros args [Ht| ?]; (split; [done|]); simpl; [|done]. unfold takes_none in Ht. by destruct (act a) as [[]| | |]. }
  destruct e as [|c e]; cbn [explicit_actions]; destruct (takes_none a) eqn:Ht.
  1,3: destruct (single_dash o); try done.
  2,3: intros [= <- <- <-]; apply Forall_singleton, Hcall; by right.
  destruct (_ || _); [done|]. destruct (dget _ _) as [a'|] eqn:Ha'.
  1: apply dget_optionals in Ha'.
  2: { intros [= <- <- <-]. apply Forall_singleton, Hcall. by left. }
  intros ([[l' u] k] & Hrest & [= <- <- <-])%bind_Ret. constructor; [apply Hcall; by left|].
  destruct e as [|c' e].
  - apply bind_Ret in Hrest as (args & Hargs & [= <- <- <-]). apply Forall_singleton. by eapply following_known.
  - case_decide; (eapply IH; [|reflexivity|exact Ha'|exact Hrest]); simpl; lia.
Qed.

Definition state_ok (st : pstate) : Prop :=
  typed_state (ns st) (seen st) ∧ (pending st = None ∨ pending st = positional p).

Lemma take_action_ok a args st st' :
  a ∈ actions p → (option_strings a = [] → positional p = Some a) → (act a = Store OneOrMore → args ≠ []) →
  state_ok st → take_action a args st = Ret st' → state_ok st'.
Proof.
  intros ??? [Hm Hp] (m & Hact & [= <-])%bind_Ret. split; [|done]. simpl. by eapply act_on_typed.
Qed.

Lemma calls_ok l st st' :
  Forall known_call l → state_ok st → for_each l (λ '(a, args), take_action a args) st = Ret st' → state_ok st'.
Proof.
  revert st. induction l as [|[a args] l IH]; intros st Hl Hst; simpl; [by intros [= <-]|].
  apply Forall_cons in Hl as [[Ha Hk] Hl]. intros (st1 & H1 & H2)%bind_Ret. eapply IH; [done| |done].
  eapply take_action_ok; [| |done|exact Hst|exact H1]; [by apply elem_of_app; left|].
  by intros ?%wf_optional.
Qed.

Lemma consume_optional_ok s hits toks st st' n :
  Forall known_hit hits → state_ok st → consume_optional p s hits toks st = Ret (st', n) → state_ok st'.
Proof.
  intros Hh Hst. unfold consume_optional. destruct hits as [|[[a|] o ex] [|]]; try done.
  2: { by intros [= <- <-]. }
  apply Forall_cons in Hh as [Ha _]. unfold known_hit in Ha; simpl in Ha.
  intros ([[l unknown] k] & Hl & (st1 & Hc & [= <- <-])%bind_Ret)%bind_Ret.
  eapply calls_ok; [| |exact Hc]; [|exact Hst]. clear Hc.
  destruct ex as [[]|]; [by eapply explicit_known|].
  apply bind_Ret in Hl as (args & Hargs & [= <- <- <-]). apply Forall_singleton. by eapply following_known.
Qed.

Lemma consume_block_ok b st st' : state_ok st → consume_block b st = Ret st' → state_ok st'.
Proof.
  intros [Hm Hp]. unfold consume_block. destruct (pending st) as [a|] eqn:Hpe.
  - destruct Hp as [?|Hp]; [done|]. symmetry in Hp. pose proof (wf_pos a Hp) as Hw.
    apply take_action_ok; [| |..|by split; [done|left]].
    + apply elem_of_app. right. rewrite Hp. by left.
    + done.
    + intros Hk. unfold wf_positional in Hw. rewrite Hk in Hw. by destruct (option_strings a).
  - intros [= <-]. split; [done|by left].
Qed.

Lemma parse_loop_ok skip toks st st' :
  Forall known_tok toks → state_ok st → parse_loop p skip toks st = Ret st' → state_ok st'.
Proof.
  revert skip st. induction toks as [|[s t] toks IH]; intros skip st Ht Hst; [by apply consume_block_ok|].
  apply Forall_cons in Ht as [Ht Hts]. cbn [parse_loop]. destruct skip; [|by apply IH].
  destruct t as [| |hits].
  1,2: intros (st1 & Hb%consume_block_ok & Hl)%bind_Ret; [by eapply IH|done].
  intros ([st1 n] & Hc%consume_optional_ok & Hl)%bind_Ret; [by eapply IH|done|done].
Qed.

Lemma initial_typed : typed_state (initial_ns p) ∅.
Proof.
  unfold typed_state, initial_ns. pose proof wf_dests as Hnd. revert Hnd.
  induction (actions p) as [|b l IH]; intros Hnd a Ha Hh; [by apply elem_of_nil in Ha|].
  apply NoDup_cons in Hnd as [Hni Hnd]. simpl. exists (default_value a).
  split; [|by rewrite bool_decide_false by set_solver].
  apply elem_of_cons in Ha as [->|Ha].
  - unfold is_help in Hh. destruct (act b); try done; apply lookup_insert_eq.
  - destruct (IH Hnd a Ha Hh) as (v & Hv & Hd). rewrite bool_decide_false in Hd by set_solver. subst v.
    destruct (act b); try done; (rewrite lookup_insert_ne; [done|]);
      intros Heq; apply Hni; rewrite Heq; by apply list_elem_of_fmap_2.
Qed.
End typing.

(** The last loop completes the attributes one after the other. *)
Lemma finish_one_spec given a m m' v :
  finish_one given a m = Ret m' → is_help a = false → m !! dest a = Some v →
  (if bool_decide (dest a ∈ given) then given_ok a v = true else v = default_value a) →
  ∃ v', m' !! dest a = Some v' ∧ attribute_ok a v'.
Proof.
  unfold finish_one, attribute_ok, default_ok. intros Hf Hh Hm Hv.
  assert ((if bool_decide (dest a ∈ given) then Ret m else if required a then error
           else match default_value a with
                | VOne (SStr s) => x ← get_value a s; Ret (<[dest a := VOne x]> m)
                | _ => Ret m end) = Ret m') as Hf' by (unfold is_help in Hh; by destruct (act a)).
  clear Hf. destruct (bool_decide _); [simplify_eq; eauto|]. destruct (required a) eqn:Hreq; [done|].
  subst v. destruct (default_value a) as [|b|[s|q|z|x]|l] eqn:Hd; simplify_eq; try (by eauto 10).
  apply bind_Ret in Hf' as (x & Hx & [= <-]). rewrite lookup_insert_eq. eexists. split; [done|]. right.
  split; [done|]. unfold get_value in Hx. destruct (convert (type_ a) s); simplify_eq. eauto.
Qed.

Lemma finish_one_other given a m m' k : finish_one given a m = Ret m' → k ≠ dest a → m' !! k = m !! k.
Proof.
  unfold finish_one. intros Hf Hk.
  repeat (case_match; simplify_eq; try done).
  all: apply bind_Ret in Hf as (x & _ & [= <-]); by rewrite lookup_insert_ne.
Qed.

Lemma finish_spec given l m m' a v :
  NoDup (dest <$> l) → for_each l (finish_one given) m = Ret m' → a ∈ l → is_help a = false →
  m !! dest a = Some v → (if bool_decide (dest a ∈ given) then given_ok a v = true else v = default_value a) →
  ∃ v', m' !! dest a = Some v' ∧ attribute_ok a v'.
Proof.
  revert m. induction l as [|b l IH]; intros m Hnd Hf Ha Hh Hm Hv; [by apply elem_of_nil in Ha|].
  apply NoDup_cons in Hnd as [Hni Hnd]. apply bind_Ret in Hf as (m1 & H1 & Hf).
  apply elem_of_cons in Ha as [->|Ha].
  - destruct (finish_one_spec _ _ _ _ _ H1 Hh Hm Hv) as (v' & Hv' & Hok). exists v'. split; [|done].
    rewrite <-Hv'. clear -Hf Hni. revert m1 Hf. induction l as [|c l IH]; intros m1; [by intros [= <-]|].
    intros (m2 & H2 & Hf)%bind_Ret. apply not_elem_of_cons in Hni as [Hne Hni].
    rewrite (IH Hni _ Hf). by eapply finish_one_other.
  - eapply IH; [done..| |done]. rewrite <-Hm. eapply finish_one_other; [done|].
    intros Heq. apply Hni. rewrite <-Heq. by apply list_elem_of_fmap_2.
Qed.

(** A namespace has every attribute, with a value the declaration allows. *)
Lemma parse_known_args_typed p argv m unknown a :
  wf_parser p = true → parse_known_args p argv = Ret (m, unknown) →
  a ∈ actions p → is_help a = false → ∃ v, m !! dest a = Some v ∧ attribute_ok a v.
Proof.
  intros Hwf (st & Hl & (m' & Hf & [= <- <-])%bind_Ret)%bind_Ret Ha Hh.
  apply (parse_loop_ok p Hwf) in Hl as [Hst _].
  - destruct (Hst a Ha Hh) as (v & Hv & Hok). eapply finish_spec; [by apply wf_dests|done..].
  - apply classify_known.
  - split; [by apply initial_typed|by right].
Qed.

Lemma parse_args_typed p argv m a :
  wf_parser p = true → parse_args p argv = Ret m →
  a ∈ actions p → is_help a = false → ∃ v, m !! dest a = Some v ∧ attribute_ok a v.
Proof.
  intros Hwf ([m' [|]] & Hk & Hm)%bind_Ret; [|done]. injection Hm as <-. by eapply parse_known_args_typed.
Qed.

(** ** Attributes as values of their types *)

Lemma attribute_Ret {A} (f : value → option A) m name v x :
  m !! name = Some v → f v = Some x → attribute f m name = Ret x.
Proof. unfold attribute. by intros -> ->. Qed.

Lemma all_some_typed {A} (f : scalar → option A) (P : scalar → bool) l :
  (∀ x, P x = true → is_Some (f x)) → forallb P l = true → is_Some (all_some f l).
Proof.
  intros Hf. induction l as [|x l IH]; simpl; [eauto|]. intros [Hx Hl]%andb_true_iff.
  destruct (Hf x Hx) as [y ->]. destruct (IH Hl) as [ys ->]. simpl. eauto.
Qed.

(** ** Following the loop *)

Lemma parse_loop_skip p n toks st : parse_loop p n toks st = parse_loop p 0 (drop n toks) st.
Proof.
  revert n. induction toks as [|t toks IH]; intros n; [by rewrite drop_nil|].
  destruct n; [done|]. simpl. apply IH.
Qed.

(** Without a positional, the strings up to the next option are unknown. *)
Definition add_unknown (l : list string) (st : pstate) : pstate :=
  PState (ns st) (seen st) (pending st) (extras st ++ l).

Lemma parse_loop_block p toks st :
  pending st = None →
  parse_loop p 0 toks st =
  parse_loop p 0 (drop (length (block toks)) toks) (add_unknown (block toks).*1 st).
Proof.
  intros Hp. assert (add_unknown [] st = st) as Hnil.
  { destruct st. unfold add_unknown; simpl. by rewrite app_nil_r. }
  destruct toks as [|[s t] toks]; [by simpl; rewrite Hnil|].
  destruct t; [| |by simpl; rewrite Hnil].
  all: cbn [parse_loop]; unfold consume_block; rewrite Hp; cbn;
    rewrite (parse_loop_skip p (length (block toks))); unfold add_unknown; by rewrite Hp.
Qed.

Lemma parse_loop_unknown p s t toks st :
  pending st = None → is_option (s, t) = false →
  parse_loop p 0 ((s, t) :: toks) st = parse_loop p 0 toks (add_unknown [s] st).
Proof.
  intros Hp Ht. rewrite (parse_loop_block p ((s, t) :: toks)), (parse_loop_block p toks) by done.
  cbn [block]. rewrite Ht. simpl. unfold add_unknown; simpl. by rewrite <-(assoc_L (++)).
Qed.

Lemma parse_loop_unknown_all p toks st :
  pending st = None → Forall (λ t, is_option t = false) toks →
  parse_loop p 0 toks st = Ret (add_unknown toks.*1 st).
Proof.
  intros Hp. revert st Hp. induction toks as [|[s t] toks IH]; intros st Hp Ht.
  - cbn. unfold consume_block, add_unknown. rewrite Hp. done.
  - apply Forall_cons in Ht as [Ht Hts]. rewrite parse_loop_unknown, IH by done.
    unfold add_unknown; simpl. by rewrite <-(assoc_L (++)).
Qed.

(** An option read in one way, with the strings it takes. *)
Lemma parse_loop_option p s o a ex toks st :
  parse_loop p 0 ((s, TOpt [Hit (Some a) o ex]) :: toks) st =
  ('(st, n) ← consume_optional p s [Hit (Some a) o ex] toks st; parse_loop p 0 (drop n toks) st).
Proof.
  cbn [parse_loop]. destruct (consume_optional _ _ _ _ _) as [[st1 n]|e]; [|done].
  cbn. apply parse_loop_skip.
Qed.

Lemma explicit_value p toks a o sep e :
  takes_none a = false → explicit_actions p toks a o sep e = Ret ([(a, [e])], [], 0).
Proof. intros Ha. destruct e; cbn [explicit_actions]; by rewrite Ha. Qed.

(** ** Command lines of known options *)

(** An attribute that is set by an option. *)
Definition set_attribute (k : string) (v : value) (st : pstate) : pstate :=
  PState (<[k := v]> (ns st)) ({[k]} ∪ seen st) (pending st) (extras st).

Section steps.
Context (p : parser).

Lemma classify_option s hits rest :
  s ≠ "--" → parse_optional p s = Some hits → classify p (s :: rest) = (s, TOpt hits) :: classify p rest.
Proof. intros Hs Hp. cbn [classify]. by rewrite decide_False, Hp. Qed.
Lemma classify_arg s rest :
  s ≠ "--" → parse_optional p s = None → classify p (s :: rest) = (s, TArg) :: classify p rest.
Proof. intros Hs Hp. cbn [classify]. by rewrite decide_False, Hp. Qed.

(** [--flag] *)
Lemma step_flag o a rest st :
  o ≠ "--" → parse_optional p o = Some [Hit (Some a) o None] → act a = StoreTrue →
  parse_loop p 0 (classify p (o :: rest)) st =
  parse_loop p 0 (classify p rest) (set_attribute (dest a) (VBool true) st).
Proof.
  intros Ho Hp Ha. rewrite (classify_option _ _ _ Ho Hp), parse_loop_option.
  unfold consume_optional, following, take_action, act_on. rewrite Ha. cbn. unfold take_action, act_on. rewrite Ha.
  cbn. unfold set_attribute. by rewrite app_nil_r.
Qed.

(** The value of an option, attached to it or in the next string. *)
Definition valued (a : action) (v : string) (st : pstate) (st' : pstate) : Prop :=
  ∃ x, checked_value a v = Ret x ∧
  match act a with
  | Store One => st' = set_attribute (dest a) (VOne x) st
  | Append => st' = set_attribute (dest a)
                (VMany (match ns st !! dest a with Some (VMany l) => l | _ => [] end ++ [x])) st
  | _ => False
  end.

Lemma take_valued a v st st' : valued a v st st' → take_action a [v] st = Ret st'.
Proof.
  intros (x & Hx & Ha). unfold take_action, act_on.
  destruct (act a) as [[]| | |]; try done; rewrite Hx; cbn; by subst st'.
Qed.
Lemma valued_takes a v st st' : valued a v st st' → takes_none a = false ∧ act a ≠ Store ZeroOrMore ∧ act a ≠ Store OneOrMore.
Proof. intros (x & _ & Ha). unfold takes_none. by destruct (act a) as [[]| | |]. Qed.

(** [--option=value] *)
Lemma step_eq s o a v rest st st' :
  s ≠ "--" → parse_optional p s = Some [Hit (Some a) o (Some (true, v))] → valued a v st st' →
  parse_loop p 0 (classify p (s :: rest)) st = parse_loop p 0 (classify p rest) st'.
Proof.
  intros Hs Hp Hv. rewrite (classify_option _ _ _ Hs Hp), parse_loop_option. unfold consume_optional.
  destruct (valued_takes _ _ _ _ Hv) as (Ht & _). rewrite explicit_value by done. cbn [mbind res_bind for_each].
  assert (PState (ns st) (seen st) (pending st) (extras st ++ []) = st) as ->.
  { rewrite app_nil_r. by destruct st. }
  by rewrite (take_valued _ _ _ _ Hv).
Qed.

(** [--option value] *)
Lemma step_pair o a v rest st st' :
  o ≠ "--" → parse_optional p o = Some [Hit (Some a) o None] →
  v ≠ "--" → parse_optional p v = None → valued a v st st' →
  parse_loop p 0 (classify p (o :: v :: rest)) st = parse_loop p 0 (classify p rest) st'.
Proof.
  intros Ho Hp Hvd Hvp Hv. rewrite (classify_option _ _ _ Ho Hp), (classify_arg _ _ Hvd Hvp), parse_loop_option.
  unfold consume_optional.
  assert (following a ((v, TArg) :: classify p rest) = Ret [v]) as ->.
  { unfold following. cbn [leading_args]. destruct (valued_takes _ _ _ _ Hv) as (Ht & H1 & H2).
    unfold takes_none in Ht. by destruct (act a) as [[]| | |]. }
  cbn [mbind res_bind for_each]. assert (PState (ns st) (seen st) (pending st) (extras st ++ []) = st) as ->.
  { rewrite app_nil_r. by destruct st. }
  by rewrite (take_valued _ _ _ _ Hv).
Qed.

(** A block of strings before an option or the end is the value of the positional. *)
Definition positional_value (a : action) (args : list string) : value :=
  match args with [] => default_value a | _ => VMany (SStr <$> args) end.

Lemma act_on_strings a args m :
  option_strings a = [] → act a = Store ZeroOrMore → type_ a = AStr → choices a = None →
  act_on a args m = Ret (<[dest a := positional_value a args]> m).
Proof.
  intros Ho Ha Ht Hc. unfold act_on. rewrite Ha, Ho.
  assert (map_res (get_value a) args = Ret (SStr <$> args)) as Hv.
  { unfold get_value. rewrite Ht. clear. induction args as [|s args IH]; [done|]. cbn in *. by rewrite IH. }
  assert (map_res (check_choice a) (SStr <$> args) = Ret (SStr <$> args)) as Hk.
  { unfold check_choice. rewrite Hc. clear. induction args as [|s args IH]; [done|]. cbn in *. by rewrite IH. }
  destruct args as [|s args]; [done|]. rewrite Hv. cbn [mbind res_bind]. by rewrite Hk.
Qed.

Definition set_positional (a : action) (args : list string) (st : pstate) : pstate :=
  PState (<[dest a := positional_value a args]> (ns st)) ({[dest a]} ∪ seen st) None (extras st).

Lemma consume_strings a b st :
  pending st = Some a → option_strings a = [] → act a = Store ZeroOrMore → type_ a = AStr → choices a = None →
  consume_block b st = Ret (set_positional a (block_args b) st).
Proof. intros Hp ????. unfold consume_block, take_action. rewrite Hp. cbn. by rewrite act_on_strings. Qed.

Lemma block_all b : Forall (λ t, is_option t = false) b → block b = b.
Proof. induction 1 as [|t b Ht _ IH]; [done|]. cbn. by rewrite Ht, IH. Qed.

(** [-- args] at the end *)
Lemma step_end a args st :
  pending st = Some a → option_strings a = [] → act a = Store ZeroOrMore → type_ a = AStr → choices a = None →
  parse_loop p 0 (classify p ("--" :: args)) st = Ret (set_positional a args st).
Proof.
  intros Hp Ho Ha Ht Hc. cbn [classify]. rewrite decide_True by done. set (b := (λ s, (s, TArg)) <$> args).
  assert (Forall (λ t, is_option t = false) b) as Hb by (by apply Forall_fmap, Forall_true).
  cbn [parse_loop]. rewrite (block_all (_ :: b)) by (by constructor).
  rewrite (consume_strings a) by done. cbn [mbind res_bind]. rewrite (block_all b), parse_loop_skip, drop_all by done.
  assert (block_args (("--", TDash) :: b) = args) as ->; [|unfold set_positional; cbn; unfold consume_block; cbn; by rewrite app_nil_r].
  unfold block_args, b. cbn. clear. induction args as [|s args IH]; [done|]. cbn. by rewrite IH.
Qed.

(** One argument before an option *)
Lemma step_lead a s o hits rest st :
  pending st = Some a → option_strings a = [] → act a = Store ZeroOrMore → type_ a = AStr → choices a = None →
  s ≠ "--" → parse_optional p s = None → o ≠ "--" → parse_optional p o = Some hits →
  parse_loop p 0 (classify p (s :: o :: rest)) st =
  parse_loop p 0 (classify p (o :: rest)) (set_positional a [s] st).
Proof.
  intros Hp Ho Ha Ht Hc Hs Hsp Hod Hop. rewrite (classify_arg _ _ Hs Hsp), (classify_option _ _ _ Hod Hop).
  cbn [parse_loop block]. change (is_option (s, TArg)) with false. cbn [block].
  change (is_option (o, TOpt hits)) with true. cbn iota. rewrite (consume_strings a) by done. done.
Qed.
End steps.

(** The last loop changes nothing when all required options were given and no
    default is a string. *)
Lemma finish_same given l m :
  Forall (λ a, match act a, default_value a with
               | Help, _ => True
               | _, VOne (SStr _) => False
               | _, _ => required a = true → dest a ∈ given
               end) l →
  for_each l (finish_one given) m = Ret m.
Proof.
  induction 1 as [|a l Ha _ IH]; [done|]. cbn [for_each].
  assert (finish_one given a m = Ret m) as ->; [|done].
  unfold finish_one. destruct (act a), (default_value a) as [| |[]|]; try done; case_bool_decide; try done;
    destruct (required a); try done; exfalso; auto.
Qed.
