(* ===== verification/CommandLines.v ===== *)
(** * The command lines of the scripts

    The parsers the scripts build with [add_argument], the attributes they read, and the
    entry points from the command line on: parsing, [logging.basicConfig], and
    the part of [main] that the file of the script models.  The class [LogHost]
    says whether the log file can be opened. *)

From Stdlib Require Import Ascii Floats.SpecFloat.
From stdpp Require Import numbers base strings gmap list.
From S2P Require Import Prelude PyStr PyInt PyFloat PyJson Schema Registry Sha256 Builder DockerImage BuildMain.
From S2P Require Import Cleanup Mounts ProjectRoot Unicode Events Shell DockerRun Coverage Bep Bootstrap Argparse.

Class LogHost := {
  open_log : path → res unit;                (* [open(filename, "a")] *)
  open_log_exn : ∀ p e, open_log p = Raise e → is_OSError e = true;
}.

(** [logging.basicConfig(filename=log_file, ...)]; without a file, standard error *)
Definition basicConfig `{LogHost} (log_file : option path) : res unit :=
  match log_file with Some p => open_log p | None => Ret tt end.

Definition log_file_option : action := option_ ["--devkit-log-file"] (Store One) APath VNone false.

(** ** [docker/build.py] *)

Definition build_parser : parser := Parser
  [help_option;
   option_ ["--print-tag"] StoreTrue AStr (VBool false) false;
   option_ ["--config"] (Store One) APath VNone true;
   option_ ["--search-path"] Append APath VNone true;
   option_ ["--local"] StoreTrue AStr (VBool false) false;
   option_ ["--no-cache"] StoreTrue AStr (VBool false) false;
   option_ ["--log-file"] (Store One) APath VNone false]
  (Some (Action [] "target_images" (Store ZeroOrMore) AStr None (VMany []) false)).

Definition build_arguments (argv : list string) : res (build_args * option path) :=
  m ← parse_args build_parser argv;
  target_images ← attribute (as_list as_str) m "target_images";
  print_tag ← attribute as_bool m "print_tag";
  config ← attribute as_path m "config";
  search_path ← attribute (as_list as_path) m "search_path";
  local ← attribute as_bool m "local";
  no_cache ← attribute as_bool m "no_cache";
  log_file ← attribute (as_optional as_path) m "log_file";
  Ret (BuildArgs target_images print_tag (path_str config) (path_str <$> search_path) local no_cache, log_file).

Definition build_cli `{FileSystem, SetOrder, Hash, Docker, LogHost} (depth : nat) (argv : list string)
    : ST session unit :=
  '(args, log_file) ← lift (build_arguments argv);
  _ ← lift (basicConfig log_file);
  BuildMain.main depth args.

(** ** [docker_cleanup.py] *)

Definition cleanup_parser : parser := Parser
  [help_option;
   log_file_option;
   option_ ["--config-path"] (Store One) APath VNone true;
   option_ ["--search-path"] Append APath VNone true;
   option_ ["--initial-delay"] (Store One) AFloat (VOne (SFloat (float_of_Z 0))) false;
   option_ ["--cleanup-interval"] (Store One) AFloat (VOne (SFloat (float_of_Z 0))) false;
   option_ ["--batch-size"] (Store One) AInt (VOne (SInt 10)) false;
   option_ ["--threshold-days"] (Store One) AInt (VOne (SInt CLEANUP_THRESHOLD_DAYS)) false]
  None.

Record cleanup_args := CleanupArgs {
  c_config_path : path;
  c_search_path : list path;
  c_initial_delay : spec_float;
  c_cleanup_interval : spec_float;
  c_batch_size : Z;
  c_threshold_days : Z;
}.

Definition cleanup_arguments (argv : list string) : res (cleanup_args * option path) :=
  m ← parse_args cleanup_parser argv;
  log_file ← attribute (as_optional as_path) m "devkit_log_file";
  config_path ← attribute as_path m "config_path";
  search_path ← attribute (as_list as_path) m "search_path";
  initial_delay ← attribute as_float m "initial_delay";
  interval ← attribute as_float m "cleanup_interval";
  batch_size ← attribute as_int m "batch_size";
  threshold_days ← attribute as_int m "threshold_days";
  Ret (CleanupArgs config_path search_path initial_delay interval batch_size threshold_days, log_file).

(** The two waits are the points at which the cancel event is looked at. *)
Definition cleanup_cli `{FileSystem, Hash, SetOrder, CleanupEnv, LogHost} (depth : nat) (argv : list string)
    : ST cleaner unit :=
  '(args, log_file) ← lift (cleanup_arguments argv);
  _ ← lift (basicConfig log_file);
  cleanup_main depth (path_str (c_config_path args)) (path_str <$> c_search_path args)
    (c_batch_size args) (c_threshold_days args).

(** ** [list_external_mounts.py] *)

Definition mounts_parser (cwd : path) : parser := Parser
  [help_option;
   option_ ["--root-dir"] (Store One) APath (VOne (SPath cwd)) false;
   Action ["--mount"] "existing_mounts" Append APath None (VMany []) false]
  None.

Definition mounts_arguments (cwd : path) (argv : list string) : res (path * list path) :=
  m ← parse_args (mounts_parser cwd) argv;
  root_dir ← attribute as_path m "root_dir";
  existing_mounts ← attribute (as_list as_path) m "existing_mounts";
  Ret (root_dir, existing_mounts).

(** The lines printed; [path_iter] is the order of enumeration of the set.
    [get_minimal_mounts] always has a result ([minimal_mounts_total]). *)
Definition mounts_cli `{MountFS} (path_iter : gset path → list path) (cwd : path) (argv : list string)
    : res (list string) :=
  '(root_dir, existing_mounts) ← mounts_arguments cwd argv;
  mounts ← default (Raise RecursionError) (get_minimal_mounts root_dir existing_mounts);
  Ret (path_str <$> path_iter mounts).

(** ** [docker_run.py] *)

Definition run_parser : parser := Parser [log_file_option] None.

(** [parse_known_args]: the log file and the arguments for docker *)
Definition run_arguments (argv : list string) : res (option path * list string) :=
  '(m, unknown_args) ← parse_known_args run_parser argv;
  log_file ← attribute (as_optional as_path) m "devkit_log_file";
  Ret (log_file, unknown_args).

Definition run_cli `{RunHost, FileSystem, MountFS, LogHost} (argv : list string) : ST trace unit :=
  '(log_file, unknown_args) ← lift (run_arguments argv);
  _ ← lift (basicConfig log_file);
  DockerRun.main unknown_args.

(** ** [coverage_report.py] *)

Definition coverage_parser : parser := Parser
  [help_option;
   option_ ["--target"] (Store One) AStr (VOne (SStr "//...")) false;
   option_ ["--lines"] (Store One) AFloat (VOne (SFloat (float_of_Z 100))) false;
   option_ ["--branch"] (Store One) AFloat (VOne (SFloat (float_of_Z 100))) false;
   log_file_option]
  None.

Record coverage_args := CoverageArgs {
  v_target : string;
  v_lines : spec_float;
  v_branch : spec_float;
}.

Definition coverage_arguments (argv : list string) : res (coverage_args * option path) :=
  m ← parse_args coverage_parser argv;
  log_file ← attribute (as_optional as_path) m "devkit_log_file";
  branch ← attribute as_float m "branch";
  lines ← attribute as_float m "lines";
  target ← attribute as_str m "target";
  Ret (CoverageArgs target lines branch, log_file).

Definition coverage_cli `{CovHost, LogHost} (argv : list string) : ST (list cov_effect) unit :=
  '(args, log_file) ← lift (coverage_arguments argv);
  _ ← lift (basicConfig log_file);
  coverage_main (v_target args) (v_lines args) (v_branch args).

(** ** [bep.py] *)

Definition bep_parser : parser := Parser
  [help_option;
   option_ ["--targets"] (Store OneOrMore) AStr (VMany []) false;
   Action ["--command"] "command" (Store One) AStr (Some ["fetch"; "build"]) (VOne (SStr "fetch")) false;
   option_ ["--output_dir"] (Store One) APath (VOne (SPath (path_of_str "bazel-bep"))) false;
   log_file_option]
  None.

Record bep_args := BepArgs {
  b_targets : list string;
  b_command : string;
  b_output_dir : path;
}.

Definition bep_arguments (argv : list string) : res (bep_args * option path) :=
  m ← parse_args bep_parser argv;
  log_file ← attribute (as_optional as_path) m "devkit_log_file";
  targets ← attribute (as_list as_str) m "targets";
  command ← attribute as_str m "command";
  output_dir ← attribute as_path m "output_dir";
  Ret (BepArgs targets command output_dir, log_file).

Definition bep_cli `{BepHost, LogHost} (argv : list string) : ST bep_trace unit :=
  '(args, log_file) ← lift (bep_arguments argv);
  _ ← lift (basicConfig log_file);
  bep_main (b_targets args) (b_command args) (b_output_dir args).

(** ** [bootstrap.py] *)

Definition boot_parser (cwd : path) : parser := Parser
  [help_option;
   option_ ["--template"] (Store One) AStr VNone true;
   option_ ["--templates-root"] (Store One) APath VNone false;
   option_ ["--output-dir"] (Store One) APath (VOne (SPath cwd)) false;
   option_ ["--args"] (Store ZeroOrMore) AStr (VMany []) false;
   log_file_option]
  None.

Definition boot_arguments (cwd : path) (argv : list string) : res (boot_args * option path) :=
  m ← parse_args (boot_parser cwd) argv;
  log_file ← attribute (as_optional as_path) m "devkit_log_file";
  template ← attribute as_str m "template";
  args ← attribute (as_list as_str) m "args";
  output_dir ← attribute as_path m "output_dir";
  templates_root ← attribute (as_optional as_path) m "templates_root";
  Ret (BootArgs template templates_root output_dir args, log_file).

Definition boot_cli `{TemplateEngine, BootHost, LogHost} (cwd : path) (argv : list string) : ST disk unit :=
  '(args, log_file) ← lift (boot_arguments cwd argv);
  _ ← lift (basicConfig log_file);
  boot_main args.

(** ** [scripts/build_and_run] *)

(** The words of an unquoted [${...}] in bash: the fields between blanks.  Pathname
    expansion, which concerns words with [*], [?] or [[], is left out. *)
Definition ifs_blank (c : ascii) : bool :=
  bool_decide (c = " "%char) || bool_decide (c = "009"%char) || bool_decide (c = "010"%char).

Fixpoint word_split (s : string) : list string :=
  match s with
  | EmptyString => []
  | String c r =>
      if ifs_blank c then word_split r
      else match r with
           | EmptyString => [String c ""]
           | String d _ =>
               if ifs_blank d then String c "" :: word_split r
               else match word_split r with
                    | w :: ws => String c w :: ws
                    | [] => [String c ""]
                    end
           end
  end.

Definition BUILD_CMD (scripts image_name images log_file config : string) : string :=
  scripts +:+ "/uv " +:+ scripts +:+ "/docker/build.py " +:+ image_name +:+ " --print-tag --search-path " +:+
  images +:+ " --log-file " +:+ log_file +:+ " --config " +:+ config.

(** [$(${BUILD_CMD})]: the words after the program and the script are the command line of
    [docker/build.py]. *)
Definition build_and_run_line (scripts image_name images log_file config : string) : list string :=
  drop 2 (word_split (BUILD_CMD scripts image_name images log_file config)).

(** The command line of [docker_run.py]; these expansions are quoted. *)
Definition run_line (log_file image_uri : string) (args : list string) : list string :=
  "--devkit-log-file" :: log_file :: image_uri :: args.
