(* ===== verification/CommandLineTheorems.v ===== *)
(** * Results about the command lines of the scripts *)

From Stdlib Require Import Ascii Floats.SpecFloat.
From stdpp Require Import numbers base strings gmap list.
From S2P Require Import Prelude PyStr PyInt PyFloat PyJson Schema Registry Sha256 Builder BuildTags DockerImage.
From S2P Require Import BuildMain Samples BuildTheorems Cleanup Mounts MountTheorems ProjectRoot Unicode Events Shell DockerRun DockerRunTheorems Coverage CoverageTheorems Bep Bootstrap Argparse ArgparseTheorems CommandLines.

(** ** Attributes have the types the scripts rely on *)

(** The action that sets an attribute. *)
Definition action_of (p : parser) (name : string) : option action :=
  snd <$> list_find (λ a, dest a = name ∧ is_help a = false) (actions p).

(** The namespaces a parser returns. *)
Definition namespace_of (p : parser) (m : namespace) : Prop :=
  ∀ a, a ∈ actions p → is_help a = false → ∃ v, m !! dest a = Some v ∧ attribute_ok a v.

(** Reading an attribute succeeds if every allowed value has the type. *)
Lemma attribute_read {A} (f : value → option A) p m name a :
  namespace_of p m → action_of p name = Some a → (∀ v, attribute_ok a v → is_Some (f v)) →
  ∃ x, attribute f m name = Ret x ∧ ∃ v, attribute_ok a v ∧ f v = Some x.
Proof.
  intros Hm Ha Hf. unfold action_of in Ha. apply fmap_Some in Ha as ([i a'] & Hfind & ->).
  apply list_find_Some in Hfind as (Hi & [<- Hh] & _).
  destruct (Hm a') as (v & Hv & Hok); [by eapply list_elem_of_lookup_2|done|].
  destruct (Hf v Hok) as [x Hx]. exists x. split; [by eapply attribute_Ret|eauto].
Qed.

Lemma as_list_typed {A} (f : value → option A) a l :
  (∀ x, scalar_ok a x = true → is_Some (f (VOne x))) → forallb (scalar_ok a) l = true →
  is_Some (as_list f (VMany l)).
Proof. intros Hf Hl. unfold as_list. by eapply all_some_typed. Qed.

(** The values an action allows, by its declaration. *)
Ltac allowed_values :=
  let v := fresh "v" in let Hv := fresh "Hv" in
  intros v Hv; unfold attribute_ok, default_ok in Hv; cbn in Hv;
  destruct v as [|[]|[]|[|? ?]];
  (repeat match type of Hv with _ ∨ _ => destruct Hv as [Hv|Hv] | _ ∧ _ => destruct Hv as [? Hv] end);
  try discriminate; try (by eexists);
  try (destruct Hv as (? & [= <-] & [=]); subst; by eexists);
  try (eapply as_list_typed; [|exact Hv];
       let x := fresh "x" in let Hx := fresh "Hx" in intros x Hx; destruct x; try discriminate; by eexists);
  simplify_eq; try (by eexists).

(** Reads the attributes of a namespace one after the other, keeping what is
    known of their values. *)
Ltac read_attributes Hm :=
  repeat lazymatch goal with
    | |- context [attribute ?f ?m ?name ≫= _] =>
        let x := fresh "x" in let Hx := fresh "Hx" in let Hval := fresh "Hval" in
        let p := lazymatch type of Hm with namespace_of ?p _ => p end in
        let a := lazymatch eval vm_compute in (action_of p name) with Some ?a => a end in
        destruct (attribute_read f p m name a Hm) as (x & Hx & Hval);
        [vm_compute; reflexivity|allowed_values|rewrite Hx; cbn [mbind res_bind]]
    end.

(** Splits the result of a parser into the namespaces it returns and its exits. *)
Ltac parse_cases p argv m Hm :=
  let He := fresh "He" in
  pose proof (parse_args_exit p argv) as He;
  pose proof (λ m H a, parse_args_typed p argv m a eq_refl H : a ∈ actions p → _) as Hm;
  destruct (parse_args p argv) as [m|?]; [|first [by apply He|by intros ? [= <-]; apply He]];
  specialize (Hm m eq_refl); change (namespace_of p m) in Hm; clear He; cbn [mbind res_bind].

Lemma as_list_nonempty {A} (f : value → option A) x l k : as_list f (VMany (x :: l)) = Some k → k ≠ [].
Proof. unfold as_list. cbn [all_some]. intros (y & _ & (ys & _ & [= <-])%bind_Some)%bind_Some. done. Qed.

(** A required option whose values are collected was given at least once. *)
Lemma appended_nonempty {A} (f : value → option A) a k :
  act a = Append → required a = true → (∃ v, attribute_ok a v ∧ as_list f v = Some k) → k ≠ [].
Proof.
  intros Ha Hr (v & [Hg|[Hd _]] & Hk); [|congruence]. unfold given_ok in Hg. rewrite Ha in Hg.
  destruct v as [| | |[|x l]]; try done. by eapply as_list_nonempty.
Qed.

Lemma fmap_nonempty {A B} (f : A → B) l : l ≠ [] → f <$> l ≠ [].
Proof. by destruct l. Qed.

Lemma build_arguments_spec argv :
  match build_arguments argv with
  | Ret (args, _) => arg_search_path args ≠ []
  | Raise e => usage_exit e
  end.
Proof.
  unfold build_arguments. parse_cases build_parser argv m Hm. read_attributes Hm. simpl.
  apply fmap_nonempty. by eapply appended_nonempty; [..|exact Hval2].
Qed.

Lemma cleanup_arguments_spec argv :
  match cleanup_arguments argv with
  | Ret (args, _) => c_search_path args ≠ []
  | Raise e => usage_exit e
  end.
Proof.
  unfold cleanup_arguments. parse_cases cleanup_parser argv m Hm. read_attributes Hm. simpl.
  by eapply appended_nonempty; [..|exact Hval1].
Qed.

Lemma mounts_arguments_exit cwd argv : only_raises usage_exit (mounts_arguments cwd argv).
Proof.
  unfold mounts_arguments, only_raises. parse_cases (mounts_parser cwd) argv m Hm. by read_attributes Hm.
Qed.

Lemma run_arguments_exit argv : only_raises usage_exit (run_arguments argv).
Proof.
  unfold run_arguments. pose proof (parse_known_args_exit run_parser argv) as He.
  pose proof (λ m u H a, parse_known_args_typed run_parser argv m u a eq_refl H : a ∈ actions run_parser → _) as Hm.
  destruct (parse_known_args run_parser argv) as [[m unknown]|e]; [|by apply only_raises_raise, He].
  specialize (Hm m unknown eq_refl). change (namespace_of run_parser m) in Hm. cbn [mbind res_bind].
  read_attributes Hm. apply only_raises_ret.
Qed.

Lemma coverage_arguments_exit argv : only_raises usage_exit (coverage_arguments argv).
Proof.
  unfold coverage_arguments, only_raises. parse_cases coverage_parser argv m Hm. by read_attributes Hm.
Qed.

Lemma bep_arguments_spec argv :
  match bep_arguments argv with
  | Ret (args, _) => b_command args = "fetch" ∨ b_command args = "build"
  | Raise e => usage_exit e
  end.
Proof.
  unfold bep_arguments. parse_cases bep_parser argv m Hm. read_attributes Hm. simpl.
  destruct Hval1 as (v & [Hg|[_ Hd]] & Hv); cbn in *.
  - destruct v as [| |[s| | |]|]; try done. injection Hv as ->. unfold scalar_ok in Hg. cbn in Hg.
    apply bool_decide_eq_true in Hg. rewrite !elem_of_cons, elem_of_nil in Hg. intuition.
  - destruct Hd as (y & [= <-] & ->). injection Hv as <-. by left.
Qed.

Lemma boot_arguments_exit cwd argv : only_raises usage_exit (boot_arguments cwd argv).
Proof.
  unfold boot_arguments, only_raises. parse_cases (boot_parser cwd) argv m Hm. by read_attributes Hm.
Qed.

(** ** What [docker_run.py] keeps for itself *)

(** A string that is the option of the log file, abbreviated or not, possibly
    with its value. *)
Definition names_log_file (s : string) : bool :=
  match s with
  | String c (String _ _) => is_dash c && startswith "--devkit-log-file" (partition_eq s).1
  | _ => false
  end.

(** A string that can be the value of the option before it. *)
Definition value_like (s : string) : bool :=
  negb (names_log_file s) && negb (bool_decide (s = "--")) &&
  match s with
  | String c (String _ _) => negb (is_dash c) || negative_number s || str_in " " s
  | _ => true
  end.

(** The log file and the other strings; up to [--] every string that names the
    option is taken, wherever it stands, and the last one counts. *)
Fixpoint split_run_args (argv : list string) : res (option path * list string) :=
  match argv with
  | [] => Ret (None, [])
  | s :: rest =>
      if bool_decide (s = "--") then Ret (None, argv)
      else if names_log_file s then
        match (partition_eq s).2, rest with
        | Some (_, v), _ =>
            '(log, unknown) ← split_run_args rest;
            Ret (Some (default (path_of_str v) log), unknown)
        | None, v :: rest =>
            if value_like v then
              '(log, unknown) ← split_run_args rest;
              Ret (Some (default (path_of_str v) log), unknown)
            else Raise (SystemExit 2)
        | None, [] => Raise (SystemExit 2)
        end
      else
        '(log, unknown) ← split_run_args rest; Ret (log, s :: unknown)
  end.

Lemma run_parse_optional s :
  s ≠ "--" →
  parse_optional run_parser s =
  if names_log_file s then Some [Hit (Some log_file_option) "--devkit-log-file" (partition_eq s).2]
  else if value_like s then None else Some [Hit None s None].
Proof.
  intros Hdd. unfold value_like. rewrite (bool_decide_false (s = "--")) by done.
  destruct s as [|c [|c2 r]]; [done| |].
  { cbn [parse_optional]. destruct (is_dash c); [|done]. simpl. by rewrite decide_False by (intros ?; discriminate). }
  cbn [parse_optional names_log_file]. destruct (is_dash c) eqn:Hc; [|done]. cbn [negb andb orb].
  change (option_table run_parser) with [("--devkit-log-file", log_file_option)]. cbn [dget].
  case_decide as Hs; [by rewrite Hs|]. rewrite decide_False by done.
  set (s := String c (String c2 r)) in *.
  assert (guess_optional run_parser s =
          if startswith "--devkit-log-file" (partition_eq s).1
          then Some [Hit (Some log_file_option) "--devkit-log-file" (partition_eq s).2]
          else if negative_number s || str_in " " s then None else Some [Hit None s None]) as Hg.
  { unfold guess_optional. change (option_table run_parser) with [("--devkit-log-file", log_file_option)].
    assert (option_tuples run_parser s =
            if startswith "--devkit-log-file" (partition_eq s).1
            then [Hit (Some log_file_option) "--devkit-log-file" (partition_eq s).2] else []) as ->.
    { unfold option_tuples. change (option_table run_parser) with [("--devkit-log-file", log_file_option)].
      destruct (partition_eq s) as [prefix ex]. cbn [fst snd]. unfold s.
      destruct (startswith "--devkit-log-file" prefix) eqn:Hsw, (is_dash c2) eqn:Hc2;
        cbn [fmap list_fmap mjoin list_join app]; try rewrite decide_False by (intros ?; discriminate);
        by rewrite Hsw. }
    destruct (startswith _ _); [done|]. cbn [existsb]. change (negative_number "--devkit-log-file") with false.
    cbn [orb negb]. by destruct (negative_number s), (str_in " " s). }
  destruct (partition_eq s) as [o [e|]] eqn:Hp; cbn [fst snd] in *.
  - destruct (decide (o = "--devkit-log-file")) as [->|Ho]; [done|]. rewrite Hg.
    destruct (startswith _ _); [done|]. by destruct (_ || _).
  - rewrite Hg. destruct (startswith _ _); [done|]. by destruct (_ || _).
Qed.

(** The state after the loop, with what the reference split finds. *)
Definition with_log (log : option path) (m : namespace) : namespace :=
  match log with Some q => <["devkit_log_file" := VOne (SPath q)]> m | None => m end.

Lemma consume_log_file s v n toks st ex :
  (ex = Some (true, v) ∧ n = 0) ∨ (ex = None ∧ n = 1 ∧ ∃ toks', toks = (v, TArg) :: toks') →
  ∃ given, consume_optional run_parser s [Hit (Some log_file_option) "--devkit-log-file" ex] toks st =
    Ret (PState (with_log (Some (path_of_str v)) (ns st)) given (pending st) (extras st), n).
Proof.
  intros [[-> ->]|(-> & -> & toks' & ->)]; eexists; unfold consume_optional; [rewrite explicit_value by done|];
    cbn; by rewrite app_nil_r.
Qed.

Lemma no_value_is_error s toks st :
  leading_args toks = [] →
  consume_optional run_parser s [Hit (Some log_file_option) "--devkit-log-file" None] toks st = error.
Proof. intros Hl. cbn. unfold following. by rewrite Hl. Qed.

Lemma partition_eq_sep s sep e : (partition_eq s).2 = Some (sep, e) → sep = true.
Proof. unfold partition_eq. destruct (split_eq s) as [[]|]; intros [=]; done. Qed.

Lemma value_like_arg v : value_like v = true → v ≠ "--" ∧ parse_optional run_parser v = None.
Proof.
  intros Hv. pose proof Hv as Hv'. unfold value_like in Hv'.
  rewrite !andb_true_iff, !negb_true_iff, bool_decide_eq_false in Hv'. destruct Hv' as [[Hvn Hvd] _].
  split; [done|]. by rewrite run_parse_optional, Hvn, Hv.
Qed.

(** The loop ends as the reference split says. *)
Definition split_agrees (m : namespace) (ex : list string) (split : res (option path * list string))
    (loop : res pstate) : Prop :=
  match split with
  | Ret (log, unknown) => ∃ given, loop = Ret (PState (with_log log m) given None (ex ++ unknown))
  | Raise e => e = SystemExit 2 ∧ loop = Raise (SystemExit 2)
  end.

Lemma split_agrees_unknown m ex s split loop :
  split_agrees m (ex ++ [s]) split loop →
  split_agrees m ex ('(log, unknown) ← split; Ret (log, s :: unknown)) loop.
Proof. destruct split as [[log unknown]|e]; [|done]. cbn. by rewrite <-(assoc_L (++)). Qed.

Lemma split_agrees_value m ex q split loop :
  split_agrees (with_log (Some q) m) ex split loop →
  split_agrees m ex ('(log, unknown) ← split; Ret (Some (default q log), unknown)) loop.
Proof.
  destruct split as [[log unknown]|e]; [|done]. intros [given ->]. exists given.
  destruct log; simpl; [by rewrite insert_insert_eq|done].
Qed.

Lemma run_loop_spec n argv m given ex :
  length argv ≤ n →
  split_agrees m ex (split_run_args argv)
    (parse_loop run_parser 0 (classify run_parser argv) (PState m given None ex)).
Proof.
  revert argv m given ex. induction n as [|n IH]; intros [|s rest] m given ex Hlen; simpl in Hlen; try lia.
  1,2: simpl; exists given; cbn; by rewrite app_nil_r.
  cbn [split_run_args classify]. case_bool_decide as Hs.
  { rewrite decide_True by done. exists given. rewrite parse_loop_unknown_all; [|done|].
    - unfold add_unknown; cbn. by rewrite <-list_fmap_compose, list_fmap_id.
    - constructor; [done|]. apply Forall_fmap, Forall_true. done. }
  rewrite decide_False, run_parse_optional by done. destruct (names_log_file s) eqn:Hn.
  2: { apply split_agrees_unknown. destruct (value_like s); [rewrite parse_loop_unknown by done|];
         apply IH; lia. }
  rewrite parse_loop_option. destruct (partition_eq s).2 as [[sep v]|] eqn:He.
  { destruct (consume_log_file s v 0 (classify run_parser rest) (PState m given None ex) (Some (sep, v)))
      as [given' ->]; [left; by rewrite (partition_eq_sep s sep v He)|].
    apply split_agrees_value, IH. lia. }
  destruct rest as [|v rest]; [by rewrite no_value_is_error|]. destruct (value_like v) eqn:Hv.
  - destruct (value_like_arg v Hv) as [Hvd Hvp]. cbn [classify]. rewrite decide_False, Hvp by done.
    destruct (consume_log_file s v 1 ((v, TArg) :: classify run_parser rest) (PState m given None ex) None)
      as [given' ->]; [right; eauto|].
    apply split_agrees_value, IH. simpl in Hlen. lia.
  - rewrite no_value_is_error; [done|]. cbn [classify]. case_decide as Hvd; [done|].
    rewrite run_parse_optional, Hv by done. by destruct (names_log_file v).
Qed.

Lemma run_arguments_eq argv : run_arguments argv = split_run_args argv.
Proof.
  unfold run_arguments, parse_known_args. change (positional run_parser) with (@None action).
  pose proof (run_loop_spec (length argv) argv (initial_ns run_parser) ∅ [] ltac:(done)) as Hl.
  unfold split_agrees in Hl.
  destruct (split_run_args argv) as [[log unknown]|e].
  - destruct Hl as [given ->]. cbn [mbind res_bind ns seen extras app]. change (actions run_parser) with [log_file_option].
    cbn [for_each finish_one log_file_option option_ act]. destruct log as [q|].
    + case_bool_decide; cbn; unfold attribute; cbn [with_log]; by rewrite lookup_insert_eq.
    + case_bool_decide; done.
  - by destruct Hl as [-> ->].
Qed.

(** The strings before the first [--], which may be options. *)
Fixpoint before_dashes (argv : list string) : list string :=
  match argv with
  | [] => []
  | s :: argv => if decide (s = "--") then [] else s :: before_dashes argv
  end.

Lemma split_intact argv :
  Forall (λ s, names_log_file s = false) (before_dashes argv) → split_run_args argv = Ret (None, argv).
Proof.
  induction argv as [|s argv IH]; simpl; [done|]. case_decide as Hs; [by rewrite bool_decide_true|].
  intros [Hn Hr]%Forall_cons. by rewrite bool_decide_false, Hn, IH.
Qed.

(** Taking the option makes the rest shorter. *)
Lemma split_shorter n argv log unknown :
  length argv ≤ n → split_run_args argv = Ret (log, unknown) →
  length unknown ≤ length argv ∧
  (¬ Forall (λ s, names_log_file s = false) (before_dashes argv) → length unknown < length argv).
Proof.
  revert argv log unknown. induction n as [|n IH]; intros [|s argv] log unknown Hlen; simpl in Hlen; try lia.
  1,2: intros [= <- <-]; split; [done|]; intros []; constructor.
  cbn [split_run_args before_dashes]. case_bool_decide as Hs.
  { intros [= <- <-]. rewrite decide_True by done. split; [done|]. intros []. constructor. }
  rewrite decide_False by done. destruct (names_log_file s) eqn:Hn.
  - destruct (partition_eq s).2 as [[sep v]|]; [|destruct argv as [|v argv]; [done|destruct (value_like v); [|done]]].
    all: intros ([log' u] & [Hle _]%IH & [= <- <-])%bind_Ret; simpl in *; lia.
  - intros ([log' u] & [Hle Hlt]%IH & [= <- <-])%bind_Ret; [|lia]. simpl. split; [lia|].
    intros Hnf. apply -> Nat.succ_lt_mono. apply Hlt. contradict Hnf. by constructor.
Qed.

(** A call that starts with the log file. *)
Lemma run_with_log log cmd :
  value_like log = true →
  run_arguments ("--devkit-log-file" :: log :: cmd) =
  ('(later, unknown) ← split_run_args cmd; Ret (Some (default (path_of_str log) later), unknown)).
Proof.
  intros Hlog. rewrite run_arguments_eq. cbn [split_run_args]. rewrite bool_decide_false by done.
  change (names_log_file "--devkit-log-file") with true.
  change (partition_eq "--devkit-log-file").2 with (@None (bool * string)). cbn iota. by rewrite Hlog.
Qed.

(** C20: for every command line, [docker_run.py] takes as its log file exactly what the
    reference split finds, and passes all other strings on to docker, in order; the only
    error is an option without a value, exit code 2. *)
Theorem run_arguments_split argv :
  run_arguments argv = split_run_args argv ∧ ∀ e, run_arguments argv = Raise e → e = SystemExit 2.
Proof.
  rewrite run_arguments_eq. split; [done|]. intros e He.
  pose proof (run_loop_spec (length argv) argv ∅ ∅ [] ltac:(done)) as Hl. rewrite He in Hl. by destruct Hl.
Qed.

(** C9: called as the devkit does, with the log file and then the image and its
    command, the script passes image and command on unchanged exactly when none of
    these strings before [--] names or abbreviates [--devkit-log-file]. *)
Theorem container_command_intact log cmd :
  value_like log = true →
  run_arguments ("--devkit-log-file" :: log :: cmd) = Ret (Some (path_of_str log), cmd) ↔
  Forall (λ s, names_log_file s = false) (before_dashes cmd).
Proof.
  intros Hlog. rewrite run_with_log by done. split.
  - intros ([log' u] & Hs & [= _ ->])%bind_Ret. destruct (split_shorter _ _ _ _ (le_n _) Hs) as [_ Hlt].
    destruct (decide (Forall (λ s, names_log_file s = false) (before_dashes cmd))) as [|Hn]; [done|].
    specialize (Hlt Hn). lia.
  - intros Hn. by rewrite split_intact.
Qed.

Lemma container_command_intact_witness :
  run_arguments ["--devkit-log-file"; "/log"; "image:tag"; "bazel"; "test"; "--config=dev"] =
    Ret (Some (path_of_str "/log"), ["image:tag"; "bazel"; "test"; "--config=dev"]).
Proof.
  apply (container_command_intact "/log" ["image:tag"; "bazel"; "test"; "--config=dev"]); [reflexivity|].
  repeat constructor.
Defined.

(** An option of the command that happens to be an abbreviation is taken out of it,
    with its argument: the container runs [poetry add]. *)
Example abbreviation_swallowed :
  run_arguments ["--devkit-log-file"; "/log"; "image:tag"; "poetry"; "add"; "--dev"; "pytest"] =
  Ret (Some (path_of_str "pytest"), ["image:tag"; "poetry"; "add"]).
Proof. vm_compute. reflexivity. Qed.

(** ** Command lines of [docker/build.py] *)

(** What [Path] makes of the text of a path. *)
Definition path_text (s : string) : string := path_str (path_of_str s).

(** The arguments as a command line. *)
Definition build_command_line (args : build_args) (log_file : option string) : list string :=
  (if arg_print_tag args then ["--print-tag"] else [])
  ++ ["--config=" +:+ arg_config args]
  ++ ((λ s, "--search-path=" +:+ s) <$> arg_search_path args)
  ++ (if arg_local args then ["--local"] else [])
  ++ (if arg_no_cache args then ["--no-cache"] else [])
  ++ (match log_file with Some f => ["--log-file=" +:+ f] | None => [] end)
  ++ "--" :: arg_target_images args.

Definition print_tag_option : action := option_ ["--print-tag"] StoreTrue AStr (VBool false) false.
Definition config_option : action := option_ ["--config"] (Store One) APath VNone true.
Definition search_path_option : action := option_ ["--search-path"] Append APath VNone true.
Definition target_argument : action := Action [] "target_images" (Store ZeroOrMore) AStr None (VMany []) false.

Lemma path_valued a v st :
  type_ a = APath → choices a = None → act a = Store One →
  valued a v st (set_attribute (dest a) (VOne (SPath (path_of_str v))) st).
Proof.
  intros Ht Hc Ha. exists (SPath (path_of_str v)). rewrite Ha. split; [|done].
  unfold checked_value, get_value, check_choice. by rewrite Ht, Hc.
Qed.

(** All the search paths, one after the other. *)
Definition collected (k : string) (m : namespace) : list scalar :=
  match m !! k with Some (VMany l) => l | _ => [] end.
Definition append_path (k : string) (st : pstate) (v : string) : pstate :=
  set_attribute k (VMany (collected k (ns st) ++ [SPath (path_of_str v)])) st.

Lemma search_paths_step vs rest st :
  parse_loop build_parser 0 (classify build_parser (((λ s, "--search-path=" +:+ s) <$> vs) ++ rest)) st =
  parse_loop build_parser 0 (classify build_parser rest) (fold_left (append_path "search_path") vs st).
Proof.
  revert st. induction vs as [|v vs IH]; intros st; [done|]. rewrite fmap_cons. cbn [app fold_left].
  rewrite (step_eq build_parser _ "--search-path" search_path_option v _ _ (append_path "search_path" st v));
    [apply IH|done|reflexivity|].
  by exists (SPath (path_of_str v)).
Qed.

Lemma append_paths_spec k vs st :
  vs ≠ [] →
  ∃ given, seen st ⊆ given ∧ k ∈ given ∧
    fold_left (append_path k) vs st =
    PState (<[k := VMany (collected k (ns st) ++ (SPath ∘ path_of_str <$> vs))]> (ns st))
      given (pending st) (extras st).
Proof.
  revert st. induction vs as [|v vs IH]; intros st Hne; [done|]. cbn [fold_left].
  destruct (decide (vs = [])) as [->|Hvs].
  { eexists. split; [|split; [|reflexivity]]; set_solver. }
  destruct (IH (append_path k st v) Hvs) as (given & Hsub & Hin & ->).
  exists given. split; [cbn in Hsub; set_solver|]. split; [done|]. f_equal.
  unfold append_path, set_attribute; cbn. unfold collected at 1.
  by rewrite lookup_insert_eq, insert_insert_eq, <-(assoc_L (++)).
Qed.

Lemma as_strings l : as_list as_str (VMany (SStr <$> l)) = Some l.
Proof. unfold as_list. induction l as [|s l IH]; [done|]. cbn in *. by rewrite IH. Qed.
Lemma as_paths l : as_list as_path (VMany (SPath ∘ path_of_str <$> l)) = Some (path_of_str <$> l).
Proof. unfold as_list. induction l as [|s l IH]; [done|]. cbn in *. by rewrite IH. Qed.

(** Reading the attributes of the build back. *)
Lemma read_build_attributes targets print config paths local no_cache log m :
  m !! "target_images" = Some (VMany (SStr <$> targets)) → m !! "print_tag" = Some (VBool print) →
  m !! "config" = Some (VOne (SPath config)) →
  m !! "search_path" = Some (VMany (SPath ∘ path_of_str <$> paths)) →
  m !! "local" = Some (VBool local) → m !! "no_cache" = Some (VBool no_cache) →
  m !! "log_file" = Some (match log with Some q => VOne (SPath q) | None => VNone end) →
  (target_images ← attribute (as_list as_str) m "target_images";
   print_tag ← attribute as_bool m "print_tag";
   config ← attribute as_path m "config";
   search_path ← attribute (as_list as_path) m "search_path";
   local ← attribute as_bool m "local";
   no_cache ← attribute as_bool m "no_cache";
   log_file ← attribute (as_optional as_path) m "log_file";
   Ret (BuildArgs target_images print_tag (path_str config) (path_str <$> search_path) local no_cache, log_file)) =
  Ret (BuildArgs targets print (path_str config) (path_text <$> paths) local no_cache, log).
Proof.
  intros H1 H2 H3 H4 H5 H6 H7. unfold attribute.
  rewrite H1, as_strings. cbn [mbind res_bind]. rewrite H2. cbn. rewrite H3. cbn. rewrite H4, as_paths. cbn.
  rewrite H5. cbn. rewrite H6. cbn. rewrite H7. rewrite <-list_fmap_compose. by destruct log.
Qed.

(** A flag, or nothing. *)
Lemma flag_step (b : bool) o a rest st :
  o ≠ "--" → parse_optional build_parser o = Some [Hit (Some a) o None] → act a = StoreTrue →
  parse_loop build_parser 0 (classify build_parser ((if b then [o] else []) ++ rest)) st =
  parse_loop build_parser 0 (classify build_parser rest)
    (if b then set_attribute (dest a) (VBool true) st else st).
Proof. intros. destruct b; [by apply step_flag|done]. Qed.

(** The parser of the build, once the loop is done. *)
Lemma build_finish given m args log :
  "config" ∈ given → "search_path" ∈ given →
  m !! "target_images" = Some (VMany (SStr <$> arg_target_images args)) →
  m !! "print_tag" = Some (VBool (arg_print_tag args)) →
  m !! "config" = Some (VOne (SPath (path_of_str (arg_config args)))) →
  m !! "search_path" = Some (VMany (SPath ∘ path_of_str <$> arg_search_path args)) →
  m !! "local" = Some (VBool (arg_local args)) → m !! "no_cache" = Some (VBool (arg_no_cache args)) →
  m !! "log_file" = Some (match log with Some q => VOne (SPath (path_of_str q)) | None => VNone end) →
  ∀ argv, parse_loop build_parser 0 (classify build_parser argv)
            (PState (initial_ns build_parser) ∅ (positional build_parser) []) = Ret (PState m given None []) →
  build_arguments argv =
  Ret (BuildArgs (arg_target_images args) (arg_print_tag args) (path_text (arg_config args))
         (path_text <$> arg_search_path args) (arg_local args) (arg_no_cache args), path_of_str <$> log).
Proof.
  intros Hc Hs H1 H2 H3 H4 H5 H6 H7 argv Hl. unfold build_arguments, parse_args, parse_known_args. rewrite Hl.
  cbn [mbind res_bind seen ns extras]. rewrite finish_same by (repeat constructor; try done; intros _; assumption).
  cbn [mbind res_bind]. apply read_build_attributes; [done..|]. by destruct log.
Qed.

(** C22: every choice of targets, flags, configuration, search paths and log file can be given
    on the command line of the build, and is read back as it was written, with the paths as
    [Path] normalizes them. *)
Theorem build_arguments_roundtrip args log_file :
  arg_search_path args ≠ [] →
  build_arguments (build_command_line args log_file) =
  Ret (BuildArgs (arg_target_images args) (arg_print_tag args) (path_text (arg_config args))
         (path_text <$> arg_search_path args) (arg_local args) (arg_no_cache args),
       path_of_str <$> log_file).
Proof.
  intros Hne.
  set (st1 := let st := PState (initial_ns build_parser) ∅ (Some target_argument) [] in
              if arg_print_tag args then set_attribute "print_tag" (VBool true) st else st).
  set (st2 := set_attribute "config" (VOne (SPath (path_of_str (arg_config args)))) st1).
  destruct (append_paths_spec "search_path" (arg_search_path args) st2 Hne) as (given & Hsub & Hin & Hap).
  set (st3 := PState _ _ _ _) in Hap.
  set (st4 := if arg_local args then set_attribute "local" (VBool true) st3 else st3).
  set (st5 := if arg_no_cache args then set_attribute "no_cache" (VBool true) st4 else st4).
  set (st6 := match log_file with
              | Some f => set_attribute "log_file" (VOne (SPath (path_of_str f))) st5 | None => st5 end).
  apply (build_finish (seen (set_positional target_argument (arg_target_images args) st6))
           (ns (set_positional target_argument (arg_target_images args) st6))).
  1,2: assert ("config" ∈ given) by (apply Hsub; set_solver); subst st6 st5 st4 st3; cbn;
    destruct log_file, (arg_no_cache args), (arg_local args); cbn; set_solver.
  1: etrans; [apply lookup_insert_eq|by destruct (arg_target_images args)].
  1-6: subst st6 st5 st4 st3 st2 st1; cbn [ns set_positional];
    destruct log_file, (arg_no_cache args), (arg_local args), (arg_print_tag args); reflexivity.
  unfold build_command_line. rewrite (flag_step _ "--print-tag" print_tag_option) by done.
  cbn [app]. rewrite (step_eq build_parser _ "--config" config_option (arg_config args) _ _ st2);
    [|done|reflexivity|by apply path_valued].
  rewrite search_paths_step, Hap.
  rewrite (flag_step _ "--local" (option_ ["--local"] StoreTrue AStr (VBool false) false)) by done.
  rewrite (flag_step _ "--no-cache" (option_ ["--no-cache"] StoreTrue AStr (VBool false) false)) by done.
  assert (∀ rest, parse_loop build_parser 0 (classify build_parser
            (match log_file with Some f => ["--log-file=" +:+ f] | None => [] end ++ rest)) st5 =
          parse_loop build_parser 0 (classify build_parser rest) st6) as Hlog.
  { intros rest. destruct log_file as [f|]; [|done].
    apply (step_eq build_parser _ "--log-file" (option_ ["--log-file"] (Store One) APath VNone false) f);
      [done|reflexivity|by apply path_valued]. }
  change (positional build_parser) with (Some target_argument). rewrite Hlog.
  rewrite (step_end build_parser target_argument) by
    (subst st6 st5 st4 st3 st2 st1; by destruct log_file, (arg_no_cache args), (arg_local args), (arg_print_tag args)).
  unfold set_positional. do 2 f_equal.
  subst st6 st5 st4 st3 st2 st1; by destruct log_file, (arg_no_cache args), (arg_local args), (arg_print_tag args).
Qed.

Lemma build_arguments_roundtrip_witness :
  build_arguments ["--config=c//d"; "--search-path=-x"; "--search-path=images"; "--local"; "--"; "--odd"; "b"] =
  Ret (BuildArgs ["--odd"; "b"] false "c/d" ["-x"; "images"] true false, None).
Proof.
  apply (build_arguments_roundtrip (BuildArgs ["--odd"; "b"] false "c//d" ["-x"; "images"] true false) None).
  discriminate.
Defined.

(** ** The scripts together: [scripts/build_and_run] *)

(** A string that is no option. *)
Definition plain (s : string) : bool := match s with String c _ => negb (is_dash c) | EmptyString => true end.

Lemma plain_arg p s : plain s = true → s ≠ "--" ∧ parse_optional p s = None.
Proof.
  intros Hs. split; [by intros ->|]. destruct s as [|c r]; [done|]. cbn in *. by rewrite Hs.
Qed.

Lemma plain_value_like s : plain s = true → value_like s = true.
Proof.
  intros Hs. destruct s as [|c [|c2 r]]; [done|..]; cbn in Hs.
  - unfold value_like. cbn. by rewrite bool_decide_false.
  - unfold value_like. cbn. apply negb_true_iff in Hs as Hc. rewrite Hc. simpl.
    rewrite bool_decide_false; [done|]. by intros [= -> _].
Qed.

(** A string that stays one word when it is expanded without quotes and is no option. *)
Definition shell_word (s : string) : bool :=
  str_truthy s && plain s &&
  str_all (λ c, negb (ifs_blank c) && negb (bool_decide (c ∈ ["*"%char; "?"%char; "["%char]))) s.

Lemma shell_word_plain s : shell_word s = true → plain s = true.
Proof. by intros [[_ ?]%andb_true_iff _]%andb_true_iff. Qed.

Lemma word_split_word w rest :
  str_truthy w = true → str_all (λ c, negb (ifs_blank c)) w = true →
  word_split (w +:+ String " " rest) = w :: word_split rest ∧ word_split w = [w].
Proof.
  induction w as [|c w IH]; [done|]. intros _ [Hc%negb_true_iff Hw]%andb_true_iff.
  destruct w as [|d w].
  - simpl. by rewrite Hc.
  - destruct (IH eq_refl Hw) as [IH1 IH2]. clear IH.
    simpl in Hw. apply andb_true_iff in Hw as [Hd%negb_true_iff _].
    rewrite str_app_cons. split.
    + change (word_split (String c (String d w +:+ String " " rest))) with
        (if ifs_blank c then word_split (String d w +:+ String " " rest)
         else if ifs_blank d then String c "" :: word_split (String d w +:+ String " " rest)
         else match word_split (String d w +:+ String " " rest) with
              | w :: ws => String c w :: ws | [] => [String c ""] end).
      by rewrite Hc, Hd, IH1.
    + change (word_split (String c (String d w))) with
        (if ifs_blank c then word_split (String d w)
         else if ifs_blank d then String c "" :: word_split (String d w)
         else match word_split (String d w) with
              | w :: ws => String c w :: ws | [] => [String c ""] end).
      by rewrite Hc, Hd, IH2.
Qed.

Lemma word_split_join l :
  Forall (λ w, str_truthy w = true ∧ str_all (λ c, negb (ifs_blank c)) w = true) l →
  word_split (str_join " " l) = l.
Proof.
  induction 1 as [|w l [Ht Hw] Hl IH]; [done|]. destruct l as [|x l].
  - by apply (word_split_word w "").
  - change (str_join " " (w :: x :: l)) with (w +:+ " " +:+ str_join " " (x :: l)).
    change (" " +:+ str_join " " (x :: l)) with (String " " (str_join " " (x :: l))).
    destruct (word_split_word w (str_join " " (x :: l)) Ht Hw) as [-> _]. by rewrite IH.
Qed.

Lemma shell_word_split s :
  shell_word s = true → str_truthy s = true ∧ str_all (λ c, negb (ifs_blank c)) s = true.
Proof.
  intros [[? _]%andb_true_iff Hs]%andb_true_iff. split; [done|]. eapply str_all_impl, Hs.
  by intros c [? _]%andb_true_iff.
Qed.

Lemma build_and_run_words scripts image images log config :
  shell_word scripts = true → shell_word image = true → shell_word images = true →
  shell_word log = true → shell_word config = true →
  build_and_run_line scripts image images log config =
  [image; "--print-tag"; "--search-path"; images; "--log-file"; log; "--config"; config].
Proof.
  intros [Hs1 Hs2]%shell_word_split Hi%shell_word_split Hm%shell_word_split Hl%shell_word_split Hc%shell_word_split.
  unfold build_and_run_line.
  replace (BUILD_CMD scripts image images log config) with
    (str_join " " [scripts +:+ "/uv"; scripts +:+ "/docker/build.py"; image; "--print-tag"; "--search-path";
                   images; "--log-file"; log; "--config"; config])
    by (unfold BUILD_CMD; simpl; by rewrite !str_app_assoc).
  rewrite word_split_join; [done|].
  repeat (apply Forall_cons; split); try done; try apply Forall_nil_2.
  all: rewrite str_all_app, Hs2; by destruct scripts.
Qed.

Lemma build_and_run_arguments image images log config :
  plain image = true → plain images = true → plain log = true → plain config = true →
  build_arguments [image; "--print-tag"; "--search-path"; images; "--log-file"; log; "--config"; config] =
  Ret (BuildArgs [image] true (path_text config) [path_text images] false false, Some (path_of_str log)).
Proof.
  intros [Hi1 Hi2]%(plain_arg build_parser) [Hs1 Hs2]%(plain_arg build_parser)
    [Hl1 Hl2]%(plain_arg build_parser) [Hc1 Hc2]%(plain_arg build_parser).
  set (st0 := PState (initial_ns build_parser) ∅ (Some target_argument) []).
  set (st1 := set_positional target_argument [image] st0).
  set (st2 := set_attribute "print_tag" (VBool true) st1).
  set (st3 := append_path "search_path" st2 images).
  set (st4 := set_attribute "log_file" (VOne (SPath (path_of_str log))) st3).
  set (st5 := set_attribute "config" (VOne (SPath (path_of_str config))) st4).
  apply (build_finish (seen st5) (ns st5) (BuildArgs [image] true config [images] false false) (Some log));
    [set_solver|set_solver|reflexivity..|].
  change (positional build_parser) with (Some target_argument). change (PState _ _ _ _) with st0 at 1.
  rewrite (step_lead build_parser target_argument image "--print-tag" [Hit (Some print_tag_option) "--print-tag" None])
    by done. change (set_positional _ _ st0) with st1.
  rewrite (step_flag build_parser "--print-tag" print_tag_option) by done. change (set_attribute _ _ st1) with st2.
  rewrite (step_pair build_parser "--search-path" search_path_option images _ st2 st3);
    [|done|done|done|done|by exists (SPath (path_of_str images))].
  rewrite (step_pair build_parser "--log-file" (option_ ["--log-file"] (Store One) APath VNone false) log _ st3 st4);
    [|done|done|done|done|by apply path_valued].
  rewrite (step_pair build_parser "--config" config_option config _ st4 st5);
    [|done|done|done|done|by apply path_valued].
  reflexivity.
Qed.

(** C6: for paths and an image name that stay one word each when they are expanded without
    quotes: when [build_and_run] gets the exit code 0 from [docker/build.py], the one line printed
    is the tag of the image, docker has reported that it has the image under this tag (its
    lookup, pull or build succeeded), and [docker_run.py], called with the tag and a command none of
    whose strings before [--] names its option, passes tag and command on to docker as they are. *)
Theorem build_and_run_pipeline `{FileSystem} `{Hash} `{SetOrder} `{Docker} `{LogHost}
    depth scripts image images log config w s' :
  Forall (λ s, shell_word s = true) [scripts; image; images; log; config] →
  build_cli depth (build_and_run_line scripts image images log config) ([], w) = (Raise (SystemExit 0), s') →
  ∃ b h tag, DockerBuilder (path_text config) [path_text images] = Ret b ∧ tag_of b image tag ∧
    io_stdout s'.2 = io_stdout w ++ [tag] ∧ history w s'.2 h ∧ provided b false h image ∧
    ∀ cmd, Forall (λ s, names_log_file s = false) (before_dashes (tag :: cmd)) →
           run_arguments (run_line log tag cmd) = Ret (Some (path_of_str log), tag :: cmd).
Proof.
  rewrite !Forall_cons. intros (Hd & Hi & Hs & Hl & Hc & _). rewrite build_and_run_words by done.
  apply shell_word_plain in Hi, Hs, Hl, Hc. unfold build_cli, mbind, ST_bind, lift.
  rewrite build_and_run_arguments by done. unfold basicConfig.
  destruct (open_log _) as [[]|e] eqn:Ho; [|intros [= -> _]; by apply open_log_exn in Ho].
  intros (_ & b & h & n & t & Hb & Hh & [= <-] & Ht & Hout & Hav)%main_exit0. exists b, h, t. split_and!; [done..|].
  intros cmd Hcmd. unfold run_line. by rewrite run_with_log, split_intact by (done || by apply plain_value_like).
Qed.

#[export] Instance sample_log : LogHost.
Proof. refine {| open_log := λ _, Ret tt |}. done. Defined.

Lemma build_and_run_pipeline_witness :
  let out := @build_cli sample_fs elements_order sha256_Hash sample_docker sample_log 2
               (build_and_run_line "/d" "tool-env" "./images" "/log" "devkit.json") ([], sample_world) in
  out.1 = Raise (SystemExit 0) ∧
  ∃ tag, @tag_of sample_fs sha256_Hash sample_builder "tool-env" tag ∧ io_stdout out.2.2 = [tag].
Proof.
  set (out := @build_cli sample_fs elements_order sha256_Hash sample_docker sample_log 2
                (build_and_run_line "/d" "tool-env" "./images" "/log" "devkit.json") ([], sample_world)).
  assert (out.1 = Raise (SystemExit 0)) as Hr by (vm_compute; reflexivity).
  assert (out = (Raise (SystemExit 0), out.2)) as Hm by (rewrite <-Hr; apply surjective_pairing).
  split; [exact Hr|].
  destruct (@build_and_run_pipeline sample_fs sha256_Hash elements_order sample_docker sample_log
              2 "/d" "tool-env" "./images" "/log" "devkit.json" sample_world out.2)
    as (b & h & t & Hb & Ht & Hout & _).
  { repeat (apply Forall_cons; split); try apply Forall_nil_2; reflexivity. }
  { exact Hm. }
  change (@DockerBuilder sample_fs "devkit.json" ["images"] = Ret b) in Hb.
  rewrite sample_builder_loaded in Hb. injection Hb as <-. exists t. split; [exact Ht|exact Hout].
Defined.

(** ** All scripts *)

(** C13: for every command line of every script, the parser returns and the attributes the script reads exist and
    have the types it uses them with: no exception but the exit codes 0 (help) and 2 leaves the
    parsing.  Options collected in a list that are required were given, and the command of
    [bep.py] is one of its two choices. *)
Theorem arguments_typed cwd argv :
  match build_arguments argv with Ret (args, _) => arg_search_path args ≠ [] | Raise e => usage_exit e end ∧
  match cleanup_arguments argv with Ret (args, _) => c_search_path args ≠ [] | Raise e => usage_exit e end ∧
  match bep_arguments argv with
  | Ret (args, _) => b_command args = "fetch" ∨ b_command args = "build"
  | Raise e => usage_exit e
  end ∧
  only_raises usage_exit (mounts_arguments cwd argv) ∧ only_raises usage_exit (run_arguments argv) ∧
  only_raises usage_exit (coverage_arguments argv) ∧ only_raises usage_exit (boot_arguments cwd argv).
Proof.
  split_and!; [apply build_arguments_spec|apply cleanup_arguments_spec|apply bep_arguments_spec
    |apply mounts_arguments_exit|apply run_arguments_exit|apply coverage_arguments_exit|apply boot_arguments_exit].
Qed.

(** ** [bep.py] *)

(** The Bazel commands that the script may run: the fourth string of the command line, after
    [devkit/build bazel] and its one startup option, is the command. *)
Definition fetch_or_build (e : bep_effect) : Prop :=
  match e with
  | Executed cmd _ => ∃ build base command rest,
      cmd = build :: "bazel" :: base :: command :: rest ∧ startswith base "--output_base=" = true ∧
      (command = "fetch" ∨ command = "build")
  | _ => True
  end.

Lemma adds_target `{BepHost} target out command :
  command = "fetch" ∨ command = "build" → adds fetch_or_build (_process_target_and_save target out command).
Proof.
  intros Hc. unfold _process_target_and_save, generate_build_event_json, with_temp, run_command, note.
  solve_adds; try done. unfold fetch_or_build, bazel_cmd. do 4 eexists. split; [reflexivity|]. split; [apply startswith_app|exact Hc].
Qed.

Lemma adds_bep_main `{BepHost} targets command output_dir :
  command = "fetch" ∨ command = "build" → adds fetch_or_build (bep_main targets command output_dir).
Proof.
  intros Hc. unfold bep_main, generate_bazel_events_folder, process_one, mkdir_parents, note.
  solve_adds; try done; by apply adds_target.
Qed.

(** C31: whatever its command line, every program that [bep.py] runs is a Bazel command
    [<build> bazel --output_base=<dir> fetch ...] or [... build ...]; a command line that is not
    accepted (exit code 2) has no effect. *)
Theorem bep_runs_fetch_or_build `{BepHost} `{LogHost} argv :
  let '(r, tr) := bep_cli argv [] in Forall fetch_or_build tr ∧ (r = Raise (SystemExit 2) → tr = []).
Proof.
  unfold bep_cli. unfold mbind at 1 2, ST_bind at 1 2, lift. pose proof (bep_arguments_spec argv) as Hs.
  destruct (bep_arguments argv) as [[args log]|e]; [|done].
  unfold mbind, ST_bind. destruct (basicConfig log) as [[]|e]; [|done].
  destruct (bep_main _ _ _ []) as [r tr] eqn:Hm. split; [by apply adds_bep_main in Hm as (l & -> & ?)|]. intros ->.
  unfold bep_main in Hm. apply ST_bind_Raise in Hm as [(l & -> & _ & _ & Hr)%emits_folder|(? & ? & _ & [=])].
  by destruct Hr as (good & rest & _ & _ & _ & [[_ ?%host_error_exn]|(cp & _ & _ & [=])]).
Qed.

(** ** [coverage_report.py] *)

(** The arguments for whole percentages. *)
Definition coverage_line (lines branch : Z) : list string :=
  ["--lines=" +:+ str_int lines; "--branch=" +:+ str_int branch].

Definition lines_option : action := option_ ["--lines"] (Store One) AFloat (VOne (SFloat (float_of_Z 100))) false.
Definition branch_option : action := option_ ["--branch"] (Store One) AFloat (VOne (SFloat (float_of_Z 100))) false.

Lemma float_valued a v x st :
  type_ a = AFloat → choices a = None → act a = Store One → py_float v = Ret x →
  valued a v st (set_attribute (dest a) (VOne (SFloat x)) st).
Proof.
  intros Ht Hc Ha Hx. exists (SFloat x). rewrite Ha. split; [|done].
  unfold checked_value, get_value, check_choice. rewrite Ht, Hc. cbn. by rewrite Hx.
Qed.

Lemma coverage_line_arguments n k :
  (0 ≤ n ≤ 100)%Z → (0 ≤ k ≤ 100)%Z →
  coverage_arguments (coverage_line n k) = Ret (CoverageArgs "//..." (float_of_Z n) (float_of_Z k), None).
Proof.
  intros (Hn & _)%percentage_floats (Hk & _)%percentage_floats.
  unfold coverage_arguments, parse_args, parse_known_args, coverage_line.
  erewrite (step_eq coverage_parser _ "--lines" lines_option (str_int n)); [|done|reflexivity|by apply float_valued].
  erewrite (step_eq coverage_parser _ "--branch" branch_option (str_int k)); [|done|reflexivity|by apply float_valued].
  reflexivity.
Qed.

(** C12: called with whole percentages, the coverage check passes exactly when in every file of the
    report the share of the lines and of the branches that are hit reaches the percentage: the
    conversion of the text, the two divisions and the comparison of floats lose nothing.
    Otherwise the exit code is 1. *)
Theorem coverage_gate_exact `{CovHost} `{LogHost} n k root recs file :
  (0 ≤ n ≤ 100)%Z → (0 ≤ k ≤ 100)%Z →
  find_project_root cov_there cov_PWD cov_cwd = Ret root →
  cov_exec (coverage_cmd root "//...") = Exited 0 →
  read_lines (report_file root) = Ret file →
  lcov_file recs file → Forall small_counts (dvalues (report_of recs)) →
  let reached c := (n * lines_found c ≤ 100 * lines_hit c ∧ k * branches_found c ≤ 100 * branches_hit c)%Z in
  match (coverage_cli (coverage_line n k) []).1 with
  | Ret _ => Forall reached (dvalues (report_of recs))
  | Raise e => e = SystemExit 1 ∧ ¬ Forall reached (dvalues (report_of recs))
  end.
Proof.
  intros Hn Hk Hroot Hex Hread Hg Hsmall reached.
  destruct (percentage_floats n Hn) as (_ & Hrn & _). destruct (percentage_floats k Hk) as (_ & Hrk & _).
  unfold coverage_cli, mbind, ST_bind, lift. rewrite coverage_line_arguments by done.
  cbn [basicConfig v_target v_lines v_branch]. rewrite (coverage_main_verdict "//..." _ _ root recs file) by done.
  assert (passes (SFdiv 53 1024 (float_of_Z n) (float_of_Z 100)) (SFdiv 53 1024 (float_of_Z k) (float_of_Z 100)) recs = true
          ↔ Forall reached (dvalues (report_of recs))) as Hiff.
  { unfold passes. rewrite forallb_forall, !Forall_forall. rewrite Forall_forall in Hsmall.
    split; intros Hall c Hc.
    - assert (small_counts c) as Hs by (by apply Hsmall). apply list_elem_of_In, Hall in Hc. rewrite negb_true_iff, below_percentage in Hc by done.
      apply orb_false_iff in Hc as [?%Z.ltb_ge ?%Z.ltb_ge]. by split.
    - apply list_elem_of_In in Hc. assert (small_counts c) as Hs by (by apply Hsmall). apply Hall in Hc as [? ?]. rewrite negb_true_iff, below_percentage by done.
      apply orb_false_iff. split; by apply Z.ltb_ge. }
  cbn [fst]. destruct (passes _ _ _); [by apply Hiff|]. split; [done|]. intros ?%Hiff. done.
Qed.

Lemma coverage_gate_exact_witness :
  (@coverage_cli SampleCoverage.host sample_log (coverage_line 50 50) []).1 = Ret tt ∧
  Forall (λ c, 50 * lines_found c ≤ 100 * lines_hit c ∧ 50 * branches_found c ≤ 100 * branches_hit c)%Z
    (dvalues (report_of sample_records)).
Proof.
  assert ((@coverage_cli SampleCoverage.host sample_log (coverage_line 50 50) []).1 = Ret tt) as Hr
    by (vm_compute; reflexivity).
  split; [exact Hr|].
  pose proof (@coverage_gate_exact SampleCoverage.host sample_log 50 50 (Path "/" ["src"]) sample_records sample_lcov
    ltac:(lia) ltac:(lia) eq_refl eq_refl eq_refl sample_lcov_file
    ltac:(repeat constructor; vm_compute; try reflexivity; intros ?; discriminate)) as Hc.
  cbv zeta in Hc. rewrite Hr in Hc. exact Hc.
Defined.

(** ** Arguments of the container *)

Lemma map_res_app_Ret {A B} (f : A → res B) l1 l2 k :
  map_res f (l1 ++ l2) = Ret k → ∃ k1 k2, map_res f l1 = Ret k1 ∧ map_res f l2 = Ret k2 ∧ k = k1 ++ k2.
Proof.
  revert k. induction l1 as [|x l1 IH]; intros k; [by exists [], k|]. cbn [app map_res].
  intros (y & Hy & (ys & (k1 & k2 & H1 & H2 & ->)%IH & [= <-])%bind_Ret)%bind_Ret.
  exists (y :: k1), k2. split_and!; [|done|done]. cbn. by rewrite Hy; cbn; rewrite H1.
Qed.

Section arguments.
Context `{RunHost} `{FileSystem} `{MountFS}.

(** Up to the arguments: [docker run], and options only, the entrypoint last. *)
Definition run_options (front : list string) : Prop :=
  ["docker"; "run"; "--rm"; "--ulimit"] `prefix_of` front ∧ Forall (λ s, startswith s "--" = true) (drop 5 front) ∧
  last front = Some ("--entrypoint=" +:+ path_str (path_entry scripts_dir "entrypoint_docker")).

Lemma docker_cmd_end ps us port env mounts args unknown :
  Forall (λ s, startswith s "--" = true) env →
  ∃ front, docker_cmd ps us port env (docker_mounts ps mounts) args unknown = front ++ args ++ unknown ∧
           run_options front.
Proof.
  intros Henv. unfold docker_cmd. destruct nofile as [soft hard].
  match goal with |- context [?l1 ++ env ++ ?m ++ ?l2 ++ args ++ unknown] => exists (l1 ++ env ++ m ++ l2) end.
  split; [by rewrite <-!(assoc_L (++))|]. split; [by eexists|]. split.
  - rewrite drop_app_le by (simpl; lia). repeat (apply Forall_app; split).
    + simpl. repeat (apply Forall_cons; split; [done|]). apply Forall_nil_2.
    + done.
    + apply Forall_fmap, Forall_true. done.
    + by repeat constructor.
  - by rewrite !last_app.
Qed.

Lemma evaluate_strings l : map_res evaluate_arg (JStr <$> l) = Ret (expandvars environ <$> l).
Proof. induction l as [|s l IH]; [done|]. cbn in *. by rewrite IH. Qed.

Lemma evaluated_parts dj args :
  evaluated_args dj = Ret args →
  ∃ cfg config env_args, config_run_args dj = Ret cfg ∧ map_res evaluate_arg cfg = Ret config ∧
    env_run_args = Ret env_args ∧ args = tty_args ++ config ++ (expandvars environ <$> env_args).
Proof.
  intros (cfg & Hcfg & (env_args & He & Hm)%bind_Ret)%bind_Ret.
  apply map_res_app_Ret in Hm as (t & k & Ht & (config & e & Hconf & Hev & ->)%map_res_app_Ret & ->).
  rewrite evaluate_strings in Ht, Hev. injection Ht as <-. injection Hev as <-. exists cfg, config, env_args.
  split_and!; [done..|]. f_equal. unfold tty_args. by destruct stdin_isatty, stdout_isatty.
Qed.

(** The arguments that the file [dj] configures: the strings at [docker.run], with their variables
    expanded; none without the file, without the entry, or when the file cannot be read. *)
Definition configured (dj : string) (config : list string) : Prop :=
  (path_exists dj = false ∨ (∃ e, json_load dj = Raise e) → config = []) ∧
  ∀ data, path_exists dj = true → json_load dj = Ret (JObj data) →
    (dget data "docker" = None → config = []) ∧
    ∀ docker, dget data "docker" = Some (JObj docker) →
      (dget docker "run" = None → config = []) ∧
      ∀ l, dget docker "run" = Some (JList (JStr <$> l)) → config = expandvars environ <$> l.

Lemma config_args_configured dj cfg config :
  config_run_args dj = Ret cfg → map_res evaluate_arg cfg = Ret config → configured (path_str dj) config.
Proof.
  unfold config_run_args, try_except, configured. intros Hcfg Hconf. split.
  - intros Habs. assert (cfg = []) as ->; [|by injection Hconf as <-].
    destruct (path_exists (path_str dj)) eqn:Hex; [|by injection Hcfg as <-].
    destruct Habs as [?|[e He]]; [done|]. rewrite He in Hcfg. simpl in Hcfg.
    rewrite (json_load_exn _ _ He) in Hcfg. by injection Hcfg as <-.
  - intros data Hex Hl. rewrite Hex, Hl in Hcfg. simpl in Hcfg. split.
    + intros Hd. rewrite Hd in Hcfg. injection Hcfg as <-. by injection Hconf as <-.
    + intros docker Hd. rewrite Hd in Hcfg. simpl in Hcfg. split.
      * intros Hr. rewrite Hr in Hcfg. injection Hcfg as <-. by injection Hconf as <-.
      * intros l Hr. rewrite Hr in Hcfg. simpl in Hcfg. assert (cfg = JStr <$> l) as -> by (destruct l; by injection Hcfg).
        rewrite evaluate_strings in Hconf. by injection Hconf as <-.
Qed.

(** The arguments of the variable [DEVKIT_DOCKER_RUN_ARGS]: none when it is not set or empty;
    otherwise its words by the rules of the shell, with their variables expanded. *)
Definition from_variable (env_args : list string) : Prop :=
  match dget environ "DEVKIT_DOCKER_RUN_ARGS" with
  | None | Some EmptyString => env_args = []
  | Some s => ∃ words, shlex_split s = Ret words ∧ env_args = expandvars environ <$> words
  end.

Lemma env_args_from_variable env_args :
  env_run_args = Ret env_args → from_variable (expandvars environ <$> env_args).
Proof.
  unfold env_run_args, env_value, from_variable. destruct (dget environ _) as [[|c s]|]; simpl; try by intros [= <-].
  intros Hs. by exists env_args.
Qed.

(** Arguments quoted by the rules of the shell, without variables, arrive as they are. *)
Lemma env_args_roundtrip l env_args :
  dget environ "DEVKIT_DOCKER_RUN_ARGS" = Some (shlex_join l) → Forall (λ s, str_free "$" s = true) l →
  env_run_args = Ret env_args → expandvars environ <$> env_args = l.
Proof.
  intros Hd Hl He. assert (env_args = l) as ->.
  { unfold env_run_args, env_value in He. rewrite Hd in He. pose proof (shlex_split_join l) as Hs.
    destruct (str_truthy (shlex_join l)) eqn:Ht; [congruence|].
    destruct (shlex_join l); [|done]. cbn in Hs. congruence. }
  clear -Hl. induction Hl as [|s l Hs _ IH]; [done|]. cbn. by rewrite expandvars_plain, IH.
Qed.
End arguments.

(** C21: the docker command is [docker run] with options only, the entrypoint last, followed by
    the terminal flags, the arguments of [docker.run] in the [devkit.json] of the project with
    their variables expanded (none if the file or the entry is missing or unreadable), those of
    [DEVKIT_DOCKER_RUN_ARGS] split by the rules of the shell and expanded, and the strings of the
    command line that were not taken as the log file, in this order; arguments that the variable gives
    quoted, without references to variables, arrive as they are. *)
Theorem container_arguments `{RunHost} `{FileSystem} `{MountFS} `{LogHost} argv r tr cmd :
  run_cli argv [] = (r, tr) → Ran cmd ∈ tr → head cmd = Some "docker" →
  ∃ front tty config env_args log unknown ps,
    cmd = front ++ tty ++ config ++ env_args ++ unknown ∧ run_options front ∧
    tty = (if stdin_isatty then if stdout_isatty then ["--interactive"; "--tty"] else []
           else ["--interactive"]) ∧
    find_paths [] = (Ret ps, []) ∧
    configured (path_str (path_entry (command_project_root ps) "devkit.json")) config ∧
    from_variable env_args ∧ run_arguments argv = Ret (log, unknown) ∧
    ∀ l, dget environ "DEVKIT_DOCKER_RUN_ARGS" = Some (shlex_join l) → Forall (λ s, str_free "$" s = true) l →
         env_args = l.
Proof.
  unfold run_cli, mbind at 1 2, ST_bind at 1 2, lift. intros Hr Hin Hd.
  destruct (run_arguments argv) as [[log unknown]|e]; [|injection Hr as <- <-; by apply elem_of_nil in Hin].
  unfold mbind, ST_bind in Hr.
  destruct (basicConfig log) as [[]|e]; [|injection Hr as <- <-; by apply elem_of_nil in Hin].
  destruct (docker_command_prepared _ _ _ _ Hr Hin Hd) as (us & dj & tr0 & Hp & _).
  destruct (prepare_spec _ _ _ _ _ _ Hp) as [[ps mounts minimal env port args _ _ _ _ Hcmd Henv _ Hev Hdj Hps _]].
  apply evaluated_parts in Hev as (cfg & config & env_args & Hcfg & Hconf & He & ->).
  destruct (docker_cmd_end ps us port env (path_iter minimal)
              (tty_args ++ config ++ (expandvars environ <$> env_args)) unknown Henv) as (front & Heq & Hfront).
  exists front, tty_args, config, (expandvars environ <$> env_args), log, unknown, ps. subst dj.
  split_and!; [by rewrite Hcmd, Heq, <-!(assoc_L (++))|done|by unfold tty_args; destruct stdin_isatty, stdout_isatty|done| | |done|].
  - by eapply config_args_configured.
  - by apply env_args_from_variable.
  - intros l Hl Hf. by eapply env_args_roundtrip.
Qed.

(** The sample host: [devkit.json] has [--privileged], the variable [--label='x y' $VAR --env=DISPLAY]. *)
Lemma container_arguments_witness :
  ∃ front, @run_options SampleHost.host front ∧
    Ran (front ++ ["--interactive"; "--tty"; "--privileged"; "--label=x y"; "a b"; "--env=DISPLAY"; "img"; "bash"]) ∈
      (@run_cli SampleHost.host SampleHost.files SampleMounts.fs sample_log ["--devkit-log-file"; "/l"; "img"; "bash"] []).2.
Proof.
  destruct (@run_cli SampleHost.host SampleHost.files SampleMounts.fs sample_log
              ["--devkit-log-file"; "/l"; "img"; "bash"] []) as [r tr] eqn:Hm.
  assert (existsb runs_docker tr = true) as Hn.
  { change tr with (r, tr).2. rewrite <-Hm. vm_compute. reflexivity. }
  apply existsb_exists in Hn as (e & He & Hd). destruct e as [| |[|prog rest]| | | | | | |]; try discriminate Hd.
  apply bool_decide_eq_true in Hd. subst prog. apply list_elem_of_In in He.
  destruct (@container_arguments SampleHost.host SampleHost.files SampleMounts.fs sample_log
              ["--devkit-log-file"; "/l"; "img"; "bash"] r tr ("docker" :: rest) Hm He eq_refl)
    as (front & tty & config & env_args & log & unknown & ps & Hc & Hfront & Htty & Hps & Hconf & Henv & Ha & _).
  assert (unknown = ["img"; "bash"]) as -> by (vm_compute in Ha; congruence).
  vm_compute in Hps. injection Hps as <-.
  assert (config = ["--privileged"]) as ->.
  { destruct Hconf as [_ Hconf]. destruct (Hconf _ eq_refl eq_refl) as [_ Hdocker].
    destruct (Hdocker _ eq_refl) as [_ Hrun]. exact (Hrun ["--privileged"] eq_refl). }
  assert (env_args = ["--label=x y"; "a b"; "--env=DISPLAY"]) as ->.
  { destruct Henv as (words & Hw & ->). vm_compute in Hw. injection Hw as <-. vm_compute. reflexivity. }
  simpl in Htty. subst tty. exists front. split; [exact Hfront|]. rewrite Hc in He. exact He.
Defined.
